(* ===== verification/_CoqProject ===== *)
-Q . S2P
Prelude.v
Utf8.v
RustStr.v
Float64.v
Calendar.v
Stomp.v
StompFacts.v
Json.v
Rpc.v
Server.v
ServerFacts.v
Os.v
Supervdsm.v
SupervdsmFacts.v
Storage.v
StorageFacts.v
StorageDomain.v
StorageDomainFacts.v
Volumes.v
VolumesFacts.v
Block.v
BlockFacts.v
Async.v
AsyncFacts.v
StorageAsync.v
Virt.v
VirtFacts.v
Sysinfo.v
Host.v
HostFacts.v
Caps.v
VirtAsync.v
Vdsmd.v
VdsmdFacts.v
Flights.v
Sessions.v
LineSessions.v
Schema.v
SchemaFacts.v
Startup.v
StartupFacts.v
Helper.v
Tool.v
ToolFacts.v
