(* ===== verification/Prelude.v ===== *)
(** * vdsm-rs in Rocq

    This library is a model of vdsm-rs, a rewrite in Rust of the oVirt host
    agent, and the proofs that its parts do what they are for.

    ** The program

    Two daemons run on a virtualisation host.  [vdsmd] (crates/vdsmd) runs
    without privileges and is driven by the engine over TLS: bytes arrive on
    a connection (crates/vdsm-rpc/src/server.rs), are cut into STOMP frames
    (stomp.rs) or into lines, each of which carries a JSON-RPC request
    (protocol.rs), and the dispatcher (dispatch.rs) runs the verb it names.
    The verbs live in crates/vdsm-storage (storage servers, domains, pool,
    volumes, LVM and iSCSI), crates/vdsm-virt (virtual machines, through
    virsh) and crates/vdsm-host (what the host is and how it does).
    [supervdsmd] (crates/supervdsm) runs as root behind a Unix socket: it
    accepts a closed set of operations from one uid, validates their fields
    and runs one command for each.  The client of that socket is
    crates/vdsm-common/src/supervdsm.rs.  Three programs stand beside the
    daemons: the build script of crates/vdsm-schema, which turns the YAML
    schema of the API into Rust types, [vdsm-tool], which host-deploy runs,
    and [vdsm-client].

    ** The files

    - [Prelude] (this file): [Result], the state-passing monad and its
      notations, tactics, the [vdsm] hint databases, lemmas on lists and
      strings.  [Utf8]: [String::from_utf8_lossy] and validity of byte
      strings.  [RustStr]: [trim], [split], [parse] and the integers of the
      Rust standard library, at their width.  [Float64]: f64 as the numbers
      m * 2^e with rounding to even, as far as the load averages need it.
      [Calendar]: the date arithmetic of stats.rs.
    - [Stomp], [StompFacts]: stomp.rs.  A frame is a record, [to_bytes] the
      serializer, [parse_frame] the incremental parser, whose result tells a
      frame, more input needed, a protocol error and a panic apart.
    - [Json], [Rpc]: JSON values as an interface ([JsonOps], [JsonLaws] and an
      instance), serde's reading and writing of the envelopes ([RpcSerde]),
      the envelopes of protocol.rs, the
      builder and the dispatcher of dispatch.rs.
    - [Server], [ServerFacts]: server.rs.  A connection is a state (buffer,
      handshake flag, subscriptions) and a step per read, over both framings.
    - [Os]: what the daemons use of the operating system, as the class
      [OsOps] with the laws [OsLaws], and an in-memory instance on which the
      witnesses run.  [std::process::Command] is [command_output]: any
      change of the world, any output.
    - [Supervdsm], [SupervdsmFacts]: both ends of the helper's socket:
      exec.rs and main.rs of crates/supervdsm, and the client.
    - [Storage], [StorageDomain], [Volumes], [Block] with their [Facts]:
      connection.rs, verbs.rs and sd_backend.rs; domain.rs; volumes.rs;
      block.rs of crates/vdsm-storage.
    - [Virt], [VirtFacts]: domain_xml.rs and verbs.rs of crates/vdsm-virt.
      The registry of machines is an explicit state, a spawned task is a
      value that may run at any later step, and [vm_step] is the relation of
      all their interleavings, verb by verb.
    - [Async], [AsyncFacts]: handlers await by await, over any state that
      tasks share behind a lock (class [Shared]): a handler is a tree of
      effects ([prog]), [cstep] lets any task do its next one, the write guard
      is part of the state, and [disc] is the discipline of the lock.
      [VirtAsync]: the verbs of machines over their registry; [StorageAsync]:
      the verbs of storage servers over the list of connections.
    - [Sysinfo], [Host], [HostFacts]: crates/vdsm-host: the readers of /proc
      and /sys (sysinfo.rs), and the verbs (caps.rs, stats.rs, hardware.rs,
      ping.rs, setup_networks.rs, vm_stats.rs).  [Caps]: the map that
      get_capabilities builds and drops.
    - [Vdsmd], [VdsmdFacts]: main.rs of crates/vdsmd: the state of the whole
      process, the table of its 74 verbs over the handlers above, and
      [vdsm_step], a request, a background task or a move of the system.
      [Flights]: the verbs as programs in flight over one daemon with the
      locks of its three registries ([daemon], [launch_verb], [fly_verb]), the
      background tasks ([meanwhile]), and the interface [Calls] through which
      a connection runs a verb, with the law [CallsAlone] that ties it to the
      dispatcher.
      [Sessions]: the accept loop of server.rs: any number of connection
      tasks, frame by frame and await by await, as the labelled relation
      [server_step]; [LineSessions]: the same for the line framing
      ([line_step]).
    - [Schema], [SchemaFacts]: build.rs of crates/vdsm-schema: stripping
      anchors, the loader (a state machine over the parser's events), the
      names, the types and verbs, and the text it prints, line by line; a
      name printed between quotes is read as rustc reads the literal
      ([rust_literal]).
    - [Startup], [StartupFacts]: config.rs, tls.rs, and what server.rs and
      main.rs do from the configuration file to the first byte of a
      connection; the start of supervdsmd.  [Helper]: main.rs of
      crates/supervdsm as a whole, its connections as the relation
      [helper_step], in which the check of the peer ([authenticate]) comes
      before the first read.
    - [Tool], [ToolFacts]: crates/vdsm-tool and crates/vdsm-client.

    ** What the theorems show

    - Wire format: a serialized frame is read back whatever surrounds it;
      the parser's verdict never changes when more bytes arrive; hence a
      connection behaves the same however the network cuts its bytes; the
      one input on which the parser panics is pinned down.
    - Sessions: nothing runs before CONNECT; a request with an id gets exactly
      one MESSAGE, with its own id, and with the destination and the
      subscription the protocol fixes; what is registered is what is run.
    - Privilege separation: no field of an operation can become a switch of
      a root command, nor leave the mount root or /dev; only the allowed uid
      has any effect; client and helper composed are [execute].  The checks'
      limits are theorems too ([mount_any_source]).
    - Storage: a domain or a volume that was created is found again with the
      attributes it was given, on file and on block domains; the status
      codes mean what they promise through to the mount command; the pool
      keeps its invariant; extents are rounded exactly where 64 bits allow;
      what a failed creation leaves behind; which directory is removed for an
      imageID, also for one that is empty or a path.  Where the schema promises
      something else (block size 0, truncated descriptions, illegal volumes)
      the statements say what is reported instead.
    - Machines: reconciliation against what libvirt reports; the registry's
      invariant and the exclusion of its guard under every interleaving of
      awaits; no deadlock, and every schedule ends with all requests
      answered; a program run alone is the verb; the machine a reconciliation
      can forget.  The same for the list of storage connections, with the
      entry that outlives its mount ([connect_race]).
    - Host: the clock is the Gregorian calendar; the load averages survive
      f64 and the memory is what the text of /proc/meminfo says; processors,
      cores and netmasks are counted exactly; what getStats reports in another
      unit than the schema gives is stated as it is.
    - The daemon: whatever any number of connections send, in any
      interleaving of their verbs' awaits and of the background tasks, the
      registries keep their invariants, the frames handled for a connection
      are those it sent, and only the verb of a SEND after CONNECT changes
      anything; one connection alone does what [serve_stomp] says.
      Line-framed connections handle their lines in order and lose none.
      The helper reads nothing from a stranger and one line from the daemon.
      The verbs registered with the wrong handler are theorems.
      TLS is on unless the file turns it off, and nothing is served before
      the handshake.  Both framings come to an end and leave no complete
      frame behind.
    - Schema: the loader rebuilds the document, the last of equal keys
      winning; the names it makes are identifiers, with the exceptions
      spelled out; structs keep the wire names; the verb table is a bijection
      when the names need no escaping in a literal, and what is left of it
      otherwise.
    - Tools: the identifier the tool prints is the one the daemon reports;
      the test key is readable by owner and group only.

    ** Conventions and bounds

    A byte string or a [String] is Rocq's [string], one [ascii] per byte,
    with UTF-8 validity as a predicate where it matters.  [u32], [u64],
    [usize] (64 bits) and [i64] are [Z] or [N] with the wrap-around of the
    release build written out where an operation can leave the range.  A
    handler is a function [W → A * W] of an abstract world [W]; this is the
    sequential reading of a verb, on which its functional theorems are proved.
    The [await] points inside a verb are scheduling points in [VirtAsync],
    [StorageAsync] and [Flights], for the verbs that share a registry, and in
    the connections of [Sessions] and [LineSessions], where a verb in flight is
    interrupted at each of them.  A verb that changes no registry may there do
    anything to the system at any time and answer anything, so nothing about
    the interleavings of its own waits is assumed.
    Loops are structural wherever the code
    iterates over data; the parsers that are not take the length of their
    input as fuel, and the lemmas show that one unit is used per byte at
    least, so that it never runs out.

    ** What is not modelled

    Sockets and the runtime (tokio).  rustls, toml, clap, serde, yaml_rust2
    and libvirt: interfaces, with their documented behaviour as laws where a
    theorem needs it.  The external commands (mount, LVM,
    iscsiadm, qemu-img, virsh, openssl): any behaviour, constrained by a named
    hypothesis where a theorem needs one; every one of them is taken to
    come to an end.  Log messages, and crates/vdsm-network, which is empty.

    ** Next

    The verbs of volumes and images await by await over the file system, where
    two requests for one image meet.
*)

From stdpp Require Export base strings list gmap pretty.
From stdpp Require Import options.
From Stdlib Require Export Ascii.
From Stdlib Require Import Lia.

(** ** Scope and automation of the development *)

Declare Scope vdsm_scope.
Delimit Scope vdsm_scope with vdsm.
Open Scope vdsm_scope.

Create HintDb vdsm.
Create Rewrite HintDb vdsm_str.

(** Rust's [Result]. *)
Inductive result (A E : Type) : Type :=
| Ok (a : A)
| Err (e : E).
Arguments Ok {A E} a.
Arguments Err {A E} e.

Definition result_bind {A B E} (m : result A E) (k : A → result B E) : result B E :=
  match m with Ok a => k a | Err e => Err e end.

Definition is_ok {A E} (r : result A E) : bool :=
  match r with Ok _ => true | Err _ => false end.

(** [Result::ok]. *)
Definition ok {A E} (r : result A E) : option A :=
  match r with Ok a => Some a | Err _ => None end.

(** ** State passing.

    An [async fn] that touches the outside world is a function of the world:
    [st W A] returns its value and the world after it.  [let! x := m in k]
    sequences two of them; [let? x := m in k] is the [?] operator, which
    leaves the function with the error as soon as there is one. *)
Definition st (W A : Type) : Type := W → A * W.

Definition st_ret {W A} (a : A) : st W A := λ w, (a, w).
Definition st_bind {W A B} (m : st W A) (k : A → st W B) : st W B :=
  λ w, let '(a, w') := m w in k a w'.
Definition st_try {W A B E} (m : st W (result A E)) (k : A → st W (result B E))
  : st W (result B E) :=
  λ w, let '(r, w') := m w in
       match r with Ok a => k a w' | Err e => (Err e, w') end.

Notation "'let!' x := m 'in' k" := (st_bind m (λ x, k))
  (at level 10, x pattern, m at level 100, k at level 200) : vdsm_scope.
Notation "'let?' x := m 'in' k" := (st_try m (λ x, k))
  (at level 10, x pattern, m at level 100, k at level 200) : vdsm_scope.

(** [for x in l { body }] over a state. *)
Fixpoint st_for {W A} (l : list A) (body : A → st W unit) : st W unit :=
  match l with
  | [] => st_ret tt
  | x :: l' => let! _ := body x in st_for l' body
  end.

(** ** Tactics *)

(** Split every conjunction and existential of the context. *)
Ltac deex :=
  repeat match goal with
  | H : ∃ x, _ |- _ => let y := fresh x in destruct H as [y H]
  | H : _ ∧ _ |- _ => destruct H
  end.

(** Case on the innermost scrutinee of a [match] or [if] of the goal or of a
    hypothesis, keep the equation, and drop the impossible cases. *)
Ltac cases :=
  repeat (case_match; simplify_eq/=).

(** Turn boolean tests of the code into propositions. *)
Ltac breflect :=
  repeat match goal with
  | H : _ && _ = true |- _ => apply andb_prop in H as [? ?]
  | H : _ || _ = true |- _ => apply orb_prop in H
  | H : _ || _ = false |- _ => apply orb_false_elim in H as [? ?]
  | H : negb _ = true |- _ => apply negb_true_iff in H
  | H : negb _ = false |- _ => apply negb_false_iff in H
  | H : bool_decide _ = true |- _ => apply bool_decide_eq_true in H
  | H : bool_decide _ = false |- _ => apply bool_decide_eq_false in H
  | H : String.eqb _ _ = true |- _ => apply String.eqb_eq in H
  | H : String.eqb _ _ = false |- _ => apply String.eqb_neq in H
  | H : Ascii.eqb _ _ = true |- _ => apply Ascii.eqb_eq in H
  | H : Ascii.eqb _ _ = false |- _ => apply Ascii.eqb_neq in H
  end.

(** ** Byte strings.

    A Rust [String], [&str], [Vec<u8>] or [&[u8]] is the sequence of its
    bytes: a [string] of the Standard Library, one [ascii] per byte. *)

Abbreviation bytes := string (only parsing).
Abbreviation strlen := String.length (only parsing).

(** [&s[..n]] *)
Fixpoint str_take (n : nat) (s : string) : string :=
  match n, s with
  | S n', String a s' => String a (str_take n' s')
  | _, _ => ""
  end.

(** [&s[n..]] *)
Fixpoint str_drop (n : nat) (s : string) : string :=
  match n, s with
  | S n', String _ s' => str_drop n' s'
  | _, _ => s
  end.

(** [s[n]], [None] out of range. *)
Fixpoint str_nth (n : nat) (s : string) : option ascii :=
  match n, s with
  | _, EmptyString => None
  | O, String a _ => Some a
  | S n', String _ s' => str_nth n' s'
  end.

#[global] Arguments str_take !_ !_ / : simpl nomatch.
#[global] Arguments str_drop !_ !_ / : simpl nomatch.
#[global] Arguments str_nth !_ !_ / : simpl nomatch.

(** [s.iter().position(|b| b == c)] *)
Fixpoint find_byte (c : ascii) (s : string) : option nat :=
  match s with
  | EmptyString => None
  | String a s' => if Ascii.eqb a c then Some 0 else S <$> find_byte c s'
  end.

(** [s.contains(c)] for an ASCII character. *)
Fixpoint has_byte (c : ascii) (s : string) : bool :=
  match s with
  | EmptyString => false
  | String a s' => Ascii.eqb a c || has_byte c s'
  end.

(** [s.last()] *)
Fixpoint str_last (s : string) : option ascii :=
  match s with
  | EmptyString => None
  | String a EmptyString => Some a
  | String _ s' => str_last s'
  end.

(** [s.chars().all(p)] for a predicate that rejects every non-ASCII byte. *)
Fixpoint str_all (p : ascii → bool) (s : string) : bool :=
  match s with
  | EmptyString => true
  | String a s' => p a && str_all p s'
  end.

(** [s.is_empty()] *)
Definition is_empty (s : string) : bool :=
  match s with EmptyString => true | _ => false end.

(** ** Lemmas on byte strings *)

Lemma app_String a s t : String a s +:+ t = String a (s +:+ t).
Proof. done. Qed.

Lemma app_nil_l_str s : "" +:+ s = s.
Proof. done. Qed.

Lemma app_nil_r_str s : s +:+ "" = s.
Proof. induction s as [|a s IH]; [done|]. by rewrite app_String, IH. Qed.

Lemma app_assoc_str s t u : (s +:+ t) +:+ u = s +:+ (t +:+ u).
Proof. induction s as [|a s IH]; [done|]. by rewrite !app_String, IH. Qed.

Lemma strlen_app s t : strlen (s +:+ t) = strlen s + strlen t.
Proof. induction s as [|a s IH]; [done|]. rewrite app_String. simpl. by rewrite IH. Qed.

Lemma strlen_0 s : strlen s = 0 → s = "".
Proof. by destruct s. Qed.

Lemma app_inv_head_str s t u : s +:+ t = s +:+ u → t = u.
Proof. apply (inj (String.app s)). Qed.

Lemma app_eq_nil_str s t : s +:+ t = "" → s = "" ∧ t = "".
Proof. destruct s; [done|]. by rewrite app_String. Qed.

#[export] Hint Rewrite app_String app_nil_l_str app_nil_r_str app_assoc_str : vdsm_str.
#[export] Hint Rewrite strlen_app : vdsm_str.

Lemma str_take_app s t : str_take (strlen s) (s +:+ t) = s.
Proof. induction s as [|a s IH]; [done|]. rewrite app_String. simpl. by rewrite IH. Qed.

Lemma str_drop_app s t : str_drop (strlen s) (s +:+ t) = t.
Proof. induction s as [|a s IH]; [by destruct t|]. by rewrite app_String. Qed.

Lemma str_drop_S_app s a t : str_drop (S (strlen s)) (s +:+ String a t) = t.
Proof. induction s as [|b s IH]; [by destruct t|]. rewrite app_String. apply IH. Qed.

Lemma str_nth_app s a t : str_nth (strlen s) (s +:+ String a t) = Some a.
Proof. induction s as [|b s IH]; [done|]. rewrite app_String. apply IH. Qed.

Lemma str_take_drop n s : str_take n s +:+ str_drop n s = s.
Proof.
  revert s. induction n as [|n IH]; intros [|a s]; [done..|].
  simpl. by rewrite app_String, IH.
Qed.

Lemma strlen_take n s : n ≤ strlen s → strlen (str_take n s) = n.
Proof.
  revert s. induction n as [|n IH]; intros [|a s]; simpl; [done..|lia|].
  intros. rewrite IH; lia.
Qed.

Lemma strlen_drop n s : strlen (str_drop n s) = strlen s - n.
Proof. revert s. induction n as [|n IH]; intros [|a s]; simpl; auto with lia. Qed.

Lemma str_nth_None n s : str_nth n s = None ↔ strlen s ≤ n.
Proof.
  revert s. induction n as [|n IH]; intros [|a s]; simpl; split; try done; try lia.
  - intros ?%IH. lia.
  - intros. apply IH. lia.
Qed.

Lemma str_nth_split n s a :
  str_nth n s = Some a → s = str_take n s +:+ String a (str_drop (S n) s).
Proof.
  revert s. induction n as [|n IH]; intros [|b s]; simpl; try done.
  - intros [= ->]. by destruct s.
  - intros H%IH. rewrite app_String. f_equal. exact H.
Qed.

Lemma str_take_app_le n s t : n ≤ strlen s → str_take n (s +:+ t) = str_take n s.
Proof.
  revert s. induction n as [|n IH]; intros [|a s]; simpl; try done; try lia.
  intros. rewrite IH; [done|lia].
Qed.

Lemma str_drop_app_le n s t : n ≤ strlen s → str_drop n (s +:+ t) = str_drop n s +:+ t.
Proof.
  revert s. induction n as [|n IH]; intros [|a s]; simpl; try done; try lia.
  intros. rewrite IH; [done|lia].
Qed.

Lemma str_nth_app_lt n s t : n < strlen s → str_nth n (s +:+ t) = str_nth n s.
Proof.
  revert s. induction n as [|n IH]; intros [|a s]; simpl; try done; try lia.
  intros. apply IH. lia.
Qed.

(** [find_byte] splits the string at the first occurrence. *)
Lemma find_byte_Some c s n :
  find_byte c s = Some n →
  s = str_take n s +:+ String c (str_drop (S n) s) ∧ has_byte c (str_take n s) = false.
Proof.
  revert n. induction s as [|a s IH]; intros n; simpl; [done|].
  destruct (Ascii.eqb_spec a c) as [->|Hne].
  { intros [= <-]. by destruct s. }
  destruct (find_byte c s) as [m|]; simpl; [|done]. intros [= <-].
  destruct (IH m eq_refl) as [Hs Hno].
  change (str_take (S m) (String a s)) with (String a (str_take m s)).
  split; [rewrite app_String; f_equal; exact Hs|].
  simpl. rewrite Hno. by destruct (Ascii.eqb_spec a c).
Qed.

Lemma find_byte_lt c s n : find_byte c s = Some n → n < strlen s.
Proof.
  revert n. induction s as [|a s IH]; intros n; simpl; [done|].
  destruct (Ascii.eqb a c); [intros [= <-]; lia|].
  destruct (find_byte c s) as [m|]; simpl; [|done]. intros [= <-].
  specialize (IH m eq_refl). lia.
Qed.

Lemma find_byte_None c s : find_byte c s = None ↔ has_byte c s = false.
Proof.
  induction s as [|a s IH]; simpl; [done|].
  destruct (Ascii.eqb a c); simpl; [done|].
  rewrite <- IH. by destruct (find_byte c s).
Qed.

Lemma find_byte_app_hit c s t :
  has_byte c s = false → find_byte c (s +:+ String c t) = Some (strlen s).
Proof.
  induction s as [|a s IH].
  { intros _. simpl. by rewrite Ascii.eqb_refl. }
  rewrite app_String. simpl. destruct (Ascii.eqb a c); simpl; [done|].
  intros ?. by rewrite IH.
Qed.

Lemma find_byte_app_l c s t n : find_byte c s = Some n → find_byte c (s +:+ t) = Some n.
Proof.
  revert n. induction s as [|a s IH]; intros n; [done|].
  rewrite app_String. simpl. destruct (Ascii.eqb a c); [done|].
  destruct (find_byte c s) as [m|]; simpl; [|done].
  intros [= <-]. by rewrite (IH m).
Qed.

Lemma has_byte_app c s t : has_byte c (s +:+ t) = has_byte c s || has_byte c t.
Proof.
  induction s as [|a s IH]; [done|]. rewrite app_String. simpl.
  by rewrite IH, orb_assoc.
Qed.

Lemma str_all_app p s t : str_all p (s +:+ t) = str_all p s && str_all p t.
Proof.
  induction s as [|a s IH]; [done|]. rewrite app_String. simpl.
  by rewrite IH, andb_assoc.
Qed.

Lemma str_last_app s a t : str_last (s +:+ String a t) = str_last (String a t).
Proof.
  induction s as [|b s IH]; [done|]. rewrite app_String.
  destruct s; [done|]. apply IH.
Qed.

Lemma str_last_cons_app b s a t : str_last (String b (s +:+ String a t)) = str_last (String a t).
Proof. apply (str_last_app (String b s)). Qed.

Lemma str_last_snoc s a : str_last (s +:+ String a "") = Some a.
Proof. apply (str_last_app s a ""). Qed.

Lemma has_byte_last c s : str_last s = Some c → has_byte c s = true.
Proof.
  induction s as [|a s IH]; [done|]. simpl. destruct s as [|b s'].
  - intros [= ->]. by rewrite Ascii.eqb_refl.
  - intros H. rewrite (IH H). by rewrite orb_true_r.
Qed.

Lemma str_last_nonempty s : s ≠ "" → ∃ a, str_last s = Some a.
Proof.
  induction s as [|a s IH]; [done|]. intros _. destruct s as [|b s']; [eauto|].
  destruct IH as [c Hc]; [done|]. exists c. exact Hc.
Qed.

#[export] Hint Rewrite str_take_app str_drop_app str_drop_S_app has_byte_app str_all_app : vdsm_str.

(** ** Lists *)

(** The last binding of a key in a list of pairs: what a map built by
    inserting the pairs in order answers. *)
Fixpoint assoc_last {A} (k : string) (l : list (string * A)) : option A :=
  match l with
  | [] => None
  | (k', v) :: l' =>
      match assoc_last k l' with
      | Some v' => Some v'
      | None => if String.eqb k' k then Some v else None
      end
  end.

(** The first binding of a key. *)
Fixpoint assoc_first {A} (k : string) (l : list (string * A)) : option A :=
  match l with
  | [] => None
  | (k', v) :: l' => if String.eqb k' k then Some v else assoc_first k l'
  end.

Lemma assoc_first_app {A} k (l1 l2 : list (string * A)) :
  assoc_first k (l1 ++ l2) =
  match assoc_first k l1 with Some v => Some v | None => assoc_first k l2 end.
Proof. induction l1 as [|[k' v] l1 IH]; simpl; [done|]. by destruct (String.eqb k' k). Qed.

Lemma app_snoc {A} (l : list A) x k : l ++ x :: k = (l ++ [x]) ++ k.
Proof. by rewrite <- app_assoc. Qed.

Lemma filter_all {A} (P : A → Prop) `{∀ x, Decision (P x)} (l : list A) :
  (∀ x, x ∈ l → P x) → filter P l = l.
Proof.
  induction l as [|x l IH]; intros HP; [done|].
  rewrite filter_cons_True by (apply HP; left). rewrite IH; [done|]. intros. apply HP. by right.
Qed.

Lemma filter_none {A} (P : A → Prop) `{∀ x, Decision (P x)} (l : list A) :
  (∀ x, x ∈ l → ¬ P x) → filter P l = [].
Proof.
  induction l as [|x l IH]; intros HP; [done|].
  rewrite filter_cons_False by (apply HP; left). apply IH. intros. apply HP. by right.
Qed.
