(* ===== verification/Utf8.v ===== *)
(** * UTF-8

    [std::str::from_utf8] and [String::from_utf8_lossy] on byte strings.  The
    decoder is the byte automaton of the Unicode standard's table of
    well-formed sequences, which is the table [core::str] validates with:
    the state is either "between characters" or "inside one, with the range
    the next byte must lie in and how many follow it". *)

From stdpp Require Import options.
From S2P Require Import Prelude.
Local Open Scope N_scope.

Inductive u8state : Type :=
| U0
| UC (more : nat) (lo hi : N).

#[export] Instance u8state_eq_dec : EqDecision u8state.
Proof. solve_decision. Defined.

Definition utf8_next (s : u8state) (c : ascii) : option u8state :=
  let b := N_of_ascii c in
  match s with
  | U0 =>
      if b <? 0x80 then Some U0
      else if b <? 0xC2 then None
      else if b <? 0xE0 then Some (UC 0 0x80 0xBF)
      else if b =? 0xE0 then Some (UC 1 0xA0 0xBF)
      else if b =? 0xED then Some (UC 1 0x80 0x9F)
      else if b <? 0xF0 then Some (UC 1 0x80 0xBF)
      else if b =? 0xF0 then Some (UC 2 0x90 0xBF)
      else if b <? 0xF4 then Some (UC 2 0x80 0xBF)
      else if b =? 0xF4 then Some (UC 2 0x80 0x8F)
      else None
  | UC more lo hi =>
      if (lo <=? b) && (b <=? hi) then
        match more with
        | O => Some U0
        | S more' => Some (UC more' 0x80 0xBF)
        end
      else None
  end.

#[global] Arguments utf8_next : simpl never.

Fixpoint utf8_run (st : u8state) (s : string) : option u8state :=
  match s with
  | EmptyString => Some st
  | String c s' => utf8_next st c ≫= λ st', utf8_run st' s'
  end.

(** [std::str::from_utf8(s).is_ok()] *)
Definition utf8_valid (s : string) : bool :=
  bool_decide (utf8_run U0 s = Some U0).

(** [std::str::Utf8Error]: where the valid prefix ends and, unless the input
    stops inside a character, the length of the offending sequence. *)
Record Utf8Error := { valid_up_to : N; error_len : option N }.

Fixpoint utf8_err (st : u8state) (start pend : N) (s : string) : option Utf8Error :=
  match s with
  | EmptyString =>
      match st with
      | U0 => None
      | UC _ _ _ => Some {| valid_up_to := start; error_len := None |}
      end
  | String c s' =>
      match utf8_next st c with
      | Some U0 => utf8_err U0 (start + pend + 1) 0 s'
      | Some st' => utf8_err st' start (pend + 1) s'
      | None => Some {| valid_up_to := start; error_len := Some (N.max 1 pend) |}
      end
  end.

(** [std::str::from_utf8]: the same bytes as a [&str], or the error. *)
Definition from_utf8 (s : string) : result string Utf8Error :=
  match utf8_err U0 0 0 s with
  | None => Ok s
  | Some e => Err e
  end.

(** U+FFFD. *)
Definition replacement : string :=
  String "239" (String "191" (String "189" "")).

(** [String::from_utf8_lossy]: every maximal ill-formed piece becomes U+FFFD.
    [pend] holds the bytes of the character being read; a byte that does not
    continue it is read again as the start of the next. *)
Fixpoint utf8_lossy_go (st : u8state) (pend s : string) : string :=
  match s with
  | EmptyString => match st with U0 => "" | UC _ _ _ => replacement end
  | String c s' =>
      match utf8_next st c with
      | Some U0 => (pend +:+ String c "") +:+ utf8_lossy_go U0 "" s'
      | Some st' => utf8_lossy_go st' (pend +:+ String c "") s'
      | None =>
          replacement +:+
          match st with
          | U0 => utf8_lossy_go U0 "" s'
          | UC _ _ _ =>
              match utf8_next U0 c with
              | Some U0 => String c "" +:+ utf8_lossy_go U0 "" s'
              | Some st' => utf8_lossy_go st' (String c "") s'
              | None => replacement +:+ utf8_lossy_go U0 "" s'
              end
          end
      end
  end.

Definition from_utf8_lossy (s : string) : string := utf8_lossy_go U0 "" s.

(** ** Lemmas *)

Lemma utf8_run_app st s t :
  utf8_run st (s +:+ t) = utf8_run st s ≫= λ st', utf8_run st' t.
Proof.
  revert st. induction s as [|c s IH]; intros st; [done|].
  rewrite app_String. simpl. by destruct (utf8_next st c); simpl.
Qed.

Lemma utf8_valid_true s : utf8_valid s = true ↔ utf8_run U0 s = Some U0.
Proof. apply bool_decide_eq_true. Qed.

Lemma utf8_valid_app s t :
  utf8_valid s = true → utf8_valid t = true → utf8_valid (s +:+ t) = true.
Proof. rewrite !utf8_valid_true, utf8_run_app. by intros -> ?. Qed.

Lemma utf8_valid_app_r s t :
  utf8_valid s = true → utf8_valid (s +:+ t) = utf8_valid t.
Proof. unfold utf8_valid. rewrite utf8_run_app. by intros ->%utf8_valid_true. Qed.

(** ASCII bytes are characters of their own. *)
Definition is_ascii (c : ascii) : bool := N_of_ascii c <? 0x80.

Lemma utf8_next_ascii_0 c : is_ascii c = true → utf8_next U0 c = Some U0.
Proof. unfold is_ascii, utf8_next. by intros ->. Qed.

(** The ranges inside a character never admit an ASCII byte. *)
Definition u8_wf (st : u8state) : Prop :=
  match st with U0 => True | UC _ lo hi => 0x80 ≤ lo ∧ lo ≤ hi end.

Lemma u8_wf_next st c st' : u8_wf st → utf8_next st c = Some st' → u8_wf st'.
Proof.
  unfold utf8_next. destruct st as [|more lo hi]; simpl; intros ? ?; cases; simpl; try done; lia.
Qed.

Lemma utf8_next_ascii_inv st c st' :
  u8_wf st → is_ascii c = true → utf8_next st c = Some st' → st = U0 ∧ st' = U0.
Proof.
  unfold is_ascii, utf8_next. intros Hwf Hc. destruct st as [|more lo hi]; simpl in *.
  - rewrite Hc. naive_solver.
  - destruct (_ && _) eqn:E; [|done]. breflect.
    apply N.ltb_lt in Hc. apply N.leb_le in H. lia.
Qed.

Lemma utf8_run_ascii st c s :
  u8_wf st → is_ascii c = true → utf8_run st (String c s) = Some U0 →
  st = U0 ∧ utf8_run U0 s = Some U0.
Proof.
  intros Hwf Hc. simpl. destruct (utf8_next st c) as [st'|] eqn:E; simpl; [|done].
  by destruct (utf8_next_ascii_inv st c st' Hwf Hc E) as [-> ->].
Qed.

Lemma utf8_run_ascii_0 c s : is_ascii c = true → utf8_run U0 (String c s) = utf8_run U0 s.
Proof. intros Hc. simpl. by rewrite utf8_next_ascii_0. Qed.

Lemma utf8_valid_all_ascii s : str_all is_ascii s = true → utf8_valid s = true.
Proof.
  rewrite utf8_valid_true. induction s as [|c s IH]; [done|].
  simpl. intros H. breflect. rewrite utf8_next_ascii_0 by done. simpl. auto.
Qed.

(** [from_utf8] succeeds exactly on the valid strings, with the same bytes. *)
Lemma utf8_err_None st start pend s :
  utf8_err st start pend s = None ↔ utf8_run st s = Some U0.
Proof.
  revert st start pend. induction s as [|c s IH]; intros st start pend; simpl.
  - destruct st; naive_solver.
  - destruct (utf8_next st c) as [[|]|]; simpl; [apply IH..|done].
Qed.

Lemma from_utf8_Ok s t : from_utf8 s = Ok t ↔ utf8_valid s = true ∧ t = s.
Proof.
  unfold from_utf8. rewrite utf8_valid_true, <- (utf8_err_None U0 0 0).
  destruct (utf8_err _ _ _ _); naive_solver.
Qed.

Lemma from_utf8_valid s : utf8_valid s = true → from_utf8 s = Ok s.
Proof. intros. by apply from_utf8_Ok. Qed.

(** The lossy conversion produces valid UTF-8 and keeps what is valid. *)
Lemma utf8_lossy_go_valid st pend s :
  utf8_run U0 pend = Some st → utf8_valid (utf8_lossy_go st pend s) = true.
Proof.
  assert (Hrep : utf8_valid replacement = true) by done.
  revert st pend. induction s as [|c s IH]; intros st pend Hp; simpl.
  { by destruct st. }
  destruct (utf8_next st c) as [st'|] eqn:E.
  - assert (utf8_run U0 (pend +:+ String c "") = Some st') as Hp'.
    { rewrite utf8_run_app, Hp. simpl. by rewrite E. }
    destruct st' as [|m lo hi]; [|by apply IH].
    apply utf8_valid_app; [by apply utf8_valid_true|by apply IH].
  - apply utf8_valid_app; [done|]. destruct st as [|m lo hi]; [by apply IH|].
    destruct (utf8_next U0 c) as [[|m' lo' hi']|] eqn:E'.
    + apply utf8_valid_app; [|by apply IH].
      apply utf8_valid_true. cbn [utf8_run]. by rewrite E'.
    + apply IH. cbn [utf8_run]. by rewrite E'.
    + apply utf8_valid_app; [done|by apply IH].
Qed.

Lemma from_utf8_lossy_valid s : utf8_valid (from_utf8_lossy s) = true.
Proof. by apply utf8_lossy_go_valid. Qed.

Lemma utf8_lossy_go_id st pend s :
  utf8_run st s = Some U0 →
  (st = U0 → pend = "") →
  utf8_lossy_go st pend s = pend +:+ s.
Proof.
  revert st pend. induction s as [|c s IH]; intros st pend; simpl.
  { intros [= ->] Hp. by rewrite (Hp eq_refl). }
  destruct (utf8_next st c) as [[|m lo hi]|]; simpl; [|..|done]; intros Hr Hp.
  - rewrite IH by done. by rewrite app_assoc_str.
  - rewrite IH by done. by rewrite app_assoc_str.
Qed.

Lemma from_utf8_lossy_id s : utf8_valid s = true → from_utf8_lossy s = s.
Proof. intros H%utf8_valid_true. by apply (utf8_lossy_go_id U0 ""). Qed.

#[export] Hint Resolve utf8_valid_app from_utf8_lossy_valid : vdsm.
