(* ===== verification/RustStr.v ===== *)
(** * Strings and integers of the Rust standard library

    The methods of [str] and the integer [FromStr]/[Display] implementations
    the crates call.  Patterns that are ASCII characters act on bytes the same
    way they act on characters, because no byte of a multi-byte character is
    ASCII; [trim] and [split_whitespace] use the Unicode White_Space set, whose
    non-ASCII members are matched by their encodings. *)

From stdpp Require Import options.
From S2P Require Import Prelude Utf8.

(** ** Integers *)

Definition u32_max : N := 4294967295.
Definition u64_max : N := 18446744073709551615.
Definition usize_max : N := u64_max.
Definition i64_min : Z := -9223372036854775808.
Definition i64_max : Z := 9223372036854775807.

(** Wrapping addition and multiplication of [usize]/[u64]: what a release
    build computes. *)
Definition wadd64 (a b : N) : N := ((a + b) mod (u64_max + 1))%N.
Definition wmul64 (a b : N) : N := ((a * b) mod (u64_max + 1))%N.

Definition digit_val (c : ascii) : option N :=
  let b := N_of_ascii c in
  if (48 <=? b)%N && (b <=? 57)%N then Some (b - 48)%N else None.

Definition is_ascii_digit (c : ascii) : bool := bool_decide (is_Some (digit_val c)).

Fixpoint digits_val (acc : N) (s : string) : option N :=
  match s with
  | EmptyString => Some acc
  | String c s' => digit_val c ≫= λ d, digits_val (10 * acc + d)%N s'
  end.

(** [s.parse::<uN>().ok()]: an optional [+], at least one digit, and a value
    that fits. *)
Definition parse_uint (max : N) (s : string) : option N :=
  let ds := match s with
            | String c s' => if Ascii.eqb c "+" then s' else s
            | EmptyString => s
            end in
  if is_empty ds then None
  else digits_val 0 ds ≫= λ n, if (n <=? max)%N then Some n else None.

Definition parse_u64 : string → option N := parse_uint u64_max.
Definition parse_u32 : string → option N := parse_uint u32_max.
Definition parse_usize : string → option N := parse_uint usize_max.

(** [n.to_string()] *)
Definition to_string (n : N) : string := pretty n.

Lemma digit_val_pretty d : (d < 10)%N → digit_val (pretty_N_char d) = Some d.
Proof.
  intros. assert (d = 0 ∨ d = 1 ∨ d = 2 ∨ d = 3 ∨ d = 4 ∨ d = 5 ∨ d = 6 ∨ d = 7
                  ∨ d = 8 ∨ d = 9)%N as Hd by lia.
  by destruct_or! Hd; subst.
Qed.

Lemma digits_val_pretty_go x s : digits_val 0 (pretty_N_go x s) = digits_val x s.
Proof.
  revert s. induction (N.lt_wf_0 x) as [x _ IH]; intros s.
  destruct (decide (x = 0)%N) as [->|Hx]; [done|].
  rewrite pretty_N_go_step by lia. rewrite IH by (apply N.div_lt; lia).
  simpl. rewrite digit_val_pretty by (apply N.mod_lt; lia). simpl.
  by rewrite <- N.div_mod by done.
Qed.

Lemma digits_pretty_go x s :
  str_all is_ascii_digit s = true → str_all is_ascii_digit (pretty_N_go x s) = true.
Proof.
  revert s. induction (N.lt_wf_0 x) as [x _ IH]; intros s Hs.
  destruct (decide (x = 0)%N) as [->|Hx]; [done|].
  rewrite pretty_N_go_step by lia. apply IH; [apply N.div_lt; lia|].
  simpl. rewrite Hs, andb_true_r. apply bool_decide_eq_true.
  rewrite digit_val_pretty by (apply N.mod_lt; lia). eauto.
Qed.

Lemma to_string_digits n : str_all is_ascii_digit (to_string n) = true.
Proof.
  unfold to_string, pretty, pretty_N. case_decide; [done|]. by apply digits_pretty_go.
Qed.

Lemma digits_val_to_string n : digits_val 0 (to_string n) = Some n.
Proof.
  unfold to_string, pretty, pretty_N. case_decide as H; [by subst|].
  by rewrite digits_val_pretty_go.
Qed.

Lemma pretty_go_nonempty x s : s ≠ "" → pretty_N_go x s ≠ "".
Proof.
  revert s. induction (N.lt_wf_0 x) as [x _ IH]; intros s Hs.
  destruct (decide (x = 0)%N) as [->|Hx]; [done|].
  rewrite pretty_N_go_step by lia. apply IH; [apply N.div_lt; lia|done].
Qed.

Lemma to_string_nonempty n : to_string n ≠ "".
Proof.
  unfold to_string, pretty, pretty_N. case_decide as H; [done|].
  rewrite pretty_N_go_step by lia. by apply pretty_go_nonempty.
Qed.

(** Printing then parsing gives the number back. *)
Lemma parse_uint_to_string max n : (n ≤ max)%N → parse_uint max (to_string n) = Some n.
Proof.
  intros Hn. unfold parse_uint.
  pose proof (to_string_nonempty n) as Hne.
  pose proof (to_string_digits n) as Hd.
  pose proof (digits_val_to_string n) as Hv.
  destruct (to_string n) as [|c s]; [done|]. simpl in Hd.
  destruct (Ascii.eqb_spec c "+") as [->|_]; [done|].
  cbn [is_empty]. rewrite Hv. simpl. by rewrite (proj2 (N.leb_le _ _) Hn).
Qed.

Lemma parse_uint_le max s n : parse_uint max s = Some n → (n ≤ max)%N.
Proof.
  unfold parse_uint. destruct (is_empty _); [done|].
  destruct (digits_val 0 _) as [m|]; simpl; [|done].
  destruct (N.leb_spec m max); naive_solver.
Qed.

Lemma is_ascii_digit_ascii c : is_ascii_digit c = true → is_ascii c = true.
Proof.
  unfold is_ascii_digit, is_ascii, digit_val. intros H. breflect.
  destruct H as [d Hd]. cases. breflect. apply N.ltb_lt. apply N.leb_le in H0. lia.
Qed.

Lemma str_all_impl p q s :
  (∀ c, p c = true → q c = true) → str_all p s = true → str_all q s = true.
Proof.
  intros Hpq. induction s as [|c s IH]; [done|]. simpl. intros H. breflect.
  rewrite Hpq, IH by done. done.
Qed.

Lemma to_string_utf8 n : utf8_valid (to_string n) = true.
Proof.
  apply utf8_valid_all_ascii.
  eapply str_all_impl, to_string_digits. apply is_ascii_digit_ascii.
Qed.

(** ** Tests and cuts *)

(** [s.starts_with(p)] *)
Fixpoint starts_with (p s : string) : bool :=
  match p, s with
  | EmptyString, _ => true
  | String a p', String b s' => Ascii.eqb a b && starts_with p' s'
  | String _ _, EmptyString => false
  end.

(** [s.strip_prefix(p)] *)
Fixpoint strip_prefix (p s : string) : option string :=
  match p, s with
  | EmptyString, _ => Some s
  | String a p', String b s' => if Ascii.eqb a b then strip_prefix p' s' else None
  | String _ _, EmptyString => None
  end.

(** [s.contains(p)] for a string pattern. *)
Fixpoint contains (p s : string) : bool :=
  starts_with p s || match s with EmptyString => false | String _ s' => contains p s' end.

(** [s.replace(c, r)] for an ASCII character. *)
Fixpoint replace_char (c : ascii) (r : string) (s : string) : string :=
  match s with
  | EmptyString => ""
  | String a s' => (if Ascii.eqb a c then r else String a "") +:+ replace_char c r s'
  end.

(** [s.split(c)] for an ASCII character: always at least one piece. *)
Fixpoint split_char (c : ascii) (s : string) : list string :=
  match s with
  | EmptyString => [""]
  | String a s' =>
      if Ascii.eqb a c then "" :: split_char c s'
      else match split_char c s' with
           | [] => [String a ""]
           | p :: ps => String a p :: ps
           end
  end.

(** [s.split_once(c)] for an ASCII character. *)
Definition split_once (c : ascii) (s : string) : option (string * string) :=
  match find_byte c s with
  | Some n => Some (str_take n s, str_drop (S n) s)
  | None => None
  end.

(** [s.strip_suffix(p)] *)
Definition strip_suffix (p s : string) : option string :=
  let i := (strlen s - strlen p)%nat in
  if String.eqb (str_drop i s) p then Some (str_take i s) else None.

(** [line.strip_suffix('\r')] as [str::lines] applies it. *)
Definition strip_suffix_byte (c : ascii) (s : string) : string :=
  match str_last s with
  | Some a => if Ascii.eqb a c then str_take (strlen s - 1) s else s
  | None => s
  end.

Definition LF : ascii := "010".
Definition CR : ascii := "013".
Definition NUL : ascii := "000".

(** [s.lines()]: pieces ended by [\n], each without a final [\r]; a last piece
    without [\n] is kept as it is, and dropped when it is empty. *)
Fixpoint lines_go (cur : string) (s : string) : list string :=
  match s with
  | EmptyString => if is_empty cur then [] else [cur]
  | String a s' =>
      if Ascii.eqb a LF then strip_suffix_byte CR cur :: lines_go "" s'
      else lines_go (cur +:+ String a "") s'
  end.
Definition lines (s : string) : list string := lines_go "" s.

(** [s.split_inclusive('\n')]: the pieces with their [\n]. *)
Fixpoint split_inclusive_go (cur : string) (s : string) : list string :=
  match s with
  | EmptyString => if is_empty cur then [] else [cur]
  | String a s' =>
      if Ascii.eqb a LF then (cur +:+ String a "") :: split_inclusive_go "" s'
      else split_inclusive_go (cur +:+ String a "") s'
  end.
Definition split_inclusive (s : string) : list string := split_inclusive_go "" s.

(** [BufReader::read_line]: the bytes up to and including the next [\n], or to the end. *)
Definition read_line (input : bytes) : bytes * bytes :=
  match find_byte LF input with
  | Some n => (str_take (S n) input, str_drop (S n) input)
  | None => (input, "")
  end.

(** ** White space *)

Definition ws1 (a : ascii) : bool :=
  let x := N_of_ascii a in ((9 <=? x) && (x <=? 13) || (x =? 32))%N.
Definition ws2 (a b : ascii) : bool :=
  let x := N_of_ascii a in let y := N_of_ascii b in
  ((x =? 0xC2) && ((y =? 0x85) || (y =? 0xA0)))%N.
Definition ws3 (a b c : ascii) : bool :=
  let x := N_of_ascii a in let y := N_of_ascii b in let z := N_of_ascii c in
  ((x =? 0xE1) && (y =? 0x9A) && (z =? 0x80)
   || (x =? 0xE2) && (y =? 0x80) &&
      ((0x80 <=? z) && (z <=? 0x8A) || (z =? 0xA8) || (z =? 0xA9) || (z =? 0xAF))
   || (x =? 0xE2) && (y =? 0x81) && (z =? 0x9F)
   || (x =? 0xE3) && (y =? 0x80) && (z =? 0x80))%N.

Fixpoint trim_front (w2 : ascii → ascii → bool) (w3 : ascii → ascii → ascii → bool)
  (s : string) : string :=
  match s with
  | EmptyString => ""
  | String a s1 =>
      if ws1 a then trim_front w2 w3 s1
      else match s1 with
           | EmptyString => s
           | String b s2 =>
               if w2 a b then trim_front w2 w3 s2
               else match s2 with
                    | EmptyString => s
                    | String c s3 => if w3 a b c then trim_front w2 w3 s3 else s
                    end
           end
  end.

Definition trim_start (s : string) : string := trim_front ws2 ws3 s.
Definition trim_end (s : string) : string :=
  String.rev (trim_front (λ b a, ws2 a b) (λ c b a, ws3 a b c) (String.rev s)).

(** [s.trim()] *)
Definition trim (s : string) : string := trim_end (trim_start s).

Definition push_token (cur : string) (ts : list string) : list string :=
  if is_empty cur then ts else cur :: ts.

(** [s.split_whitespace()] *)
Fixpoint split_ws_go (cur : string) (s : string) : list string :=
  match s with
  | EmptyString => push_token cur []
  | String a s1 =>
      if ws1 a then push_token cur (split_ws_go "" s1)
      else
        let keep := split_ws_go (cur +:+ String a "") s1 in
        match s1 with
        | EmptyString => keep
        | String b s2 =>
            if ws2 a b then push_token cur (split_ws_go "" s2)
            else match s2 with
                 | EmptyString => keep
                 | String c s3 =>
                     if ws3 a b c then push_token cur (split_ws_go "" s3) else keep
                 end
        end
  end.
Definition split_whitespace (s : string) : list string := split_ws_go "" s.

(** ** Characters *)

Definition is_ascii_alphabetic (c : ascii) : bool :=
  let b := N_of_ascii c in
  ((65 <=? b) && (b <=? 90) || (97 <=? b) && (b <=? 122))%N.
Definition is_ascii_uppercase (c : ascii) : bool :=
  let b := N_of_ascii c in ((65 <=? b) && (b <=? 90))%N.
Definition is_ascii_lowercase (c : ascii) : bool :=
  let b := N_of_ascii c in ((97 <=? b) && (b <=? 122))%N.
Definition is_ascii_alphanumeric (c : ascii) : bool :=
  is_ascii_alphabetic c || is_ascii_digit c.

Definition to_lower (c : ascii) : ascii :=
  if is_ascii_uppercase c then ascii_of_N (N_of_ascii c + 32) else c.
Definition to_upper (c : ascii) : ascii :=
  if is_ascii_lowercase c then ascii_of_N (N_of_ascii c - 32) else c.

Fixpoint str_map (f : ascii → ascii) (s : string) : string :=
  match s with EmptyString => "" | String a s' => String (f a) (str_map f s') end.

(** [s.to_ascii_lowercase()] *)
Definition to_ascii_lowercase : string → string := str_map to_lower.

(** [parts.join(sep)] *)
Definition join (sep : string) (l : list string) : string := String.concat sep l.

(** ** Lemmas *)

Lemma strip_prefix_spec p s r : strip_prefix p s = Some r ↔ s = p +:+ r.
Proof.
  revert s. induction p as [|a p IH]; intros s; simpl.
  { rewrite app_nil_l_str. split; congruence. }
  destruct s as [|b s]; [done|]. rewrite app_String.
  destruct (Ascii.eqb_spec a b) as [->|Hne].
  - rewrite IH. split; congruence.
  - split; congruence.
Qed.

Lemma starts_with_spec p s : starts_with p s = true ↔ ∃ r, s = p +:+ r.
Proof.
  revert s. induction p as [|a p IH]; intros s; simpl.
  { split; [|done]. intros _. by exists s. }
  destruct s as [|b s]; [by split; [|intros [r ?]]|].
  destruct (Ascii.eqb_spec a b) as [->|Hne]; simpl.
  - rewrite IH. split; intros [r Hr]; exists r.
    + by rewrite Hr.
    + rewrite app_String in Hr. by simplify_eq.
  - split; [done|]. intros [r Hr]. rewrite app_String in Hr. by simplify_eq.
Qed.

Lemma starts_with_app p s : starts_with p (p +:+ s) = true.
Proof. apply starts_with_spec. eauto. Qed.

Lemma contains_spec p s : contains p s = true ↔ ∃ a b, s = a +:+ p +:+ b.
Proof.
  induction s as [|c s IH]; cbn [contains].
  - rewrite orb_true_iff, starts_with_spec. split.
    + intros [[r Hr]|]; [|done]. exists "", r. done.
    + intros (a & b & H). symmetry in H. apply app_eq_nil_str in H as [-> H].
      left. exists b. done.
  - rewrite orb_true_iff, starts_with_spec, IH. split.
    + intros [[r Hr]|(a & b & ->)]; [by exists "", r|]. by exists (String c a), b.
    + intros ([|a0 a] & b & H).
      * left. exists b. done.
      * rewrite app_String in H. simplify_eq. right. by exists a, b.
Qed.

Lemma replace_char_no c r s : has_byte c r = false → has_byte c (replace_char c r s) = false.
Proof.
  intros Hr. induction s as [|a s IH]; [done|]. simpl. rewrite has_byte_app, IH, orb_false_r.
  destruct (Ascii.eqb_spec a c); [done|]. simpl.
  rewrite orb_false_r. by apply Ascii.eqb_neq.
Qed.

Lemma lines_go_app cur l s :
  has_byte LF l = false →
  lines_go cur (l +:+ String LF s) = strip_suffix_byte CR (cur +:+ l) :: lines_go "" s.
Proof.
  revert cur. induction l as [|a l IH]; intros cur.
  { intros _. rewrite app_nil_l_str, app_nil_r_str. simpl. done. }
  rewrite app_String. simpl. intros H. breflect.
  destruct (Ascii.eqb_spec a LF); [done|]. rewrite IH by done. by rewrite app_assoc_str.
Qed.

Lemma lines_cons l s :
  has_byte LF l = false → str_last l ≠ Some CR →
  lines (l +:+ String LF s) = l :: lines s.
Proof.
  intros Hl Hcr. unfold lines. rewrite lines_go_app by done. rewrite app_nil_l_str.
  unfold strip_suffix_byte. destruct (str_last l) as [a|]; [|done].
  destruct (Ascii.eqb_spec a CR); [naive_solver|done].
Qed.

Lemma split_inclusive_go_spec cur s :
  split_inclusive_go cur s =
  match find_byte LF s with
  | Some n => (cur +:+ str_take (S n) s) :: split_inclusive (str_drop (S n) s)
  | None => if is_empty (cur +:+ s) then [] else [cur +:+ s]
  end.
Proof.
  revert cur. induction s as [|a s IH]; intros cur; cbn [split_inclusive_go find_byte].
  { by rewrite app_nil_r_str. }
  destruct (Ascii.eqb_spec a LF) as [->|Hne].
  - simpl. by destruct s.
  - rewrite IH. destruct (find_byte LF s) as [n|]; simpl; by rewrite app_assoc_str.
Qed.

(** ** Trimming *)

Lemma rev_app_rev s t : String.rev_app s t = String.rev s +:+ t.
Proof.
  unfold String.rev. revert t. induction s as [|a s IH]; intros t; [done|].
  cbn [String.rev_app]. rewrite IH, (IH (String a "")), app_assoc_str.
  by rewrite app_String, app_nil_l_str.
Qed.

Lemma rev_String a s : String.rev (String a s) = String.rev s +:+ String a "".
Proof. unfold String.rev at 1. cbn [String.rev_app]. by rewrite rev_app_rev. Qed.

Lemma rev_snoc s a : String.rev (s +:+ String a "") = String a (String.rev s).
Proof.
  induction s as [|b s IH]; [done|]. rewrite app_String, !rev_String, IH.
  by rewrite app_String.
Qed.

Lemma rev_rev s : String.rev (String.rev s) = s.
Proof. induction s as [|a s IH]; [done|]. by rewrite rev_String, rev_snoc, IH. Qed.

Lemma str_last_split s a : str_last s = Some a → ∃ t, s = t +:+ String a "".
Proof.
  induction s as [|b s IH]; [done|]. destruct s as [|c s].
  - intros [= ->]. by exists "".
  - intros H. destruct (IH H) as [t Ht]. exists (String b t). rewrite Ht. done.
Qed.

Lemma rev_app_str s t : String.rev (s +:+ t) = String.rev t +:+ String.rev s.
Proof.
  induction s as [|a s IH]; [by rewrite app_nil_r_str|].
  by rewrite app_String, !rev_String, IH, app_assoc_str.
Qed.

(** No white space at the front. *)
Definition clear_front (w2 : ascii → ascii → bool) (w3 : ascii → ascii → ascii → bool)
  (s : string) : bool :=
  match s with
  | EmptyString => true
  | String a s1 =>
      negb (ws1 a) &&
      match s1 with
      | EmptyString => true
      | String b s2 =>
          negb (w2 a b) && match s2 with EmptyString => true | String c _ => negb (w3 a b c) end
      end
  end.

Lemma clear_front_trim w2 w3 s : clear_front w2 w3 s = true → trim_front w2 w3 s = s.
Proof.
  destruct s as [|a [|b [|c s]]]; cbn [clear_front trim_front]; [done|..]; intros; breflect;
    repeat match goal with E : _ = false |- _ => rewrite E; clear E end; done.
Qed.

Lemma trim_front_spec w2 w3 s :
  clear_front w2 w3 (trim_front w2 w3 s) = true ∧ ∃ p, s = p +:+ trim_front w2 w3 s.
Proof.
  remember (strlen s) as n eqn:Hn. assert (strlen s <= n) as Hle by lia. clear Hn.
  revert s Hle. induction n as [|n IH]; intros [|a s1] Hle;
    [by split; [|exists ""]|cbn in Hle; lia|by split; [|exists ""]|].
  assert (∀ p s', strlen s' <= n → String a s1 = p +:+ s' →
    clear_front w2 w3 (trim_front w2 w3 s') = true ∧ ∃ p, String a s1 = p +:+ trim_front w2 w3 s') as Hrec.
  { intros p s' Hs' E. destruct (IH s' Hs') as [H1 [q H2]]. split; [done|]. exists (p +:+ q).
    by rewrite app_assoc_str, <- H2. }
  cbn [strlen] in Hle. cbn [trim_front]. destruct (ws1 a) eqn:E1; [apply (Hrec (String a "")); [lia|done]|].
  destruct s1 as [|b s2]; [split; [by cbn; rewrite E1|by exists ""]|]. cbn [strlen] in Hle.
  destruct (w2 a b) eqn:E2; [apply (Hrec (String a (String b ""))); [lia|done]|].
  destruct s2 as [|c s3]; [split; [by cbn; rewrite E1, E2|by exists ""]|]. cbn [strlen] in Hle.
  destruct (w3 a b c) eqn:E3; [apply (Hrec (String a (String b (String c "")))); [lia|done]|].
  split; [by cbn; rewrite E1, E2, E3|by exists ""].
Qed.

Lemma clear_front_prefix w2 w3 p q :
  clear_front w2 w3 (p +:+ q) = true → clear_front w2 w3 p = true.
Proof.
  destruct p as [|a [|b [|c p]]]; rewrite ?app_String; cbn [clear_front]; [done|..]; intros; breflect;
    repeat match goal with E : _ = false |- _ => rewrite E; clear E end; done.
Qed.

Lemma clear_front_lf p q :
  clear_front ws2 ws3 p = true → p ≠ "" → clear_front ws2 ws3 (p +:+ String LF q) = true.
Proof.
  assert (∀ a, ws2 a LF = false) as H2 by (intros a; unfold ws2; by rewrite andb_false_r).
  assert (∀ a b, ws3 a b LF = false ∧ ws3 a LF b = false) as H3
    by (intros a b; unfold ws3; by rewrite ?andb_false_r).
  destruct p as [|a [|b [|c p]]]; rewrite ?app_String, ?app_nil_l_str; cbn [clear_front]; [done|..];
    intros; breflect; repeat match goal with E : _ = false |- _ => rewrite E; clear E end.
  - rewrite H2. destruct q as [|c q]; [done|]. by rewrite (proj2 (H3 a c)).
  - by rewrite (proj1 (H3 a b)).
  - done.
Qed.

(** What [trim] returns has no white space at either end, so a second [trim]
    changes nothing, and neither does a newline that was added to it. *)
Lemma trim_clear s :
  clear_front ws2 ws3 (trim s) = true ∧
  clear_front (λ b a, ws2 a b) (λ c b a, ws3 a b c) (String.rev (trim s)) = true.
Proof.
  unfold trim. destruct (trim_front_spec ws2 ws3 s) as [H1 _].
  fold (trim_start s) in H1. set (t := trim_start s) in *. unfold trim_end.
  destruct (trim_front_spec (λ b a, ws2 a b) (λ c b a, ws3 a b c) (String.rev t)) as [H2 [p H3]].
  set (u := trim_front _ _ (String.rev t)) in *. rewrite rev_rev. split; [|done].
  apply (clear_front_prefix _ _ _ (String.rev p)). rewrite <- rev_app_str, <- H3, rev_rev. done.
Qed.

Lemma trim_idem s : trim (trim s) = trim s.
Proof.
  destruct (trim_clear s) as [H1 H2]. set (t := trim s) in *.
  unfold trim, trim_start, trim_end. by rewrite (clear_front_trim _ _ t), clear_front_trim, rev_rev.
Qed.

Lemma trim_trim_lf s : trim s ≠ "" → trim (trim s +:+ String LF "") = trim s.
Proof.
  intros Hne. destruct (trim_clear s) as [H1 H2]. set (t := trim s) in *.
  unfold trim, trim_start, trim_end. rewrite (clear_front_trim ws2 ws3 (t +:+ _)) by (by apply clear_front_lf).
  rewrite rev_snoc. change (trim_front ?w2 ?w3 (String LF ?r)) with (trim_front w2 w3 r).
  by rewrite clear_front_trim, rev_rev.
Qed.

(** An ASCII character that is not white space. *)
Definition solid (c : ascii) : bool := is_ascii c && negb (ws1 c).

(** Nothing to trim: empty, or solid at both ends. *)
Definition trimmed (s : string) : bool :=
  match s with
  | EmptyString => true
  | String a _ => solid a && match str_last s with Some z => solid z | None => false end
  end.

(** No white space character has a solid byte in it. *)
Lemma solid_ws2 a b : solid a = true → ws2 a b = false ∧ ws2 b a = false.
Proof.
  unfold solid, is_ascii, ws2. intros H. breflect. apply N.ltb_lt in H.
  split; apply andb_false_iff; [left|right; apply orb_false_iff; split];
    apply N.eqb_neq; lia.
Qed.

Lemma solid_ws3 a b c : solid a = true → ws3 a b c = false ∧ ws3 c b a = false.
Proof.
  unfold solid, is_ascii, ws3. intros H. breflect. apply N.ltb_lt in H.
  repeat match goal with
  | |- context [(N_of_ascii a =? ?n)%N] => rewrite (proj2 (N.eqb_neq (N_of_ascii a) n)) by lia
  | |- context [(?n <=? N_of_ascii a)%N] => rewrite (proj2 (N.leb_gt n (N_of_ascii a))) by lia
  end.
  by rewrite ?andb_false_r.
Qed.

Lemma trim_front_solid w2 w3 a s :
  solid a = true → (∀ b, w2 a b = false) → (∀ b c, w3 a b c = false) →
  trim_front w2 w3 (String a s) = String a s.
Proof.
  intros Ha H2 H3. cbn [trim_front].
  assert (ws1 a = false) as -> by (unfold solid in Ha; by breflect).
  destruct s as [|b s]; [done|]. rewrite H2. destruct s as [|c s]; [done|]. by rewrite H3.
Qed.

Lemma trim_start_solid a s : solid a = true → trim_start (String a s) = String a s.
Proof.
  intros Ha. apply trim_front_solid; [done|intros; by apply (solid_ws2 a)|intros; by apply (solid_ws3 a)].
Qed.

Lemma trim_end_solid s a : solid a = true → trim_end (s +:+ String a "") = s +:+ String a "".
Proof.
  intros Ha. unfold trim_end. rewrite rev_snoc, trim_front_solid;
    [by rewrite <- rev_snoc, rev_rev|done|intros; by apply (solid_ws2 a)|intros; by apply (solid_ws3 a)].
Qed.

Lemma trim_trimmed s : trimmed s = true → trim s = s.
Proof.
  unfold trim, trimmed. destruct s as [|a s]; [done|]. intros. breflect.
  destruct (str_last (String a s)) as [z|] eqn:E; [|done].
  rewrite trim_start_solid by done. destruct (str_last_split _ _ E) as [t ->].
  by apply trim_end_solid.
Qed.

Lemma trim_trimmed_lf s : trimmed s = true → trim (s +:+ String LF "") = s.
Proof.
  unfold trim, trimmed. destruct s as [|a s]; [done|]. intros. breflect.
  destruct (str_last (String a s)) as [z|] eqn:E; [|done].
  rewrite app_String, trim_start_solid, <- app_String by done.
  destruct (str_last_split _ _ E) as [t ->]. unfold trim_end. rewrite rev_snoc.
  change (trim_front (λ b a, ws2 a b) (λ c b a, ws3 a b c) (String LF (String.rev (t +:+ String z ""))))
    with (trim_front (λ b a, ws2 a b) (λ c b a, ws3 a b c) (String.rev (t +:+ String z ""))).
  by apply trim_end_solid.
Qed.

Lemma digits_solid c : is_ascii_digit c = true → solid c = true.
Proof.
  unfold is_ascii_digit, digit_val, solid, is_ascii, ws1. intros H. breflect.
  destruct H as [d Hd]. cases. breflect. apply N.leb_le in H, H0.
  apply andb_true_iff. split; [apply N.ltb_lt; lia|].
  apply negb_true_iff, orb_false_iff. split; [apply andb_false_iff; right; apply N.leb_gt; lia|].
  apply N.eqb_neq. lia.
Qed.

Lemma str_all_last p s a : str_all p s = true → str_last s = Some a → p a = true.
Proof.
  intros Hs (t & ->)%str_last_split. rewrite str_all_app in Hs. simpl in Hs. by breflect.
Qed.

Lemma solid_trimmed s : str_all solid s = true → trimmed s = true.
Proof.
  destruct s as [|a s]; [done|]. intros Hs. unfold trimmed.
  destruct (str_last_nonempty (String a s)) as [z Hz]; [done|]. rewrite Hz.
  rewrite (str_all_last _ _ _ Hs Hz). simpl in Hs. breflect. by rewrite H.
Qed.

Lemma to_string_solid n : str_all solid (to_string n) = true.
Proof. eapply str_all_impl, to_string_digits. apply digits_solid. Qed.

Lemma to_string_trimmed n : trimmed (to_string n) = true.
Proof. apply solid_trimmed, to_string_solid. Qed.

Lemma str_all_no_byte p c s : p c = false → str_all p s = true → has_byte c s = false.
Proof.
  intros Hc. induction s as [|a s IH]; [done|]. cbn [str_all has_byte]. intros. breflect.
  rewrite IH by done. destruct (Ascii.eqb_spec a c); [congruence|done].
Qed.

Lemma to_string_no_lf n : has_byte LF (to_string n) = false.
Proof. by apply (str_all_no_byte is_ascii_digit), to_string_digits. Qed.

(** ** Splitting at a separator *)

Lemma split_char_head c s p ps : split_char c s = p :: ps → ∃ b, s = p +:+ b.
Proof.
  revert p ps. induction s as [|d s IH]; intros p ps; cbn [split_char].
  { intros [= <- _]. by exists "". }
  destruct (Ascii.eqb d c); [intros [= <- _]; by eexists|].
  destruct (split_char c s) as [|q qs]; intros [= <- _].
  - by exists s.
  - destruct (IH q qs eq_refl) as [b ->]. exists b. by rewrite app_String.
Qed.

(** A component of a path is a part of it. *)
Lemma split_char_part c s x : x ∈ split_char c s → contains x s = true.
Proof.
  intros Hx. apply contains_spec. revert x Hx.
  induction s as [|d s IH]; intros x; cbn [split_char].
  { intros ->%list_elem_of_singleton. by exists "", "". }
  destruct (Ascii.eqb d c).
  { intros [->|Hx]%elem_of_cons; [by exists "", (String d s)|].
    destruct (IH x Hx) as (a & b & ->). by exists (String d a), b. }
  destruct (split_char c s) as [|q qs] eqn:E.
  { intros ->%list_elem_of_singleton. by exists "", s. }
  intros [->|Hx]%elem_of_cons.
  - destruct (split_char_head _ _ _ _ E) as [b ->]. exists "", b. by rewrite app_nil_l_str, app_String.
  - destruct (IH x) as (a & b & ->); [by right|]. by exists (String d a), b.
Qed.

Lemma split_char_no c s : has_byte c s = false → split_char c s = [s].
Proof.
  induction s as [|a s IH]; [done|]. cbn [has_byte split_char].
  intros [Ha Hs]%orb_false_elim. by rewrite Ha, IH.
Qed.

Lemma split_char_cons c s t :
  has_byte c s = false → split_char c (s +:+ String c t) = s :: split_char c t.
Proof.
  induction s as [|a s IH]; intros Hs.
  { rewrite app_nil_l_str. cbn [split_char]. by rewrite Ascii.eqb_refl. }
  rewrite app_String. cbn [has_byte split_char] in *.
  apply orb_false_elim in Hs as [Ha Hs]. by rewrite Ha, IH.
Qed.

Lemma split_char_nonnil c s : split_char c s ≠ [].
Proof.
  destruct s as [|a s]; cbn [split_char]; [done|]. destruct (Ascii.eqb a c); [done|].
  by destruct (split_char c s).
Qed.

Lemma split_char_app c s t : split_char c (s +:+ String c t) = split_char c s ++ split_char c t.
Proof.
  induction s as [|a s IH].
  { rewrite app_nil_l_str. cbn [split_char]. by rewrite Ascii.eqb_refl. }
  rewrite app_String. cbn [split_char]. rewrite IH. destruct (Ascii.eqb a c); [done|].
  pose proof (split_char_nonnil c s). by destruct (split_char c s).
Qed.

Lemma starts_with_cancel p a b : starts_with (p +:+ a) (p +:+ b) = starts_with a b.
Proof. induction p as [|c p IH]; [done|]. rewrite !app_String. cbn. by rewrite Ascii.eqb_refl. Qed.

(** A name ended by a separator is a prefix of another one only if they are equal. *)
Lemma starts_with_sep c s s' t :
  has_byte c s = false → has_byte c s' = false →
  starts_with (s +:+ String c "") (s' +:+ String c t) = String.eqb s s'.
Proof.
  revert s'. induction s as [|a s IH]; intros [|b s']; rewrite ?app_nil_l_str, ?app_String;
    cbn [has_byte starts_with]; intros Hs Hs'.
  - by rewrite Ascii.eqb_refl.
  - apply orb_false_elim in Hs' as [Hb _]. by rewrite Ascii.eqb_sym, Hb.
  - apply orb_false_elim in Hs as [Ha _]. by rewrite Ha.
  - apply orb_false_elim in Hs as [_ Hs], Hs' as [_ Hs']. rewrite IH by done.
    cbn [String.eqb]. by destruct (Ascii.eqb a b).
Qed.
