(* ===== verification/Float64.v ===== *)
(** * [f64]

    The part of IEEE 754 binary64 the host statistics use: reading a decimal
    ([str::parse]), fixed-point printing ([{:.k}]) and the operations of the
    load computation.  A value is [± m * 2^e]; every operation is the exact
    rational result rounded to 53 bits, ties to even. *)

From stdpp Require Import options.
From S2P Require Import Prelude RustStr.
Local Open Scope N_scope.

Inductive f64 : Type :=
| Nan
| Inf (neg : bool)
| Fin (neg : bool) (m : N) (e : Z).

Definition f64_zero : f64 := Fin false 0 0.

(** The integer nearest to [n / d], ties to even. *)
Definition round_even (n d : N) : N :=
  let q := n / d in
  let r := n mod d in
  if (d <? 2 * r) || (2 * r =? d) && N.odd q then q + 1 else q.

(** [n / d * 2^-e] as a quotient of integers. *)
Definition scale (n d : N) (e : Z) : N * N :=
  if (0 <=? e)%Z then (n, d * 2 ^ Z.to_N e) else (n * 2 ^ Z.to_N (- e), d).

(** The exponent of the last of 53 bits of [n / d], not below the subnormals'. *)
Definition exponent (n d : N) : Z :=
  let e := (Z.of_N (N.log2 n) - Z.of_N (N.log2 d) - 53)%Z in
  let '(n', d') := scale n d e in
  Z.max (-1074) (if n' / d' <? 2 ^ 53 then e else (e + 1)%Z).

Definition round_f64 (neg : bool) (n d : N) : f64 :=
  if n =? 0 then Fin neg 0 0
  else
    let e := exponent n d in
    let '(n', d') := scale n d e in
    let m := round_even n' d' in
    let '(m, e) := if m =? 2 ^ 53 then (2 ^ 52, (e + 1)%Z) else (m, e) in
    if (971 <? e)%Z then Inf neg else Fin neg m e.

(** [n as f64] for [u64] *)
Definition f64_of_N (n : N) : f64 := round_f64 false n 1.

(** ** Arithmetic *)

(** The value of a finite number as a quotient. *)
Definition ratio (m : N) (e : Z) : N * N :=
  if (0 <=? e)%Z then (m * 2 ^ Z.to_N e, 1) else (m, 2 ^ Z.to_N (- e)).

Definition fmul (x y : f64) : f64 :=
  match x, y with
  | Fin s1 m1 e1, Fin s2 m2 e2 =>
      let '(n1, d1) := ratio m1 e1 in
      let '(n2, d2) := ratio m2 e2 in
      round_f64 (xorb s1 s2) (n1 * n2) (d1 * d2)
  | Inf s1, Fin s2 m _ | Fin s2 m _, Inf s1 => if m =? 0 then Nan else Inf (xorb s1 s2)
  | Inf s1, Inf s2 => Inf (xorb s1 s2)
  | Nan, _ | _, Nan => Nan
  end.

Definition fdiv (x y : f64) : f64 :=
  match x, y with
  | Fin s1 m1 e1, Fin s2 m2 e2 =>
      if m2 =? 0 then if m1 =? 0 then Nan else Inf (xorb s1 s2)
      else
        let '(n1, d1) := ratio m1 e1 in
        let '(n2, d2) := ratio m2 e2 in
        round_f64 (xorb s1 s2) (n1 * d2) (d1 * n2)
  | Inf s1, Fin s2 _ _ => Inf (xorb s1 s2)
  | Fin s1 _ _, Inf s2 => Fin (xorb s1 s2) 0 0
  | Inf _, Inf _ => Nan
  | Nan, _ | _, Nan => Nan
  end.

(** Numerators over a common denominator. *)
Definition common (m1 : N) (e1 : Z) (m2 : N) (e2 : Z) : N * N * N :=
  let '(n1, d1) := ratio m1 e1 in
  let '(n2, d2) := ratio m2 e2 in
  (n1 * d2, n2 * d1, d1 * d2).

Definition fsub (x y : f64) : f64 :=
  match x, y with
  | Fin s1 m1 e1, Fin s2 m2 e2 =>
      let '(a, b, d) := common m1 e1 m2 e2 in
      if xorb s1 s2 then
        round_f64 s1 (a + b) d
      else if a =? b then Fin false 0 0
      else if b <? a then round_f64 s1 (a - b) d
      else round_f64 (negb s1) (b - a) d
  | Inf s1, Inf s2 => if Bool.eqb s1 s2 then Nan else Inf s1
  | Inf s1, Fin _ _ _ => Inf s1
  | Fin _ _ _, Inf s2 => Inf (negb s2)
  | Nan, _ | _, Nan => Nan
  end.

(** [x < y] *)
Definition fltb (x y : f64) : bool :=
  match x, y with
  | Fin s1 m1 e1, Fin s2 m2 e2 =>
      let '(a, b, _) := common m1 e1 m2 e2 in
      match s1, s2 with
      | false, false => a <? b
      | true, true => b <? a
      | true, false => negb ((a =? 0) && (b =? 0))
      | false, true => false
      end
  | Inf s1, Inf s2 => s1 && negb s2
  | Inf s1, Fin _ _ _ => s1
  | Fin _ _ _, Inf s2 => negb s2
  | Nan, _ | _, Nan => false
  end.

(** [x == 0.0] *)
Definition fis_zero (x : f64) : bool :=
  match x with Fin _ m _ => m =? 0 | _ => false end.

(** [f64::min]: the other argument when one is not a number. *)
Definition fmin (x y : f64) : f64 :=
  match x, y with
  | Nan, _ => y
  | _, Nan => x
  | _, _ => if fltb y x then y else x
  end.

(** ** Reading *)

(** The leading digits and what follows them. *)
Fixpoint span_digits (s : string) : string * string :=
  match s with
  | EmptyString => ("", "")
  | String c s' =>
      if is_ascii_digit c then let '(a, b) := span_digits s' in (String c a, b)
      else ("", s)
  end.

(** An optional sign: whether it is [-], and the rest. *)
Definition strip_sign (s : string) : bool * string :=
  match s with
  | String c s' =>
      if Ascii.eqb c "-" then (true, s') else if Ascii.eqb c "+" then (false, s') else (false, s)
  | EmptyString => (false, s)
  end.

(** [e] or [E], an optional sign, digits to the end; 0 when there is nothing. *)
Definition parse_exp (s : string) : option Z :=
  match s with
  | EmptyString => Some 0%Z
  | String c s' =>
      if Ascii.eqb c "e" || Ascii.eqb c "E" then
        let '(neg, ds) := strip_sign s' in
        if is_empty ds then None
        else n ← digits_val 0 ds; Some (if neg : bool then (- Z.of_N n)%Z else Z.of_N n)
      else None
  end.

Definition f64_of_decimal (neg : bool) (n : N) (e : Z) : f64 :=
  if (0 <=? e)%Z then round_f64 neg (n * 10 ^ Z.to_N e) 1
  else round_f64 neg n (10 ^ Z.to_N (- e)).

(** [s.parse::<f64>().ok()] *)
Definition parse_f64 (s : string) : option f64 :=
  let '(neg, r) := strip_sign s in
  let l := to_ascii_lowercase r in
  if String.eqb l "nan" then Some Nan
  else if String.eqb l "inf" || String.eqb l "infinity" then Some (Inf neg)
  else
    let '(ip, r1) := span_digits r in
    let '(fp, r2) :=
      match r1 with
      | String c r1' => if Ascii.eqb c "." then span_digits r1' else ("", r1)
      | EmptyString => ("", r1)
      end in
    if is_empty (ip +:+ fp) then None
    else
      e ← parse_exp r2;
      n ← digits_val 0 (ip +:+ fp);
      Some (f64_of_decimal neg n (e - Z.of_nat (strlen fp))).

(** ** Printing *)

(** [n / 10^k] with [k] decimals. *)
Definition show_fixed (k : nat) (n : N) : string :=
  let ds := to_string n in
  let ds := Nat.iter (S k - strlen ds) (String "0") ds in
  let i := (strlen ds - k)%nat in
  match k with
  | O => ds
  | S _ => str_take i ds +:+ "." +:+ str_drop i ds
  end.

(** [{:.k}] *)
Definition fmt_fixed (k : nat) (x : f64) : string :=
  match x with
  | Nan => "NaN"
  | Inf neg => (if neg then "-" else "") +:+ "inf"
  | Fin neg m e =>
      let '(n, d) := ratio m e in
      (if neg then "-" else "") +:+ show_fixed k (round_even (n * 10 ^ N.of_nat k) d)
  end.

(** ** Rounding *)

(** The rounded quotient is within a half of the exact one. *)
Lemma round_even_near n d :
  d ≠ 0 → (2 * Z.abs (Z.of_N d * Z.of_N (round_even n d) - Z.of_N n) ≤ Z.of_N d)%Z.
Proof.
  intros Hd. unfold round_even. pose proof (N.div_mod n d Hd) as E.
  pose proof (N.mod_lt n d Hd) as Hr.
  set (q := n / d) in *. set (r := n mod d) in *.
  destruct (N.ltb_spec d (2 * r)); cbn [orb]; [nia|].
  destruct ((2 * r =? d) && N.odd q) eqn:Et; [|nia].
  apply andb_prop in Et as [Et _]. apply N.eqb_eq in Et. nia.
Qed.

(** An integer closer than a half to the quotient is its rounding. *)
Lemma round_even_unique n d k :
  d ≠ 0 → (2 * Z.abs (Z.of_N d * Z.of_N k - Z.of_N n) < Z.of_N d)%Z → round_even n d = k.
Proof.
  intros Hd Hk. pose proof (round_even_near n d Hd) as Hn. nia.
Qed.

Lemma exponent_bound n d :
  n ≠ 0 → d ≠ 0 → (Z.of_N (N.log2 n) - Z.of_N (N.log2 d) - 53 ≤ exponent n d)%Z ∧
  (exponent n d ≤ Z.max (-1074) (Z.of_N (N.log2 n) - Z.of_N (N.log2 d) - 52))%Z.
Proof.
  intros Hn Hd. unfold exponent.
  destruct (scale n d _) as [n' d']. destruct (n' / d' <? 2 ^ 53); lia.
Qed.

(** A decimal of at most 52 bits survives reading and printing. *)
Lemma fmt_fixed_round k n :
  (k ≤ 300)%nat → n < 2 ^ 52 →
  fmt_fixed k (round_f64 false n (10 ^ N.of_nat k)) = show_fixed k n.
Proof.
  intros Hk Hn. set (d := 10 ^ N.of_nat k). unfold round_f64.
  destruct (N.eqb_spec n 0) as [->|Hn0].
  { unfold fmt_fixed. change (ratio 0 0) with (0, 1). cbn iota.
    rewrite app_nil_l_str. f_equal. }
  assert (d ≠ 0) as Hd0 by (apply N.pow_nonzero; lia).
  assert (N.log2 n ≤ 51) as Hln by (apply N.lt_succ_r, N.log2_lt_pow2; lia).
  assert (N.log2 d < 1073) as Hld.
  { apply N.log2_lt_pow2; [lia|]. apply N.le_lt_trans with (10 ^ 300).
    - apply N.pow_le_mono_r; lia.
    - vm_compute. reflexivity. }
  pose proof (exponent_bound n d Hn0 Hd0) as [_ He].
  set (e := exponent n d) in *.
  assert (e ≤ - Z.of_N (N.log2 d) - 1)%Z as He1 by lia.
  unfold scale. destruct (Z.leb_spec 0 e) as [?|Hneg]; [lia|].
  set (p := 2 ^ Z.to_N (- e)).
  assert (d < p) as Hdp.
  { apply N.lt_le_trans with (2 ^ N.succ (N.log2 d)).
    - apply N.log2_spec; lia.
    - apply N.pow_le_mono_r; lia. }
  pose proof (round_even_near (n * p) d Hd0) as Hnear.
  set (m := round_even (n * p) d) in *.
  assert ((2 * Z.abs (Z.of_N p * Z.of_N n - Z.of_N (m * d)) < Z.of_N p)%Z) as Hclose by lia.
  destruct (N.eqb_spec m (2 ^ 53)) as [Hm|Hm].
  - assert (p = 2 * 2 ^ Z.to_N (- e - 1)) as Hp.
    { unfold p. rewrite <- N.pow_succ_r'. f_equal. lia. }
    assert ((971 <? e + 1) = false)%Z as -> by lia. cbn [fmt_fixed]. fold d.
    rewrite Hm in Hclose. unfold ratio.
    destruct (Z.leb_spec 0 (e + 1)).
    + assert (e = -1)%Z as Hm1 by lia. rewrite Hm1 in *. rewrite app_nil_l_str. f_equal.
      change (2 ^ Z.to_N (- -1 - 1)) with 1 in Hp. change (2 ^ Z.to_N (-1 + 1)) with 1.
      apply round_even_unique; lia.
    + rewrite app_nil_l_str. f_equal. replace (- (e + 1))%Z with (- e - 1)%Z by lia.
      apply round_even_unique; lia.
  - assert ((971 <? e) = false)%Z as -> by lia. cbn [fmt_fixed]. unfold ratio.
    destruct (Z.leb_spec 0 e); [lia|]. rewrite app_nil_l_str. f_equal. fold p d.
    apply round_even_unique; lia.
Qed.

(** ** Reading what was printed *)

Lemma digit_not_sign c :
  is_ascii_digit c = true →
  to_lower c = c ∧ c ≠ "n"%char ∧ c ≠ "i"%char ∧ c ≠ "-"%char ∧ c ≠ "+"%char.
Proof. destruct c as [[] [] [] [] [] [] [] []]; vm_compute; intros; repeat split; done. Qed.

Lemma strip_sign_digits s : str_all is_ascii_digit s = true → strip_sign s = (false, s).
Proof.
  destruct s as [|c s]; [done|]. cbn [str_all strip_sign]. intros H. breflect.
  destruct (digit_not_sign c) as (_ & _ & _ & H1 & H2); [done|].
  destruct (Ascii.eqb_spec c "-"), (Ascii.eqb_spec c "+"); done.
Qed.

Lemma span_digits_app a r :
  str_all is_ascii_digit a = true →
  (r = "" ∨ ∃ c r', r = String c r' ∧ is_ascii_digit c = false) →
  span_digits (a +:+ r) = (a, r).
Proof.
  intros Ha Hr. induction a as [|c a IH].
  - rewrite app_nil_l_str. destruct Hr as [->|(c & r' & -> & Hc)]; [done|].
    cbn [span_digits]. by rewrite Hc.
  - cbn [str_all] in Ha. breflect. rewrite app_String. cbn [span_digits].
    rewrite H, IH by done. done.
Qed.

Lemma parse_f64_decimal a b n :
  str_all is_ascii_digit a = true → str_all is_ascii_digit b = true → a ≠ "" →
  digits_val 0 (a +:+ b) = Some n →
  parse_f64 (a +:+ (if is_empty b then "" else "." +:+ b)) =
    Some (f64_of_decimal false n (- Z.of_nat (strlen b))).
Proof.
  intros Ha Hb Hne Hn. unfold parse_f64. destruct a as [|c a]; [done|].
  pose proof Ha as Ha'. cbn [str_all] in Ha'. breflect.
  destruct (digit_not_sign c) as (Hl & H1 & H2 & H3 & H4); [done|].
  rewrite app_String.
  assert (∀ s, strip_sign (String c s) = (false, String c s)) as ->.
  { intros s. cbn [strip_sign].
    destruct (Ascii.eqb_spec c "-"), (Ascii.eqb_spec c "+"); done. }
  assert (∀ s x t, c ≠ x → String.eqb (to_ascii_lowercase (String c s)) (String x t) = false) as Hf.
  { intros s x t Hx. unfold to_ascii_lowercase. cbn [str_map]. rewrite Hl.
    apply String.eqb_neq. congruence. }
  rewrite !Hf by done. cbn [orb]. rewrite <- app_String.
  destruct b as [|x b]; cbn [is_empty].
  - rewrite span_digits_app by auto. rewrite app_nil_r_str in *. cbn [is_empty parse_exp].
    cbn [mbind option_bind]. by rewrite Hn.
  - rewrite span_digits_app by (first [done | right; by eexists _, _]).
    rewrite app_String, app_nil_l_str. change (Ascii.eqb "." ".") with true. cbn iota.
    rewrite <- (app_nil_r_str (String x b)) at 1. rewrite span_digits_app by auto.
    rewrite app_String. cbn [is_empty parse_exp mbind option_bind]. rewrite <- app_String, Hn.
    done.
Qed.

Lemma iter_zero_digits j s n :
  str_all is_ascii_digit s = true → digits_val 0 s = Some n →
  str_all is_ascii_digit (Nat.iter j (String "0") s) = true ∧
  digits_val 0 (Nat.iter j (String "0") s) = Some n ∧
  strlen (Nat.iter j (String "0") s) = (j + strlen s)%nat.
Proof.
  intros Hs Hn. induction j as [|j (IH1 & IH2 & IH3)]; [done|]. cbn [Nat.iter].
  split; [by cbn [str_all]|]. split; [done|]. change (S (strlen (Nat.iter j (String "0") s)) = S (j + strlen s)). by rewrite IH3.
Qed.

Lemma show_fixed_parts k n :
  ∃ a b, str_all is_ascii_digit a = true ∧ str_all is_ascii_digit b = true ∧ a ≠ "" ∧
    strlen b = k ∧ digits_val 0 (a +:+ b) = Some n ∧
    show_fixed k n = a +:+ (if is_empty b then "" else "." +:+ b).
Proof.
  unfold show_fixed.
  destruct (iter_zero_digits (S k - strlen (to_string n)) (to_string n) n) as (H1 & H2 & H3);
    [apply to_string_digits|apply digits_val_to_string|].
  set (ds := Nat.iter (S k - strlen (to_string n)) (String "0") (to_string n)) in *.
  assert (k < strlen ds)%nat as Hlen.
  { rewrite H3. pose proof (to_string_nonempty n). destruct (to_string n); [done|simpl; lia]. }
  pose proof (str_take_drop (strlen ds - k) ds) as Hsplit.
  assert (strlen (str_drop (strlen ds - k) ds) = k) as Hb by (rewrite strlen_drop; lia).
  rewrite <- Hsplit, str_all_app in H1. apply andb_prop in H1 as [Ha Hb'].
  exists (str_take (strlen ds - k) ds), (str_drop (strlen ds - k) ds).
  repeat split; try done.
  - intros E. pose proof (strlen_take (strlen ds - k) ds ltac:(lia)) as E'. rewrite E in E'.
    simpl in E'. lia.
  - by rewrite Hsplit.
  - destruct k as [|k].
    + apply strlen_0 in Hb. rewrite Hb in *. cbn [is_empty]. rewrite <- Hsplit at 1.
      by rewrite !app_nil_r_str.
    + destruct (str_drop _ _); done.
Qed.

(** A decimal with [k] places that fits in 52 bits is printed as it was read. *)
Lemma fmt_parse_fixed k n :
  (k ≤ 300)%nat → n < 2 ^ 52 →
  fmt_fixed k <$> parse_f64 (show_fixed k n) = Some (show_fixed k n).
Proof.
  intros Hk Hn. destruct (show_fixed_parts k n) as (a & b & Ha & Hb & Hne & Hlen & Hv & E).
  rewrite E at 1. rewrite (parse_f64_decimal a b n) by done. cbn [fmap option_fmap option_map].
  f_equal. rewrite <- (fmt_fixed_round k n Hk Hn). f_equal. rewrite Hlen.
  unfold f64_of_decimal. destruct (Z.leb_spec 0 (- Z.of_nat k)).
  - assert (k = 0%nat) as -> by lia. simpl. by rewrite N.mul_1_r.
  - do 2 f_equal. lia.
Qed.

Example parse_tenth : parse_f64 "0.1" = Some (Fin false 7205759403792794 (-56)).
Proof. vm_compute. reflexivity. Qed.

Example fmt_ties_even :
  (fmt_fixed 1 <$> parse_f64 "0.25", fmt_fixed 1 <$> parse_f64 "-2.5e1", fmt_fixed 0 <$> parse_f64 "0.5",
   fmt_fixed 2 <$> parse_f64 "1e23", parse_f64 "1e309", parse_f64 "4e-324", parse_f64 ".", parse_f64 "+NaN")
  = (Some "0.2", Some "-25.0", Some "0", Some "99999999999999991611392.00", Some (Inf false),
     Some (Fin false 1 (-1074)), None, Some Nan).
Proof. vm_compute. reflexivity. Qed.

Example load_percent :
  fmt_fixed 2 (fdiv (fmul (f64_of_N 1) (f64_of_N 100)) (f64_of_N 3)) = "33.33" ∧
  fmt_fixed 2 (fsub (f64_of_N 100) (fmin (f64_of_N 7) (f64_of_N 100))) = "93.00".
Proof. vm_compute. split; reflexivity. Qed.
