(* ===== verification/Calendar.v ===== *)
(** * The clock of the host statistics ([iso_utc_now], crates/vdsm-host/src/stats.rs)

    The code turns seconds since the epoch into a calendar date with integer
    arithmetic.  The reference is the calendar itself: [next_day] on dates,
    with the lengths of the months and the rule for leap years. *)

From stdpp Require Import options.
From S2P Require Import Prelude RustStr.
Local Open Scope Z_scope.

(** ** The code *)

Record date := mkDate { year : Z; month : Z; day : Z }.

(** [u64 as i64] *)
Definition as_i64_wrap (n : N) : Z :=
  if (n <=? 9223372036854775807)%N then Z.of_N n else Z.of_N n - 2 ^ 64.

(** The date of a number of days since 1970-01-01; [/] on [i64] rounds toward
    zero, the casts to [u64] and [u32] are of values in range. *)
Definition civil_from_days (days : Z) : date :=
  let z := days + 719468 in
  let era := Z.quot (if 0 <=? z then z else z - 146096) 146097 in
  let doe := z - era * 146097 in
  let yoe := (doe - doe / 1460 + doe / 36524 - doe / 146096) / 365 in
  let y := yoe + era * 400 in
  let doy := doe - (365 * yoe + yoe / 4 - yoe / 100) in
  let mp := (5 * doy + 2) / 153 in
  let d := doy - (153 * mp + 2) / 5 + 1 in
  let m := if mp <? 10 then mp + 3 else mp - 9 in
  mkDate (y + if m <=? 2 then 1 else 0) m d.

Definition zero_pad (n : nat) : string := Nat.iter n (String "0") "".

(** [{n:0w}] *)
Definition pad (w : nat) (n : Z) : string :=
  let s := to_string (Z.abs_N n) in
  if n <? 0 then "-" +:+ zero_pad (w - 1 - strlen s) +:+ s
  else zero_pad (w - strlen s) +:+ s.

Definition format_utc (t : date) (hour minute second : Z) : string :=
  pad 4 (year t) +:+ "-" +:+ pad 2 (month t) +:+ "-" +:+ pad 2 (day t) +:+ " "
  +:+ pad 2 hour +:+ ":" +:+ pad 2 minute +:+ ":" +:+ pad 2 second +:+ " -0000".

Definition iso_utc (now : N) : string :=
  let secs := as_i64_wrap now in
  let days := secs / 86400 in
  let sec_of_day := secs mod 86400 in
  format_utc (civil_from_days days)
    (Z.quot sec_of_day 3600) (Z.quot (Z.rem sec_of_day 3600) 60) (Z.rem sec_of_day 60).

(** ** The calendar *)

Definition leap (y : Z) : bool :=
  (y mod 4 =? 0) && (negb (y mod 100 =? 0) || (y mod 400 =? 0)).

Definition days_in_month (y m : Z) : Z :=
  if m =? 2 then (if leap y then 29 else 28)
  else if (m =? 4) || (m =? 6) || (m =? 9) || (m =? 11) then 30 else 31.

Definition next_day (t : date) : date :=
  if day t <? days_in_month (year t) (month t) then mkDate (year t) (month t) (day t + 1)
  else if month t <? 12 then mkDate (year t) (month t + 1) 1
  else mkDate (year t + 1) 1 1.

Definition epoch : date := mkDate 1970 1 1.

(** The date [n] days after the epoch, counting one day at a time. *)
Definition date_after (n : nat) : date := Nat.iter n next_day epoch.

(** ** Years from March to February *)

(** Days of the year [yoe] of a 400-year era before its [doy]-th day. *)
Definition year_start (yoe : Z) : Z := 365 * yoe + yoe / 4 - yoe / 100.

(** The year that starts in March of [yoe] ends with the February of
    [yoe + 1]. *)
Definition year_len (yoe : Z) : Z := if leap (yoe + 1) then 366 else 365.

Definition year_sum (doe : Z) : Z := doe - doe / 1460 + doe / 36524 - doe / 146096.

Lemma year_sum_mono a b : 0 ≤ a ≤ b → b < 146097 → year_sum a ≤ year_sum b.
Proof.
  intros Hab Hb. unfold year_sum.
  Z.to_euclidean_division_equations. nia.
Qed.

(** The quotient that recovers the year, at both ends of each of the 400
    years of an era. *)
Definition year_ok (yoe : Z) : bool :=
  (365 * yoe <=? year_sum (year_start yoe)) &&
  (year_sum (year_start yoe + year_len yoe - 1) <? 365 * (yoe + 1)) &&
  (year_start yoe + year_len yoe =? year_start (yoe + 1) + if yoe =? 399 then 1 else 0).

Lemma year_ok_all yoe : 0 ≤ yoe < 400 → year_ok yoe = true.
Proof.
  intros Hy. assert (forallb year_ok (seqZ 0 400) = true) as Hall by reflexivity.
  rewrite forallb_forall in Hall. apply Hall, list_elem_of_In, elem_of_seqZ. lia.
Qed.

Lemma year_recovered yoe doy :
  0 ≤ yoe < 400 → 0 ≤ doy < year_len yoe →
  year_sum (year_start yoe + doy) / 365 = yoe ∧ 0 ≤ year_start yoe + doy < 146097.
Proof.
  intros Hy Hd. pose proof (year_ok_all yoe Hy) as Hok. unfold year_ok in Hok.
  assert (0 ≤ year_start yoe ∧ year_start yoe + year_len yoe ≤ 146097) as [H0 H1].
  { revert Hok. unfold year_start. intros Hok. breflect.
    destruct (yoe =? 399) eqn:E; Z.to_euclidean_division_equations; lia. }
  pose proof (year_sum_mono (year_start yoe) (year_start yoe + doy)).
  pose proof (year_sum_mono (year_start yoe + doy) (year_start yoe + year_len yoe - 1)).
  breflect. split; [|lia].
  symmetry. apply (Z.div_unique _ _ _ (year_sum (year_start yoe + doy) - 365 * yoe)); lia.
Qed.

(** The date of day [doy] (from March 1st) of a year, which lies in the month
    [mp] (March is 0). *)
Definition in_month (era yoe mp doy : Z) : date :=
  let m := if mp <? 10 then mp + 3 else mp - 9 in
  mkDate (yoe + era * 400 + if m <=? 2 then 1 else 0) m (doy - (153 * mp + 2) / 5 + 1).

Definition march_date (era yoe doy : Z) : date :=
  in_month era yoe ((5 * doy + 2) / 153) doy.

Lemma civil_from_march era yoe doy :
  0 ≤ yoe < 400 → 0 ≤ doy < year_len yoe →
  civil_from_days (era * 146097 + year_start yoe + doy - 719468) = march_date era yoe doy.
Proof.
  intros Hy Hd. destruct (year_recovered yoe doy Hy Hd) as [Hq Hr].
  unfold civil_from_days.
  replace (era * 146097 + year_start yoe + doy - 719468 + 719468)
    with (era * 146097 + (year_start yoe + doy)) by lia.
  set (doe := year_start yoe + doy) in *.
  assert (Z.quot (if 0 <=? era * 146097 + doe then era * 146097 + doe
                  else era * 146097 + doe - 146096) 146097 = era) as ->.
  { destruct (0 <=? era * 146097 + doe) eqn:E; Z.to_euclidean_division_equations; lia. }
  replace (era * 146097 + doe - era * 146097) with doe by lia.
  fold (year_sum doe). rewrite Hq. fold (year_start yoe).
  replace (doe - year_start yoe) with doy by (unfold doe; lia). done.
Qed.

(** Every day lies in one such year. *)
Lemma days_march days :
  ∃ era yoe doy, 0 ≤ yoe < 400 ∧ 0 ≤ doy < year_len yoe ∧
    days = era * 146097 + year_start yoe + doy - 719468.
Proof.
  set (z := days + 719468). set (doe := z mod 146097).
  assert (0 ≤ doe < 146097) as Hdoe by (apply Z.mod_pos_bound; lia).
  assert (∃ yoe, 0 ≤ yoe < 400 ∧ year_start yoe ≤ doe < year_start yoe + year_len yoe)
    as (yoe & Hy & Hs).
  { assert (∀ n : nat, (n ≤ 400)%nat → doe < year_start (Z.of_nat n) + (if Z.of_nat n =? 400 then 1 else 0) →
      ∃ yoe, 0 ≤ yoe < 400 ∧ year_start yoe ≤ doe < year_start yoe + year_len yoe) as Hn.
    { induction n as [|n IH]; intros Hle Hlt; [change (doe < 0) in Hlt; lia|].
      destruct (decide (year_start (Z.of_nat n) ≤ doe)) as [Hge|Hlt'].
      - exists (Z.of_nat n). split; [lia|]. split; [done|].
        pose proof (year_ok_all (Z.of_nat n) ltac:(lia)) as Hok. unfold year_ok in Hok.
        rewrite Nat2Z.inj_succ in Hlt. unfold Z.succ in Hlt.
        assert ((Z.of_nat n + 1 =? 400) = (Z.of_nat n =? 399)) as Heq by lia.
        rewrite Heq in Hlt.
        breflect. lia.
      - apply IH; [lia|]. destruct (Z.of_nat n =? 400); lia. }
    apply (Hn 400%nat); [done|].
    change (doe < 146097). lia. }
  exists (z / 146097), yoe, (doe - year_start yoe). split; [done|]. split; [lia|].
  pose proof (Z.div_mod z 146097). unfold doe, z in *. lia.
Qed.

Lemma leap_shift era y : leap (y + era * 400) = leap y.
Proof.
  unfold leap.
  replace ((y + era * 400) mod 4) with (y mod 4) by (Z.to_euclidean_division_equations; lia).
  replace ((y + era * 400) mod 100) with (y mod 100) by (Z.to_euclidean_division_equations; lia).
  replace ((y + era * 400) mod 400) with (y mod 400) by (Z.to_euclidean_division_equations; lia).
  done.
Qed.

(** Day [doy] of a year that starts in March lies in month [mp], whose first
    day is [(153 * mp + 2) / 5]. *)
Lemma march_month doy :
  0 ≤ doy < 366 →
  ∃ mp, (5 * doy + 2) / 153 = mp ∧ 0 ≤ mp < 12 ∧
        (153 * mp + 2) / 5 ≤ doy < (153 * (mp + 1) + 2) / 5.
Proof.
  intros Hd. exists ((5 * doy + 2) / 153). split; [done|].
  Z.to_euclidean_division_equations. lia.
Qed.

(** Evaluate the arithmetic of literals in the goal and the hypotheses. *)
Ltac zlit t :=
  lazymatch t with
  | Z0 => idtac | Zpos _ => idtac | Zneg _ => idtac
  | ?a + ?b => zlit a; zlit b | ?a - ?b => zlit a; zlit b
  | ?a * ?b => zlit a; zlit b | ?a / ?b => zlit a; zlit b
  end.
Ltac zground :=
  repeat match goal with
  | |- context [?a <? ?b] => zlit a; zlit b; let v := eval vm_compute in (a <? b) in change (a <? b) with v; cbv iota
  | |- context [?a <=? ?b] => zlit a; zlit b; let v := eval vm_compute in (a <=? b) in change (a <=? b) with v; cbv iota
  | |- context [?a =? ?b] => zlit a; zlit b; let v := eval vm_compute in (a =? b) in change (a =? b) with v; cbv iota
  | |- context [?a / ?b] => zlit a; zlit b; let v := eval vm_compute in (a / b) in change (a / b) with v
  | H : context [?a / ?b] |- _ => zlit a; zlit b; let v := eval vm_compute in (a / b) in change (a / b) with v in H
  end; cbn [orb andb negb]; cbv iota.

Ltac month_cases mp :=
  assert (mp = 0 ∨ mp = 1 ∨ mp = 2 ∨ mp = 3 ∨ mp = 4 ∨ mp = 5 ∨ mp = 6 ∨ mp = 7 ∨
          mp = 8 ∨ mp = 9 ∨ mp = 10 ∨ mp = 11) as Hcase by lia;
  destruct_or! Hcase; subst mp; zground.

(** The length of a month is the distance to the next one; the last one,
    February, takes what is left of the year. *)
Lemma in_month_length era yoe mp :
  0 ≤ yoe < 400 → 0 ≤ mp < 12 →
  let t := in_month era yoe mp 0 in
  days_in_month (year t) (month t) =
  (if mp =? 11 then year_len yoe else (153 * (mp + 1) + 2) / 5) - (153 * mp + 2) / 5.
Proof.
  intros Hy Hm. unfold in_month, days_in_month, year_len; cbn [year month].
  assert (leap (yoe + era * 400 + 1) = leap (yoe + 1)) as HL.
  { rewrite <- (leap_shift era (yoe + 1)). f_equal. lia. }
  month_cases mp; rewrite ?HL; repeat case_match; try done; lia.
Qed.

(** Within a year the next day of the code is the next day of the calendar. *)
Lemma march_date_next era yoe doy :
  0 ≤ yoe < 400 → 0 ≤ doy → doy + 1 < year_len yoe →
  march_date era yoe (doy + 1) = next_day (march_date era yoe doy).
Proof.
  intros Hy Hd Hl. assert (year_len yoe ≤ 366) as Hb by (unfold year_len; case_match; lia).
  destruct (march_month doy) as (mp & E & Hmp & Hm); [lia|].
  destruct (march_month (doy + 1)) as (mp' & E' & Hmp' & Hm'); [lia|].
  unfold march_date. rewrite E, E'. unfold in_month at 1 2.
  pose proof (in_month_length era yoe mp Hy Hmp) as HL.
  unfold next_day. unfold in_month in *. cbn [year month day] in *. rewrite HL.
  assert (mp' = mp ∨ mp' = mp + 1 ∧ (153 * mp' + 2) / 5 = doy + 1) as [-> | [-> Heq]]
    by (Z.to_euclidean_division_equations; lia).
  - destruct (Z.ltb_spec (doy - (153 * mp + 2) / 5 + 1)
      ((if mp =? 11 then year_len yoe else (153 * (mp + 1) + 2) / 5) - (153 * mp + 2) / 5))
      as [_|Hge]; [f_equal; lia|]. destruct (mp =? 11); lia.
  - assert (mp < 11) as Hlt by lia. rewrite Heq.
    assert ((mp =? 11) = false) as -> by lia.
    destruct (Z.ltb_spec (doy - (153 * mp + 2) / 5 + 1) (doy + 1 - (153 * mp + 2) / 5))
      as [?|_]; [lia|].
    clear -Hlt Hmp. month_cases mp; f_equal; lia.
Qed.

Lemma year_next era yoe :
  0 ≤ yoe < 400 →
  march_date (if yoe =? 399 then era + 1 else era) (if yoe =? 399 then 0 else yoe + 1) 0
  = next_day (march_date era yoe (year_len yoe - 1)).
Proof.
  intros Hy. unfold march_date. change ((5 * 0 + 2) / 153) with 0.
  assert ((5 * (year_len yoe - 1) + 2) / 153 = 11) as ->.
  { unfold year_len. by case_match. }
  pose proof (in_month_length era yoe 11 Hy ltac:(lia)) as HL.
  unfold next_day, in_month in *. cbn [year month day] in *. rewrite HL. zground.
  destruct (Z.ltb_spec (year_len yoe - 1 - 337 + 1) (year_len yoe - 337)) as [?|_]; [lia|].
  destruct (Z.eqb_spec yoe 399) as [->|Hne]; f_equal; lia.
Qed.

(** One more day is the next day of the calendar. *)
Lemma civil_next days : civil_from_days (days + 1) = next_day (civil_from_days days).
Proof.
  destruct (days_march days) as (era & yoe & doy & Hy & Hd & ->).
  rewrite civil_from_march by done.
  destruct (decide (doy + 1 < year_len yoe)) as [Hlt|Hge].
  - rewrite <- march_date_next, <- civil_from_march by lia. f_equal. lia.
  - assert (doy = year_len yoe - 1) as -> by lia. rewrite <- year_next by done.
    pose proof (year_ok_all yoe Hy) as Hok. unfold year_ok in Hok. breflect.
    rewrite <- civil_from_march.
    + f_equal. destruct (decide (yoe = 399)) as [->|Hne].
      { zground. change (year_start 399) with 145731. change (year_len 399) with 366.
        change (year_start 0) with 0. lia. }
      assert ((yoe =? 399) = false) as E by lia. rewrite E in *. lia.
    + destruct (Z.eqb_spec yoe 399); lia.
    + split; [done|]. unfold year_len. destruct (leap _); lia.
Qed.

Lemma civil_date_after n : civil_from_days (Z.of_nat n) = date_after n.
Proof.
  induction n as [|n IH]; [done|]. rewrite Nat2Z.inj_succ. unfold Z.succ.
  by rewrite civil_next, IH.
Qed.

(** ** Well-formed dates *)

Definition valid_date (t : date) : Prop :=
  1 ≤ month t ≤ 12 ∧ 1 ≤ day t ≤ days_in_month (year t) (month t).

Lemma days_in_month_range y m : 28 ≤ days_in_month y m ≤ 31.
Proof. unfold days_in_month. repeat case_match; lia. Qed.

Lemma next_day_valid t : valid_date t → valid_date (next_day t).
Proof.
  intros [Hm Hd]. unfold next_day. pose proof (days_in_month_range (year t) (month t + 1)).
  pose proof (days_in_month_range (year t + 1) 1).
  repeat case_match; (split; cbn [year month day]; lia).
Qed.

Lemma date_after_valid n : valid_date (date_after n).
Proof.
  induction n as [|n IH]; [repeat split; vm_compute; congruence|]. by apply next_day_valid.
Qed.

(** C35: the clock reported in the statistics is the calendar: for every time
    up to 2^63 seconds it is the date reached from 1970-01-01 by stepping
    day by day through the Gregorian calendar, with the hours, minutes and
    seconds left over, and that date is a valid one. *)
Theorem iso_utc_calendar (now : N) :
  (now < 2 ^ 63)%N →
  let t := date_after (N.to_nat (now / 86400)) in
  let s := Z.of_N (now mod 86400) in
  iso_utc now = format_utc t (s / 3600) (s / 60 mod 60) (s mod 60) ∧
  valid_date t ∧ 0 ≤ s / 3600 < 24.
Proof.
  intros Hn t s. assert (as_i64_wrap now = Z.of_N now) as Hw.
  { unfold as_i64_wrap. change (2 ^ 63)%N with 9223372036854775808%N in Hn.
    destruct (N.leb_spec now 9223372036854775807); lia. }
  assert (0 ≤ s < 86400) as Hs.
  { unfold s. rewrite N2Z.inj_mod. apply Z.mod_pos_bound. lia. }
  split; [|split; [apply date_after_valid|Z.to_euclidean_division_equations; lia]].
  unfold iso_utc. rewrite Hw.
  replace (Z.of_N now / 86400) with (Z.of_nat (N.to_nat (now / 86400)))
    by (rewrite N_nat_Z, N2Z.inj_div; done).
  replace (Z.of_N now mod 86400) with s by (unfold s; by rewrite N2Z.inj_mod).
  rewrite civil_date_after. f_equal; Z.to_euclidean_division_equations; lia.
Qed.

Lemma iso_utc_calendar_witness :
  iso_utc 951782400 = format_utc (mkDate 2000 2 29) 0 0 0 ∧
  valid_date (date_after (N.to_nat 11016)).
Proof.
  destruct (iso_utc_calendar 951782400) as (E & Hv & _); [reflexivity|]. split; [|exact Hv].
  rewrite E. vm_compute. reflexivity.
Defined.

Example iso_utc_2023 : iso_utc 1700000000 = "2023-11-14 22:13:20 -0000".
Proof. vm_compute. reflexivity. Qed.
