(* ===== verification/Stomp.v ===== *)
(** * STOMP 1.2 frames (crates/vdsm-rpc/src/stomp.rs)

    The framing layer: [Frame], its serializer [to_bytes], the parser
    [parse_frame] with its helpers, and the builders of module [build].  The
    parser works on a byte buffer and answers "complete frame and what is left",
    "incomplete", an error, or a panic: [cursor.len() < n + 1] wraps for the
    largest [usize], and the slice behind it is then out of range. *)

From stdpp Require Import options.
From S2P Require Import Prelude Utf8 RustStr.

(** What a call does: return a value or panic. *)
Inductive outcome (A : Type) : Type :=
| Returns (a : A)
| Panics.
Arguments Returns {A} a.
Arguments Panics {A}.

(** ** Data *)

Record Frame := mkFrame {
  command : string;
  headers : list (string * string);
  body : bytes
}.

#[export] Instance Frame_eq_dec : EqDecision Frame.
Proof. solve_decision. Defined.

Inductive ParseError : Type :=
| Malformed (msg : string)
| Utf8 (e : Utf8Error)
| ContentLengthMismatch (declared actual : N)
| BadContentLength (v : string).

(** [Utf8Error]'s and [ParseError]'s [Display]. *)
Definition utf8_error_display (e : Utf8Error) : string :=
  match error_len e with
  | Some l => "invalid utf-8 sequence of " +:+ to_string l +:+ " bytes from index "
              +:+ to_string (valid_up_to e)
  | None => "incomplete utf-8 byte sequence from index " +:+ to_string (valid_up_to e)
  end.

Definition parse_error_display (e : ParseError) : string :=
  match e with
  | Malformed m => "malformed frame: " +:+ m
  | Utf8 u => "invalid utf-8 in command or header: " +:+ utf8_error_display u
  | ContentLengthMismatch d a =>
      "declared content-length " +:+ to_string d
      +:+ " disagrees with body terminator at " +:+ to_string a
  | BadContentLength v => "invalid content-length header: " +:+ v
  end.

(** ** Frame methods *)

Definition frame_new (c : string) : Frame := mkFrame c [] "".

Definition with_header (k v : string) (f : Frame) : Frame :=
  mkFrame (command f) (headers f ++ [(k, v)]) (body f).

Definition with_body (b : bytes) (f : Frame) : Frame :=
  mkFrame (command f) (headers f) b.

(** [Frame::header]: the first match wins. *)
Definition header (name : string) (f : Frame) : option string :=
  assoc_first name (headers f).

(** ** Escaping *)

Definition backslash : ascii := "\".

Fixpoint escape_header (s : string) : string :=
  match s with
  | EmptyString => ""
  | String c s' =>
      (if Ascii.eqb c backslash then String backslash (String backslash "")
       else if Ascii.eqb c CR then String backslash "r"
       else if Ascii.eqb c LF then String backslash "n"
       else if Ascii.eqb c ":" then String backslash "c"
       else String c "") +:+ escape_header s'
  end.

Fixpoint unescape_header (s : string) : string :=
  match s with
  | EmptyString => ""
  | String c s' =>
      if Ascii.eqb c backslash then
        match s' with
        | EmptyString => String backslash ""
        | String d s'' =>
            if Ascii.eqb d backslash then String backslash (unescape_header s'')
            else if Ascii.eqb d "r" then String CR (unescape_header s'')
            else if Ascii.eqb d "n" then String LF (unescape_header s'')
            else if Ascii.eqb d "c" then String ":" (unescape_header s'')
            else String backslash (String d (unescape_header s''))
        end
      else String c (unescape_header s')
  end.

(** ** Serializer *)

Fixpoint header_bytes (hs : list (string * string)) : bytes :=
  match hs with
  | [] => ""
  | (k, v) :: hs' =>
      escape_header k +:+ String ":" (escape_header v +:+ String LF (header_bytes hs'))
  end.

Definition to_bytes (f : Frame) : bytes :=
  command f +:+ String LF (header_bytes (headers f) +:+ String LF (body f +:+ String NUL "")).

(** ** Parser *)

Fixpoint skip_heartbeats (input : bytes) : bytes :=
  match input with
  | EmptyString => ""
  | String c s =>
      if Ascii.eqb c LF then skip_heartbeats s
      else if Ascii.eqb c CR then
        match s with
        | String d s' => if Ascii.eqb d LF then skip_heartbeats s' else input
        | EmptyString => input
        end
      else input
  end.

Definition strip_cr (line : bytes) : bytes :=
  match str_last line with
  | Some c => if Ascii.eqb c CR then str_take (strlen line - 1) line else line
  | None => line
  end.

Definition memchr : ascii → bytes → option nat := find_byte.

(** One non-blank header line: its key and value. *)
Definition parse_header_line (raw_line : bytes) : result (string * string) ParseError :=
  match memchr ":" raw_line with
  | None => Err (Malformed "header line missing ':'")
  | Some colon =>
      match from_utf8 (str_take colon raw_line) with
      | Err e => Err (Utf8 e)
      | Ok key_raw =>
          match from_utf8 (str_drop (S colon) raw_line) with
          | Err e => Err (Utf8 e)
          | Ok val_raw => Ok (unescape_header key_raw, unescape_header val_raw)
          end
      end
  end.

(** The length pinned so far, after one more header. *)
Definition note_content_length (kv : string * string) (cl : option N)
  : result (option N) ParseError :=
  if String.eqb (fst kv) "content-length" && bool_decide (cl = None) then
    match parse_usize (snd kv) with
    | Some n => Ok (Some n)
    | None => Err (BadContentLength (snd kv))
    end
  else Ok cl.

(** The header loop.  Each round drops a line from [cursor], so [fuel] larger
    than the buffer never runs out ([header_loop_eq]). *)
Fixpoint header_loop_go (fuel : nat) (cursor : bytes)
    (hs : list (string * string)) (cl : option N)
  : result (option (bytes * list (string * string) * option N)) ParseError :=
  match fuel with
  | O => Ok None
  | S fuel' =>
      match memchr LF cursor with
      | None => Ok None
      | Some line_end =>
          let raw_line := strip_cr (str_take line_end cursor) in
          let cursor' := str_drop (S line_end) cursor in
          if is_empty raw_line then Ok (Some (cursor', hs, cl))
          else
            match parse_header_line raw_line with
            | Err e => Err e
            | Ok kv =>
                match note_content_length kv cl with
                | Err e => Err e
                | Ok cl' => header_loop_go fuel' cursor' (hs ++ [kv]) cl'
                end
            end
      end
  end.

Definition header_loop (cursor : bytes) (hs : list (string * string)) (cl : option N) :=
  header_loop_go (S (strlen cursor)) cursor hs cl.

Definition parse_body (cursor : bytes) (content_length : option N)
  : outcome (result (option (bytes * bytes)) ParseError) :=
  match content_length with
  | Some n =>
      if (N.of_nat (strlen cursor) <? wadd64 n 1)%N then Returns (Ok None)
      else if (N.of_nat (strlen cursor) <? n)%N then Panics
      else
        let i := N.to_nat n in
        match str_nth i cursor with
        | None => Panics
        | Some b =>
            if Ascii.eqb b NUL then
              Returns (Ok (Some (str_take i cursor, str_drop (S i) cursor)))
            else
              Returns (Err (ContentLengthMismatch n
                (match find_byte NUL (str_take i cursor) with
                 | Some p => N.of_nat p
                 | None => n
                 end)))
        end
  | None =>
      match memchr NUL cursor with
      | None => Returns (Ok None)
      | Some nul => Returns (Ok (Some (str_take nul cursor, str_drop (S nul) cursor)))
      end
  end.

Definition parse_frame (input : bytes)
  : outcome (result (option (Frame * bytes)) ParseError) :=
  let cursor := skip_heartbeats input in
  if is_empty cursor then Returns (Ok None)
  else
    match memchr LF cursor with
    | None => Returns (Ok None)
    | Some line_end =>
        let command_line := strip_cr (str_take line_end cursor) in
        if is_empty command_line then Returns (Err (Malformed "empty command line"))
        else
          match from_utf8 command_line with
          | Err e => Returns (Err (Utf8 e))
          | Ok cmd =>
              match header_loop (str_drop (S line_end) cursor) [] None with
              | Err e => Returns (Err e)
              | Ok None => Returns (Ok None)
              | Ok (Some (cursor', hs, cl)) =>
                  match parse_body cursor' cl with
                  | Panics => Panics
                  | Returns (Err e) => Returns (Err e)
                  | Returns (Ok None) => Returns (Ok None)
                  | Returns (Ok (Some (b, remaining))) =>
                      Returns (Ok (Some (mkFrame cmd hs b, remaining)))
                  end
              end
          end
    end.

(** ** Builders (module [build]) *)

Definition build_connected (version server : string) (session : option string) : Frame :=
  let f := with_header "heart-beat" "0,0"
            (with_header "server" server
              (with_header "version" version (frame_new "CONNECTED"))) in
  match session with
  | Some s => with_header "session" s f
  | None => f
  end.

Definition build_message (destination subscription : string) (b : bytes) : Frame :=
  with_body b
    (with_header "content-length" (to_string (N.of_nat (strlen b)))
      (with_header "content-type" "application/json"
        (with_header "subscription" subscription
          (with_header "destination" destination (frame_new "MESSAGE"))))).

Definition build_error (message b : string) : Frame :=
  with_body b
    (with_header "content-length" (to_string (N.of_nat (strlen b)))
      (with_header "content-type" "text/plain"
        (with_header "message" message (frame_new "ERROR")))).

Definition build_receipt (receipt_id : string) : Frame :=
  with_header "receipt-id" receipt_id (frame_new "RECEIPT").

(** ** Escaping is invertible and injection-free *)

Lemma unescape_escape s : unescape_header (escape_header s) = s.
Proof.
  induction s as [|c s IH]; [done|]. cbn [escape_header].
  destruct (Ascii.eqb_spec c backslash) as [->|H1]; [rewrite !app_String; simpl; by rewrite app_nil_l_str, IH|].
  destruct (Ascii.eqb_spec c CR) as [->|H2]; [rewrite !app_String; simpl; by rewrite app_nil_l_str, IH|].
  destruct (Ascii.eqb_spec c LF) as [->|H3]; [rewrite !app_String; simpl; by rewrite app_nil_l_str, IH|].
  destruct (Ascii.eqb_spec c ":") as [->|H4]; [rewrite !app_String; simpl; by rewrite app_nil_l_str, IH|].
  rewrite app_String, app_nil_l_str. simpl.
  apply Ascii.eqb_neq in H1. by rewrite H1, IH.
Qed.

Lemma escape_no_byte b s :
  b = LF ∨ b = CR ∨ b = ":"%char → has_byte b (escape_header s) = false.
Proof.
  intros Hb. induction s as [|c s IH]; [done|]. cbn [escape_header].
  rewrite has_byte_app, IH, orb_false_r.
  destruct (Ascii.eqb_spec c backslash); [by destruct_or! Hb; subst|].
  destruct (Ascii.eqb_spec c CR); [by destruct_or! Hb; subst|].
  destruct (Ascii.eqb_spec c LF); [by destruct_or! Hb; subst|].
  destruct (Ascii.eqb_spec c ":"); [by destruct_or! Hb; subst|].
  simpl. rewrite orb_false_r. apply Ascii.eqb_neq. destruct_or! Hb; congruence.
Qed.

Lemma escape_utf8_run st s st' :
  u8_wf st → utf8_run st s = Some st' → utf8_run st (escape_header s) = Some st'.
Proof.
  revert st. induction s as [|c s IH]; intros st Hwf; [done|]. cbn [escape_header].
  cbn [utf8_run]. destruct (utf8_next st c) as [st1|] eqn:E; [|done]. cbn. intros Hr.
  assert (Hasc : ∀ e, is_ascii c = true → is_ascii e = true →
     utf8_run st (String backslash (String e "") +:+ escape_header s) = Some st').
  { intros e Hc He. destruct (utf8_next_ascii_inv _ _ _ Hwf Hc E) as [-> ->].
    rewrite utf8_run_app. rewrite !utf8_run_ascii_0 by done. simpl. by apply IH. }
  destruct (Ascii.eqb_spec c backslash) as [->|_]; [by apply Hasc|].
  destruct (Ascii.eqb_spec c CR) as [->|_]; [by apply Hasc|].
  destruct (Ascii.eqb_spec c LF) as [->|_]; [by apply Hasc|].
  destruct (Ascii.eqb_spec c ":") as [->|_]; [by apply Hasc|].
  rewrite app_String, app_nil_l_str. cbn [utf8_run]. rewrite E. simpl.
  eapply IH; [|done]. by eapply u8_wf_next.
Qed.

Lemma escape_utf8 s : utf8_valid s = true → utf8_valid (escape_header s) = true.
Proof. rewrite !utf8_valid_true. by apply escape_utf8_run. Qed.

(** Unescaping a valid string gives a valid string. *)
Lemma unescape_utf8_run n st s :
  strlen s ≤ n → u8_wf st → utf8_run st s = Some U0 →
  utf8_run st (unescape_header s) = Some U0.
Proof.
  revert st s. induction n as [|n IH]; intros st s Hn Hwf Hr.
  { by rewrite (strlen_0 s) in * by lia. }
  destruct s as [|c s]; [done|]. simpl in Hn. cbn [unescape_header].
  destruct (Ascii.eqb_spec c backslash) as [->|_].
  - apply utf8_run_ascii in Hr as [-> Hr]; [|done..].
    destruct s as [|d s]; [done|]. simpl in Hn.
    assert (Hd : ∀ e, is_ascii d = true → is_ascii e = true →
        utf8_run U0 (String e (unescape_header s)) = Some U0).
    { intros e Hd He. apply utf8_run_ascii in Hr as [_ Hr]; [|done..].
      rewrite utf8_run_ascii_0 by done. apply IH; [lia|done..]. }
    destruct (Ascii.eqb_spec d backslash) as [->|_]; [by apply Hd|].
    destruct (Ascii.eqb_spec d "r") as [->|_]; [by apply Hd|].
    destruct (Ascii.eqb_spec d "n") as [->|_]; [by apply Hd|].
    destruct (Ascii.eqb_spec d "c") as [->|_]; [by apply Hd|].
    rewrite utf8_run_ascii_0 by done. cbn [utf8_run] in *.
    destruct (utf8_next U0 d) as [st'|] eqn:E; [|done]. simpl in *.
    apply IH; [lia|exact (u8_wf_next U0 _ _ I E)|done].
  - cbn [utf8_run] in *. destruct (utf8_next st c) as [st'|] eqn:E; [|done]. simpl in *.
    apply IH; [lia|exact (u8_wf_next _ _ _ Hwf E)|done].
Qed.

Lemma unescape_utf8 s : utf8_valid s = true → utf8_valid (unescape_header s) = true.
Proof. rewrite !utf8_valid_true. by apply (unescape_utf8_run (strlen s)). Qed.

#[export] Hint Resolve escape_utf8 unescape_utf8 : vdsm.

(** ** The header loop without its fuel *)

Lemma header_loop_fuel fuel cursor hs cl :
  strlen cursor < fuel → header_loop_go fuel cursor hs cl = header_loop cursor hs cl.
Proof.
  unfold header_loop. revert cursor hs cl.
  assert (∀ n m cursor hs cl, strlen cursor < n → strlen cursor < m →
    header_loop_go n cursor hs cl = header_loop_go m cursor hs cl) as Hgo.
  { induction n as [|n IH]; intros [|m] cursor hs cl Hn Hm; [lia..|]. simpl.
    unfold memchr. destruct (find_byte LF cursor) as [e|] eqn:E; [|done].
    pose proof (find_byte_lt _ _ _ E).
    destruct (is_empty _); [done|]. destruct (parse_header_line _) as [kv|]; [|done].
    destruct (note_content_length kv cl) as [cl'|]; [|done].
    apply IH; rewrite strlen_drop; lia. }
  intros. apply Hgo; lia.
Qed.

Lemma header_loop_eq cursor hs cl :
  header_loop cursor hs cl =
  match find_byte LF cursor with
  | None => Ok None
  | Some line_end =>
      let raw_line := strip_cr (str_take line_end cursor) in
      let cursor' := str_drop (S line_end) cursor in
      if is_empty raw_line then Ok (Some (cursor', hs, cl))
      else
        match parse_header_line raw_line with
        | Err e => Err e
        | Ok kv =>
            match note_content_length kv cl with
            | Err e => Err e
            | Ok cl' => header_loop cursor' (hs ++ [kv]) cl'
            end
        end
  end.
Proof.
  unfold header_loop at 1. simpl. unfold memchr.
  destruct (find_byte LF cursor) as [e|] eqn:E; [|done]. cbv zeta.
  pose proof (find_byte_lt _ _ _ E).
  destruct (is_empty _); [done|]. destruct (parse_header_line _) as [kv|]; [|done].
  destruct (note_content_length kv cl) as [cl'|]; [|done].
  apply header_loop_fuel. rewrite strlen_drop. lia.
Qed.

(** A cursor that holds a whole line: the loop acts on the line. *)
Lemma header_loop_line line rest hs cl :
  has_byte LF line = false →
  header_loop (line +:+ String LF rest) hs cl =
  if is_empty (strip_cr line) then Ok (Some (rest, hs, cl))
  else
    match parse_header_line (strip_cr line) with
    | Err e => Err e
    | Ok kv =>
        match note_content_length kv cl with
        | Err e => Err e
        | Ok cl' => header_loop rest (hs ++ [kv]) cl'
        end
    end.
Proof.
  intros Hl. rewrite header_loop_eq, find_byte_app_hit by done. cbv zeta.
  by rewrite str_take_app, str_drop_S_app.
Qed.

Lemma strip_cr_noop line : str_last line ≠ Some CR → strip_cr line = line.
Proof.
  unfold strip_cr. destruct (str_last line) as [c|]; [|done].
  destruct (Ascii.eqb_spec c CR); congruence.
Qed.

Lemma no_cr_last line : has_byte CR line = false → str_last line ≠ Some CR.
Proof. intros H ?%has_byte_last. congruence. Qed.
