(* ===== verification/StompFacts.v ===== *)
(** * Correctness of the STOMP codec

    Round trip of [to_bytes] and [parse_frame], stability of the parser under
    more input, exact panic condition, progress and well-formedness of what it
    returns. *)

From stdpp Require Import options.
From S2P Require Import Prelude Utf8 RustStr Stomp.

(** ** Header blocks *)

(** [note_content_length] over a header list. *)
Fixpoint note_all (hs : list (string * string)) (cl : option N)
  : result (option N) ParseError :=
  match hs with
  | [] => Ok cl
  | kv :: hs' =>
      match note_content_length kv cl with
      | Ok cl' => note_all hs' cl'
      | Err e => Err e
      end
  end.

Definition headers_utf8 (hs : list (string * string)) : bool :=
  forallb (λ kv, utf8_valid (fst kv) && utf8_valid (snd kv)) hs.

Lemma parse_header_line_escaped k v :
  utf8_valid k = true → utf8_valid v = true →
  parse_header_line (escape_header k +:+ String ":" (escape_header v)) = Ok (k, v).
Proof.
  intros Hk Hv. unfold parse_header_line, memchr.
  rewrite find_byte_app_hit by (apply escape_no_byte; auto).
  rewrite str_take_app, str_drop_S_app.
  rewrite !from_utf8_valid by auto with vdsm. by rewrite !unescape_escape.
Qed.

Lemma header_loop_headers hs rest acc cl :
  headers_utf8 hs = true →
  header_loop (header_bytes hs +:+ String LF rest) acc cl =
  match note_all hs cl with
  | Ok cl' => Ok (Some (rest, acc ++ hs, cl'))
  | Err e => Err e
  end.
Proof.
  revert acc cl. induction hs as [|[k v] hs IH]; intros acc cl; simpl.
  { intros _. rewrite app_nil_l_str.
    change (String LF rest) with ("" +:+ String LF rest).
    rewrite header_loop_line by done. simpl. by rewrite app_nil_r. }
  intros H. breflect.
  rewrite app_assoc_str, app_String, app_assoc_str, app_String, <- app_String, <- app_assoc_str.
  assert (Hno : ∀ b, b = LF ∨ b = CR →
     has_byte b (escape_header k +:+ String ":" (escape_header v)) = false).
  { intros b Hb. rewrite has_byte_app. simpl. rewrite !escape_no_byte by tauto.
    by destruct Hb; subst. }
  rewrite header_loop_line by auto.
  rewrite strip_cr_noop by (apply no_cr_last; auto).
  rewrite parse_header_line_escaped by done.
  destruct (is_empty _) eqn:E.
  { by destruct (escape_header k). }
  destruct (note_content_length (k, v) cl) as [cl'|e]; [|done].
  rewrite IH by done. by rewrite <- app_assoc.
Qed.

Lemma note_all_Some hs n : note_all hs (Some n) = Ok (Some n).
Proof.
  induction hs as [|kv hs IH]; [done|]. simpl. unfold note_content_length.
  by rewrite andb_false_r.
Qed.

Lemma note_all_None hs :
  note_all hs None =
  match assoc_first "content-length" hs with
  | None => Ok None
  | Some v => match parse_usize v with
              | Some n => Ok (Some n)
              | None => Err (BadContentLength v)
              end
  end.
Proof.
  induction hs as [|[k v] hs IH]; [done|]. cbn [note_all assoc_first].
  unfold note_content_length. cbn [fst snd].
  destruct (String.eqb k "content-length"); [|done]. simpl.
  destruct (parse_usize v); [|done]. apply note_all_Some.
Qed.

(** ** Heartbeats *)

(** A run of keep-alives: [true] is [\r\n], [false] is [\n]. *)
Fixpoint heartbeats (hb : list bool) : bytes :=
  match hb with
  | [] => ""
  | true :: hb' => String CR (String LF (heartbeats hb'))
  | false :: hb' => String LF (heartbeats hb')
  end.

Lemma skip_heartbeats_run hb s : skip_heartbeats (heartbeats hb +:+ s) = skip_heartbeats s.
Proof. by induction hb as [|[] hb IH]. Qed.

(** A command line that can be read back. *)
Definition command_ok (c : string) : bool :=
  negb (is_empty c) && negb (has_byte LF c) && negb (bool_decide (str_last c = Some CR))
  && utf8_valid c.

Lemma skip_heartbeats_command c s :
  command_ok c = true → skip_heartbeats (c +:+ String LF s) = c +:+ String LF s.
Proof.
  unfold command_ok. intros H. breflect.
  destruct c as [|a c]; [done|]. rewrite app_String. cbn [skip_heartbeats].
  cbn [has_byte] in *. breflect.
  destruct (Ascii.eqb_spec a LF); [done|].
  destruct (Ascii.eqb_spec a CR) as [->|]; [|done].
  destruct c as [|b c]; [done|]. rewrite app_String. cbn [has_byte] in *. breflect.
  by destruct (Ascii.eqb_spec b LF).
Qed.

(** ** Round trip *)

(** The frames the wire format can carry: a command line that survives, valid
    UTF-8 headers, and a body whose end the receiver can find: pinned by the
    first [content-length], or free of NUL. *)
Definition frame_ok (f : Frame) : bool :=
  command_ok (command f) && headers_utf8 (headers f) &&
  match header "content-length" f with
  | Some v => bool_decide (parse_usize v = Some (N.of_nat (strlen (body f))))
              && (N.of_nat (strlen (body f)) <? usize_max)%N
  | None => negb (has_byte NUL (body f))
  end.

Lemma wadd64_small n : (n < usize_max)%N → wadd64 n 1 = (n + 1)%N.
Proof. intros H. apply N.mod_small. unfold usize_max in H. lia. Qed.

Lemma parse_body_pinned b rest n :
  n = N.of_nat (strlen b) → (n < usize_max)%N →
  parse_body (b +:+ String NUL rest) (Some n) = Returns (Ok (Some (b, rest))).
Proof.
  intros Hn Hlt. unfold parse_body. rewrite wadd64_small by done.
  rewrite strlen_app. cbn [String.length].
  destruct (N.ltb_spec (N.of_nat (strlen b + S (strlen rest))) (n + 1)); [lia|].
  destruct (N.ltb_spec (N.of_nat (strlen b + S (strlen rest))) n); [lia|].
  subst n. rewrite Nat2N.id, str_nth_app. cbn [Ascii.eqb].
  by rewrite str_take_app, str_drop_S_app.
Qed.

Lemma parse_body_delimited b rest :
  has_byte NUL b = false →
  parse_body (b +:+ String NUL rest) None = Returns (Ok (Some (b, rest))).
Proof.
  intros H. unfold parse_body, memchr.
  by rewrite find_byte_app_hit, str_take_app, str_drop_S_app.
Qed.

Lemma frame_ok_body f rest :
  frame_ok f = true →
  ∃ cl, note_all (headers f) None = Ok cl ∧
    parse_body (body f +:+ String NUL rest) cl = Returns (Ok (Some (body f, rest))).
Proof.
  unfold frame_ok, header. intros H. breflect. rewrite note_all_None.
  destruct (assoc_first "content-length" (headers f)) as [v|]; breflect.
  - match goal with Hp : parse_usize v = _ |- _ => rewrite Hp end.
    eexists. split; [done|]. apply parse_body_pinned; [done|]. by apply N.ltb_lt.
  - eexists. split; [done|]. by apply parse_body_delimited.
Qed.

Lemma to_bytes_split f rest :
  to_bytes f +:+ rest =
  command f +:+ String LF (header_bytes (headers f) +:+
    String LF (body f +:+ String NUL rest)).
Proof. unfold to_bytes. autorewrite with vdsm_str. done. Qed.

Lemma parse_frame_roundtrip f hb rest :
  frame_ok f = true →
  parse_frame (heartbeats hb +:+ to_bytes f +:+ rest) = Returns (Ok (Some (f, rest))).
Proof.
  intros Hf. pose proof Hf as Hok. unfold frame_ok, command_ok in Hok. breflect.
  unfold parse_frame. rewrite skip_heartbeats_run, to_bytes_split.
  rewrite skip_heartbeats_command.
  2:{ unfold command_ok. by rewrite !andb_true_iff, !negb_true_iff, bool_decide_eq_false. }
  destruct (command f) as [|a c] eqn:Ec; [done|]. rewrite <- Ec in *.
  assert (is_empty (command f +:+ String LF (header_bytes (headers f) +:+
    String LF (body f +:+ String NUL rest))) = false) as -> by by rewrite Ec.
  unfold memchr. rewrite find_byte_app_hit by done.
  rewrite str_take_app, str_drop_S_app, strip_cr_noop by done.
  assert (is_empty (command f) = false) as -> by by rewrite Ec.
  rewrite from_utf8_valid by done.
  destruct (frame_ok_body f rest Hf) as (cl & Hcl & Hb).
  rewrite header_loop_headers, Hcl, Hb by done. by destruct f.
Qed.

(** C1: whatever frame the serializer can carry is read back by the parser, with
    every command, header and body byte intact, leaving exactly the bytes that
    followed it, and ignoring any heartbeats before it. *)
Theorem parse_frame_to_bytes f hb rest :
  frame_ok f = true →
  parse_frame (heartbeats hb +:+ to_bytes f +:+ rest) = Returns (Ok (Some (f, rest))).
Proof. apply parse_frame_roundtrip. Qed.

Definition ping_frame : Frame :=
  with_body "{}" (with_header "content-length" "2"
    (with_header "subject" (String ":" (String LF (String backslash (String CR "x"))))
      (frame_new "SEND"))).

Lemma parse_frame_to_bytes_witness :
  frame_ok ping_frame = true ∧
  parse_frame (heartbeats [false; true] +:+ to_bytes ping_frame +:+ "NEXT")
  = Returns (Ok (Some (ping_frame, "NEXT"))).
Proof. split; [vm_compute; reflexivity|]. apply parse_frame_to_bytes. vm_compute; reflexivity. Defined.

(** ** More input never changes a decision *)

Definition extend_opt {A} (r : result (option (A * bytes)) ParseError) (t : bytes)
  : result (option (A * bytes)) ParseError :=
  match r with
  | Ok (Some (a, rest)) => Ok (Some (a, rest +:+ t))
  | _ => r
  end.

(** The parser's answer once [t] has arrived behind the input. *)
Definition extend {A} (r : outcome (result (option (A * bytes)) ParseError)) (t : bytes)
  : outcome (result (option (A * bytes)) ParseError) :=
  match r with
  | Returns r' => Returns (extend_opt r' t)
  | Panics => Panics
  end.

Lemma skip_heartbeats_stable n s t :
  strlen s ≤ n → has_byte LF (skip_heartbeats s) = true →
  skip_heartbeats (s +:+ t) = skip_heartbeats s +:+ t.
Proof.
  revert s. induction n as [|n IH]; intros s Hn Hb.
  { by rewrite (strlen_0 s) in * by lia. }
  destruct s as [|a s]; [done|]. rewrite app_String. cbn [skip_heartbeats] in *. simpl in Hn.
  destruct (Ascii.eqb_spec a LF) as [->|]; [apply IH; [lia|done]|].
  destruct (Ascii.eqb_spec a CR) as [->|]; [|done].
  destruct s as [|b s]; [done|]. rewrite app_String. simpl in Hn.
  destruct (Ascii.eqb_spec b LF) as [->|]; [apply IH; [lia|done]|done].
Qed.

Lemma find_byte_stable c s t n :
  find_byte c s = Some n →
  find_byte c (s +:+ t) = Some n ∧
  str_take n (s +:+ t) = str_take n s ∧
  str_drop (S n) (s +:+ t) = str_drop (S n) s +:+ t.
Proof.
  intros H. pose proof (find_byte_lt _ _ _ H).
  repeat split; [by apply find_byte_app_l|apply str_take_app_le; lia|].
  apply str_drop_app_le. lia.
Qed.

Lemma header_loop_stable n s t hs cl r :
  strlen s ≤ n → header_loop s hs cl = r → r ≠ Ok None →
  header_loop (s +:+ t) hs cl =
  match r with
  | Ok (Some (rest, hs', cl')) => Ok (Some (rest +:+ t, hs', cl'))
  | _ => r
  end.
Proof.
  revert s hs cl r. induction n as [|n IH]; intros s hs cl r Hn Hr Hne.
  { rewrite (strlen_0 s) in * by lia. rewrite header_loop_eq in Hr. naive_solver. }
  rewrite header_loop_eq in Hr. rewrite header_loop_eq. cbv zeta in *.
  destruct (find_byte LF s) as [e|] eqn:E; [|naive_solver].
  destruct (find_byte_stable _ _ t _ E) as (-> & -> & ->).
  pose proof (find_byte_lt _ _ _ E).
  destruct (is_empty _); [by subst|].
  destruct (parse_header_line _) as [kv|]; [|by subst].
  destruct (note_content_length kv cl) as [cl'|]; [|by subst].
  apply IH; [rewrite strlen_drop; lia|done..].
Qed.

Lemma note_content_length_le kv cl cl' :
  (∀ n, cl = Some n → (n ≤ usize_max)%N) →
  note_content_length kv cl = Ok cl' → ∀ n, cl' = Some n → (n ≤ usize_max)%N.
Proof.
  unfold note_content_length. intros Hcl. destruct (_ && _).
  - destruct (parse_usize (snd kv)) as [m|] eqn:E; [|done].
    intros [= <-] n [= <-]. exact (parse_uint_le _ _ _ E).
  - intros [= <-]. exact Hcl.
Qed.

Lemma header_loop_cl_le n s hs cl rest hs' cl' :
  strlen s ≤ n → (∀ n, cl = Some n → (n ≤ usize_max)%N) →
  header_loop s hs cl = Ok (Some (rest, hs', cl')) →
  ∀ n, cl' = Some n → (n ≤ usize_max)%N.
Proof.
  revert s hs cl. induction n as [|n IH]; intros s hs cl Hn Hcl Hr.
  { rewrite (strlen_0 s) in * by lia. by rewrite header_loop_eq in Hr. }
  rewrite header_loop_eq in Hr. cbv zeta in *.
  destruct (find_byte LF s) as [e|] eqn:E; [|done].
  pose proof (find_byte_lt _ _ _ E).
  destruct (is_empty _); [by simplify_eq|].
  destruct (parse_header_line _) as [kv|]; [|done].
  destruct (note_content_length kv cl) as [cl1|] eqn:E1; [|done].
  eapply IH; [|by eapply note_content_length_le|done]. rewrite strlen_drop. lia.
Qed.

(** When the body parser panics: exactly on the length that wraps. *)
Lemma parse_body_panics cursor n :
  (n ≤ usize_max)%N → (N.of_nat (strlen cursor) < usize_max)%N →
  parse_body cursor (Some n) = Panics ↔ n = usize_max.
Proof.
  intros Hn Hlen. unfold parse_body. split.
  - intros Hp. destruct (N.lt_ge_cases n usize_max) as [Hlt|]; [|lia].
    rewrite wadd64_small in Hp by done.
    destruct (N.ltb_spec (N.of_nat (strlen cursor)) (n + 1)); [done|].
    destruct (N.ltb_spec (N.of_nat (strlen cursor)) n); [lia|].
    destruct (str_nth (N.to_nat n) cursor) as [b|] eqn:E.
    + by destruct (Ascii.eqb b NUL).
    + apply str_nth_None in E. lia.
  - intros ->. change (wadd64 usize_max 1) with 0%N.
    destruct (N.ltb_spec (N.of_nat (strlen cursor)) 0); [lia|].
    by destruct (N.ltb_spec (N.of_nat (strlen cursor)) usize_max); [|lia].
Qed.

Lemma parse_body_stable s t cl r :
  (∀ n, cl = Some n → (n ≤ usize_max)%N) →
  (N.of_nat (strlen (s +:+ t)) < usize_max)%N →
  parse_body s cl = r → r ≠ Returns (Ok None) → parse_body (s +:+ t) cl = extend r t.
Proof.
  intros Hcl Hlen Hr Hne. rewrite strlen_app in Hlen. destruct cl as [n|].
  2:{ unfold parse_body, memchr in *.
      destruct (find_byte NUL s) as [e|] eqn:E; [|naive_solver].
      destruct (find_byte_stable _ _ t _ E) as (-> & -> & ->). by subst. }
  specialize (Hcl n eq_refl). destruct (decide (n = usize_max)) as [->|Hn].
  { assert (r = Panics) as ->.
    { rewrite <- Hr. apply parse_body_panics; lia. }
    simpl. apply parse_body_panics; [lia|rewrite strlen_app; lia|done]. }
  unfold parse_body in *. rewrite wadd64_small in * by lia. rewrite strlen_app.
  destruct (N.ltb_spec (N.of_nat (strlen s)) (n + 1)); [naive_solver|].
  destruct (N.ltb_spec (N.of_nat (strlen s)) n); [lia|].
  destruct (N.ltb_spec (N.of_nat (strlen s + strlen t)) (n + 1)); [lia|].
  destruct (N.ltb_spec (N.of_nat (strlen s + strlen t)) n); [lia|].
  rewrite str_nth_app_lt, str_take_app_le, str_drop_app_le by lia.
  destruct (str_nth _ s) as [b|]; [|by subst].
  by destruct (Ascii.eqb b NUL); subst.
Qed.

(** ** What the parser consumes *)

Lemma skip_heartbeats_suffix n s :
  strlen s ≤ n → ∃ hb, s = heartbeats hb +:+ skip_heartbeats s.
Proof.
  revert s. induction n as [|n IH]; intros s Hn.
  { rewrite (strlen_0 s) by lia. by exists []. }
  destruct s as [|a s]; [by exists []|]. cbn [skip_heartbeats]. simpl in Hn.
  destruct (Ascii.eqb_spec a LF) as [->|].
  { destruct (IH s) as [hb Hhb]; [lia|]. exists (false :: hb). simpl.
    rewrite app_String. by f_equal. }
  destruct (Ascii.eqb_spec a CR) as [->|]; [|by exists []].
  destruct s as [|b s]; [by exists []|]. simpl in Hn.
  destruct (Ascii.eqb_spec b LF) as [->|]; [|by exists []].
  destruct (IH s) as [hb Hhb]; [lia|]. exists (true :: hb). simpl.
  rewrite !app_String. by do 2 f_equal.
Qed.

Lemma find_byte_cut c s n :
  find_byte c s = Some n → ∃ pre, s = (pre +:+ String c "") +:+ str_drop (S n) s.
Proof.
  intros [H _]%find_byte_Some. exists (str_take n s).
  by rewrite app_assoc_str, app_String, app_nil_l_str.
Qed.

Lemma header_loop_suffix n s hs cl rest hs' cl' :
  strlen s ≤ n → header_loop s hs cl = Ok (Some (rest, hs', cl')) →
  ∃ pre, s = pre +:+ rest.
Proof.
  revert s hs cl. induction n as [|n IH]; intros s hs cl Hn Hr.
  { rewrite (strlen_0 s) in * by lia. by rewrite header_loop_eq in Hr. }
  rewrite header_loop_eq in Hr. cbv zeta in *.
  destruct (find_byte LF s) as [e|] eqn:E; [|done].
  pose proof (find_byte_lt _ _ _ E). destruct (find_byte_cut _ _ _ E) as [pre Hpre].
  destruct (is_empty _); [simplify_eq; eauto|].
  destruct (parse_header_line _) as [kv|]; [|done].
  destruct (note_content_length kv cl) as [cl1|] eqn:E1; [|done].
  apply IH in Hr as [pre' Hpre']; [|rewrite strlen_drop; lia].
  rewrite Hpre' in Hpre. rewrite <- app_assoc_str in Hpre. eauto.
Qed.

Lemma parse_body_suffix s cl b rest :
  parse_body s cl = Returns (Ok (Some (b, rest))) → s = b +:+ String NUL rest.
Proof.
  unfold parse_body, memchr. destruct cl as [n|].
  - destruct (_ <? _)%N; [done|]. destruct (_ <? _)%N; [done|].
    destruct (str_nth _ s) as [c|] eqn:E; [|done].
    destruct (Ascii.eqb_spec c NUL) as [->|]; [|done].
    intros [= <- <-]. by apply str_nth_split.
  - destruct (find_byte NUL s) as [e|] eqn:E; [|done].
    intros [= <- <-]. by apply find_byte_Some.
Qed.

Lemma parse_frame_extend s t r :
  (N.of_nat (strlen (s +:+ t)) < usize_max)%N →
  parse_frame s = r → r ≠ Returns (Ok None) → parse_frame (s +:+ t) = extend r t.
Proof.
  intros Hlen Hr Hne. unfold parse_frame, memchr in *.
  destruct (is_empty (skip_heartbeats s)) eqn:Ee; [naive_solver|].
  destruct (find_byte LF (skip_heartbeats s)) as [e|] eqn:E; [|naive_solver].
  assert (has_byte LF (skip_heartbeats s) = true) as Hlf.
  { apply not_false_is_true. by rewrite <- find_byte_None, E. }
  rewrite (skip_heartbeats_stable (strlen s)) by done.
  assert (is_empty (skip_heartbeats s +:+ t) = false) as ->.
  { by destruct (skip_heartbeats s). }
  destruct (find_byte_stable _ _ t _ E) as (-> & -> & ->).
  destruct (is_empty (strip_cr _)); [by subst|].
  destruct (from_utf8 _) as [cmd|]; [|by subst].
  destruct (header_loop (str_drop (S e) (skip_heartbeats s)) [] None) as [o|er] eqn:Eh.
  2:{ rewrite (header_loop_stable (strlen (str_drop (S e) (skip_heartbeats s))) _ _ _ _ (Err er)) by done.
      by subst. }
  destruct o as [[[c' hs] cl]|]; [|naive_solver].
  rewrite (header_loop_stable (strlen (str_drop (S e) (skip_heartbeats s))) _ _ _ _ (Ok (Some (c', hs, cl)))) by done.
  destruct (skip_heartbeats_suffix (strlen s) s) as [hb Hhb]; [done|].
  destruct (find_byte_cut _ _ _ E) as [p1 Hp1].
  destruct (header_loop_suffix _ _ _ _ _ _ _ (le_n _) Eh) as [p2 Hp2].
  assert (strlen c' + strlen t ≤ strlen (s +:+ t)) as Hc'.
  { rewrite Hhb, Hp1, Hp2. rewrite !strlen_app. lia. }
  rewrite (parse_body_stable c' t cl (parse_body c' cl)); try done.
  - destruct (parse_body c' cl) as [[[[b rest]|]|]|]; by subst.
  - eapply header_loop_cl_le; [apply le_n| |exact Eh]; done.
  - rewrite strlen_app. lia.
  - intros Hb. rewrite Hb in Hr. by subst.
Qed.

(** C2: the parser decides on a prefix once and for all: a complete frame, an
    error or a panic found in the bytes received so far is what the parser finds
    when more bytes have arrived, with those bytes appended to what is left. *)
Theorem parse_frame_stable s t r :
  (N.of_nat (strlen (s +:+ t)) < usize_max)%N →
  parse_frame s = r → r ≠ Returns (Ok None) → parse_frame (s +:+ t) = extend r t.
Proof. apply parse_frame_extend. Qed.

Lemma parse_frame_stable_witness :
  parse_frame "SEND

" = Returns (Ok None) ∧
  parse_frame (to_bytes ping_frame +:+ "SE") =
    extend (parse_frame (to_bytes ping_frame)) "SE".
Proof.
  split; [vm_compute; reflexivity|].
  apply parse_frame_stable; [vm_compute; reflexivity|reflexivity|vm_compute; discriminate].
Defined.

(** A reader that has received only part of a serialized frame is told to
    wait: no proper prefix of a frame's bytes is taken for a frame or refused. *)
Theorem parse_frame_prefix f p t :
  frame_ok f = true → (N.of_nat (strlen (to_bytes f)) < usize_max)%N →
  to_bytes f = p +:+ t → t ≠ "" → parse_frame p = Returns (Ok None).
Proof.
  intros Hf Hlen Hpt Ht.
  pose proof (parse_frame_roundtrip f [] "" Hf) as Hrt.
  rewrite app_nil_r_str in Hrt. cbn [heartbeats] in Hrt. rewrite app_nil_l_str, Hpt in Hrt.
  rewrite Hpt in Hlen.
  assert (parse_frame p = Returns (Ok None) ∨ parse_frame p ≠ Returns (Ok None)) as [|Hne].
  { destruct (parse_frame p) as [[[]|]|]; auto. }
  { done. }
  rewrite (parse_frame_extend p t _ Hlen eq_refl Hne) in Hrt.
  destruct (parse_frame p) as [[[[g rest]|]|]|]; simpl in Hrt; [|done..].
  injection Hrt as -> Hrest. by apply app_eq_nil_str in Hrest as [_ ->].
Qed.

Lemma parse_frame_prefix_witness :
  parse_frame (str_take 20 (to_bytes ping_frame)) = Returns (Ok None).
Proof.
  apply (parse_frame_prefix ping_frame _ (str_drop 20 (to_bytes ping_frame)));
    vm_compute; first [reflexivity | discriminate].
Defined.

(** ** Panics *)

(** The length the header block of the first frame of [s] declares. *)
Definition declared_length (s : bytes) : option N :=
  let cursor := skip_heartbeats s in
  line_end ← memchr LF cursor;
  let command_line := strip_cr (str_take line_end cursor) in
  if is_empty command_line || negb (utf8_valid command_line) then None
  else match header_loop (str_drop (S line_end) cursor) [] None with
       | Ok (Some (_, _, cl)) => cl
       | _ => None
       end.

Lemma from_utf8_Err s e : from_utf8 s = Err e → utf8_valid s = false.
Proof. destruct (utf8_valid s) eqn:E; [|done]. by rewrite from_utf8_valid. Qed.

(** C14: the only input that makes the parser panic is a complete header block
    whose first [content-length] is the largest [usize], for which
    [cursor.len() < n + 1] wraps around. *)
Theorem parse_frame_panics s :
  (N.of_nat (strlen s) < usize_max)%N →
  parse_frame s = Panics ↔ declared_length s = Some usize_max.
Proof.
  intros Hlen. unfold parse_frame, declared_length, memchr.
  destruct (is_empty (skip_heartbeats s)) eqn:Ee.
  { by destruct (skip_heartbeats s). }
  destruct (find_byte LF (skip_heartbeats s)) as [e|] eqn:E; [|done]. simpl.
  destruct (is_empty (strip_cr _)); [done|].
  destruct (from_utf8 _) as [cmd|er] eqn:Eu.
  2:{ by rewrite (from_utf8_Err _ _ Eu). }
  apply from_utf8_Ok in Eu as [-> ->]. simpl.
  destruct (header_loop _ [] None) as [[[[c hs] cl]|]|] eqn:Eh; [|done..].
  destruct (skip_heartbeats_suffix (strlen s) s) as [hb Hhb]; [done|].
  destruct (find_byte_cut _ _ _ E) as [p1 Hp1].
  destruct (header_loop_suffix _ _ _ _ _ _ _ (le_n _) Eh) as [p2 Hp2].
  rewrite Hhb, Hp1, Hp2, !strlen_app in Hlen.
  destruct cl as [n|].
  - assert (n ≤ usize_max)%N as Hn.
    { eapply header_loop_cl_le; [apply le_n| |exact Eh|]; done. }
    pose proof (parse_body_panics c n Hn ltac:(lia)) as Hpb.
    rewrite (inj_iff Some). rewrite <- Hpb.
    by destruct (parse_body c (Some n)) as [[[[b r]|]|]|].
  - unfold parse_body, memchr. by destruct (find_byte NUL c).
Qed.

Lemma parse_frame_panics_witness :
  let s := "SEND" +:+ String LF ("content-length:18446744073709551615"
             +:+ String LF (String LF "x")) in
  (N.of_nat (strlen s) < usize_max)%N ∧ parse_frame s = Panics.
Proof.
  split; [vm_compute; reflexivity|].
  apply parse_frame_panics; vm_compute; reflexivity.
Defined.

(** ** Soundness of what is returned *)

Lemma parse_header_line_utf8 l kv :
  parse_header_line l = Ok kv → utf8_valid (fst kv) && utf8_valid (snd kv) = true.
Proof.
  unfold parse_header_line. destruct (memchr ":" l); [|done].
  destruct (from_utf8 (str_take _ _)) as [k|] eqn:Ek; [|done].
  destruct (from_utf8 (str_drop _ _)) as [v|] eqn:Ev; [|done].
  intros [= <-]. apply from_utf8_Ok in Ek as [Hk ->], Ev as [Hv ->]. cbn [fst snd].
  by rewrite !unescape_utf8.
Qed.

Lemma header_loop_inv n s hs cl rest hs' cl' :
  strlen s ≤ n → header_loop s hs cl = Ok (Some (rest, hs', cl')) →
  ∃ new, hs' = hs ++ new ∧ headers_utf8 new = true ∧ note_all new cl = Ok cl'.
Proof.
  revert s hs cl. induction n as [|n IH]; intros s hs cl Hn Hr.
  { rewrite (strlen_0 s) in * by lia. by rewrite header_loop_eq in Hr. }
  rewrite header_loop_eq in Hr. cbv zeta in *.
  destruct (find_byte LF s) as [e|] eqn:E; [|done].
  pose proof (find_byte_lt _ _ _ E).
  destruct (is_empty _).
  { simplify_eq. exists []. by rewrite app_nil_r. }
  destruct (parse_header_line _) as [kv|] eqn:El; [|done].
  destruct (note_content_length kv cl) as [cl1|] eqn:E1; [|done].
  apply IH in Hr as (new & -> & Hu & Hcl); [|rewrite strlen_drop; lia].
  exists (kv :: new). rewrite <- app_assoc. simpl.
  by rewrite E1, (parse_header_line_utf8 _ _ El), Hu, Hcl.
Qed.

Lemma parse_body_sound s cl b rest :
  (∀ n, cl = Some n → (n ≤ usize_max)%N) → (N.of_nat (strlen s) < usize_max)%N →
  parse_body s cl = Returns (Ok (Some (b, rest))) →
  match cl with Some n => n = N.of_nat (strlen b) | None => has_byte NUL b = false end.
Proof.
  intros Hcl Hlen. unfold parse_body, memchr. destruct cl as [n|].
  - destruct (_ <? _)%N; [done|].
    destruct (N.ltb_spec (N.of_nat (strlen s)) n) as [|Hge]; [done|].
    destruct (str_nth _ s) as [c|] eqn:E; [|done].
    destruct (Ascii.eqb_spec c NUL) as [->|]; [|done].
    intros [= <- _]. rewrite strlen_take by lia. lia.
  - destruct (find_byte NUL s) as [e|] eqn:E; [|done].
    intros [= <- _]. by apply find_byte_Some in E as [_ ?].
Qed.

Lemma strip_cr_sub b line : has_byte b line = false → has_byte b (strip_cr line) = false.
Proof.
  unfold strip_cr. destruct (str_last line); [|done]. destruct (Ascii.eqb _ _); [|done].
  intros H. rewrite <- (str_take_drop (strlen line - 1) line), has_byte_app in H.
  by apply orb_false_elim in H as [H _].
Qed.

Lemma parse_frame_progress s f rest :
  parse_frame s = Returns (Ok (Some (f, rest))) → ∃ pre, pre ≠ "" ∧ s = pre +:+ rest.
Proof.
  intros Hp. unfold parse_frame, memchr in Hp.
  destruct (is_empty (skip_heartbeats s)) eqn:Ee; [done|].
  destruct (find_byte LF (skip_heartbeats s)) as [e|] eqn:E; [|done].
  destruct (is_empty (strip_cr _)) eqn:Ec; [done|].
  destruct (from_utf8 _) as [cmd|er] eqn:Eu; [|done].
  destruct (header_loop _ [] None) as [[[[c hs] cl]|]|] eqn:Eh; [|done..].
  destruct (parse_body c cl) as [[[[b r]|]|]|] eqn:Eb; simplify_eq.
  destruct (skip_heartbeats_suffix (strlen s) s) as [hb Hhb]; [done|].
  destruct (find_byte_cut _ _ _ E) as [p1 Hp1].
  destruct (header_loop_suffix _ _ _ _ _ _ _ (le_n _) Eh) as [p2 Hp2].
  pose proof (parse_body_suffix _ _ _ _ Eb) as Hp3.
  exists (heartbeats hb +:+ (p1 +:+ String LF "") +:+ p2 +:+ b +:+ String NUL "").
  split; [by destruct hb as [|[]], p1|].
  rewrite Hhb at 1. rewrite Hp1, Hp2, Hp3. by autorewrite with vdsm_str.
Qed.

(** C13: a frame the parser returns takes at least one byte off the front of the
    buffer (of less than 2^64 - 1 bytes) and leaves the rest untouched; and,
    unless its command ends in [\r], it is one the serializer can carry: a
    non-empty UTF-8 command without line feed, UTF-8 headers, and a body of
    exactly the declared length, or without NUL when none is declared.  A command
    ends in [\r] when its line ended in several of them, of which the parser
    takes off one. *)
Theorem parse_frame_sound s f rest :
  (N.of_nat (strlen s) < usize_max)%N →
  parse_frame s = Returns (Ok (Some (f, rest))) →
  (∃ pre, pre ≠ "" ∧ s = pre +:+ rest) ∧
  (str_last (command f) ≠ Some CR → frame_ok f = true).
Proof.
  intros Hlen Hp. split; [by eapply parse_frame_progress|].
  unfold parse_frame, memchr in Hp.
  destruct (is_empty (skip_heartbeats s)) eqn:Ee; [done|].
  destruct (find_byte LF (skip_heartbeats s)) as [e|] eqn:E; [|done].
  destruct (is_empty (strip_cr _)) eqn:Ec; [done|].
  destruct (from_utf8 _) as [cmd|er] eqn:Eu; [|done].
  apply from_utf8_Ok in Eu as [Hu ->].
  destruct (header_loop _ [] None) as [[[[c hs] cl]|]|] eqn:Eh; [|done..].
  destruct (parse_body c cl) as [[[[b r]|]|]|] eqn:Eb; simplify_eq.
  destruct (skip_heartbeats_suffix (strlen s) s) as [hb Hhb]; [done|].
  destruct (find_byte_cut _ _ _ E) as [p1 Hp1].
  destruct (header_loop_suffix _ _ _ _ _ _ _ (le_n _) Eh) as [p2 Hp2].
  pose proof (parse_body_suffix _ _ _ _ Eb) as Hp3.
  assert (strlen c ≤ strlen s) as Hc.
  { rewrite Hhb, Hp1, Hp2, !strlen_app. lia. }
  intros Hcr. destruct (header_loop_inv _ _ _ _ _ _ _ (le_n _) Eh) as (new & Hn & Hnu & Hna).
  simpl in Hn. subst hs.
  assert (∀ n, cl = Some n → (n ≤ usize_max)%N) as Hle.
  { eapply header_loop_cl_le; [apply le_n| |exact Eh]; done. }
  pose proof (parse_body_sound c cl b rest Hle ltac:(lia) Eb) as Hb.
  assert (has_byte LF (strip_cr (str_take e (skip_heartbeats s))) = false) as Hlf.
  { apply strip_cr_sub. exact (proj2 (find_byte_Some _ _ _ E)). }
  unfold frame_ok, command_ok, header. cbn [command headers body] in *.
  rewrite Ec, Hlf, Hu, Hnu. rewrite bool_decide_false by done. simpl.
  rewrite note_all_None in Hna.
  destruct (assoc_first "content-length" new) as [v|].
  - destruct (parse_usize v) as [n|]; simplify_eq.
    rewrite bool_decide_true by congruence. apply N.ltb_lt.
    rewrite ?Hp3, ?strlen_app in Hc. lia.
  - simplify_eq. by rewrite Hb.
Qed.

Lemma parse_frame_sound_witness :
  let s := to_bytes ping_frame +:+ "SE" in
  parse_frame s = Returns (Ok (Some (ping_frame, "SE"))) ∧
  (∃ pre, pre ≠ "" ∧ s = pre +:+ "SE") ∧
  (str_last (command ping_frame) ≠ Some CR → frame_ok ping_frame = true).
Proof.
  split; [vm_compute; reflexivity|].
  apply parse_frame_sound; vm_compute; reflexivity.
Defined.

(** The headers of a parsed frame are UTF-8. *)
Lemma parse_frame_headers s f rest :
  parse_frame s = Returns (Ok (Some (f, rest))) → headers_utf8 (headers f) = true.
Proof.
  unfold parse_frame. destruct (is_empty _); [done|]. destruct (memchr _ _) as [e|]; [|done].
  destruct (is_empty _); [done|]. destruct (from_utf8 _) as [cmd|]; [|done].
  destruct (header_loop _ [] None) as [[[[c hs] cl]|]|] eqn:Eh; [|done..].
  destruct (header_loop_inv _ _ _ _ _ _ _ (le_n _) Eh) as (new & -> & Hu & _).
  destruct (parse_body c cl) as [[[[b r]|]|]|]; [|done..]. by intros [= <- <-].
Qed.

Lemma header_utf8 f k v :
  headers_utf8 (headers f) = true → header k f = Some v → utf8_valid v = true.
Proof.
  unfold header. induction (headers f) as [|[k' v'] hs IH]; [done|]. simpl.
  intros H. breflect. destruct (String.eqb k' k); [congruence|auto].
Qed.

(** ** The frames the server builds can be read back *)

Lemma command_ok_message : command_ok "MESSAGE" = true.
Proof. vm_compute. done. Qed.

Lemma frame_ok_message dest sid b :
  utf8_valid dest = true → utf8_valid sid = true →
  (N.of_nat (strlen b) < usize_max)%N →
  frame_ok (build_message dest sid b) = true.
Proof.
  intros Hd Hs Hb. unfold frame_ok.
  assert (header "content-length" (build_message dest sid b)
          = Some (to_string (N.of_nat (strlen b)))) as -> by done.
  change (command (build_message dest sid b)) with "MESSAGE".
  change (body (build_message dest sid b)) with b.
  assert (headers_utf8 (headers (build_message dest sid b)) = true) as ->.
  { unfold headers_utf8. simpl. rewrite Hd, Hs, to_string_utf8. done. }
  rewrite command_ok_message. rewrite bool_decide_true.
  2:{ apply parse_uint_to_string. lia. }
  by apply N.ltb_lt.
Qed.

(** ** An unreachable error *)

Lemma skip_heartbeats_idem n s :
  strlen s ≤ n → skip_heartbeats (skip_heartbeats s) = skip_heartbeats s.
Proof.
  revert s. induction n as [|n IH]; intros s Hn.
  { by rewrite (strlen_0 s) by lia. }
  destruct s as [|a s]; [done|]. cbn [skip_heartbeats]. simpl in Hn.
  destruct (Ascii.eqb a LF) eqn:E1; [apply IH; lia|].
  destruct (Ascii.eqb a CR) eqn:E2.
  2:{ cbn [skip_heartbeats]. by rewrite E1, E2. }
  destruct s as [|b s].
  { cbn [skip_heartbeats]. by rewrite E1, E2. }
  simpl in Hn. destruct (Ascii.eqb b LF) eqn:E3; [apply IH; lia|].
  cbn [skip_heartbeats]. by rewrite E1, E2, E3.
Qed.

(** After the heartbeats the first line is not empty. *)
Lemma skip_heartbeats_line s e :
  find_byte LF (skip_heartbeats s) = Some e →
  is_empty (strip_cr (str_take e (skip_heartbeats s))) = false.
Proof.
  intros E. pose proof (skip_heartbeats_idem _ s (le_n _)) as Hidem.
  apply find_byte_Some in E as [E _].
  destruct (skip_heartbeats s) as [|a u] eqn:Eu; [by destruct e|].
  destruct e as [|[|e]]; simpl in E.
  - injection E as ->. simpl in Hidem. exfalso.
    destruct (skip_heartbeats_suffix (strlen u) u (le_n _)) as [hb Hhb].
    apply (f_equal strlen) in Hhb. rewrite strlen_app, Hidem in Hhb. simpl in Hhb. lia.
  - destruct u as [|b u]; [done|]. rewrite app_String, app_nil_l_str in E.
    injection E as ->. simpl. unfold strip_cr. simpl.
    destruct (Ascii.eqb_spec a CR) as [->|]; [|done]. simpl in Hidem. exfalso.
    destruct (skip_heartbeats_suffix (strlen u) u (le_n _)) as [hb Hhb].
    apply (f_equal strlen) in Hhb. rewrite strlen_app, Hidem in Hhb. simpl in Hhb. lia.
  - destruct u as [|b u]; [done|]. simpl. unfold strip_cr.
    destruct (str_last _) as [c|]; [|done]. by destruct (Ascii.eqb c CR).
Qed.

Lemma header_loop_err n s hs cl e :
  strlen s ≤ n → header_loop s hs cl = Err e → e ≠ Malformed "empty command line".
Proof.
  revert s hs cl. induction n as [|n IH]; intros s hs cl Hn Hr.
  { rewrite (strlen_0 s) in * by lia. by rewrite header_loop_eq in Hr. }
  rewrite header_loop_eq in Hr. cbv zeta in *.
  destruct (find_byte LF s) as [l|] eqn:E; [|done].
  pose proof (find_byte_lt _ _ _ E).
  destruct (is_empty _); [done|].
  destruct (parse_header_line _) as [kv|e'] eqn:El.
  2:{ unfold parse_header_line in El. simplify_eq. by cases. }
  destruct (note_content_length kv cl) as [cl1|e'] eqn:E1.
  2:{ unfold note_content_length in E1. simplify_eq. by cases. }
  eapply IH; [|exact Hr]. rewrite strlen_drop. lia.
Qed.

(** The "empty command line" error of the source can never be produced: the
    heartbeat skipper eats every empty line before the command is looked for. *)
Theorem parse_frame_empty_command_unreachable s :
  parse_frame s ≠ Returns (Err (Malformed "empty command line")).
Proof.
  unfold parse_frame, memchr.
  destruct (is_empty (skip_heartbeats s)); [done|].
  destruct (find_byte LF (skip_heartbeats s)) as [e|] eqn:E; [|done].
  rewrite (skip_heartbeats_line s e E).
  destruct (from_utf8 _); [|done].
  destruct (header_loop _ [] None) as [[[[c hs] cl]|]|er] eqn:Eh; [|done|].
  - unfold parse_body. by cases.
  - intros [= Her]. by apply header_loop_err with (1 := le_n _) in Eh.
Qed.
