(* ===== verification/Json.v ===== *)
(** * JSON values

    [serde_json] is a dependency, so its [Value] is an interface here: the
    constructors the [json!] macro uses and the accessors the crates call, with
    the documented behaviour the proofs rely on as a separate class of laws.
    [JVal] is one implementation; it shows that the laws can hold and gives the
    witnesses something to compute with. *)

From stdpp Require Import options.
From S2P Require Import Prelude RustStr Float64.

Class JsonOps (V : Type) := {
  jnull : V;
  jbool : bool → V;
  jint : Z → V;
  jf64 : f64 → V;
  jstr : string → V;
  jarr : list V → V;
  (** [json!({ "k": v, ... })] and [Value::Object] of a map filled by [insert]s
      in this order. *)
  jobj : list (string * V) → V;
  jget : string → V → option V;
  as_str : V → option string;
  as_i64 : V → option Z;
  as_u64 : V → option N;
  as_array : V → option (list V);
  (** [v.as_object().map(|m| m.keys())] *)
  object_keys : V → option (list string);
}.

Class JsonLaws (V : Type) `{JsonOps V} := {
  jget_obj kvs k : jget k (jobj kvs) = assoc_last k kvs;
  as_str_str s : as_str (jstr s) = Some s;
  as_array_arr l : as_array (jarr l) = Some l;
  object_keys_obj kvs :
    ∃ ks, object_keys (jobj kvs) = Some ks ∧ NoDup ks ∧
          ∀ k, k ∈ ks ↔ k ∈ kvs.*1;
}.

Section accessors.
Context {V} `{JsonOps V}.

(** [params.get(k).and_then(Value::as_str).unwrap_or(d).to_string()] *)
Definition param_str (k d : string) (p : V) : string :=
  default d (jget k p ≫= as_str).

(** [params.get(k).and_then(Value::as_i64).unwrap_or(d)] *)
Definition param_i64 (k : string) (d : Z) (p : V) : Z :=
  default d (jget k p ≫= as_i64).

(** [params.get(k).or_else(|| params.get(k'))] *)
Definition get_either (k k' : string) (p : V) : option V :=
  match jget k p with Some v => Some v | None => jget k' p end.

(** [v.as_array().map(|a| a.iter().filter_map(Value::as_str)...collect())
    .unwrap_or_default()] *)
Definition str_array (o : option V) : list string :=
  match o ≫= as_array with Some a => omap as_str a | None => [] end.

(** [v.get(k).cloned().unwrap_or(d)] *)
Definition get_or (k : string) (d v : V) : V := default d (jget k v).
End accessors.

(** ** A concrete value type *)

Inductive JVal : Type :=
| JNull
| JBool (b : bool)
| JInt (z : Z)
| JF64 (x : f64)
| JStr (s : string)
| JArr (l : list JVal)
| JObj (kvs : list (string * JVal)).

(** Keep the last binding of every key. *)
Fixpoint last_bindings {A} (kvs : list (string * A)) : list (string * A) :=
  match kvs with
  | [] => []
  | (k, v) :: kvs' =>
      match assoc_last k kvs' with
      | Some _ => last_bindings kvs'
      | None => (k, v) :: last_bindings kvs'
      end
  end.

#[export] Instance JVal_ops : JsonOps JVal := {
  jnull := JNull; jbool := JBool; jint := JInt; jf64 := JF64; jstr := JStr; jarr := JArr;
  jobj kvs := JObj (last_bindings kvs);
  jget k v := match v with JObj kvs => assoc_last k kvs | _ => None end;
  as_str v := match v with JStr s => Some s | _ => None end;
  as_i64 v := match v with
              | JInt z => if ((-9223372036854775808 <=? z) && (z <=? 9223372036854775807))%Z
                          then Some z else None
              | _ => None end;
  as_u64 v := match v with
              | JInt z => if ((0 <=? z) && (z <=? 18446744073709551615))%Z
                          then Some (Z.to_N z) else None
              | _ => None end;
  as_array v := match v with JArr l => Some l | _ => None end;
  object_keys v := match v with JObj kvs => Some kvs.*1 | _ => None end;
}.

Lemma assoc_last_None {A} k (kvs : list (string * A)) :
  assoc_last k kvs = None ↔ k ∉ kvs.*1.
Proof.
  induction kvs as [|[k' v] kvs IH]; cbn [assoc_last]; [split; [intros _; apply not_elem_of_nil|done]|].
  rewrite fmap_cons, not_elem_of_cons. simpl.
  destruct (assoc_last k kvs) as [x|].
  - split; [done|]. intros [_ Hk]. by apply IH in Hk.
  - destruct (String.eqb_spec k' k) as [->|Hne].
    + split; [done|]. by intros [? _].
    + split; [|done]. intros _. split; [congruence|]. by apply IH.
Qed.

Lemma assoc_last_bindings {A} k (kvs : list (string * A)) :
  assoc_last k (last_bindings kvs) = assoc_last k kvs.
Proof.
  induction kvs as [|[k' v] kvs IH]; [done|]. cbn [last_bindings assoc_last].
  destruct (assoc_last k' kvs) as [x|] eqn:E.
  - rewrite IH. destruct (assoc_last k kvs) eqn:E'; [done|].
    destruct (String.eqb_spec k' k); [congruence|done].
  - cbn [assoc_last]. by rewrite IH.
Qed.

Lemma last_bindings_keys {A} (kvs : list (string * A)) k :
  k ∈ (last_bindings kvs).*1 ↔ k ∈ kvs.*1.
Proof.
  destruct (decide (k ∈ (last_bindings kvs).*1)) as [Hi|Hn].
  - split; [|done]. intros _.
    destruct (decide (k ∈ kvs.*1)) as [|Hn]; [done|].
    apply assoc_last_None in Hn. rewrite <- assoc_last_bindings in Hn.
    by apply assoc_last_None in Hn.
  - split; [done|]. intros Hi.
    apply assoc_last_None in Hn. rewrite assoc_last_bindings in Hn.
    by apply assoc_last_None in Hn.
Qed.

Lemma last_bindings_NoDup {A} (kvs : list (string * A)) : NoDup (last_bindings kvs).*1.
Proof.
  induction kvs as [|[k v] kvs IH]; [constructor|]. cbn [last_bindings].
  destruct (assoc_last k kvs) eqn:E; [done|].
  rewrite fmap_cons. constructor; [|done]. rewrite last_bindings_keys.
  by apply assoc_last_None.
Qed.

#[export] Instance JVal_laws : JsonLaws JVal.
Proof.
  split; try done; intros.
  - apply assoc_last_bindings.
  - eexists. split; [done|]. split; [apply last_bindings_NoDup|apply last_bindings_keys].
Qed.
