(* ===== verification/Rpc.v ===== *)
(** * JSON-RPC envelopes and the verb dispatcher
    (crates/vdsm-rpc/src/protocol.rs and dispatch.rs)

    A verb handler is an [async] closure from parameters to a result or a
    JSON-RPC error; here it is a function of the parameters and of the world [W]
    that all handlers share.  The dispatcher is the [HashMap] from verb names to
    handlers the builder has filled. *)

From stdpp Require Import options.
From S2P Require Import Prelude Json.

(** ** protocol.rs *)

Section protocol.
Context {V : Type}.

Record Request := mkRequest {
  req_jsonrpc : string;
  req_method : string;
  req_params : V;
  req_id : option V
}.

Record JsonRpcError := mkError {
  err_code : Z;
  err_message : string;
  err_data : option V
}.

Record Response := mkResponse {
  resp_jsonrpc : string;
  resp_id : option V;
  resp_result : option V;
  resp_error : option JsonRpcError
}.

Definition response_ok (id : option V) (r : V) : Response :=
  mkResponse "2.0" id (Some r) None.

Definition response_err (id : option V) (e : JsonRpcError) : Response :=
  mkResponse "2.0" id None (Some e).

Definition parse_error (msg : string) : JsonRpcError := mkError (-32700) msg None.
Definition invalid_request (msg : string) : JsonRpcError := mkError (-32600) msg None.
Definition method_not_found (method : string) : JsonRpcError :=
  mkError (-32601) ("Method not found: " +:+ method) None.
Definition invalid_params (msg : string) : JsonRpcError := mkError (-32602) msg None.
Definition internal (msg : string) : JsonRpcError := mkError (-32603) msg None.
End protocol.
Arguments Request V : clear implicits.
Arguments JsonRpcError V : clear implicits.
Arguments Response V : clear implicits.

(** What a verb handler is. *)
Abbreviation handler V W := (V → st W (result V (JsonRpcError V))) (only parsing).

(** ** dispatch.rs *)

Section dispatch.
Context {V W : Type}.

Record Dispatcher := mkDispatcher { handlers : gmap string (handler V W) }.
Record DispatcherBuilder := mkBuilder { b_handlers : gmap string (handler V W) }.

Definition builder : DispatcherBuilder := mkBuilder ∅.

Definition register (method : string) (f : handler V W) (b : DispatcherBuilder)
  : DispatcherBuilder :=
  mkBuilder (<[method := f]> (b_handlers b)).

Definition build (b : DispatcherBuilder) : Dispatcher := mkDispatcher (b_handlers b).

Definition handler_count (d : Dispatcher) : nat := size (handlers d).

Definition invoke (d : Dispatcher) (method : string) (params : V)
  : st W (result V (JsonRpcError V)) :=
  match handlers d !! method with
  | Some h => h params
  | None => st_ret (Err (method_not_found method))
  end.

(** [Dispatcher::builder().register(..)...register(..).build()] *)
Definition build_from (regs : list (string * handler V W)) : Dispatcher :=
  build (foldl (λ b mh, register (fst mh) (snd mh) b) builder regs).

Lemma register_all_lookup regs b method :
  b_handlers (foldl (λ b mh, register (fst mh) (snd mh) b) b regs) !! method =
  match assoc_last method regs with
  | Some h => Some h
  | None => b_handlers b !! method
  end.
Proof.
  revert b. induction regs as [|[m h] regs IH]; intros b; [done|].
  cbn [foldl assoc_last fst snd]. rewrite IH. simpl.
  destruct (assoc_last method regs); [done|].
  destruct (String.eqb_spec m method) as [->|Hne].
  - by rewrite lookup_insert_eq.
  - by rewrite lookup_insert_ne.
Qed.

(** The dispatcher a chain of [register] calls builds runs, for every verb,
    the handler registered last under that name, and refuses every other verb
    with -32601 without touching the world. *)
Theorem invoke_build_from regs method params w :
  invoke (build_from regs) method params w =
  match assoc_last method regs with
  | Some h => h params w
  | None => (Err (method_not_found method), w)
  end.
Proof.
  unfold invoke, build_from, build. simpl. rewrite register_all_lookup. simpl.
  rewrite lookup_empty. by destruct (assoc_last method regs).
Qed.
End dispatch.
Arguments Dispatcher V W : clear implicits.
Arguments DispatcherBuilder V W : clear implicits.
