(* ===== verification/Server.v ===== *)
(** * The RPC server's connections (crates/vdsm-rpc/src/server.rs)

    Both framings of a connection: newline-delimited JSON-RPC ([serve_lines])
    and the STOMP state machine ([serve_stomp]).  A connection reads a byte
    stream and writes frames; [sock_ok out b] says whether writing [b] after the
    frames [out] succeeds, so a theorem that quantifies over it covers every
    failure of the socket.  [serde_json]'s reading of a request and printing of
    a response, and the iteration order of the subscription [HashMap], are
    parameters. *)

From stdpp Require Import options.
From S2P Require Import Prelude Utf8 RustStr Stomp Json Rpc.

(** [serde_json::from_str::<Request>] (with the error's [Display]) and
    [serde_json::to_vec(&Response)]. *)
Class RpcSerde (V : Type) := {
  from_str_request : string → result (Request V) string;
  response_to_vec : Response V → result bytes string;
}.

(** The order in which a [HashMap<String, String>] is iterated: some order of
    its entries. *)
Class HashIter := {
  hash_iter : gmap string string → list (string * string);
  hash_iter_perm m : hash_iter m ≡ₚ map_to_list m;
}.

(** ** Configuration *)

Inductive Framing := Line | Stomp.

Definition framing_from_str_lossy (s : string) : Framing :=
  let t := to_ascii_lowercase (trim s) in
  if String.eqb t "stomp" then Stomp
  else if String.eqb t "line" then Line
  else Line.

(** How a connection task ends: [return Ok(())], [return Err(_)], a panic. *)
Inductive exit := ExitOk | ExitErr | ExitPanic.

#[export] Instance exit_eq_dec : EqDecision exit.
Proof. solve_decision. Defined.

(** [env!("CARGO_PKG_VERSION")] *)
Definition CARGO_PKG_VERSION : string := "4.5.7".

Section server.
Context {V W : Type} `{!RpcSerde V, !HashIter}.
Context (dispatcher : Dispatcher V W).
Context (sock_ok : list bytes → bytes → bool).

(** [write_all] (and [flush]): the frames on the wire afterwards. *)
Definition write_all (out : list bytes) (b : bytes) : option (list bytes) :=
  if sock_ok out b then Some (out ++ [b]) else None.

(** [let _ = write_all(..)]: a failure is ignored. *)
Definition write_ignore (out : list bytes) (b : bytes) : list bytes :=
  default out (write_all out b).

(** ** Line framing *)

Definition process_one (line : string) : st W (option (Response V)) := λ w,
  match from_str_request line with
  | Err e =>
      (Some (response_err None (parse_error ("invalid JSON-RPC envelope: " +:+ e))), w)
  | Ok req =>
      let id := req_id req in
      let '(r, w') := invoke dispatcher (req_method req) (req_params req) w in
      match id with
      | None => (None, w')
      | Some _ =>
          (Some (match r with
                 | Ok value => response_ok id value
                 | Err err => response_err id err
                 end), w')
      end
  end.

Fixpoint serve_lines_go (fuel : nat) (input : bytes) (out : list bytes) (w : W)
  : exit * list bytes * W :=
  match fuel with
  | O => (ExitOk, out, w)
  | S fuel' =>
      let '(line, rest) := read_line input in
      if is_empty line then (ExitOk, out, w)
      else if negb (utf8_valid line) then (ExitErr, out, w)
      else
        let trimmed := trim line in
        if is_empty trimmed then serve_lines_go fuel' rest out w
        else
          match process_one trimmed w with
          | (None, w') => serve_lines_go fuel' rest out w'
          | (Some resp, w') =>
              match response_to_vec resp with
              | Err _ => (ExitErr, out, w')
              | Ok buf =>
                  match write_all out (buf +:+ String LF "") with
                  | None => (ExitErr, out, w')
                  | Some out' => serve_lines_go fuel' rest out' w'
                  end
              end
          end
  end.

(** Every round takes a line off the input: [strlen input] rounds suffice. *)
Definition serve_lines (input : bytes) (out : list bytes) (w : W) :=
  serve_lines_go (S (strlen input)) input out w.

(** ** STOMP framing *)

Record conn := mkConn {
  subscriptions : gmap string string;
  connected : bool;
  out : list bytes
}.

(** What the frame loop does next. *)
Inductive ctl := Running | Done (e : exit).

Definition default_queue : string := "/queue/_local/vdsm/responses".

(** [frame_bytes.windows(2).position(|w| w == b"\n\n")] *)
Fixpoint find_blank (s : bytes) : option nat :=
  match s with
  | String a (String b _ as s') =>
      if Ascii.eqb a LF && Ascii.eqb b LF then Some 0 else S <$> find_blank s'
  | _ => None
  end.

(** The three slices of the wire trace are in range. *)
Definition trace_in_range (frame_bytes : bytes) : bool :=
  let len := strlen frame_bytes in
  let sep := default 0 (find_blank frame_bytes) in
  let body_start := sep + 2 in
  let body_end := len - 1 in
  let body_last_off := Nat.max (body_end - 200) body_start in
  (Nat.min sep len <=? len)%nat
  && (body_start <=? Nat.min (body_start + 200) body_end)%nat
  && (Nat.min (body_start + 200) body_end <=? len)%nat
  && (body_last_off <=? body_end)%nat && (body_end <=? len)%nat.

(** Where a reply goes: [reply-to], else a subscribed destination, else the
    hard-coded queue; and the subscription that destination belongs to. *)
Definition reply_dest (frame : Frame) (subs : gmap string string) : string :=
  match header "reply-to" frame with
  | Some d => d
  | None => match hash_iter subs with
            | (_, d) :: _ => d
            | [] => default_queue
            end
  end.

Definition sub_id (dest : string) (subs : gmap string string) : string :=
  match list_find (λ kd, kd.2 = dest) (hash_iter subs) with
  | Some (_, (id, _)) => id
  | None => "0"
  end.

(** The response to a request, and the id it answers. *)
Definition stomp_answer (id : option V) (r : result V (JsonRpcError V)) : Response V * option V :=
  (match r with
   | Ok value => response_ok id value
   | Err err => response_err id err
   end, id).

(** The response to a body that is not a request. *)
Definition stomp_refusal (e : string) : Response V * option V :=
  (response_err None (parse_error ("invalid JSON-RPC envelope: " +:+ e)), None).

Definition stomp_response (body_str : string) : st W (Response V * option V) := λ w,
  match from_str_request body_str with
  | Ok req =>
      let '(r, w') := invoke dispatcher (req_method req) (req_params req) w in
      (stomp_answer (req_id req) r, w')
  | Err e => (stomp_refusal e, w)
  end.

(** What follows the verb: nothing for a notification that succeeded, else one
    MESSAGE. *)
Definition stomp_reply (frame : Frame) (c : conn) (rr : Response V * option V) : ctl * conn :=
  let '(response, request_id) := rr in
  match request_id, resp_error response with
  | None, None => (Running, c)
  | _, _ =>
      match response_to_vec response with
      | Err _ => (Done ExitErr, c)
      | Ok resp_body =>
          let dest := reply_dest frame (subscriptions c) in
          let sid := sub_id dest (subscriptions c) in
          let frame_bytes := to_bytes (build_message dest sid resp_body) in
          if negb (trace_in_range frame_bytes) then (Done ExitPanic, c)
          else
            match write_all (out c) frame_bytes with
            | None => (Done ExitErr, c)
            | Some out' => (Running, mkConn (subscriptions c) (connected c) out')
            end
      end
  end.

Definition handle_stomp_send (frame : Frame) (c : conn) : st W (ctl * conn) := λ w,
  match from_utf8 (body frame) with
  | Err _ => ((Running, c), w)
  | Ok body_str =>
      let '(rr, w') := stomp_response body_str w in
      (stomp_reply frame c rr, w')
  end.

Context (peer : string).

Definition close_with (message b : string) (c : conn) : conn :=
  mkConn (subscriptions c) (connected c)
    (write_ignore (out c) (to_bytes (build_error message b))).

(** One frame of the per-connection state machine: [on_send] is what a SEND
    does, [ret] takes what every other frame does. *)
Definition route_frame {A} (on_send : A) (ret : ctl * conn → A) (frame : Frame) (c : conn) : A :=
  let cmd := command frame in
  if negb (connected c) && negb (String.eqb cmd "CONNECT") && negb (String.eqb cmd "STOMP")
  then ret (Done ExitOk, close_with "expected CONNECT" "" c)
  else if String.eqb cmd "CONNECT" || String.eqb cmd "STOMP" then
    if connected c then ret (Done ExitOk, close_with "already connected" "" c)
    else
      let session := "vdsm-rs-" +:+ peer in
      let server_id := "vdsm-rs/" +:+ CARGO_PKG_VERSION in
      let connected_frame := build_connected "1.2" server_id (Some session) in
      match write_all (out c) (to_bytes connected_frame) with
      | None => ret (Done ExitErr, c)
      | Some out' => ret (Running, mkConn (subscriptions c) true out')
      end
  else if String.eqb cmd "SUBSCRIBE" then
    let id := default "0" (header "id" frame) in
    let dest := default default_queue (header "destination" frame) in
    ret (Running, mkConn (<[id := dest]> (subscriptions c)) (connected c) (out c))
  else if String.eqb cmd "UNSUBSCRIBE" then
    match header "id" frame with
    | Some id => ret (Running, mkConn (delete id (subscriptions c)) (connected c) (out c))
    | None => ret (Running, c)
    end
  else if String.eqb cmd "SEND" then on_send
  else if String.eqb cmd "DISCONNECT" then
    match header "receipt" frame with
    | Some receipt_id =>
        ret (Done ExitOk,
             mkConn (subscriptions c) (connected c)
               (write_ignore (out c) (to_bytes (build_receipt receipt_id))))
    | None => ret (Done ExitOk, c)
    end
  else ret (Running, c).

Definition handle_frame (frame : Frame) (c : conn) : st W (ctl * conn) := λ w,
  route_frame (handle_stomp_send frame c w) (λ r, (r, w)) frame c.

(** The inner loop: as many frames as the buffer holds.  A frame takes at
    least one byte, so [strlen buf] rounds suffice ([drain_eq]). *)
Fixpoint drain_go (fuel : nat) (buf : bytes) (c : conn) (w : W)
  : ctl * bytes * conn * W :=
  match fuel with
  | O => (Running, buf, c, w)
  | S fuel' =>
      match parse_frame buf with
      | Returns (Ok None) => (Running, buf, c, w)
      | Returns (Ok (Some (frame, rest))) =>
          let consumed := strlen buf - strlen rest in
          let buf' := str_drop consumed buf in
          let '((k, c'), w') := handle_frame frame c w in
          match k with
          | Running => drain_go fuel' buf' c' w'
          | Done e => (Done e, buf', c', w')
          end
      | Returns (Err e) =>
          (Done ExitOk, buf, close_with "malformed frame" (parse_error_display e) c, w)
      | Panics => (Done ExitPanic, buf, c, w)
      end
  end.

Definition drain (buf : bytes) (c : conn) (w : W) := drain_go (S (strlen buf)) buf c w.

(** One [read]: some bytes (none means end of stream) or a failure. *)
Inductive read_event := Read (chunk : bytes) | ReadFailed.

Fixpoint serve_stomp_from (reads : list read_event) (buf : bytes) (c : conn) (w : W)
  : exit * conn * W :=
  match reads with
  | [] => (ExitOk, c, w)
  | ReadFailed :: _ => (ExitErr, c, w)
  | Read chunk :: reads' =>
      if is_empty chunk then (ExitOk, c, w)
      else
        match drain (buf +:+ chunk) c w with
        | (Running, buf', c', w') => serve_stomp_from reads' buf' c' w'
        | (Done e, _, c', w') => (e, c', w')
        end
  end.

Definition conn_init : conn := mkConn ∅ false [].

Definition serve_stomp (reads : list read_event) (w : W) : exit * conn * W :=
  serve_stomp_from reads "" conn_init w.
End server.
