(* ===== verification/ServerFacts.v ===== *)
(** * Correctness of the RPC connections

    STOMP: the frame loop without its fuel, independence of how the network
    cuts the stream, the handshake invariant, and delivery of replies.
    Line framing: one reply per request, in order. *)

From stdpp Require Import options.
From S2P Require Import Prelude Utf8 RustStr Stomp StompFacts Json Rpc Server.

Section stomp.
Context {V W : Type} `{!RpcSerde V, !HashIter}.
Context (d : Dispatcher V W) (sock_ok : list bytes → bytes → bool) (peer : string).
Implicit Types (c : conn) (w : W).

Abbreviation drain := (drain d sock_ok peer).
Abbreviation handle_frame := (handle_frame d sock_ok peer).

(** ** The frame loop *)

Lemma consumed_rest pre rest :
  str_drop (strlen (pre +:+ rest) - strlen rest) (pre +:+ rest) = rest.
Proof.
  rewrite strlen_app. replace (_ - _) with (strlen pre) by lia. apply str_drop_app.
Qed.

Lemma drain_fuel n m buf c w :
  strlen buf < n → strlen buf < m →
  drain_go d sock_ok peer n buf c w = drain_go d sock_ok peer m buf c w.
Proof.
  revert m buf c w. induction n as [|n IH]; intros [|m] buf c w Hn Hm; [lia..|].
  cbn [drain_go]. destruct (parse_frame buf) as [[[[f rest]|]|]|] eqn:E; try done.
  destruct (parse_frame_progress _ _ _ E) as (pre & Hpre & ->).
  cbv zeta. rewrite consumed_rest.
  destruct (handle_frame f c w) as [[[|e] c'] w']; [|done].
  rewrite strlen_app in *. assert (strlen pre ≠ 0) by (by destruct pre).
  apply IH; lia.
Qed.

Lemma drain_eq buf c w :
  drain buf c w =
  match parse_frame buf with
  | Returns (Ok None) => (Running, buf, c, w)
  | Returns (Ok (Some (frame, rest))) =>
      match handle_frame frame c w with
      | (Running, c', w') => drain rest c' w'
      | (Done e, c', w') => (Done e, rest, c', w')
      end
  | Returns (Err e) =>
      (Done ExitOk, buf,
       close_with sock_ok "malformed frame" (parse_error_display e) c, w)
  | Panics => (Done ExitPanic, buf, c, w)
  end.
Proof.
  unfold Server.drain at 1. cbn [drain_go].
  destruct (parse_frame buf) as [[[[f rest]|]|]|] eqn:E; try done.
  destruct (parse_frame_progress _ _ _ E) as (pre & Hpre & ->).
  cbv zeta. rewrite consumed_rest.
  destruct (handle_frame f c w) as [[[|e] c'] w']; [|done].
  assert (strlen pre ≠ 0) by (by destruct pre).
  apply drain_fuel; rewrite ?strlen_app; lia.
Qed.

(** Induction on the frames of a buffer. *)
Lemma drain_ind (P : bytes → conn → W → ctl * bytes * conn * W → Prop) :
  (∀ buf c w, parse_frame buf = Returns (Ok None) → P buf c w (Running, buf, c, w)) →
  (∀ buf c w e, parse_frame buf = Returns (Err e) →
    P buf c w (Done ExitOk, buf,
      close_with sock_ok "malformed frame" (parse_error_display e) c, w)) →
  (∀ buf c w, parse_frame buf = Panics → P buf c w (Done ExitPanic, buf, c, w)) →
  (∀ buf c w f rest e c' w', parse_frame buf = Returns (Ok (Some (f, rest))) →
    handle_frame f c w = (Done e, c', w') → P buf c w (Done e, rest, c', w')) →
  (∀ buf c w f rest c' w', parse_frame buf = Returns (Ok (Some (f, rest))) →
    handle_frame f c w = (Running, c', w') →
    P rest c' w' (drain rest c' w') → P buf c w (drain rest c' w')) →
  ∀ buf c w, P buf c w (drain buf c w).
Proof.
  intros Hnone Herr Hpanic Hdone Hrun buf c w.
  remember (strlen buf) as n eqn:Hn. revert buf c w Hn.
  induction (Nat.lt_wf_0 n) as [n _ IH]. intros buf c w ->.
  rewrite drain_eq. destruct (parse_frame buf) as [[[[f rest]|]|]|] eqn:E; auto.
  destruct (handle_frame f c w) as [[[|e] c'] w'] eqn:Eh; [|by eauto].
  eapply Hrun; [done..|]. eapply IH; [|done].
  destruct (parse_frame_progress _ _ _ E) as (pre & Hpre & ->).
  rewrite strlen_app. destruct pre; [done|simpl; lia].
Qed.

(** ** Independence of chunk boundaries *)

(** Draining a prefix and then the rest is draining the whole. *)
Lemma drain_app s t c w :
  (N.of_nat (strlen (s +:+ t)) < usize_max)%N →
  match drain s c w with
  | (Running, buf, c', w') => drain (s +:+ t) c w = drain (buf +:+ t) c' w' ∧
                              strlen buf ≤ strlen s
  | (Done e, _, c', w') => ∃ buf, drain (s +:+ t) c w = (Done e, buf, c', w')
  end.
Proof.
  pose (P := λ s c w (r : ctl * bytes * conn * W),
    (N.of_nat (strlen (s +:+ t)) < usize_max)%N →
    match r with
    | (Running, buf, c', w') => drain (s +:+ t) c w = drain (buf +:+ t) c' w' ∧
                                strlen buf ≤ strlen s
    | (Done e, _, c', w') => ∃ buf, drain (s +:+ t) c w = (Done e, buf, c', w')
    end).
  apply (drain_ind P); unfold P; clear P s c w.
  - auto.
  - intros buf c w e E Hl. eexists.
    by rewrite drain_eq, (parse_frame_extend _ _ _ Hl E).
  - intros buf c w E Hl. eexists.
    by rewrite drain_eq, (parse_frame_extend _ _ _ Hl E).
  - intros buf c w f rest e c' w' E Eh Hl. eexists.
    rewrite drain_eq, (parse_frame_extend _ _ _ Hl E) by done. simpl. by rewrite Eh.
  - intros buf c w f rest c' w' E Eh IH Hl.
    destruct (parse_frame_progress _ _ _ E) as (pre & Hpre & ->).
    rewrite app_assoc_str, !strlen_app in Hl.
    assert (drain ((pre +:+ rest) +:+ t) c w = drain (rest +:+ t) c' w') as ->.
    { assert (N.of_nat (strlen ((pre +:+ rest) +:+ t)) < usize_max)%N as Hl'.
      { rewrite !strlen_app. lia. }
      pose proof (parse_frame_extend _ t _ Hl' E ltac:(done)) as Hst.
      rewrite drain_eq, Hst. simpl. by rewrite Eh. }
    assert (N.of_nat (strlen (rest +:+ t)) < usize_max)%N as Hl''.
    { rewrite !strlen_app. lia. }
    specialize (IH Hl'').
    destruct (drain rest c' w') as [[[[|e] buf] c1] w1]; [|done].
    destruct IH as [-> ?]. split; [done|]. rewrite strlen_app. lia.
Qed.

Lemma drain_running s c w b c' w' :
  drain s c w = (Running, b, c', w') → parse_frame b = Returns (Ok None).
Proof.
  pose (P := λ (_ : bytes) (_ : conn) (_ : W) (r : ctl * bytes * conn * W),
    ∀ b c' w', r = (Running, b, c', w') → parse_frame b = Returns (Ok None)).
  revert b c' w'. apply (drain_ind P); unfold P; naive_solver.
Qed.

Definition concat_bytes (l : list bytes) : bytes := foldr String.app "" l.

(** What the peer and the daemon see of a run. *)
Definition observe (r : ctl * bytes * conn * W) : exit * conn * W :=
  match r with
  | (Running, _, c, w) => (ExitOk, c, w)
  | (Done e, _, c, w) => (e, c, w)
  end.

Lemma serve_from_chunks chunks buf c w :
  Forall (λ s, s ≠ "") chunks →
  (N.of_nat (strlen (buf +:+ concat_bytes chunks)) < usize_max)%N →
  parse_frame buf = Returns (Ok None) →
  serve_stomp_from d sock_ok peer (Read <$> chunks) buf c w =
  observe (drain (buf +:+ concat_bytes chunks) c w).
Proof.
  revert buf c w. induction chunks as [|s chunks IH]; intros buf c w Hne Hl Hb; simpl.
  { rewrite app_nil_r_str, drain_eq, Hb. done. }
  apply Forall_cons in Hne as [Hs Hne]. simpl in Hl.
  destruct (is_empty s) eqn:E; [by destruct s|].
  pose proof (drain_app (buf +:+ s) (concat_bytes chunks) c w) as Hd.
  rewrite <- app_assoc_str in *. specialize (Hd Hl).
  destruct (drain (buf +:+ s) c w) as [[[[|e] b] c1] w1] eqn:Ed.
  - destruct Hd as [-> Hlen]. apply IH; [done| |by eapply drain_running].
    rewrite !strlen_app in *. lia.
  - destruct Hd as [b' ->]. done.
Qed.

(** C3: the STOMP connection does not depend on how the network cuts the byte
    stream: two ways of splitting the same bytes into reads give the same
    frames on the wire, the same verbs run on the same world in the same order,
    and the same end. *)
Theorem serve_stomp_chunking chunks1 chunks2 w :
  Forall (λ s, s ≠ "") chunks1 → Forall (λ s, s ≠ "") chunks2 →
  concat_bytes chunks1 = concat_bytes chunks2 →
  (N.of_nat (strlen (concat_bytes chunks1)) < usize_max)%N →
  serve_stomp d sock_ok peer (Read <$> chunks1) w =
  serve_stomp d sock_ok peer (Read <$> chunks2) w.
Proof.
  intros H1 H2 Heq Hl. unfold serve_stomp.
  rewrite !serve_from_chunks by (rewrite ?app_nil_l_str, <- ?Heq; done).
  by rewrite Heq.
Qed.

(** ** Reachable connection states *)

(** One frame of the stream, handled without closing. *)
Inductive frame_step : conn * W → conn * W → Prop :=
| frame_step_intro buf f rest c w c' w' :
    parse_frame buf = Returns (Ok (Some (f, rest))) →
    handle_frame f c w = (Running, c', w') →
    frame_step (c, w) (c', w').

Definition reachable (w0 : W) (c : conn) (w : W) : Prop :=
  rtc frame_step (conn_init, w0) (c, w).

(** How a connection ends in state [(c, w)]: in that state, with an ERROR frame
    for an unreadable buffer, or by the frame that closes it. *)
Inductive final (c : conn) (w : W) : conn → W → Prop :=
| final_here : final c w c w
| final_malformed e :
    final c w (close_with sock_ok "malformed frame" (parse_error_display e) c) w
| final_frame buf f rest e c' w' :
    parse_frame buf = Returns (Ok (Some (f, rest))) →
    handle_frame f c w = (Done e, c', w') → final c w c' w'.

Lemma drain_reach s c w :
  match drain s c w with
  | (Running, _, c', w') => rtc frame_step (c, w) (c', w')
  | (Done e, _, c', w') =>
      ∃ c1 w1, rtc frame_step (c, w) (c1, w1) ∧ final c1 w1 c' w'
  end.
Proof.
  pose (P := λ (_ : bytes) c w (r : ctl * bytes * conn * W),
    match r with
    | (Running, _, c', w') => rtc frame_step (c, w) (c', w')
    | (Done e, _, c', w') =>
        ∃ c1 w1, rtc frame_step (c, w) (c1, w1) ∧ final c1 w1 c' w'
    end).
  apply (drain_ind P); unfold P; clear P s c w.
  - done.
  - intros. do 2 eexists. split; [done|]. constructor.
  - intros. do 2 eexists. split; [done|]. constructor.
  - intros. do 2 eexists. split; [done|]. by econstructor.
  - intros buf c w f rest c' w' E Eh IH.
    assert (frame_step (c, w) (c', w')) by (by econstructor).
    destruct (drain rest c' w') as [[[[|e] b] c1] w1].
    + by eapply rtc_l.
    + destruct IH as (c2 & w2 & ? & ?). do 2 eexists. split; [by eapply rtc_l|done].
Qed.

Lemma serve_from_reach reads buf c w e c' w' :
  serve_stomp_from d sock_ok peer reads buf c w = (e, c', w') →
  ∃ c1 w1, rtc frame_step (c, w) (c1, w1) ∧ final c1 w1 c' w'.
Proof.
  revert buf c w. induction reads as [|[s|] reads IH]; intros buf c w; simpl.
  - intros [= <- <- <-]. do 2 eexists. split; [done|constructor].
  - destruct (is_empty s).
    { intros [= <- <- <-]. do 2 eexists. split; [done|constructor]. }
    pose proof (drain_reach (buf +:+ s) c w) as Hd.
    destruct (drain (buf +:+ s) c w) as [[[[|e1] b] c1] w1].
    + intros (c2 & w2 & ? & ?)%IH. do 2 eexists. split; [by etrans|done].
    + by intros [= <- <- <-].
  - intros [= <- <- <-]. do 2 eexists. split; [done|constructor].
Qed.

(** ** The handshake *)

(** Before CONNECT the connection has done nothing. *)
Definition idle_before_connect (w0 : W) (cw : conn * W) : Prop :=
  connected cw.1 = false → cw = (conn_init, w0).

Lemma stomp_reply_conn f c rr k c' :
  stomp_reply sock_ok f c rr = (k, c') →
  subscriptions c' = subscriptions c ∧ connected c' = connected c.
Proof.
  destruct rr as [resp id]. unfold stomp_reply, write_all. cbv zeta.
  destruct id; [|destruct (resp_error resp); [|by intros [= _ <-]]];
    (destruct (response_to_vec resp); [|by intros [= _ <-]]);
    (destruct (negb _); [by intros [= _ <-]|]);
    destruct (sock_ok _ _); by intros [= _ <-].
Qed.

Lemma send_frame_conn f c w k c' w' :
  handle_stomp_send d sock_ok f c w = (k, c', w') →
  subscriptions c' = subscriptions c ∧ connected c' = connected c.
Proof.
  unfold handle_stomp_send. destruct (from_utf8 (body f)) as [s|]; [|by intros [= _ <- _]].
  destruct (stomp_response d s w) as [rr w1]. intros [= Hr _]. by eapply stomp_reply_conn.
Qed.

(** A connection stays connected. *)
Lemma handle_frame_connected f c w k c' w' :
  handle_frame f c w = (k, c', w') → connected c = true → connected c' = true.
Proof.
  unfold Server.handle_frame, route_frame. intros Hh Hc. rewrite Hc in Hh. simpl in Hh. revert Hh.
  destruct (_ || _); [by intros [= _ <- _]|].
  destruct (String.eqb _ _); [by intros [= _ <- _]|].
  destruct (String.eqb _ _); [by destruct (header _ _); intros [= _ <- _]|].
  destruct (String.eqb _ _).
  { by intros [_ ->]%send_frame_conn. }
  destruct (String.eqb _ _); [by destruct (header _ _); intros [= _ <- _]|].
  by intros [= _ <- _].
Qed.

(** Before the handshake a frame either connects or closes with an ERROR. *)
Lemma handle_frame_unconnected f c w k c' w' :
  handle_frame f c w = (k, c', w') → connected c = false →
  w' = w ∧ (connected c' = true ∨ c' = c ∧ k ≠ Running ∨
            (∃ m b, c' = close_with sock_ok m b c) ∧ k ≠ Running).
Proof.
  unfold Server.handle_frame, route_frame. intros Hh Hc. rewrite Hc in Hh. simpl in Hh. revert Hh.
  destruct (String.eqb _ "CONNECT"), (String.eqb _ "STOMP"); simpl;
    [destruct (write_all _ _ _); intros [= <- <- <-]; naive_solver..|].
  intros [= <- <- <-]. split; [done|]. right. right. eauto.
Qed.

Lemma frame_step_idle w0 cw cw' :
  idle_before_connect w0 cw → frame_step cw cw' → idle_before_connect w0 cw'.
Proof.
  intros Hi Hs. destruct Hs as [buf f rest c w c' w' _ Hh]. intros Hc. simpl in Hc.
  destruct (connected c) eqn:Ec.
  - by rewrite (handle_frame_connected _ _ _ _ _ _ Hh Ec) in Hc.
  - destruct (handle_frame_unconnected _ _ _ _ _ _ Hh Ec) as [_ [?|[[_ []]|[_ []]]]]; congruence.
Qed.

Lemma reachable_idle w0 c w : reachable w0 c w → idle_before_connect w0 (c, w).
Proof.
  unfold reachable. generalize (c, w). clear c w.
  apply (rtc_ind_r (idle_before_connect w0)); [by intros _|].
  intros cw1 cw2 _ Hs Hi. by eapply frame_step_idle.
Qed.

(** C4: nothing happens before the handshake: when a connection ends without
    CONNECT, no verb has run (the world is the one it started with), no
    subscription exists, and at most one frame, an ERROR, was written. *)
Theorem stomp_handshake_first reads w e c w' :
  serve_stomp d sock_ok peer reads w = (e, c, w') → connected c = false →
  w' = w ∧ subscriptions c = ∅ ∧
  (out c = [] ∨ ∃ m b, out c = [to_bytes (build_error m b)]).
Proof.
  intros (c1 & w1 & Hr & Hf)%serve_from_reach Hc.
  apply reachable_idle in Hr. unfold idle_before_connect in Hr. simpl in Hr.
  assert (∀ m b, connected (close_with sock_ok m b c1) = false → w1 = w ∧
    subscriptions (close_with sock_ok m b c1) = ∅ ∧
    (out (close_with sock_ok m b c1) = [] ∨
     ∃ m' b', out (close_with sock_ok m b c1) = [to_bytes (build_error m' b')])) as Hclose.
  { simpl. intros m b H1. specialize (Hr H1). simplify_eq. split_and!; [done..|].
    unfold write_ignore, write_all. simpl.
    destruct (sock_ok _ _); [right; by exists m, b|by left]. }
  destruct Hf as [|er|buf f rest e' c' w1' _ Hh].
  - specialize (Hr Hc). simplify_eq. auto.
  - auto.
  - destruct (connected c1) eqn:Ec1.
    + by rewrite (handle_frame_connected _ _ _ _ _ _ Hh Ec1) in Hc.
    + specialize (Hr eq_refl). simplify_eq.
      destruct (handle_frame_unconnected _ _ _ _ _ _ Hh Ec1)
        as [-> [?|[[-> _]|[(m & b & ->) _]]]]; [congruence|auto..].
Qed.

(** ** Replies *)

(** Subscription ids and destinations come from parsed headers. *)
Definition subs_utf8 (m : gmap string string) : Prop :=
  map_Forall (λ k v, utf8_valid k = true ∧ utf8_valid v = true) m.

Lemma default_header_utf8 f k dflt :
  headers_utf8 (headers f) = true → utf8_valid dflt = true →
  utf8_valid (default dflt (header k f)) = true.
Proof.
  intros Hu Hd. destruct (header k f) as [v|] eqn:E; [|done]. simpl. by eapply header_utf8.
Qed.

Lemma handle_frame_subs_utf8 f c w k c' w' :
  headers_utf8 (headers f) = true → subs_utf8 (subscriptions c) →
  handle_frame f c w = (k, c', w') → subs_utf8 (subscriptions c').
Proof.
  unfold Server.handle_frame, route_frame. intros Hu Hs.
  destruct (_ && _); [by intros [= _ <- _]|].
  destruct (_ || _).
  { destruct (connected c); [by intros [= _ <- _]|].
    destruct (write_all _ _ _); by intros [= _ <- _]. }
  destruct (String.eqb _ _).
  { intros [= _ <- _]. apply map_Forall_insert_2; [|done].
    split; apply default_header_utf8; done. }
  destruct (String.eqb _ _).
  { destruct (header _ _); intros [= _ <- _]; [|done]. by apply map_Forall_delete. }
  destruct (String.eqb _ _).
  { by intros [-> _]%send_frame_conn. }
  destruct (String.eqb _ _); [by destruct (header _ _); intros [= _ <- _]|].
  by intros [= _ <- _].
Qed.

Lemma reachable_subs_utf8 w0 c w : reachable w0 c w → subs_utf8 (subscriptions c).
Proof.
  unfold reachable. change c with ((c, w).1) at 2. generalize (c, w). clear c w.
  apply (rtc_ind_r (λ cw : conn * W, subs_utf8 (subscriptions cw.1))).
  - apply map_Forall_empty.
  - intros cw1 cw2 _ [buf f rest c w c' w' Hp Hh] Hi. simpl in *.
    eapply handle_frame_subs_utf8; [|done..]. by eapply parse_frame_headers.
Qed.

(** The routing rule. *)
Lemma reply_dest_spec f subs :
  header "reply-to" f = Some (reply_dest f subs) ∨
  header "reply-to" f = None ∧
    ((∃ id, subs !! id = Some (reply_dest f subs)) ∨
     subs = ∅ ∧ reply_dest f subs = default_queue).
Proof.
  unfold reply_dest. destruct (header "reply-to" f) as [v|]; [by left|]. right. split; [done|].
  pose proof (hash_iter_perm subs) as Hp.
  destruct (hash_iter subs) as [|[id dest] l].
  - right. split; [|done]. apply Permutation_nil_l in Hp.
    symmetry in Hp. by apply map_to_list_empty_iff.
  - left. exists id. apply elem_of_map_to_list. rewrite <- Hp. set_solver.
Qed.

Lemma sub_id_spec dest subs :
  subs !! sub_id dest subs = Some dest ∨
  (∀ id, subs !! id ≠ Some dest) ∧ sub_id dest subs = "0".
Proof.
  unfold sub_id. pose proof (hash_iter_perm subs) as Hp.
  destruct (list_find _ (hash_iter subs)) as [[i [id dest']]|] eqn:E.
  - left. apply list_find_Some in E as (Hl & Hd & _). simpl in Hd. subst dest'.
    apply elem_of_map_to_list. rewrite <- Hp. by eapply list_elem_of_lookup_2.
  - right. split; [|done]. intros id Hid. apply list_find_None in E.
    rewrite Forall_forall in E. apply (E (id, dest)); [|done].
    rewrite Hp. by apply elem_of_map_to_list.
Qed.

Lemma reply_utf8 f subs :
  headers_utf8 (headers f) = true → subs_utf8 subs →
  utf8_valid (reply_dest f subs) = true ∧
  utf8_valid (sub_id (reply_dest f subs) subs) = true.
Proof.
  intros Hu Hs. split.
  - destruct (reply_dest_spec f subs) as [Hh|[_ [[id Hid]|[_ ->]]]].
    + by eapply header_utf8.
    + by apply (Hs _ _ Hid).
    + done.
  - destruct (sub_id_spec (reply_dest f subs) subs) as [Hid|[_ ->]]; [|done].
    by apply (Hs _ _ Hid).
Qed.

(** The wire trace never slices out of range. *)
Lemma find_blank_le a b :
  ∃ n, find_blank (a +:+ String LF (String LF b)) = Some n ∧ n ≤ strlen a.
Proof.
  induction a as [|x a (n & Hn & Hle)].
  { exists 0. rewrite app_nil_l_str. done. }
  rewrite app_String. assert (∃ y r, a +:+ String LF (String LF b) = String y r) as (y & r & Hy).
  { destruct a as [|y r]; [by eexists _, _|]. rewrite app_String. by eexists _, _. }
  rewrite Hy in *. cbn [find_blank]. destruct (_ && _).
  - exists 0. split; [done|lia].
  - exists (S n). cbn [find_blank] in Hn. rewrite Hn. split; [done|simpl; lia].
Qed.

Lemma header_bytes_LF hs : hs = [] ∨ ∃ a, header_bytes hs = a +:+ String LF "".
Proof.
  induction hs as [|[k v] hs IH]; [by left|]. right. simpl. destruct IH as [->|[a ->]].
  - exists (escape_header k +:+ String ":" (escape_header v)).
    simpl. by autorewrite with vdsm_str.
  - eexists (escape_header k +:+ String ":" (escape_header v +:+ String LF a)).
    by autorewrite with vdsm_str.
Qed.

Lemma to_bytes_blank f :
  ∃ a, to_bytes f = a +:+ String LF (String LF (body f +:+ String NUL "")).
Proof.
  unfold to_bytes. destruct (header_bytes_LF (headers f)) as [->|[a ->]].
  - by exists (command f).
  - exists (command f +:+ String LF a). by autorewrite with vdsm_str.
Qed.

Lemma trace_in_range_ok f : trace_in_range (to_bytes f) = true.
Proof.
  destruct (to_bytes_blank f) as [a ->]. unfold trace_in_range.
  destruct (find_blank_le a (body f +:+ String NUL "")) as (n & -> & Hn).
  cbn [default]. rewrite !strlen_app. cbn [String.length]. rewrite !strlen_app.
  cbn [String.length]. rewrite !andb_true_iff, !Nat.leb_le. unfold id. lia.
Qed.

(** C5: a SEND that carries a request with an id is answered: on a connection
    that shook hands, with a socket that accepts the write, the connection writes
    exactly one MESSAGE, whose body is the serialized response; its destination
    is [reply-to] if present, else a subscribed destination, else the default
    queue; its subscription header names a subscription to that destination
    whenever there is one, else 0; and the peer's STOMP parser reads that frame
    back unchanged. *)
Theorem stomp_send_reply w0 c w buf rest f req id r w' j :
  reachable w0 c w → connected c = true →
  parse_frame buf = Returns (Ok (Some (f, rest))) → command f = "SEND" →
  utf8_valid (body f) = true →
  from_str_request (body f) = Ok req → req_id req = Some id →
  invoke d (req_method req) (req_params req) w = (r, w') →
  response_to_vec (match r with
                   | Ok v => response_ok (Some id) v
                   | Err e => response_err (Some id) e
                   end) = Ok j →
  (N.of_nat (strlen j) < usize_max)%N →
  (∀ o b, sock_ok o b = true) →
  ∃ m dest sid,
    handle_frame f c w =
      (Running, mkConn (subscriptions c) true (out c ++ [to_bytes m]), w') ∧
    command m = "MESSAGE" ∧ body m = j ∧
    header "destination" m = Some dest ∧ header "subscription" m = Some sid ∧
    (header "reply-to" f = Some dest ∨
     header "reply-to" f = None ∧
       ((∃ s, subscriptions c !! s = Some dest) ∨
        subscriptions c = ∅ ∧ dest = default_queue)) ∧
    (subscriptions c !! sid = Some dest ∨ (∀ s, subscriptions c !! s ≠ Some dest) ∧ sid = "0") ∧
    parse_frame (to_bytes m) = Returns (Ok (Some (m, ""))).
Proof.
  intros Hr Hc Hp Hcmd Hb Hq Hid Hinv Hj Hlen Hsock.
  pose (dest := reply_dest f (subscriptions c)). pose (sid := sub_id dest (subscriptions c)).
  exists (build_message dest sid j), dest, sid.
  apply reachable_subs_utf8 in Hr. apply parse_frame_headers in Hp.
  destruct (reply_utf8 f _ Hp Hr) as [Hd Hs]. split_and!; try reflexivity.
  - unfold Server.handle_frame, route_frame. rewrite Hc, Hcmd. cbn.
    unfold handle_stomp_send, stomp_response, stomp_answer, stomp_reply.
    rewrite (from_utf8_valid _ Hb), Hq, Hid, Hinv. rewrite Hj. cbv zeta.
    rewrite trace_in_range_ok. cbn [negb]. unfold write_all. by rewrite Hsock, Hc.
  - apply reply_dest_spec.
  - apply sub_id_spec.
  - pose proof (parse_frame_roundtrip _ [] "" (frame_ok_message dest sid _ Hd Hs Hlen)) as Hm.
    cbn [heartbeats] in Hm. by rewrite app_nil_l_str, app_nil_r_str in Hm.
Qed.

(** C17: the two framings disagree on a notification whose verb fails: the line
    framing sends nothing, the STOMP framing sends an error response without an
    id. *)
Theorem notification_error_replied f c w req e w' j :
  utf8_valid (body f) = true →
  from_str_request (body f) = Ok req → req_id req = None →
  invoke d (req_method req) (req_params req) w = (Err e, w') →
  response_to_vec (response_err None e) = Ok j →
  (∀ o b, sock_ok o b = true) →
  process_one d (body f) w = (None, w') ∧
  ∃ c', handle_stomp_send d sock_ok f c w = (Running, c', w') ∧
        ∃ dest sid, out c' = out c ++ [to_bytes (build_message dest sid j)].
Proof.
  intros Hb Hq Hid Hinv Hj Hsock. split.
  { unfold process_one. by rewrite Hq, Hinv, Hid. }
  unfold handle_stomp_send, stomp_response, stomp_answer, stomp_reply.
  rewrite (from_utf8_valid _ Hb), Hq, Hinv, Hid. cbn [resp_error response_err].
  rewrite Hj. cbv zeta. rewrite trace_in_range_ok. cbn [negb]. unfold write_all. rewrite Hsock.
  eexists. split; [reflexivity|]. by eexists _, _.
Qed.

(** ** Line framing *)

(** The reply to one line: unreadable input is answered with -32700 and no
    id; a notification runs its verb and gets no reply; any other request gets
    one reply with its own id and exactly one of result and error. *)
Theorem process_one_spec line w :
  match from_str_request line with
  | Err e => ∃ msg, process_one d line w =
      (Some (mkResponse "2.0" None None (Some (mkError (-32700) msg None))), w)
  | Ok req =>
      let '(r, w') := invoke d (req_method req) (req_params req) w in
      match req_id req with
      | None => process_one d line w = (None, w')
      | Some id => ∃ resp, process_one d line w = (Some resp, w') ∧
          resp_jsonrpc resp = "2.0" ∧ resp_id resp = Some id ∧
          match r with
          | Ok v => resp_result resp = Some v ∧ resp_error resp = None
          | Err e => resp_result resp = None ∧ resp_error resp = Some e
          end
      end
  end.
Proof.
  unfold process_one. destruct (from_str_request line) as [req|e]; [|by eexists].
  destruct (invoke _ _ _ _) as [r w']. destruct (req_id req) as [id|]; [|done].
  eexists. split; [done|]. by destruct r.
Qed.

(** The responses to a list of input lines, in order, and the world after. *)
Fixpoint answer_lines (ls : list string) (w : W) : list (Response V) * W :=
  match ls with
  | [] => ([], w)
  | l :: ls' =>
      if is_empty (trim l) then answer_lines ls' w
      else
        let '(r, w1) := process_one d (trim l) w in
        let '(rs, w2) := answer_lines ls' w1 in
        (option_list r ++ rs, w2)
  end.

Lemma serve_lines_go_spec ser n input o w :
  strlen input < n →
  Forall (λ l, utf8_valid l = true) (split_inclusive input) →
  (∀ r, response_to_vec r = Ok (ser r)) → (∀ o b, sock_ok o b = true) →
  serve_lines_go d sock_ok n input o w =
  (ExitOk, o ++ ((λ r, ser r +:+ String LF "") <$> (answer_lines (split_inclusive input) w).1),
   (answer_lines (split_inclusive input) w).2).
Proof.
  intros Hn Hu Hser Hsock. revert input o w Hn Hu.
  induction n as [|n IH]; intros input o w Hn; [lia|].
  unfold split_inclusive. rewrite split_inclusive_go_spec. cbn [serve_lines_go].
  unfold read_line. rewrite !app_nil_l_str.
  assert (∀ line rest, is_empty line = false → strlen rest < n →
    Forall (λ l, utf8_valid l = true) (line :: split_inclusive rest) →
    (if is_empty line then (ExitOk, o, w)
     else if negb (utf8_valid line) then (ExitErr, o, w)
     else
       if is_empty (trim line) then serve_lines_go d sock_ok n rest o w
       else
         match process_one d (trim line) w with
         | (None, w') => serve_lines_go d sock_ok n rest o w'
         | (Some resp, w') =>
             match response_to_vec resp with
             | Err _ => (ExitErr, o, w')
             | Ok buf =>
                 match write_all sock_ok o (buf +:+ String LF "") with
                 | None => (ExitErr, o, w')
                 | Some out' => serve_lines_go d sock_ok n rest out' w'
                 end
             end
         end) =
    (ExitOk, o ++ ((λ r, ser r +:+ String LF "") <$>
                   (answer_lines (line :: split_inclusive rest) w).1),
     (answer_lines (line :: split_inclusive rest) w).2)) as Hstep.
  { intros line rest -> Hrest [-> Hu]%Forall_cons. simpl.
    destruct (is_empty (trim line)); [by apply IH|].
    destruct (process_one d (trim line) w) as [[resp|] w1].
    - rewrite Hser. unfold write_all. rewrite Hsock, IH by done.
      destruct (answer_lines (split_inclusive rest) w1). simpl. by rewrite <- app_assoc.
    - rewrite IH by done. by destruct (answer_lines (split_inclusive rest) w1). }
  destruct (find_byte LF input) as [e|] eqn:E.
  - intros Hu. pose proof (find_byte_lt _ _ _ E). apply Hstep; [|rewrite strlen_drop; lia|done].
    by destruct input.
  - destruct input as [|a s]; [intros _; simpl; by rewrite app_nil_r|].
    cbn [is_empty] in *. intros Hu. simpl in Hn.
    apply (Hstep (String a s) ""); [done|simpl; lia|done].
Qed.

(** C16: the line-framed connection answers the request lines of its input in
    order, one response line each and none for blank lines and notifications,
    threading the world from each verb to the next, and ends cleanly at the end
    of the stream.  (The socket accepts every write and the input is UTF-8.) *)
Theorem serve_lines_spec ser input w :
  Forall (λ l, utf8_valid l = true) (split_inclusive input) →
  (∀ r, response_to_vec r = Ok (ser r)) → (∀ o b, sock_ok o b = true) →
  serve_lines d sock_ok input [] w =
  (ExitOk, (λ r, ser r +:+ String LF "") <$> (answer_lines (split_inclusive input) w).1,
   (answer_lines (split_inclusive input) w).2).
Proof. intros. unfold serve_lines. by rewrite (serve_lines_go_spec ser) by (done || lia). Qed.
(** ** The loops end *)

Lemma read_line_shorter input line rest :
  read_line input = (line, rest) → is_empty line = false → strlen rest < strlen input.
Proof.
  unfold read_line. destruct (find_byte LF input) as [e|] eqn:E; intros [= <- <-].
  - intros _. pose proof (find_byte_lt _ _ _ E). rewrite strlen_drop. lia.
  - destruct input; [done|]. simpl. lia.
Qed.

Lemma serve_lines_fuel n m input o w :
  strlen input < n → strlen input < m →
  serve_lines_go d sock_ok n input o w = serve_lines_go d sock_ok m input o w.
Proof.
  revert m input o w. induction n as [|n IH]; intros [|m] input o w Hn Hm; [lia..|].
  cbn [serve_lines_go]. destruct (read_line input) as [line rest] eqn:El.
  destruct (is_empty line) eqn:Ee; [done|]. pose proof (read_line_shorter _ _ _ El Ee).
  assert (∀ o w, serve_lines_go d sock_ok n rest o w = serve_lines_go d sock_ok m rest o w) as Hr
    by (intros; apply IH; lia).
  destruct (negb _); [done|]. destruct (is_empty (trim line)); [apply Hr|].
  destruct (process_one _ _ _) as [[resp|] w']; [|apply Hr].
  destruct (response_to_vec resp); [|done]. destruct (write_all _ _ _); [apply Hr|done].
Qed.

(** C15: both framings come to an end on every input: the rounds the model
    allows are enough, more of them change nothing, and when the STOMP loop
    asks for more bytes it has handled every frame that was complete: what is
    left is the tail of the buffer and holds no frame. *)
Theorem frame_loops_terminate n input buf o c w :
  (strlen input < n → serve_lines_go d sock_ok n input o w = serve_lines d sock_ok input o w) ∧
  (strlen buf < n → drain_go d sock_ok peer n buf c w = drain buf c w) ∧
  ((drain buf c w).1.1.1 = Running →
   parse_frame (drain buf c w).1.1.2 = Returns (Ok None) ∧
   ∃ pre, buf = pre +:+ (drain buf c w).1.1.2).
Proof.
  split; [intros; apply serve_lines_fuel; lia|]. split; [intros; apply drain_fuel; lia|].
  revert buf c w. apply (drain_ind (λ buf c w r, r.1.1.1 = Running →
    parse_frame r.1.1.2 = Returns (Ok None) ∧ ∃ pre, buf = pre +:+ r.1.1.2)); try done.
  - intros buf c w E _. split; [done|]. by exists "".
  - intros buf c w f rest c' w' E _ IH Hr. destruct (IH Hr) as [H1 [pre H2]]. split; [done|].
    destruct (parse_frame_progress _ _ _ E) as (pre' & _ & ->). exists (pre' +:+ pre).
    by rewrite app_assoc_str, <- H2.
Qed.
End stomp.


(** ** A concrete peer for the witnesses *)

Module Demo.
(** Reads any body as a request whose method is the body itself. *)
#[export] Instance demo_serde : RpcSerde JVal := {
  from_str_request s :=
    if String.eqb s "garbage" then Err "expected value"
    else if String.eqb s "notify" then Ok (mkRequest "2.0" s JNull None)
    else Ok (mkRequest "2.0" s JNull (Some (JInt 42)));
  response_to_vec r :=
    Ok (match resp_error r with Some e => err_message e | None => "done" end);
}.

#[export] Program Instance demo_iter : HashIter := {| hash_iter := map_to_list |}.
Next Obligation. done. Qed.

(** The world counts the verbs run. *)
Definition demo_dispatcher : Dispatcher JVal nat :=
  build_from [("Host.ping2", λ _ n, (Ok JNull, S n))].

Definition sock : list bytes → bytes → bool := λ _ _, true.
Definition connect : Frame := with_header "host" "vdsmd" (frame_new "CONNECT").
Definition send (b : bytes) : Frame := with_body b (frame_new "SEND").
End Demo.

Import Demo.

Lemma serve_stomp_chunking_witness :
  let s := to_bytes connect +:+ to_bytes (send "Host.ping2") in
  serve_stomp demo_dispatcher sock "p" (Read <$> [s]) 0 =
  serve_stomp demo_dispatcher sock "p" (Read <$> [str_take 9 s; str_drop 9 s]) 0.
Proof.
  apply serve_stomp_chunking; [| |vm_compute; reflexivity..];
    repeat constructor; vm_compute; discriminate.
Defined.

Lemma stomp_handshake_first_witness :
  ∃ e c w', serve_stomp demo_dispatcher sock "p" [Read (to_bytes (send "Host.ping2"))] 0
            = (e, c, w') ∧ connected c = false ∧
  (w' = 0 ∧ subscriptions c = ∅ ∧
   (out c = [] ∨ ∃ m b, out c = [to_bytes (build_error m b)])).
Proof.
  exists ExitOk, (mkConn ∅ false [to_bytes (build_error "expected CONNECT" "")]), 0.
  split; [vm_compute; reflexivity|]. split; [reflexivity|].
  apply (stomp_handshake_first demo_dispatcher sock "p"
    [Read (to_bytes (send "Host.ping2"))] 0 ExitOk); vm_compute; reflexivity.
Defined.

(** A connection that shook hands and subscribed. *)
Definition subscribe : Frame :=
  with_header "destination" "/queue/r" (with_header "id" "s1" (frame_new "SUBSCRIBE")).
Definition subscribed : conn :=
  mkConn {["s1" := "/queue/r"]} true
    [to_bytes (build_connected "1.2" ("vdsm-rs/" +:+ CARGO_PKG_VERSION) (Some "vdsm-rs-p"))].

Lemma subscribed_reachable : reachable demo_dispatcher sock "p" 0 subscribed 0.
Proof.
  eapply rtc_l.
  { eapply (frame_step_intro _ _ _ (to_bytes connect) connect); vm_compute; reflexivity. }
  eapply rtc_once.
  eapply (frame_step_intro _ _ _ (to_bytes subscribe) subscribe); vm_compute; reflexivity.
Qed.

Lemma stomp_send_reply_witness :
  ∃ m, handle_frame demo_dispatcher sock "p" (send "Host.ping2") subscribed 0 =
         (Running, mkConn {["s1" := "/queue/r"]} true (out subscribed ++ [to_bytes m]), 1) ∧
       command m = "MESSAGE" ∧ body m = "done" ∧ header "destination" m = Some "/queue/r" ∧
       header "subscription" m = Some "s1" ∧
       parse_frame (to_bytes m) = Returns (Ok (Some (m, ""))).
Proof.
  destruct (stomp_send_reply demo_dispatcher sock "p" 0 subscribed 0
    (to_bytes (send "Host.ping2")) "" (send "Host.ping2")
    (mkRequest "2.0" "Host.ping2" JNull (Some (JInt 42))) (JInt 42) (Ok JNull) 1 "done")
    as (m & dest & sid & H1 & H2 & H3 & H4 & H5 & H6 & H7 & H8);
    [apply subscribed_reachable|vm_compute; reflexivity..|reflexivity|].
  assert (dest = "/queue/r") as ->.
  { destruct H6 as [H6|[_ [[s Hs]|[Hs _]]]]; [vm_compute in H6; discriminate| |].
    - cbn in Hs. apply lookup_singleton_Some in Hs. symmetry. apply Hs.
    - apply (f_equal (lookup "s1")) in Hs. vm_compute in Hs. discriminate. }
  assert (sid = "s1") as ->.
  { destruct H7 as [H7|[H7 _]]; [|by destruct (H7 "s1")].
    cbn in H7. apply lookup_singleton_Some in H7. symmetry. apply H7. }
  exists m. split; [exact H1|]. split_and!; assumption.
Defined.

Lemma notification_error_replied_witness :
  process_one demo_dispatcher "notify" 0 = (None, 0) ∧
  ∃ c', handle_stomp_send demo_dispatcher sock (send "notify") conn_init 0
        = (Running, c', 0) ∧
        ∃ dest sid, out c' = [] ++ [to_bytes (build_message dest sid "Method not found: notify")].
Proof.
  apply (notification_error_replied demo_dispatcher sock (send "notify") conn_init 0
    (mkRequest "2.0" "notify" JNull None) (method_not_found "notify") 0);
    vm_compute; reflexivity.
Defined.

Lemma frame_loops_terminate_witness :
  let buf := to_bytes (send "Host.ping2") +:+ "SEND" in
  drain_go demo_dispatcher sock "p" 1000 buf (mkConn ∅ true []) 0 =
    drain demo_dispatcher sock "p" buf (mkConn ∅ true []) 0 ∧
  parse_frame (drain demo_dispatcher sock "p" buf (mkConn ∅ true []) 0).1.1.2 = Returns (Ok None).
Proof.
  intros buf. destruct (frame_loops_terminate demo_dispatcher sock "p" 1000 "" buf []
    (mkConn ∅ true []) 0) as (_ & H1 & H2).
  split; [apply H1; vm_compute; lia|]. apply H2. vm_compute. reflexivity.
Defined.

Lemma serve_lines_spec_witness :
  let input := "Host.ping2" +:+ String LF (String LF "notify") in
  let ser := λ r : Response JVal,
    match resp_error r with Some e => err_message e | None => "done" end in
  serve_lines demo_dispatcher sock input [] 0 = (ExitOk, ["done" +:+ String LF ""], 1).
Proof.
  intros input ser.
  rewrite (serve_lines_spec demo_dispatcher sock ser input 0); [vm_compute; reflexivity|..].
  - repeat constructor.
  - reflexivity.
  - reflexivity.
Defined.

(** ** Which destination answers *)

#[local] Program Definition demo_iter_rev : HashIter :=
  {| hash_iter m := reverse (map_to_list m) |}.
Next Obligation. intros m. apply reverse_Permutation. Qed.

(** With two subscriptions and no [reply-to], the reply's destination is not
    determined by the order of the SUBSCRIBE frames: two iteration orders a
    [HashMap] may have send it to different queues. *)
Theorem reply_dest_order_dependent :
  ∃ (i1 i2 : HashIter) (subs : gmap string string) (f : Frame),
    header "reply-to" f = None ∧
    @reply_dest i1 f subs ≠ @reply_dest i2 f subs.
Proof.
  exists demo_iter, demo_iter_rev, {["1" := "/queue/a"; "2" := "/queue/b"]}, (send "x").
  split; [done|]. vm_compute. discriminate.
Qed.
