(* ===== verification/Os.v ===== *)
(** * The operating system the daemons run on

    What the crates use of [std::path], [std::fs], [tokio::fs],
    [tokio::process] and [tokio::net::UnixStream], as an interface over a world
    [W]: [OsOps] has the calls, each of which may fail with an error (its
    [Display] text), and [OsLaws] has the documented behaviour the proofs rely
    on.  [demo_os] is a small in-memory implementation: it shows the laws can
    hold together and lets the witnesses compute. *)

From stdpp Require Import options.
From S2P Require Import Prelude Utf8 RustStr.

(** ** Paths: a [PathBuf] is the bytes of the path. *)

(** [base.join(p)]: an absolute [p] replaces [base]; otherwise the two are put
    together with a separator where [base] does not end in one. *)
Definition path_join (base p : string) : string :=
  if starts_with "/" p then p
  else match str_last base with
       | None => p
       | Some c => if Ascii.eqb c "/" then base +:+ p else base +:+ "/" +:+ p
       end.

(** [p.display().to_string()] *)
Definition display (p : string) : string := from_utf8_lossy p.

(** A component of a path: what [DirEntry::file_name] returns and what a file
    of a directory is called. *)
Definition plain_name (s : string) : bool :=
  negb (is_empty s) && negb (has_byte "/" s) && negb (String.eqb s ".")
  && negb (String.eqb s "..").

(** An absolute path all of whose components are names. *)
Definition clean_path (p : string) : bool :=
  match split_char "/" p with
  | EmptyString :: ((_ :: _) as comps) => forallb plain_name comps
  | _ => false
  end.

(** [q] is the directory [p] or lies under it. *)
Definition under (p q : string) : bool :=
  starts_with (if bool_decide (str_last p = Some "/"%char) then p else p +:+ "/") (q +:+ "/").

(** [std::process::Output] *)
Record Output := mkOutput {
  status_success : bool;
  status_code : option Z;
  stdout : bytes;
  stderr : bytes
}.

Class OsOps (W : Type) := {
  (** [Command::new(bin).args(args).output()] *)
  command_output : string → list string → st W (result Output string);
  (** [fs::read_to_string] *)
  fs_read : string → W → result string string;
  (** [File::open(p)] and one [read] into a buffer of [n] bytes *)
  fs_open_read : nat → string → W → result bytes string;
  (** [fs::metadata(p).map(|m| m.len())] *)
  fs_len : string → W → result N string;
  (** [Path::exists], [Path::is_dir] *)
  fs_exists : string → W → bool;
  fs_is_dir : string → W → bool;
  (** [fs::read_dir]: the entries' file names, in the order they are met; an
      entry that cannot be read is an error. *)
  fs_read_dir : string → W → result (list (result string string)) string;
  fs_write : string → bytes → st W (result unit string);
  fs_create_dir_all : string → st W (result unit string);
  fs_remove_file : string → st W (result unit string);
  fs_remove_dir_all : string → st W (result unit string);
  (** Connect to a Unix socket, write a line, flush, read one line. *)
  unix_exchange : string → bytes → st W (result bytes string);
  (** [SystemTime::now().duration_since(UNIX_EPOCH)] in seconds *)
  now_secs : W → N;
}.

(** Documented behaviour: a file that was written reads back, and writing or
    removing one file of a directory or creating a directory does not touch
    the other files of that directory. *)
Class OsLaws (W : Type) `{OsOps W} := {
  read_after_write p b (w w' : W) :
    fs_write p b w = (Ok tt, w') → utf8_valid b = true →
    fs_read p w' = Ok b ∧ fs_exists p w' = true;
  write_other d x y b (w : W) r w' :
    plain_name x = true → plain_name y = true → x ≠ y →
    fs_write (path_join d x) b w = (r, w') →
    fs_read (path_join d y) w' = fs_read (path_join d y) w ∧
    fs_exists (path_join d y) w' = fs_exists (path_join d y) w;
  write_is_dir p b q (w : W) r w' :
    fs_write p b w = (r, w') → fs_is_dir q w' = fs_is_dir q w;
  is_dir_after_create p (w w' : W) :
    fs_create_dir_all p w = (Ok tt, w') → fs_is_dir p w' = true;
  is_dir_create_other p q (w : W) r w' :
    fs_create_dir_all p w = (r, w') → fs_is_dir q w = true → fs_is_dir q w' = true;
  read_dir_plain p (w : W) entries n :
    fs_read_dir p w = Ok entries → Ok n ∈ entries → plain_name n = true;
  remove_dir_all_gone p q (w w' : W) :
    fs_remove_dir_all p w = (Ok tt, w') → clean_path q = true → under p q = true →
    fs_exists q w' = false;
  remove_dir_all_other p q (w : W) r w' :
    fs_remove_dir_all p w = (r, w') → clean_path p = true → clean_path q = true →
    under p q = false → fs_read q w' = fs_read q w ∧ fs_exists q w' = fs_exists q w;
}.

(** ** Lemmas on paths *)

Lemma path_join_rel base p :
  starts_with "/" p = false → base ≠ "" → str_last base ≠ Some "/"%char →
  path_join base p = base +:+ "/" +:+ p.
Proof.
  intros Hp Hb Hl. unfold path_join. rewrite Hp.
  destruct (str_last_nonempty base Hb) as [c Hc]. rewrite Hc in *.
  destruct (Ascii.eqb_spec c "/"); [congruence|done].
Qed.

Lemma plain_name_rel s : plain_name s = true → starts_with "/" s = false.
Proof.
  unfold plain_name. intros H. breflect. destruct s as [|a s]; [done|].
  cbn [has_byte] in *. breflect. cbn [starts_with].
  destruct (Ascii.eqb_spec "/" a); [congruence|done].
Qed.

Lemma no_slash_rel s : has_byte "/" s = false → starts_with "/" s = false.
Proof.
  destruct s as [|a s]; [done|]. cbn [has_byte starts_with]. intros H. breflect.
  destruct (Ascii.eqb_spec "/" a); [congruence|done].
Qed.

Lemma display_valid p : utf8_valid p = true → display p = p.
Proof. apply from_utf8_lossy_id. Qed.

(** A path that already is a path stays one when it is extended. *)
Lemma path_join_prefix base p :
  starts_with "/" p = false → starts_with base (path_join base p) = true.
Proof.
  intros Hp. unfold path_join. rewrite Hp. destruct (str_last base) as [c|] eqn:E.
  - destruct (Ascii.eqb c "/"); apply starts_with_app.
  - destruct base as [|a b]; [done|].
    destruct (str_last_nonempty (String a b)) as [x Hx]; [done|congruence].
Qed.

(** ** An in-memory operating system *)

Record demo := mkDemo {
  d_files : list (string * bytes);
  d_dirs : list string;
  (** commands run, oldest first *)
  d_log : list (string * list string);
  d_cmd : string → list string → result Output string;
  d_sock : bytes → result bytes string
}.

(** The directories on the way to a path, the path included. *)
Fixpoint ancestors_go (pre s : string) : list string :=
  match s with
  | EmptyString => [pre]
  | String a s' =>
      (if Ascii.eqb a "/" then [pre] else []) ++ ancestors_go (pre +:+ String a "") s'
  end.

Definition child_of (d p : string) : option string :=
  match strip_prefix (d +:+ "/") p with
  | Some n => if plain_name n then Some n else None
  | None => None
  end.

Definition set_files (f : list (string * bytes)) (w : demo) : demo :=
  mkDemo f (d_dirs w) (d_log w) (d_cmd w) (d_sock w).
Definition set_dirs (d : list string) (w : demo) : demo :=
  mkDemo (d_files w) d (d_log w) (d_cmd w) (d_sock w).
Definition has_dir (p : string) (w : demo) : bool := existsb (String.eqb p) (d_dirs w).
Definition log_cmd (c : string * list string) (w : demo) : demo :=
  mkDemo (d_files w) (d_dirs w) (d_log w ++ [c]) (d_cmd w) (d_sock w).

#[export] Instance demo_os : OsOps demo := {
  command_output bin args w := (d_cmd w bin args, log_cmd (bin, args) w);
  fs_read p w :=
    match assoc_first p (d_files w) with
    | Some b => if utf8_valid b then Ok b else Err "stream did not contain valid UTF-8"
    | None => Err "No such file or directory (os error 2)"
    end;
  fs_open_read n p w :=
    match assoc_first p (d_files w) with
    | Some b => Ok (str_take n b)
    | None => Err "No such file or directory (os error 2)"
    end;
  fs_len p w :=
    match assoc_first p (d_files w) with
    | Some b => Ok (N.of_nat (strlen b))
    | None => Err "No such file or directory (os error 2)"
    end;
  fs_exists p w :=
    match assoc_first p (d_files w) with Some _ => true | None => has_dir p w end;
  fs_is_dir p w := has_dir p w;
  fs_read_dir p w :=
    if has_dir p w
    then Ok (Ok <$> omap (child_of p) (d_dirs w ++ (d_files w).*1))
    else Err "No such file or directory (os error 2)";
  fs_write p b w :=
    if has_dir p w then (Err "Is a directory (os error 21)", w)
    else (Ok tt, set_files ((p, b) :: filter (λ kv, kv.1 ≠ p) (d_files w)) w);
  fs_create_dir_all p w :=
    (Ok tt, set_dirs (foldr (λ q ds, if existsb (String.eqb q) ds then ds else q :: ds)
                        (d_dirs w) (p :: ancestors_go "" p)) w);
  fs_remove_file p w :=
    match assoc_first p (d_files w) with
    | Some _ => (Ok tt, set_files (filter (λ kv, kv.1 ≠ p) (d_files w)) w)
    | None => (Err "No such file or directory (os error 2)", w)
    end;
  fs_remove_dir_all p w :=
    (Ok tt, set_dirs (filter (λ q, under p q = false) (d_dirs w))
              (set_files (filter (λ kv, under p kv.1 = false) (d_files w)) w));
  unix_exchange _ line w := (d_sock w line, w);
  now_secs _ := 1700000000%N;
}.

Lemma path_join_inj d x y :
  plain_name x = true → plain_name y = true → path_join d x = path_join d y → x = y.
Proof.
  intros Hx%plain_name_rel Hy%plain_name_rel. unfold path_join. rewrite Hx, Hy.
  destruct (str_last d) as [c|]; [|done].
  destruct (Ascii.eqb c "/"); intros E%(inj (String.app _)); [done|].
  by apply (inj (String.app _)) in E.
Qed.

Lemma assoc_first_filter p q (l : list (string * bytes)) :
  p ≠ q → assoc_first q (filter (λ kv, kv.1 ≠ p) l) = assoc_first q l.
Proof.
  intros Hne. induction l as [|[k v] l IH]; [done|]. rewrite filter_cons. cbn [fst].
  case_decide; cbn [assoc_first]; [by rewrite IH|].
  destruct (String.eqb_spec k q); [congruence|done].
Qed.

Lemma existsb_eqb p l : existsb (String.eqb p) l = true ↔ p ∈ l.
Proof.
  induction l as [|q l IH]; cbn [existsb]; [split; [done|by intros ?%not_elem_of_nil]|].
  rewrite orb_true_iff, IH, String.eqb_eq, elem_of_cons. done.
Qed.

Lemma add_dirs_in p l ds :
  p ∈ foldr (λ q ds, if existsb (String.eqb q) ds then ds else q :: ds) ds l ↔ p ∈ l ∨ p ∈ ds.
Proof.
  induction l as [|q l IH]; cbn [foldr]; [set_solver|].
  destruct (existsb (String.eqb q) _) eqn:E; [|set_solver].
  apply existsb_eqb in E. set_solver.
Qed.

Lemma assoc_first_filter_key (f : string → bool) q (l : list (string * bytes)) :
  assoc_first q (filter (λ kv, f kv.1 = false) l) = if f q then None else assoc_first q l.
Proof.
  induction l as [|[k v] l IH]; [by destruct (f q)|]. rewrite filter_cons. cbn [fst].
  case_decide as Hk; cbn [assoc_first]; rewrite IH;
    destruct (String.eqb_spec k q) as [->|]; destruct (f q); done.
Qed.

Lemma existsb_filter (f : string → bool) q l :
  existsb (String.eqb q) (filter (λ k, f k = false) l) = negb (f q) && existsb (String.eqb q) l.
Proof.
  apply eq_true_iff_eq. rewrite existsb_eqb, andb_true_iff, existsb_eqb, negb_true_iff.
  by rewrite list_elem_of_filter.
Qed.

#[export] Instance demo_os_laws : OsLaws demo.
Proof.
  split; cbn [fs_write fs_read fs_exists fs_is_dir fs_create_dir_all fs_read_dir fs_remove_dir_all
    demo_os]; unfold has_dir.
  - intros p b w w' H Hb. destruct (existsb _ _); simplify_eq/=.
    by rewrite String.eqb_refl, Hb.
  - intros d x y b w r w' Hx Hy Hne.
    destruct (existsb (String.eqb (path_join d x)) (d_dirs w)); intros [= _ <-]; [done|]. cbn.
    assert (path_join d x ≠ path_join d y) by (intros ?%path_join_inj; done).
    rewrite assoc_first_filter by done. by destruct (String.eqb_spec (path_join d x) (path_join d y)).
  - intros p b q w r w'. destruct (existsb (String.eqb p) _); by intros [= _ <-].
  - intros p w w' [= <-]. apply existsb_eqb. cbn [d_dirs set_dirs].
    apply (add_dirs_in p (p :: ancestors_go "" p)). left. left.
  - intros p q w r w' [= _ <-] Hq%existsb_eqb. apply existsb_eqb. cbn [d_dirs set_dirs].
    apply (add_dirs_in q (p :: ancestors_go "" p)). by right.
  - intros p w entries n. destruct (existsb _ _); [|done]. intros [= <-].
    intros (m & [= <-] & (q & _ & Hq)%list_elem_of_omap)%list_elem_of_fmap.
    unfold child_of in Hq. by cases.
  - intros p q w w' [= <-] _ Hu. cbn [d_files d_dirs set_files set_dirs].
    by rewrite (assoc_first_filter_key (under p)), (existsb_filter (under p)), Hu.
  - intros p q w r w' [= _ <-] _ _ Hu. cbn [d_files d_dirs set_files set_dirs].
    by rewrite (assoc_first_filter_key (under p)), (existsb_filter (under p)), Hu.
Qed.

(** ** Directories and what lies under them *)

Lemma clean_path_abs p : clean_path p = true → starts_with "/" p = true.
Proof.
  unfold clean_path. destruct p as [|a p]; [done|]. cbn [split_char starts_with].
  destruct (Ascii.eqb_spec a "/") as [->|Hne]; [done|]. by destruct (split_char "/" p).
Qed.

Lemma clean_path_join p n :
  clean_path p = true → plain_name n = true →
  path_join p n = p +:+ String "/" n ∧ clean_path (p +:+ String "/" n) = true.
Proof.
  unfold clean_path. intros Hp Hn. pose proof (plain_name_rel n Hn) as Hrel.
  assert (has_byte "/" n = false) as Hs by (unfold plain_name in Hn; by breflect).
  assert (str_last p ≠ Some "/"%char) as Hlast.
  { intros (t & ->)%str_last_split. rewrite split_char_app in Hp. cbn [split_char] in Hp.
    destruct (split_char "/" t) as [|[|]l]; [done| |done]. cbn [app] in Hp.
    destruct l as [|x l]; [done|]. cbn [app] in Hp.
    rewrite app_comm_cons, forallb_app in Hp. cbn in Hp. by rewrite andb_false_r in Hp. }
  split.
  - apply path_join_rel; [done| |done]. by intros ->.
  - rewrite split_char_app, (split_char_no "/" n) by done.
    destruct (split_char "/" p) as [|[|]l]; [done| |done]. cbn [app].
    destruct l as [|x l]; [done|]. cbn [app]. rewrite app_comm_cons, forallb_app, Hp. cbn [forallb].
    by rewrite Hn.
Qed.

(** A file of one child directory lies under another only if they are the same. *)
Lemma under_child d n m rest :
  has_byte "/" n = false → has_byte "/" m = false → n ≠ "" →
  under (d +:+ String "/" n) (d +:+ String "/" (m +:+ String "/" rest)) = String.eqb n m.
Proof.
  intros Hn Hm Hne. unfold under. rewrite bool_decide_false.
  2:{ rewrite str_last_app. intros Hl. destruct n as [|a n]; [done|]. change (str_last (String "/" (String a n)))
        with (str_last (String a n)) in Hl. apply has_byte_last in Hl. congruence. }
  rewrite !app_assoc_str, starts_with_cancel, !app_String. cbn [starts_with].
  rewrite Ascii.eqb_refl, app_assoc_str, app_String. by apply starts_with_sep.
Qed.
