(* ===== verification/Supervdsm.v ===== *)
(** * The privileged helper (crates/supervdsm and crates/vdsm-common/src/supervdsm.rs)

    [vdsmd] sends one [PrivOp] per connection; [supervdsmd] checks the peer,
    reads the operation, validates its fields, builds the argument vector and
    runs the command as root.  Both ends are modelled: [call_at], [call] and
    [run] on the client side, [handle] and [execute] in the daemon.  The JSON
    encoding of operations and results is [serde_json]'s: [PrivSerde] is its
    interface, [PrivSerdeLaws] its documented round trip. *)

From stdpp Require Import options.
From S2P Require Import Prelude Utf8 RustStr Os.

(** ** vdsm-common/src/supervdsm.rs: the protocol *)

Definition SOCK_PATH : string := "/run/supervdsm/sock".

Inductive PrivOp :=
| Mount (fstype spec target options : string)
| Umount (target : string)
| IscsiDiscover (portal : string)
| IscsiLogin (iqn portal : string)
| IscsiLogout (iqn portal : string)
| IscsiRescan
| Pvcreate (device : string)
| Vgcreate (vg : string) (devices : list string)
| Vgextend (vg device : string)
| Vgremove (vg : string)
| Lvcreate (vg lv : string) (size_bytes : N)
| Lvchange (vg lv : string) (active : bool)
| Lvremove (vg lv : string)
| FcScan
| MultipathList.

Record PrivResult := mkPrivResult {
  pr_ok : bool;
  pr_code : Z;
  pr_stdout : string;
  pr_stderr : string
}.

Definition failure (msg : string) : PrivResult := mkPrivResult false (-1) "" msg.

(** [serde_json::to_string] and [serde_json::from_str] on the two types. *)
Class PrivSerde := {
  op_to_string : PrivOp → result string string;
  op_from_str : string → result PrivOp string;
  res_to_string : PrivResult → result string string;
  res_from_str : string → result PrivResult string;
}.

(** What is put on the wire for [x] is one line that survives [trim] and is read
    back as [x]. *)
Definition wire_line {A} (x : A) (s : string) (read : string → result A string) : Prop :=
  utf8_valid s = true ∧ has_byte LF s = false ∧ s ≠ "" ∧
  trim (s +:+ String LF "") = s ∧ read s = Ok x.

Class PrivSerdeLaws `{PrivSerde} := {
  op_wire op : ∃ s, op_to_string op = Ok s ∧ wire_line op s op_from_str;
  res_wire r : ∃ s, res_to_string r = Ok s ∧ wire_line r s res_from_str;
}.

(** ** supervdsm/src/exec.rs *)

Definition MOUNT_ROOT : string := "/rhev/data-center/mnt/".

Definition lvm_char (c : ascii) : bool :=
  is_ascii_alphanumeric c || Ascii.eqb c "-" || Ascii.eqb c "_" || Ascii.eqb c "."
  || Ascii.eqb c "+".

Definition valid_lvm_name (s : string) : bool :=
  negb (is_empty s) && negb (starts_with "-" s) && (strlen s <=? 128)%nat
  && str_all lvm_char s.

Definition valid_device (s : string) : bool :=
  starts_with "/dev/" s && negb (contains ".." s) && negb (has_byte NUL s)
  && (N.of_nat (strlen s) <=? 4096)%N.

Definition valid_target (s : string) : bool :=
  starts_with MOUNT_ROOT s && negb (contains ".." s) && negb (has_byte NUL s).

Definition valid_fstypes : list string :=
  ["nfs"; "nfs4"; "cifs"; "glusterfs"; "none"; "auto"; "ext4"; "xfs"; "ext3"].

Definition valid_fstype (s : string) : bool := bool_decide (s ∈ valid_fstypes).

Definition portal_char (c : ascii) : bool :=
  is_ascii_alphanumeric c || Ascii.eqb c "." || Ascii.eqb c ":" || Ascii.eqb c "-"
  || Ascii.eqb c "[" || Ascii.eqb c "]".

Definition valid_portal (s : string) : bool :=
  negb (is_empty s) && negb (starts_with "-" s) && negb (has_byte NUL s)
  && (strlen s <=? 256)%nat && str_all portal_char s.

Definition iqn_char (c : ascii) : bool :=
  is_ascii_alphanumeric c || Ascii.eqb c "." || Ascii.eqb c ":" || Ascii.eqb c "-".

Definition valid_iqn (s : string) : bool :=
  negb (is_empty s) && negb (starts_with "-" s) && negb (has_byte NUL s)
  && (strlen s <=? 256)%nat && str_all iqn_char s.

Definition invalid (field : string) : PrivResult :=
  failure ("rejected: invalid " +:+ field).

Section exec.
Context {W} `{OsOps W}.

Definition exec_run (bin : string) (args : list string) : st W PrivResult :=
  let! r := command_output bin args in
  st_ret (match r with
          | Ok o => mkPrivResult (status_success o) (default (-1)%Z (status_code o))
                      (from_utf8_lossy (stdout o)) (from_utf8_lossy (stderr o))
          | Err e => failure ("spawn " +:+ bin +:+ ": " +:+ e)
          end).

(** The loop of [FcScan] over the entries of [/sys/class/scsi_host]. *)
Fixpoint fc_scan_loop (entries : list (result string string)) (errs : list string)
  : st W (list string) :=
  match entries with
  | [] => st_ret errs
  | Err _ :: entries' => fc_scan_loop entries' errs
  | Ok name :: entries' =>
      let p := path_join (path_join "/sys/class/scsi_host" name) "scan" in
      let! r := fs_write p ("- - -" +:+ String LF "") in
      match r with
      | Ok _ => fc_scan_loop entries' errs
      | Err e => fc_scan_loop entries' (errs ++ [display p +:+ ": " +:+ e])
      end
  end.

Definition fc_scan_exec : st W PrivResult := λ w,
  let '(errs, w') :=
    match fs_read_dir "/sys/class/scsi_host" w with
    | Ok rd => fc_scan_loop rd [] w
    | Err e => (["read scsi_host: " +:+ e], w)
    end in
  (match errs with
   | [] => mkPrivResult true 0 "" ""
   | _ => failure (join "; " errs)
   end, w').

Definition execute (op : PrivOp) : st W PrivResult :=
  match op with
  | Mount fstype spec target options =>
      if negb (valid_fstype fstype) then st_ret (invalid "fstype")
      else if negb (valid_target target) then st_ret (invalid "target")
      else if is_empty spec || starts_with "-" spec || has_byte NUL spec
           then st_ret (invalid "spec")
      else if negb (is_empty options) then
        if starts_with "-" options || has_byte NUL options then st_ret (invalid "options")
        else exec_run "/usr/bin/mount" ["-t"; fstype; "-o"; options; spec; target]
      else exec_run "/usr/bin/mount" ["-t"; fstype; spec; target]
  | Umount target =>
      if negb (valid_target target) then st_ret (invalid "target")
      else exec_run "/usr/bin/umount" [target]
  | IscsiDiscover portal =>
      if negb (valid_portal portal) then st_ret (invalid "portal")
      else exec_run "/usr/sbin/iscsiadm" ["-m"; "discovery"; "-t"; "st"; "-p"; portal]
  | IscsiLogin iqn portal =>
      if negb (valid_iqn iqn) then st_ret (invalid "iqn")
      else if negb (valid_portal portal) then st_ret (invalid "portal")
      else exec_run "/usr/sbin/iscsiadm" ["-m"; "node"; "-T"; iqn; "-p"; portal; "--login"]
  | IscsiLogout iqn portal =>
      if negb (valid_iqn iqn) then st_ret (invalid "iqn")
      else if negb (valid_portal portal) then st_ret (invalid "portal")
      else exec_run "/usr/sbin/iscsiadm" ["-m"; "node"; "-T"; iqn; "-p"; portal; "--logout"]
  | IscsiRescan => exec_run "/usr/sbin/iscsiadm" ["-m"; "session"; "--rescan"]
  | Pvcreate device =>
      if negb (valid_device device) then st_ret (invalid "device")
      else exec_run "/usr/sbin/pvcreate" ["-ff"; "-y"; device]
  | Vgcreate vg devices =>
      if negb (valid_lvm_name vg) then st_ret (invalid "vg")
      else if bool_decide (devices = []) || negb (forallb valid_device devices)
           then st_ret (invalid "devices")
      else exec_run "/usr/sbin/vgcreate" (["-s"; "128m"; "-y"; vg] ++ devices)
  | Vgextend vg device =>
      if negb (valid_lvm_name vg) then st_ret (invalid "vg")
      else if negb (valid_device device) then st_ret (invalid "device")
      else exec_run "/usr/sbin/vgextend" [vg; device]
  | Vgremove vg =>
      if negb (valid_lvm_name vg) then st_ret (invalid "vg")
      else exec_run "/usr/sbin/vgremove" ["-f"; "-y"; vg]
  | Lvcreate vg lv size_bytes =>
      if negb (valid_lvm_name vg) then st_ret (invalid "vg")
      else if negb (valid_lvm_name lv) then st_ret (invalid "lv")
      else if (size_bytes =? 0)%N then st_ret (invalid "size_bytes")
      else
        let size := to_string size_bytes +:+ "B" in
        exec_run "/usr/sbin/lvcreate" ["-W"; "y"; "-Z"; "n"; "-n"; lv; "-L"; size; vg]
  | Lvchange vg lv active =>
      if negb (valid_lvm_name vg) then st_ret (invalid "vg")
      else if negb (valid_lvm_name lv) then st_ret (invalid "lv")
      else
        let path := vg +:+ "/" +:+ lv in
        if active then exec_run "/usr/sbin/lvchange" ["-a"; "y"; "-K"; path]
        else exec_run "/usr/sbin/lvchange" ["-a"; "n"; path]
  | Lvremove vg lv =>
      if negb (valid_lvm_name vg) then st_ret (invalid "vg")
      else if negb (valid_lvm_name lv) then st_ret (invalid "lv")
      else exec_run "/usr/sbin/lvremove" ["-f"; "-y"; vg +:+ "/" +:+ lv]
  | FcScan => fc_scan_exec
  | MultipathList => exec_run "/usr/sbin/multipath" ["-ll"; "-j"]
  end.
End exec.

(** ** supervdsm/src/main.rs *)

(** One line of [/etc/passwd]: the ids when its first field is [name]. *)
Definition passwd_line (name line : string) : option (N * N) :=
  let f := split_char ":" line in
  if bool_decide (f !! 0 = Some name) then
    match f !! 2 ≫= parse_u32, f !! 3 ≫= parse_u32 with
    | Some uid, Some gid => Some (uid, gid)
    | _, _ => None
    end
  else None.

Fixpoint lookup_lines (name : string) (ls : list string) : option (N * N) :=
  match ls with
  | [] => None
  | l :: ls' =>
      match passwd_line name l with
      | Some ids => Some ids
      | None => lookup_lines name ls'
      end
  end.

Definition lookup_user {W} `{OsOps W} (name : string) (w : W) : result (N * N) string :=
  match fs_read "/etc/passwd" w with
  | Err e => Err e
  | Ok passwd =>
      match lookup_lines name (lines passwd) with
      | Some ids => Ok ids
      | None => Err ("user " +:+ name +:+ " not found in /etc/passwd")
      end
  end.

Section daemon.
Context {W} `{OsOps W} `{PrivSerde}.

(** [handle], one connection.  [peer_cred] is what the kernel says of the peer's
    uid, [input] the bytes it sends before it closes its end (or a read failure),
    [sock_ok] whether writing the answer succeeds.  Returned: how the handler
    ends and the bytes written to the peer. *)

(** Before a byte is read: the peers that are turned away, and how. *)
Definition authenticate (peer_cred : result N string) (allowed_uid : N) (sock_ok : bool)
  : option (result unit string * bytes) :=
  match peer_cred with
  | Err e => Some (Err e, "")
  | Ok uid =>
      if negb (uid =? allowed_uid)%N then
        match res_to_string (failure "unauthorized: peer uid not permitted") with
        | Err e => Some (Err e, "")
        | Ok line => Some (Ok tt, if sock_ok then line +:+ String LF "" else "")
        end
      else None
  end.

(** After the request line has been read. *)
Definition serve_request (input : result bytes string) (sock_ok : bool)
  : st W (result unit string * bytes) := λ w,
  match input with
  | Err e => ((Err e, ""), w)
  | Ok bs =>
      let req := (read_line bs).1 in
      if negb (utf8_valid req) then
        ((Err "stream did not contain valid UTF-8", ""), w)
      else if is_empty (trim req) then ((Ok tt, ""), w)
      else
        let '(res, w') :=
          match op_from_str (trim req) with
          | Ok op => execute op w
          | Err e => (failure ("malformed request: " +:+ e), w)
          end in
        match res_to_string res with
        | Err e => ((Err e, ""), w')
        | Ok line =>
            if sock_ok then ((Ok tt, line +:+ String LF ""), w')
            else ((Err "Broken pipe (os error 32)", ""), w')
        end
  end.

Definition handle (peer_cred : result N string) (allowed_uid : N)
  (input : result bytes string) (sock_ok : bool) : st W (result unit string * bytes) := λ w,
  match authenticate peer_cred allowed_uid sock_ok with
  | Some r => (r, w)
  | None => serve_request input sock_ok w
  end.

(** ** vdsm-common/src/supervdsm.rs: the client *)

Definition call_at (sock : string) (op : PrivOp) : st W (result PrivResult string) := λ w,
  match op_to_string op with
  | Err e => (Err e, w)
  | Ok line =>
      match unix_exchange sock (line +:+ String LF "") w with
      | (Err e, w') => (Err e, w')
      | (Ok answer, w') =>
          let resp := (read_line answer).1 in
          if negb (utf8_valid resp) then (Err "stream did not contain valid UTF-8", w')
          else (res_from_str (trim resp), w')
      end
  end.

Definition call (op : PrivOp) : st W (result PrivResult string) := call_at SOCK_PATH op.

Definition run (op : PrivOp) : st W (option string) :=
  let! r := call op in
  st_ret (match r with
          | Ok r => if pr_ok r then Some (pr_stdout r) else None
          | Err _ => None
          end).
End daemon.

(** The world in which [supervdsmd] listens on the other end of the socket: the
    client's exchange is one run of [handle]. *)
Definition with_supervdsmd {W} (os : OsOps W) `{PrivSerde} (peer_uid allowed_uid : N) : OsOps W :=
  {| command_output := command_output; fs_read := fs_read; fs_open_read := fs_open_read; fs_len := fs_len;
     fs_exists := fs_exists; fs_is_dir := fs_is_dir; fs_read_dir := fs_read_dir;
     fs_write := fs_write; fs_create_dir_all := fs_create_dir_all;
     fs_remove_file := fs_remove_file; fs_remove_dir_all := fs_remove_dir_all;
     unix_exchange sock line w :=
       let '((_, answer), w') := handle (Ok peer_uid) allowed_uid (Ok line) true w in
       (Ok answer, w');
     now_secs := now_secs |}.
