(* ===== verification/SupervdsmFacts.v ===== *)
(** * Properties of the privileged helper

    What a field of an operation can and cannot put on a root command line,
    where mounts and devices can point, who can make [supervdsmd] run anything,
    and that the client and the daemon together execute the operation asked
    for. *)

From stdpp Require Import options.
From S2P Require Import Prelude Utf8 RustStr Os Supervdsm.

(** ** Arguments *)

Definition is_switch (a : string) : bool := starts_with "-" a.

(** The switches a kind of operation puts on its command line. *)
Definition switches (op : PrivOp) : list string :=
  match op with
  | Mount _ _ _ options => if is_empty options then ["-t"] else ["-t"; "-o"]
  | Umount _ => []
  | IscsiDiscover _ => ["-m"; "-t"; "-p"]
  | IscsiLogin _ _ => ["-m"; "-T"; "-p"; "--login"]
  | IscsiLogout _ _ => ["-m"; "-T"; "-p"; "--logout"]
  | IscsiRescan => ["-m"; "--rescan"]
  | Pvcreate _ => ["-ff"; "-y"]
  | Vgcreate _ _ => ["-s"; "-y"]
  | Vgextend _ _ => []
  | Vgremove _ => ["-f"; "-y"]
  | Lvcreate _ _ _ => ["-W"; "-Z"; "-n"; "-L"]
  | Lvchange _ _ active => if active then ["-a"; "-K"] else ["-a"]
  | Lvremove _ _ => ["-f"; "-y"]
  | FcScan => []
  | MultipathList => ["-ll"; "-j"]
  end.

Definition privileged_bins : list string :=
  ["/usr/bin/mount"; "/usr/bin/umount"; "/usr/sbin/iscsiadm"; "/usr/sbin/pvcreate";
   "/usr/sbin/vgcreate"; "/usr/sbin/vgextend"; "/usr/sbin/vgremove"; "/usr/sbin/lvcreate";
   "/usr/sbin/lvchange"; "/usr/sbin/lvremove"; "/usr/sbin/multipath"].

(** The paths of an operation that name a device or a mount point. *)
Definition op_paths (op : PrivOp) : list string :=
  match op with
  | Mount _ _ target _ => [target]
  | Umount target => [target]
  | Pvcreate device => [device]
  | Vgcreate _ devices => devices
  | Vgextend _ device => [device]
  | _ => []
  end.

Lemma valid_lvm_name_arg s : valid_lvm_name s = true → is_switch s = false ∧ s ≠ "".
Proof. unfold valid_lvm_name, is_switch. intros. breflect. split; [done|by intros ->]. Qed.

Lemma valid_portal_arg s : valid_portal s = true → is_switch s = false ∧ s ≠ "".
Proof. unfold valid_portal, is_switch. intros. breflect. split; [done|by intros ->]. Qed.

Lemma valid_iqn_arg s : valid_iqn s = true → is_switch s = false ∧ s ≠ "".
Proof. unfold valid_iqn, is_switch. intros. breflect. split; [done|by intros ->]. Qed.

Lemma rooted_arg r s : starts_with (String "/" r) s = true → is_switch s = false ∧ s ≠ "".
Proof. intros [t ->]%starts_with_spec. by rewrite app_String. Qed.

Lemma valid_device_arg s : valid_device s = true → is_switch s = false ∧ s ≠ "".
Proof. unfold valid_device. intros. breflect. by eapply rooted_arg. Qed.

Lemma valid_target_arg s : valid_target s = true → is_switch s = false ∧ s ≠ "".
Proof. unfold valid_target. intros. breflect. by eapply rooted_arg. Qed.

Lemma valid_fstype_arg s : valid_fstype s = true → is_switch s = false ∧ s ≠ "".
Proof.
  unfold valid_fstype, valid_fstypes. intros. breflect.
  repeat match goal with
  | H : _ ∈ _ :: _ |- _ => apply elem_of_cons in H as [->|H]; [done|]
  end.
  set_solver.
Qed.

Lemma digit_not_dash c : is_ascii_digit c = true → c ≠ "-"%char.
Proof. by intros ? ->. Qed.

Lemma to_string_arg n s : is_switch (to_string n +:+ s) = false ∧ to_string n +:+ s ≠ "".
Proof.
  pose proof (to_string_digits n) as Hd. pose proof (to_string_nonempty n) as Hne.
  destruct (to_string n) as [|c t]; [done|]. rewrite app_String. simpl in *. breflect.
  split; [|done]. unfold is_switch. cbn [starts_with].
  destruct (Ascii.eqb_spec "-" c) as [<-|]; [done|]. done.
Qed.

Lemma app_arg s t : is_switch s = false ∧ s ≠ "" → is_switch (s +:+ t) = false ∧ s +:+ t ≠ "".
Proof. destruct s as [|c s]; [by intros []|]. intros [H _]. by rewrite app_String. Qed.

Lemma checked_arg s :
  is_empty s = false → starts_with "-" s = false → is_switch s = false ∧ s ≠ "".
Proof. by destruct s. Qed.

#[export] Hint Resolve checked_arg valid_lvm_name_arg valid_portal_arg valid_iqn_arg valid_device_arg
  valid_target_arg valid_fstype_arg to_string_arg app_arg : vdsm.

Lemma filter_switch_no a l :
  is_switch a = false ∧ a ≠ "" → filter (λ x, is_switch x = true) (a :: l) = filter (λ x, is_switch x = true) l.
Proof. intros [Ha _]. rewrite filter_cons_False; [done|]. by rewrite Ha. Qed.

Lemma filter_switch_yes a l :
  is_switch a = true → filter (λ x, is_switch x = true) (a :: l) = a :: filter (λ x, is_switch x = true) l.
Proof. intros. by rewrite filter_cons_True. Qed.

Lemma filter_switch_devices ds :
  forallb valid_device ds = true → filter (λ x, is_switch x = true) ds = [].
Proof.
  induction ds as [|d ds IH]; [done|]. cbn [forallb]. intros. breflect.
  rewrite filter_switch_no by eauto with vdsm. auto.
Qed.

Lemma devices_nonempty ds : forallb valid_device ds = true → Forall (λ a, a ≠ "") ds.
Proof.
  induction ds as [|d ds IH]; [constructor|]. cbn [forallb]. intros. breflect.
  constructor; [|auto]. by apply valid_device_arg.
Qed.

Lemma forallb_device ds d : forallb valid_device ds = true → d ∈ ds → valid_device d = true.
Proof.
  intros Hds Hd. apply list_elem_of_In in Hd. by apply (proj1 (forallb_forall _ _) Hds).
Qed.

(** Step through the checks of [execute]: a failed check is a rejection. *)
Ltac checks :=
  cbn [execute];
  repeat match goal with
  | |- context [if ?b then _ else _] =>
      let E := fresh "Hchk" in destruct b eqn:E; try (left; eexists; reflexivity)
  end; breflect.

(** The switches of an argument list, one argument at a time. *)
Ltac switch_args :=
  repeat first
    [ rewrite filter_switch_yes by reflexivity
    | rewrite filter_switch_no by (first [by split | by eauto with vdsm]) ].

Ltac nonempty_args :=
  repeat (apply Forall_cons; split;
    [first [done | match goal with |- ?a ≠ _ => cut (is_switch a = false ∧ a ≠ ""); [by intros []|by eauto with vdsm] end]|]);
  try apply Forall_nil_2.

(** C8: no field of an operation can add a switch to a root command line: an
    operation is refused before anything runs, or is the sysfs rescan, or runs
    exactly one command, from a closed list of binaries, in which the
    arguments that start with [-] are the ones its kind prescribes and none is
    empty. *)
Theorem execute_switches {W} `{OsOps W} op (w : W) :
  (∃ field, execute op w = (invalid field, w)) ∨ op = FcScan ∨
  ∃ bin args, execute op w = exec_run bin args w ∧ bin ∈ privileged_bins ∧
    filter (λ a, is_switch a = true) args = switches op ∧ Forall (λ a, a ≠ "") args.
Proof.
  destruct op; checks; try (right; left; reflexivity); right; right;
    (do 2 eexists; split; [reflexivity|]; split; [unfold privileged_bins; set_solver|]).
  all: cbn [app]; switch_args; split; [|nonempty_args]; cbn [switches].
  all: try (by rewrite ?Hchk2); try done.
  - by rewrite filter_switch_devices.
  - by apply devices_nonempty.
Qed.

(** ** Paths *)

(** A path under a root that cannot leave it: no component is [..]. *)
Definition confined (root p : string) : Prop :=
  starts_with root p = true ∧ ".." ∉ split_char "/" p.

Lemma confined_intro root p :
  starts_with root p = true → contains ".." p = false → confined root p.
Proof. intros Hr Hc. split; [done|]. intros H%split_char_part. congruence. Qed.

Lemma valid_target_confined s : valid_target s = true → confined MOUNT_ROOT s.
Proof. unfold valid_target. intros. breflect. by apply confined_intro. Qed.

Lemma valid_device_confined s : valid_device s = true → confined "/dev/" s.
Proof. unfold valid_device. intros. breflect. by apply confined_intro. Qed.

Definition op_root (op : PrivOp) : string :=
  match op with Mount _ _ _ _ | Umount _ => MOUNT_ROOT | _ => "/dev/" end.

(** C9: whatever is mounted, unmounted or made part of a volume group is where it
    should be: an operation is refused before anything runs unless its mount
    points lie under [/rhev/data-center/mnt/] and its devices under [/dev/],
    with no [..] component that would lead out again. *)
Theorem execute_paths_confined {W} `{OsOps W} op (w : W) :
  (∃ field, execute op w = (invalid field, w)) ∨ Forall (confined (op_root op)) (op_paths op).
Proof.
  destruct op; checks; right; cbn [op_root op_paths];
    repeat (apply Forall_cons; split); try apply Forall_nil_2;
    auto using valid_target_confined, valid_device_confined.
  apply Forall_forall. intros d Hd.
  eapply valid_device_confined, forallb_device; eauto.
Qed.

(** C18: the checks on a mount restrict its target and its type, not its source
    or its options: with the type [none] any source that is not empty, not a
    switch and free of NUL is mounted as root with any such options, a bind
    mount of [/] among them. *)
Theorem mount_any_source {W} `{OsOps W} spec options sub (w : W) :
  is_empty spec = false → is_switch spec = false → has_byte NUL spec = false →
  is_empty options = false → is_switch options = false → has_byte NUL options = false →
  contains ".." (MOUNT_ROOT +:+ sub) = false → has_byte NUL sub = false →
  execute (Mount "none" spec (MOUNT_ROOT +:+ sub) options) w =
  exec_run "/usr/bin/mount" ["-t"; "none"; "-o"; options; spec; MOUNT_ROOT +:+ sub] w.
Proof.
  unfold is_switch. intros Hs1 Hs2 Hs3 Ho1 Ho2 Ho3 Hc Hn. cbn [execute].
  change (valid_fstype "none") with true. unfold valid_target.
  rewrite starts_with_app, Hc, has_byte_app, Hn, Hs1, Hs2, Hs3, Ho1, Ho2, Ho3. reflexivity.
Qed.

(** Names made of dots pass the check on LVM names: the path handed to
    [lvremove] can be made of [..] components only. *)
Lemma lvm_name_dots_accepted {W} `{OsOps W} (w : W) :
  execute (Lvremove ".." "..") w = exec_run "/usr/sbin/lvremove" ["-f"; "-y"; "../.."] w.
Proof. reflexivity. Qed.

(** ** Who can make the daemon act *)

Section daemon.
Context {W} `{OsOps W} `{PrivSerde}.

(** Past the check there is nobody but the allowed user. *)
Lemma authenticate_uid cred allowed sock_ok :
  authenticate cred allowed sock_ok = None ↔ cred = Ok allowed.
Proof.
  unfold authenticate. destruct cred as [uid|]; [|done].
  destruct (N.eqb_spec uid allowed) as [->|Hne]; cbn [negb]; [done|].
  by destruct (res_to_string _); split; intros; simplify_eq.
Qed.

(** What a request changes is the effect of executing its operation once. *)
Lemma serve_request_world input sock_ok (w : W) r w' :
  serve_request input sock_ok w = (r, w') → w' ≠ w →
  ∃ bs op, input = Ok bs ∧ op_from_str (trim (read_line bs).1) = Ok op ∧
           w' = (execute op w).2.
Proof.
  unfold serve_request. intros Hh Hne. destruct input as [bs|]; [|congruence].
  destruct (utf8_valid (read_line bs).1); cbn [negb] in Hh; [|congruence].
  destruct (is_empty _); [congruence|]. exists bs.
  destruct (op_from_str (trim (read_line bs).1)) as [op|e].
  - exists op. split; [done|]. split; [done|].
    destruct (execute op w) as [res w1].
    destruct (res_to_string res); [destruct sock_ok|]; simplify_eq/=; done.
  - destruct (res_to_string _); [destruct sock_ok|]; congruence.
Qed.

Lemma read_line_wire s : has_byte LF s = false → (read_line (s +:+ String LF "")).1 = s +:+ String LF "".
Proof.
  intros Hs. unfold read_line. rewrite find_byte_app_hit by done. cbn [fst].
  rewrite <- (app_nil_r_str (s +:+ String LF "")) at 1.
  replace (S (strlen s)) with (strlen (s +:+ String LF "")) by (rewrite strlen_app; simpl; lia).
  apply str_take_app.
Qed.

Lemma utf8_valid_wire s : utf8_valid s = true → utf8_valid (s +:+ String LF "") = true.
Proof. intros. by apply utf8_valid_app. Qed.

(** One line written for [x], read back by the other side. *)
Lemma wire_read {A} (x : A) s read :
  wire_line x s read →
  let l := (read_line (s +:+ String LF "")).1 in
  utf8_valid l = true ∧ is_empty (trim l) = false ∧ read (trim l) = Ok x.
Proof.
  intros (Hu & Hl & Hne & Ht & Hr) l. unfold l. rewrite read_line_wire by done.
  split; [by apply utf8_valid_wire|]. rewrite Ht. split; [by destruct s|done].
Qed.

Lemma handle_execute `{!PrivSerdeLaws} uid op s (w : W) :
  op_to_string op = Ok s → wire_line op s op_from_str →
  ∃ line, res_to_string (execute op w).1 = Ok line ∧ wire_line (execute op w).1 line res_from_str ∧
    handle (Ok uid) uid (Ok (s +:+ String LF "")) true w =
    ((Ok tt, line +:+ String LF ""), (execute op w).2).
Proof.
  intros _ Hs. destruct (wire_read _ _ _ Hs) as (Hu & He & Hr).
  destruct (res_wire (execute op w).1) as (line & Hline & Hw).
  exists line. split; [done|]. split; [done|]. unfold handle.
  rewrite (proj2 (authenticate_uid (Ok uid) uid true) eq_refl). unfold serve_request. rewrite Hu. cbn [negb]. rewrite He, Hr.
  destruct (execute op w) as [res w']. cbn [fst snd] in *. by rewrite Hline.
Qed.
End daemon.

Section client.
Context {W} (os : OsOps W) `{PrivSerde}.

Lemma call_supervdsmd `{!PrivSerdeLaws} uid op (w : W) :
  @call W (with_supervdsmd os uid uid) _ op w =
  let '(r, w') := @execute W os op w in (Ok r, w').
Proof.
  unfold call, call_at. destruct (op_wire op) as (s & Hs & Hws). rewrite Hs.
  cbn [with_supervdsmd unix_exchange].
  destruct (handle_execute uid op s w Hs Hws) as (line & _ & Hw & Hh). rewrite Hh.
  destruct (wire_read _ _ _ Hw) as (Hu & _ & Hr). rewrite Hu. cbn [negb]. rewrite Hr.
  by destruct (@execute W os op w) as [r w'].
Qed.

Lemma call_refused `{!PrivSerdeLaws} uid allowed op (w : W) :
  uid ≠ allowed →
  @call W (with_supervdsmd os uid allowed) _ op w =
  (Ok (failure "unauthorized: peer uid not permitted"), w).
Proof.
  intros Hne. unfold call, call_at. destruct (op_wire op) as (s & Hs & Hws). rewrite Hs.
  cbn [with_supervdsmd unix_exchange]. unfold handle, authenticate.
  rewrite (proj2 (N.eqb_neq _ _) Hne). cbn [negb].
  destruct (res_wire (failure "unauthorized: peer uid not permitted")) as (line & Hl & Hw).
  rewrite Hl. destruct (wire_read _ _ _ Hw) as (Hu & _ & Hr). rewrite Hu. cbn [negb]. by rewrite Hr.
Qed.

(** C11: client and daemon together do what [execute] says: when [vdsmd] runs
    under the allowed uid, [run op] has exactly the effect of executing [op] and
    returns its standard output if it succeeded and nothing otherwise; under
    any other uid it returns nothing and has no effect. *)
Theorem run_supervdsmd `{!PrivSerdeLaws} uid allowed op (w : W) :
  @run W (with_supervdsmd os uid allowed) _ op w =
  if (uid =? allowed)%N then
    let '(r, w') := @execute W os op w in
    (if pr_ok r then Some (pr_stdout r) else None, w')
  else (None, w).
Proof.
  unfold run, st_bind, st_ret. destruct (N.eqb_spec uid allowed) as [->|Hne].
  - rewrite call_supervdsmd. by destruct (@execute W os op w) as [r w'].
  - by rewrite call_refused.
Qed.
End client.

(** ** The account of the service *)

(** A line of [/etc/passwd]. *)
Record passwd_entry := mkEntry { pw_name : string; pw_uid : N; pw_gid : N; pw_rest : string }.

Definition passwd_text_line (e : passwd_entry) : string :=
  pw_name e +:+ String ":" ("x" +:+ String ":" (to_string (pw_uid e) +:+ String ":"
    (to_string (pw_gid e) +:+ String ":" (pw_rest e)))).

Definition passwd_text (es : list passwd_entry) : string :=
  foldr (λ e s, passwd_text_line e +:+ String LF s) "" es.

Definition entry_ok (e : passwd_entry) : bool :=
  negb (has_byte ":" (pw_name e)) && negb (has_byte LF (pw_name e))
  && negb (has_byte LF (pw_rest e)) && bool_decide (str_last (pw_rest e) ≠ Some CR)
  && (pw_uid e <=? u32_max)%N && (pw_gid e <=? u32_max)%N.

Lemma to_string_no_colon n : has_byte ":" (to_string n) = false.
Proof. by apply (str_all_no_byte is_ascii_digit), to_string_digits. Qed.

Lemma passwd_line_entry name e :
  entry_ok e = true →
  passwd_line name (passwd_text_line e) =
  if String.eqb (pw_name e) name then Some (pw_uid e, pw_gid e) else None.
Proof.
  unfold entry_ok. intros. breflect. unfold passwd_line, passwd_text_line.
  rewrite !split_char_cons by (done || apply to_string_no_colon).
  cbn [lookup list_lookup mbind option_bind]. unfold parse_u32.
  rewrite !parse_uint_to_string by (by apply N.leb_le).
  destruct (String.eqb_spec (pw_name e) name); [by rewrite bool_decide_true by congruence|].
  by rewrite bool_decide_false by congruence.
Qed.

Lemma passwd_text_line_ok e :
  entry_ok e = true →
  has_byte LF (passwd_text_line e) = false ∧ str_last (passwd_text_line e) ≠ Some CR.
Proof.
  unfold entry_ok. intros. breflect. unfold passwd_text_line. split.
  - rewrite has_byte_app, H4. cbn [has_byte]. rewrite has_byte_app. cbn [has_byte].
    rewrite has_byte_app, to_string_no_lf. cbn [has_byte].
    rewrite has_byte_app, to_string_no_lf. cbn [has_byte]. by rewrite H3.
  - rewrite str_last_app, !str_last_cons_app. by destruct (pw_rest e).
Qed.

Lemma lookup_lines_entries name es :
  Forall (λ e, entry_ok e = true) es →
  lookup_lines name (lines (passwd_text es)) =
  (λ e, (pw_uid e, pw_gid e)) <$> head (filter (λ e, pw_name e = name) es).
Proof.
  induction 1 as [|e es He Hes IH]; [done|]. cbn [passwd_text foldr].
  destruct (passwd_text_line_ok e He). rewrite lines_cons by done.
  cbn [lookup_lines]. rewrite passwd_line_entry, filter_cons by done.
  destruct (String.eqb_spec (pw_name e) name); [by rewrite decide_True|].
  by rewrite decide_False.
Qed.

(** The uid and gid the daemon trusts are those of the first account in
    [/etc/passwd] with exactly that name, and an unknown name is an error. *)
Theorem lookup_user_entries {W} `{OsOps W} name es (w : W) :
  Forall (λ e, entry_ok e = true) es → fs_read "/etc/passwd" w = Ok (passwd_text es) →
  lookup_user name w =
  match filter (λ e, pw_name e = name) es with
  | e :: _ => Ok (pw_uid e, pw_gid e)
  | [] => Err ("user " +:+ name +:+ " not found in /etc/passwd")
  end.
Proof.
  intros Hes Hr. unfold lookup_user. rewrite Hr, lookup_lines_entries by done.
  by destruct (filter _ es).
Qed.

(** ** A concrete wire format for the witnesses *)

Definition op_code (op : PrivOp) : nat * list string * N * bool :=
  match op with
  | Mount a b c d => (0, [a; b; c; d], 0%N, false)
  | Umount a => (1, [a], 0%N, false)
  | IscsiDiscover a => (2, [a], 0%N, false)
  | IscsiLogin a b => (3, [a; b], 0%N, false)
  | IscsiLogout a b => (4, [a; b], 0%N, false)
  | IscsiRescan => (5, [], 0%N, false)
  | Pvcreate a => (6, [a], 0%N, false)
  | Vgcreate a l => (7, a :: l, 0%N, false)
  | Vgextend a b => (8, [a; b], 0%N, false)
  | Vgremove a => (9, [a], 0%N, false)
  | Lvcreate a b n => (10, [a; b], n, false)
  | Lvchange a b x => (11, [a; b], 0%N, x)
  | Lvremove a b => (12, [a; b], 0%N, false)
  | FcScan => (13, [], 0%N, false)
  | MultipathList => (14, [], 0%N, false)
  end.

Definition op_decode (c : nat * list string * N * bool) : option PrivOp :=
  match c with
  | (0, [a; b; c; d], _, _) => Some (Mount a b c d)
  | (1, [a], _, _) => Some (Umount a)
  | (2, [a], _, _) => Some (IscsiDiscover a)
  | (3, [a; b], _, _) => Some (IscsiLogin a b)
  | (4, [a; b], _, _) => Some (IscsiLogout a b)
  | (5, _, _, _) => Some IscsiRescan
  | (6, [a], _, _) => Some (Pvcreate a)
  | (7, a :: l, _, _) => Some (Vgcreate a l)
  | (8, [a; b], _, _) => Some (Vgextend a b)
  | (9, [a], _, _) => Some (Vgremove a)
  | (10, [a; b], n, _) => Some (Lvcreate a b n)
  | (11, [a; b], _, x) => Some (Lvchange a b x)
  | (12, [a; b], _, _) => Some (Lvremove a b)
  | (13, _, _, _) => Some FcScan
  | (14, _, _, _) => Some MultipathList
  | _ => None
  end.

(** A value as the binary digits of its code. *)
Fixpoint bits_of (p : positive) : string :=
  match p with
  | xH => "1"
  | xO p' => String "0" (bits_of p')
  | xI p' => String "1" (bits_of p')
  end.

Fixpoint of_bits (s : string) : option positive :=
  match s with
  | EmptyString => None
  | String c EmptyString => if Ascii.eqb c "1" then Some xH else None
  | String c s' => (if Ascii.eqb c "1" then xI else xO) <$> of_bits s'
  end.

Lemma of_bits_of p : of_bits (bits_of p) = Some p.
Proof.
  induction p as [p IH|p IH|]; cbn [bits_of of_bits]; [..|done];
    (destruct (bits_of p) eqn:E; [by destruct p|]; by rewrite IH).
Qed.

Lemma bits_of_solid p : str_all solid (bits_of p) = true.
Proof. by induction p as [p IH|p IH|]; cbn [bits_of str_all]; rewrite ?IH. Qed.

Definition digits_of {A} `{Countable A} (a : A) : string := bits_of (encode a).
Definition of_digits {A} `{Countable A} (s : string) : option A := of_bits s ≫= decode.

Lemma of_digits_of {A} `{Countable A} (a : A) : of_digits (digits_of a) = Some a.
Proof. unfold of_digits, digits_of. rewrite of_bits_of. apply decode_encode. Qed.

#[export] Instance demo_priv_serde : PrivSerde := {
  op_to_string op := Ok (digits_of (op_code op));
  op_from_str s :=
    match of_digits s ≫= op_decode with Some op => Ok op | None => Err "expected value" end;
  res_to_string r := Ok (digits_of (pr_ok r, pr_code r, pr_stdout r, pr_stderr r));
  res_from_str s :=
    match of_digits s with
    | Some (o, c, out, err) => Ok (mkPrivResult o c out err)
    | None => Err "expected value"
    end;
}.

Lemma digits_wire {A B} `{Countable B} (x : A) (b : B) read :
  read (digits_of b) = Ok x → wire_line x (digits_of b) read.
Proof.
  intros Hr. unfold wire_line, digits_of. pose proof (bits_of_solid (encode b)) as Hs.
  split; [apply utf8_valid_all_ascii; eapply str_all_impl, Hs; unfold solid; intros; by breflect|].
  split; [by apply (str_all_no_byte solid)|]. split; [by destruct (encode b)|].
  split; [by apply trim_trimmed_lf, solid_trimmed|done].
Qed.

#[export] Instance demo_priv_laws : PrivSerdeLaws.
Proof.
  split.
  - intros op. eexists. split; [reflexivity|]. apply digits_wire. cbn [op_from_str demo_priv_serde].
    rewrite of_digits_of. by destruct op.
  - intros r. eexists. split; [reflexivity|]. apply digits_wire. cbn [res_from_str demo_priv_serde].
    rewrite of_digits_of. by destruct r.
Qed.

(** A machine on which every command succeeds and prints nothing. *)
Definition demo_world (files : list (string * bytes)) (dirs : list string) : demo :=
  mkDemo files dirs [] (λ _ _, Ok (mkOutput true (Some 0%Z) "" "")) (λ _, Err "refused").

Definition umount_x : PrivOp := Umount "/rhev/data-center/mnt/x".

Lemma run_supervdsmd_witness :
  @run demo (with_supervdsmd demo_os 36 36) _ umount_x (demo_world [] []) =
  (Some "", log_cmd ("/usr/bin/umount", ["/rhev/data-center/mnt/x"]) (demo_world [] [])).
Proof.
  rewrite (run_supervdsmd demo_os 36 36 umount_x (demo_world [] [])). reflexivity.
Defined.

Lemma lookup_user_entries_witness :
  let root := mkEntry "root" 0 0 "root:/root:/bin/bash" in
  let vdsm := mkEntry "vdsm" 36 36 "oVirt:/var/lib/vdsm:/sbin/nologin" in
  let w := demo_world [("/etc/passwd", passwd_text [root; vdsm])] [] in
  lookup_user "vdsm" w = Ok (36, 36)%N.
Proof.
  intros root vdsm w. rewrite (lookup_user_entries "vdsm" [root; vdsm]).
  - reflexivity.
  - repeat constructor.
  - vm_compute. reflexivity.
Defined.

Lemma mount_any_source_witness :
  let w := demo_world [] [] in
  execute (Mount "none" "/" "/rhev/data-center/mnt/x" "bind") w =
  exec_run "/usr/bin/mount" ["-t"; "none"; "-o"; "bind"; "/"; "/rhev/data-center/mnt/x"] w.
Proof. intros w. apply (mount_any_source "/" "bind" "x" w); reflexivity. Defined.
