(* ===== verification/Storage.v ===== *)
(** * Storage server connections (crates/vdsm-storage/src/connection.rs,
    sd_backend.rs and verbs.rs)

    Where a connection is mounted, how the daemon decides whether a storage
    domain is a directory or a volume group, and the verbs that mount, log in
    and unmount.  The registries the crate keeps in statics ([CONNECTIONS],
    [POOL]) are the first two fields of [store]; the third is the operating
    system. *)

From stdpp Require Import options.
From S2P Require Import Prelude Utf8 RustStr Json Rpc Os Supervdsm.

(** ** connection.rs *)

Definition MNT_BASE : string := "/rhev/data-center/mnt".

Record StorageServerConnection := mkConnection {
  conn_id : string;
  connection : string;
  vfs_type : string;
  mnt_options : string;
  protocol_version : string
}.

(** [StorageServerConnection { connection: c, ..Default::default() }] *)
Definition connection_to (c : string) : StorageServerConnection :=
  mkConnection "" c "" "" "".

Definition mountpoint (c : StorageServerConnection) : string :=
  path_join MNT_BASE (replace_char "/" "_" (connection c)).

Record PoolState := mkPool {
  pool_id : string;
  master_sd : string;
  master_ver : Z;
  domains : list string
}.

Definition pool_default : PoolState := mkPool "" "" 0 [].

(** The process-wide registries and the system. *)
Record store (W : Type) := mkStore {
  connections : list StorageServerConnection;
  pool_state : PoolState;
  sys : W
}.
Arguments mkStore {W} _ _ _.
Arguments connections {W} _.
Arguments pool_state {W} _.
Arguments sys {W} _.

(** An operation on the system alone. *)
Definition on_sys {W A} (m : st W A) : st (store W) A := λ s,
  let '(a, w) := m (sys s) in (a, mkStore (connections s) (pool_state s) w).

Definition update_connections {W}
  (f : list StorageServerConnection → list StorageServerConnection) : st (store W) unit := λ s,
  (tt, mkStore (f (connections s)) (pool_state s) (sys s)).

Definition update_pool {W} (f : PoolState → PoolState) : st (store W) unit := λ s,
  (tt, mkStore (connections s) (f (pool_state s)) (sys s)).

(** [serde_json] on the types of this crate and on command output. *)
Class StorageSerde (V : Type) := {
  conn_list_from_value : V → option (list StorageServerConnection);
  conn_to_value : StorageServerConnection → V;
  json_from_str : string → option V;
}.

(** ** sd_backend.rs *)

Definition BLOCK_SD_STATE_BASE : string := "/var/lib/vdsm/sd".

Inductive SdBackend :=
| FileSd (sd_path : string)
| BlockSd (vg_name state_dir : string).

Definition is_block (b : SdBackend) : bool :=
  match b with BlockSd _ _ => true | FileSd _ => false end.

Section storage.
Context {W} `{OsOps W, PrivSerde}.

Definition vg_exists (name : string) : st W bool :=
  let! out := command_output "/usr/sbin/vgs"
                ["--noheadings"; "-o"; "vg_name"; "--select"; "vg_name=" +:+ name] in
  st_ret (match out with
          | Ok o => status_success o && negb (is_empty (stdout o))
                    && String.eqb (trim (from_utf8_lossy (stdout o))) name
          | Err _ => false
          end).

(** The loop over the mount points: it ends at the first entry that cannot be
    read or at the first directory that holds the domain. *)
Fixpoint scan_mounts (entries : list (result string string)) (sd_uuid : string) (w : W)
  : option SdBackend :=
  match entries with
  | Ok ent :: entries' =>
      let p := path_join (path_join MNT_BASE ent) sd_uuid in
      if fs_is_dir p w then Some (FileSd p) else scan_mounts entries' sd_uuid w
  | _ => None
  end.

Definition sd_backend (sd_uuid : string) : st W (option SdBackend) :=
  if is_empty sd_uuid then st_ret None
  else
    let! vg := vg_exists sd_uuid in
    if vg then st_ret (Some (BlockSd sd_uuid (path_join BLOCK_SD_STATE_BASE sd_uuid)))
    else λ w,
      (match fs_read_dir MNT_BASE w with
       | Err _ => None
       | Ok entries => scan_mounts entries sd_uuid w
       end, w).

(** ** verbs.rs *)

Definition is_mounted (mp : string) (w : W) : bool :=
  match fs_read "/proc/self/mountinfo" w with
  | Ok s => existsb (λ line, bool_decide (split_whitespace line !! 4 = Some (display mp))) (lines s)
  | Err _ => false
  end.

(** Log in to every discovered target; [ok] if one login succeeded. *)
Fixpoint login_loop (iqns : list string) (portal : string) (ok : bool) : st W bool :=
  match iqns with
  | [] => st_ret ok
  | iqn :: iqns' =>
      let! r := run (IscsiLogin iqn portal) in
      login_loop iqns' portal (if decide (is_Some r) then true else ok)
  end.

Definition iscsi_login_one (spec : StorageServerConnection) : st W Z :=
  if is_empty (connection spec) then st_ret 22%Z
  else
    let portal := connection spec in
    let! r := run (IscsiDiscover portal) in
    match r with
    | None => st_ret 101%Z
    | Some raw =>
        let iqns := omap (λ l, split_whitespace l !! 1) (lines raw) in
        match iqns with
        | [] => st_ret 101%Z
        | _ => let! ok := login_loop iqns portal false in
               st_ret (if ok then 0%Z else 101%Z)
        end
    end.

Definition default_vfs (domain_type : Z) : string :=
  match domain_type with
  | 5%Z => "cifs"
  | 7%Z => "auto"
  | 4%Z => "none"
  | 8%Z => "glusterfs"
  | 9%Z => "nfs"
  | _ => "nfs"
  end.

Definition mount_fs (spec : StorageServerConnection) (domain_type : Z) : st W Z :=
  let mp := mountpoint spec in
  let! r := fs_create_dir_all mp in
  match r with
  | Err _ => st_ret 13%Z
  | Ok _ => λ w,
      if is_mounted mp w then (0%Z, w)
      else
        let vfs := if negb (is_empty (vfs_type spec)) then vfs_type spec
                   else default_vfs domain_type in
        (let! r := call (Mount vfs (connection spec) (display mp) (mnt_options spec)) in
         st_ret (match r with
                 | Ok r => if pr_ok r then 0%Z else 100%Z
                 | Err _ => 13%Z
                 end)) w
  end.

Definition mount_one (spec : StorageServerConnection) (domain_type : Z) : st W Z :=
  match domain_type with
  | 2%Z => st_ret 0%Z
  | 3%Z => iscsi_login_one spec
  | _ => mount_fs spec domain_type
  end.

Context {V} `{JsonOps V, StorageSerde V}.

Definition connection_params (params : V) : list StorageServerConnection :=
  default [] (get_either "connectionParams" "conList" params ≫= conn_list_from_value).

Definition status_entry (spec : StorageServerConnection) (status : Z) : V :=
  jobj [("id", jstr (conn_id spec)); ("status", jint status)].

Fixpoint connect_loop (con_list : list StorageServerConnection) (domain_type : Z)
  (statuslist : list V) : st (store W) (list V) :=
  match con_list with
  | [] => st_ret statuslist
  | spec :: con_list' =>
      let! status := on_sys (mount_one spec domain_type) in
      let! _ := if (status =? 0)%Z then update_connections (λ cs, cs ++ [spec])
                else st_ret tt in
      connect_loop con_list' domain_type (statuslist ++ [status_entry spec status])
  end.

Definition connect_storage_server (params : V) : st (store W) (result V (JsonRpcError V)) :=
  let domain_type := param_i64 "domainType" 1 params in
  let! statuslist := connect_loop (connection_params params) domain_type [] in
  st_ret (Ok (jarr statuslist)).

(** Unmount one connection; 16 when the unmount failed. *)
Definition umount_one (spec : StorageServerConnection) : st W Z := λ w,
  let mp := mountpoint spec in
  if is_mounted mp w then
    (let! r := call (Umount (display mp)) in
     st_ret (match r with Ok r => if pr_ok r then 0%Z else 16%Z | Err _ => 16%Z end)) w
  else (0%Z, w).

Fixpoint disconnect_loop (con_list : list StorageServerConnection) (statuslist : list V)
  : st (store W) (list V) :=
  match con_list with
  | [] => st_ret statuslist
  | spec :: con_list' =>
      let! status := on_sys (umount_one spec) in
      let! _ := update_connections (λ cs, filter (λ c, conn_id c ≠ conn_id spec) cs) in
      disconnect_loop con_list' (statuslist ++ [status_entry spec status])
  end.

Definition disconnect_storage_server (params : V) : st (store W) (result V (JsonRpcError V)) :=
  let! statuslist := disconnect_loop (connection_params params) [] in
  st_ret (Ok (jarr statuslist)).

Definition get_storage_server_connections_list (params : V)
  : st (store W) (result V (JsonRpcError V)) := λ s,
  (Ok (jarr (conn_to_value <$> connections s)), s).

Definition discover_send_targets (params : V) : st (store W) (result V (JsonRpcError V)) :=
  st_ret (Ok (jarr [])).

Definition get_device_list (params : V) : st (store W) (result V (JsonRpcError V)) :=
  st_ret (Ok (jarr [])).
End storage.
