(* ===== verification/StorageFacts.v ===== *)
(** * Properties of the storage-server verbs

    The mount points the daemon builds against the checks of the privileged
    helper, and what connecting and disconnecting do to the registry. *)

From stdpp Require Import options.
From S2P Require Import Prelude Utf8 RustStr Json Rpc Os Supervdsm SupervdsmFacts Storage.

(** ** Mount points *)

Lemma has_byte_replace_char c r s : r ≠ c → has_byte c (replace_char c (String r "") s) = false.
Proof.
  intros Hr. apply replace_char_no. cbn [has_byte]. by destruct (Ascii.eqb_spec r c).
Qed.

Lemma contains_dots_prefix p s :
  has_byte "." p = false → contains ".." (p +:+ s) = contains ".." s.
Proof.
  induction p as [|a p IH]; [done|]. rewrite app_String. cbn [has_byte contains].
  intros [Ha Hp]%orb_false_elim. rewrite IH by done. cbn [starts_with].
  by rewrite Ascii.eqb_sym, Ha.
Qed.

Lemma replace_slash_String a s :
  replace_char "/" "_" (String a s) =
  String (if Ascii.eqb a "/" then "_"%char else a) (replace_char "/" "_" s).
Proof. cbn [replace_char]. by destruct (Ascii.eqb a "/"). Qed.

(** Replacing one byte by another leaves the other bytes of the string alone. *)
Lemma has_byte_replace_slash c s :
  c ≠ "/"%char → c ≠ "_"%char → has_byte c (replace_char "/" "_" s) = has_byte c s.
Proof.
  intros H1 H2. induction s as [|a s IH]; [done|].
  rewrite replace_slash_String. cbn [has_byte]. rewrite IH. f_equal.
  destruct (Ascii.eqb_spec a "/") as [->|]; [|done].
  destruct (Ascii.eqb_spec "_" c), (Ascii.eqb_spec "/" c); congruence.
Qed.

Lemma contains_dots_replace_slash s :
  contains ".." (replace_char "/" "_" s) = contains ".." s.
Proof.
  assert (∀ t, starts_with "." (replace_char "/" "_" t) = starts_with "." t) as H1.
  { intros [|b t]; [done|]. rewrite replace_slash_String. cbn [starts_with].
    by destruct (Ascii.eqb_spec b "/") as [->|]. }
  induction s as [|a s IH]; [done|]. rewrite replace_slash_String. cbn [contains].
  rewrite IH. f_equal. change (starts_with ".." (String ?x ?t))
    with (Ascii.eqb "." x && starts_with "." t).
  rewrite H1. by destruct (Ascii.eqb_spec a "/") as [->|].
Qed.

Lemma mountpoint_eq c :
  mountpoint c = MOUNT_ROOT +:+ replace_char "/" "_" (connection c).
Proof.
  unfold mountpoint. rewrite path_join_rel; [done| |done..].
  apply no_slash_rel. by apply (has_byte_replace_char "/" "_").
Qed.

Lemma utf8_next_slash st : u8_wf st → utf8_next st "/" = utf8_next st "_".
Proof.
  destruct st as [|m lo hi]; [done|]. cbn [u8_wf]. intros Hlo. unfold utf8_next.
  change (N_of_ascii "/") with 47%N. change (N_of_ascii "_") with 95%N.
  by rewrite !(proj2 (N.leb_gt lo _)) by lia.
Qed.

Lemma utf8_run_replace_slash st s :
  u8_wf st → utf8_run st (replace_char "/" "_" s) = utf8_run st s.
Proof.
  revert st. induction s as [|a s IH]; intros st Hst; [done|].
  rewrite replace_slash_String. cbn [utf8_run].
  assert (utf8_next st (if Ascii.eqb a "/" then "_"%char else a) = utf8_next st a) as ->.
  { destruct (Ascii.eqb_spec a "/") as [->|]; [by rewrite utf8_next_slash|done]. }
  destruct (utf8_next st a) as [st'|] eqn:E; [|done]. cbn [mbind option_bind].
  apply IH. by eapply u8_wf_next.
Qed.

Lemma mountpoint_utf8 c : utf8_valid (connection c) = true → utf8_valid (mountpoint c) = true.
Proof.
  intros Hc. rewrite mountpoint_eq. apply utf8_valid_app; [done|].
  apply utf8_valid_true. rewrite utf8_run_replace_slash by done. by apply utf8_valid_true.
Qed.

(** The mount point of a connection is always a direct child of the mount
    root, whatever the engine sends, and the privileged helper accepts it as a
    target exactly when the connection has no [..] and no NUL in it. *)
Theorem mountpoint_target c :
  utf8_valid (connection c) = true →
  (∃ name, mountpoint c = MNT_BASE +:+ "/" +:+ name ∧ has_byte "/" name = false) ∧
  valid_target (display (mountpoint c)) =
    negb (contains ".." (connection c)) && negb (has_byte NUL (connection c)).
Proof.
  intros Hc. split.
  - exists (replace_char "/" "_" (connection c)). rewrite mountpoint_eq.
    split; [done|]. by apply (has_byte_replace_char "/" "_").
  - rewrite display_valid by (by apply mountpoint_utf8). unfold valid_target.
    rewrite mountpoint_eq, starts_with_app, contains_dots_prefix, contains_dots_replace_slash by done.
    by rewrite has_byte_app, has_byte_replace_slash by done.
Qed.

(** ** The registry of connections *)

(** The connections that were reported with status 0. *)
Definition accepted (specs : list StorageServerConnection) (statuses : list Z)
  : list StorageServerConnection :=
  (filter (λ cs : StorageServerConnection * Z, cs.2 = 0%Z) (zip specs statuses)).*1.

Definition connect_statuses : list Z := [0; 13; 22; 100; 101]%Z.

Section registry.
Context {W} `{OsOps W, PrivSerde} {V} `{JsonOps V, StorageSerde V}.

Lemma iscsi_login_one_status spec (w : W) : (iscsi_login_one spec w).1 ∈ connect_statuses.
Proof.
  unfold iscsi_login_one, connect_statuses, st_bind, st_ret.
  destruct (is_empty _); [set_solver|].
  destruct (run _ w) as [[raw|] w1]; [|set_solver].
  destruct (omap _ (lines raw)) as [|x l]; [set_solver|].
  destruct (login_loop _ _ _ w1) as [[] w2]; set_solver.
Qed.

Lemma mount_fs_status spec t (w : W) : (mount_fs spec t w).1 ∈ connect_statuses.
Proof.
  unfold mount_fs, connect_statuses, st_bind, st_ret.
  destruct (fs_create_dir_all _ w) as [[[]|e] w1]; [|set_solver].
  destruct (is_mounted _ w1); [set_solver|].
  destruct (call _ w1) as [[r|e] w2]; [destruct (pr_ok r)|]; set_solver.
Qed.

Lemma mount_one_status spec t (w : W) : (mount_one spec t w).1 ∈ connect_statuses.
Proof.
  unfold mount_one. destruct t as [|p|p]; [apply mount_fs_status| |apply mount_fs_status].
  destruct p as [[]|[]|]; first [apply mount_fs_status | apply iscsi_login_one_status | set_solver].
Qed.

Lemma connect_loop_spec specs t (acc : list V) (s : store W) :
  ∃ statuses w',
    connect_loop specs t acc s =
      (acc ++ zip_with status_entry specs statuses,
       mkStore (connections s ++ accepted specs statuses) (pool_state s) w') ∧
    length statuses = length specs ∧ Forall (λ z, z ∈ connect_statuses) statuses.
Proof.
  revert acc s. induction specs as [|spec specs IH]; intros acc s.
  { exists [], (sys s). cbn. rewrite !app_nil_r. by destruct s. }
  cbn [connect_loop]. unfold st_bind, on_sys, update_connections, st_ret.
  pose proof (mount_one_status spec t (sys s)) as Hst.
  destruct (mount_one spec t (sys s)) as [z w1]. cbn [fst] in Hst. cbn [connections pool_state sys].
  set (s1 := mkStore (if (z =? 0)%Z then connections s ++ [spec] else connections s)
               (pool_state s) w1).
  destruct (IH (acc ++ [status_entry spec z]) s1) as (sts & w' & Hl & Hlen & Hall).
  exists (z :: sts), w'. split; [|by split; [cbn; f_equal|constructor]].
  assert (accepted (spec :: specs) (z :: sts) =
          if (z =? 0)%Z then spec :: accepted specs sts else accepted specs sts) as Hacc.
  { unfold accepted. cbn [zip zip_with]. rewrite filter_cons. cbn [snd].
    destruct (Z.eqb_spec z 0) as [->|]; [by rewrite decide_True|by rewrite decide_False]. }
  rewrite Hacc. cbn [zip_with]. rewrite (app_snoc acc _ (zip_with _ _ _)). unfold s1 in Hl.
  destruct (z =? 0)%Z; cbn [connections pool_state sys]; rewrite Hl; cbn [connections pool_state];
    [by rewrite <- (app_assoc (connections s))|done].
Qed.

Lemma disconnect_loop_spec specs (acc : list V) (s : store W) :
  ∃ statuses w',
    disconnect_loop specs acc s =
      (acc ++ zip_with status_entry specs statuses,
       mkStore (filter (λ c, conn_id c ∉ conn_id <$> specs) (connections s)) (pool_state s) w') ∧
    length statuses = length specs ∧ Forall (λ z, z = 0%Z ∨ z = 16%Z) statuses.
Proof.
  revert acc s. induction specs as [|spec specs IH]; intros acc s.
  { exists [], (sys s). cbn. rewrite app_nil_r. split; [|done]. unfold st_ret. f_equal.
    destruct s as [cs p w]. cbn. f_equal. symmetry. apply filter_all. set_solver. }
  cbn [disconnect_loop]. unfold st_bind, on_sys, update_connections.
  destruct (umount_one spec (sys s)) as [z w1] eqn:Eu. cbn [connections pool_state sys].
  set (s1 := mkStore (filter (λ c, conn_id c ≠ conn_id spec) (connections s)) (pool_state s) w1).
  destruct (IH (acc ++ [status_entry spec z]) s1) as (sts & w' & Hl & Hlen & Hall).
  exists (z :: sts), w'. fold s1. rewrite Hl. split; [|split].
  - cbn [zip_with]. rewrite (app_snoc acc _ (zip_with _ _ _)). do 2 f_equal. unfold s1. cbn [connections].
    rewrite list_filter_filter. apply list_filter_iff. intros c. set_solver.
  - cbn. by f_equal.
  - constructor; [|done]. revert Eu. unfold umount_one, st_bind, st_ret.
    destruct (is_mounted _ _); [|intros [= <- _]; by left].
    destruct (call _ _) as [[r|e] w2]; [destruct (pr_ok r)|]; intros [= <- _]; auto.
Qed.

(** Connecting reports one status per connection, in the order asked, each
    one of the documented codes, and adds to the registry exactly the
    connections reported with status 0, in that order. *)
Theorem connect_storage_server_spec (params : V) (s : store W) :
  let specs := connection_params params in
  ∃ statuses w',
    connect_storage_server params s =
      (Ok (jarr (zip_with status_entry specs statuses)),
       mkStore (connections s ++ accepted specs statuses) (pool_state s) w') ∧
    length statuses = length specs ∧ Forall (λ z, z ∈ connect_statuses) statuses.
Proof.
  intros specs. destruct (connect_loop_spec specs (param_i64 "domainType" 1 params) [] s)
    as (sts & w' & Hl & Hlen & Hall).
  exists sts, w'. split; [|done]. unfold connect_storage_server, st_bind, st_ret.
  fold specs. by rewrite Hl.
Qed.

(** Disconnecting after connecting leaves no trace in the registry: when the
    ids are new, the registry is what it was before, whatever the mounts, the
    logins and the unmounts answered. *)
Theorem connect_disconnect (params : V) (s s1 s2 : store W) r1 r2 :
  (∀ c, c ∈ connections s → conn_id c ∉ conn_id <$> connection_params params) →
  connect_storage_server params s = (r1, s1) →
  disconnect_storage_server params s1 = (r2, s2) →
  connections s2 = connections s ∧ pool_state s2 = pool_state s.
Proof.
  intros Hnew. unfold connect_storage_server, disconnect_storage_server, st_bind, st_ret.
  destruct (connect_loop_spec (connection_params params) (param_i64 "domainType" 1 params) [] s)
    as (sts & w1 & -> & _). intros [= _ <-].
  match goal with |- context [disconnect_loop ?l [] ?st] =>
    destruct (disconnect_loop_spec l [] st) as (sts' & w2 & -> & _) end.
  intros [= _ <-]. cbn [connections pool_state]. split; [|done]. rewrite filter_app.
  rewrite filter_all by done. rewrite filter_none; [apply app_nil_r|].
  intros c Hc Hn. apply Hn. apply list_elem_of_fmap_2. unfold accepted in Hc.
  apply list_elem_of_fmap in Hc as ([c' z] & -> & [_ Hz]%list_elem_of_filter).
  by apply elem_of_zip_l in Hz.
Qed.
End registry.

(** ** What status 0 means *)

Section mounted.
Context {W} (os : OsOps W) `{PrivSerde}.

Lemma exec_run_ok bin args (w w' : W) r :
  exec_run bin args w = (r, w') → pr_ok r = true →
  ∃ o, command_output bin args w = (Ok o, w') ∧ status_success o = true.
Proof.
  unfold exec_run, st_bind, st_ret. destruct (command_output bin args w) as [[o|e] w1];
    intros [= <- <-]; cbn [pr_ok failure]; [|done]. eauto.
Qed.

Lemma execute_mount_ok fstype spec target options (w w' : W) r :
  execute (Mount fstype spec target options) w = (r, w') → pr_ok r = true →
  ∃ args o, command_output "/usr/bin/mount" args w = (Ok o, w') ∧ status_success o = true ∧
    last args = Some target.
Proof.
  cbn [execute]. unfold st_ret.
  repeat match goal with
  | |- context [if ?b then _ else _] => destruct b; [first [by intros [= <- _] | idtac]|]
  end; try (by intros [= <- _]);
  intros Hr Hok; destruct (exec_run_ok _ _ _ _ _ Hr Hok) as (o & Ho & Hs); eauto 6.
Qed.

(** C27: what status 0 of a connection means, for every storage type but iSCSI,
    with the helper listening: for a type that is mounted, the mount point's
    directory exists or was created and either it was already mounted, or root's
    [mount] ran on exactly this mount point and succeeded; for FCP (2) it means
    nothing: status 0 is reported and nothing was done. *)
Theorem mount_status_zero `{!PrivSerdeLaws} uid spec t (w w' : W) :
  t ≠ 3%Z →
  @mount_one W (with_supervdsmd os uid uid) _ spec t w = (0%Z, w') →
  if decide (t = 2%Z) then w' = w
  else
    ∃ w1, fs_create_dir_all (mountpoint spec) w = (Ok tt, w1) ∧
      ((is_mounted (mountpoint spec) w1 = true ∧ w' = w1) ∨
       (∃ args o, command_output "/usr/bin/mount" args w1 = (Ok o, w') ∧
          status_success o = true ∧ last args = Some (display (mountpoint spec)))).
Proof.
  intros H3. destruct (decide (t = 2%Z)) as [->|H2]; [by intros [= <-]|].
  assert (@mount_one W (with_supervdsmd os uid uid) _ spec t =
          @mount_fs W (with_supervdsmd os uid uid) _ spec t) as ->.
  { unfold mount_one. destruct t as [|p|p]; [done| |done]. by destruct p as [[]|[]|]. }
  unfold mount_fs. unfold st_bind at 1. cbn [with_supervdsmd fs_create_dir_all].
  destruct (fs_create_dir_all (mountpoint spec) w) as [[[]|e] w1]; [|by intros [= ]].
  intros Hm. exists w1. split; [done|]. revert Hm.
  change (@is_mounted W (with_supervdsmd os uid uid)) with (@is_mounted W os).
  destruct (is_mounted (mountpoint spec) w1); [intros [= <-]; by left|].
  unfold st_bind, st_ret. rewrite (@call_supervdsmd W os _ _).
  destruct (execute _ w1) as [r w2] eqn:Ee. destruct (pr_ok r) eqn:Er; [|by intros [= ]].
  intros [= <-]. right. by eapply execute_mount_ok.
Qed.
End mounted.

(** ** Witnesses *)

#[export] Instance demo_storage_serde : StorageSerde JVal := {
  conn_list_from_value v :=
    match v with
    | JArr l => mapM (λ c, match jget "id" c ≫= as_str, jget "connection" c ≫= as_str with
                           | Some i, Some c => Some (mkConnection i c "" "" "")
                           | _, _ => None
                           end) l
    | _ => None
    end;
  conn_to_value c := jobj [("id", JStr (conn_id c)); ("connection", JStr (connection c))];
  json_from_str s := if String.eqb s "" then None else Some JNull;
}.

Definition nfs_spec : StorageServerConnection := mkConnection "c1" "srv:/export/data" "" "" "".
Definition nfs_params : JVal :=
  JObj [("conList", JArr [JObj [("id", JStr "c1"); ("connection", JStr "srv:/export/data")]])].

Definition store_of {W} (w : W) : store W := mkStore [] pool_default w.

Lemma mountpoint_target_witness :
  (∃ name, mountpoint nfs_spec = MNT_BASE +:+ "/" +:+ name ∧ has_byte "/" name = false) ∧
  valid_target (display (mountpoint nfs_spec)) = true.
Proof. apply (mountpoint_target nfs_spec). vm_compute. reflexivity. Defined.

Lemma connect_disconnect_witness :
  let s := store_of (demo_world [] []) in
  let s1 := (connect_storage_server nfs_params s).2 in
  let s2 := (disconnect_storage_server nfs_params s1).2 in
  connections s2 = [] ∧ pool_state s2 = pool_default.
Proof.
  intros s s1 s2.
  apply (connect_disconnect nfs_params s s1 s2 (connect_storage_server nfs_params s).1
    (disconnect_storage_server nfs_params s1).1).
  - intros c Hc. by apply not_elem_of_nil in Hc.
  - apply surjective_pairing.
  - apply surjective_pairing.
Defined.

Lemma mount_status_zero_witness :
  let w := demo_world [] [] in
  let w' := (@mount_one demo (with_supervdsmd demo_os 36 36) _ nfs_spec 1 w).2 in
  ∃ w1, fs_create_dir_all (mountpoint nfs_spec) w = (Ok tt, w1) ∧
    ((is_mounted (mountpoint nfs_spec) w1 = true ∧ w' = w1) ∨
     (∃ args o, command_output "/usr/bin/mount" args w1 = (Ok o, w') ∧
        status_success o = true ∧ last args = Some (display (mountpoint nfs_spec)))).
Proof.
  intros w w'. apply (mount_status_zero demo_os 36 nfs_spec 1 w w'); [done|].
  vm_compute. reflexivity.
Defined.
