(* ===== verification/StorageDomain.v ===== *)
(** * Storage domains and the storage pool (crates/vdsm-storage/src/domain.rs) *)

From stdpp Require Import options.
From S2P Require Import Prelude Utf8 RustStr Json Rpc Os Supervdsm Storage.

Definition ONE_MIB : N := 1024 * 1024.

Definition class_to_str (c : Z) : string :=
  match c with 2%Z => "Iso" | 3%Z => "Backup" | _ => "Data" end.

Definition type_to_str (t : Z) : string :=
  match t with
  | 1%Z => "NFS"
  | 2%Z => "FCP"
  | 3%Z => "ISCSI"
  | 4%Z => "LOCALFS"
  | 5%Z => "CIFS"
  | 7%Z => "POSIXFS"
  | _ => "NFS"
  end.

Definition is_block_type (t : Z) : bool := (t =? 2)%Z || (t =? 3)%Z.

(** [i64]'s [Display] *)
Definition z_to_string (z : Z) : string := pretty z.

(** [vec![0u8; n]] *)
Definition zeros (n : N) : bytes := N.iter n (String NUL) "".

(** A key=value file, one pair per line. *)
Definition kv_line (k v : string) : string := k +:+ "=" +:+ v +:+ String LF "".
Definition kv_text (kvs : list (string * string)) : string :=
  foldr (λ kv s, kv_line kv.1 kv.2 +:+ s) "" kvs.

(** The fields [format!] fills in, in the order of the template. *)
Definition domain_metadata (block_size : Z) (cls name remote_path sd_uuid typ : string)
  (version : Z) : list (string * string) :=
  [("ALIGNMENT", "1048576");
   ("BLOCK_SIZE", z_to_string block_size);
   ("CLASS", cls);
   ("DESCRIPTION", name);
   ("IOOPTIMEOUTSEC", "10");
   ("LEASERETRIES", "3");
   ("LEASETIMESEC", "60");
   ("LOCKPOLICY", "");
   ("LOCKRENEWALINTERVALSEC", "5");
   ("MASTER_VERSION", "0");
   ("POOL_UUID", "");
   ("REMOTE_PATH", remote_path);
   ("ROLE", "Regular");
   ("SDUUID", sd_uuid);
   ("TYPE", typ);
   ("VERSION", z_to_string version);
   ("_SHA_CKSUM", "0000000000000000000000000000000000000000000000000000000000000000")].

(** The loop that reads such a file back into a map. *)
Definition parse_kv (content : string) : gmap string string :=
  foldl (λ m line, match split_once "=" line with
                   | Some (k, v) => <[trim k := trim v]> m
                   | None => m
                   end) ∅ (lines content).

Section domain.
Context {W} `{OsOps W, PrivSerde} {V} `{JsonOps V, StorageSerde V}.

(** [for d in dirs { create_dir_all(d).map_err(..)? }] *)
Fixpoint create_dirs (dirs : list string) : st W (result unit (JsonRpcError V)) :=
  match dirs with
  | [] => st_ret (Ok tt)
  | d :: dirs' =>
      let! r := fs_create_dir_all d in
      match r with
      | Ok _ => create_dirs dirs'
      | Err e => st_ret (Err (internal ("mkdir " +:+ display d +:+ ": " +:+ e)))
      end
  end.

(** The directories of a block domain and of a file domain; the result is the
    [dom_md] directory. *)
Definition block_layout (sd_uuid : string) : st W (result string (JsonRpcError V)) :=
  let! vg := vg_exists sd_uuid in
  if negb vg then
    st_ret (Err (internal ("VG " +:+ sd_uuid +:+
      " not present — engine should call Host.createVG first")))
  else
    let state := path_join BLOCK_SD_STATE_BASE sd_uuid in
    let dom_md := path_join state "dom_md" in
    let? _ := create_dirs [state; dom_md; path_join state "master"; path_join state "images"] in
    st_ret (Ok dom_md).

Definition file_layout (typeargs sd_uuid : string) : st W (result string (JsonRpcError V)) := λ w,
  let mp := mountpoint (connection_to typeargs) in
  if negb (fs_exists mp w) then
    (Err (internal ("mountpoint " +:+ display mp +:+
       " not present — was connectStorageServer called first?")), w)
  else
    let sd_dir := path_join mp sd_uuid in
    let dom_md := path_join sd_dir "dom_md" in
    let master := path_join sd_dir "master" in
    let images := path_join sd_dir "images" in
    (let? _ := create_dirs [sd_dir; dom_md; master; path_join master "tasks";
                            path_join master "vms"; images] in
     st_ret (Ok dom_md)) w.

(** The sanlock stubs; a failure to write one is ignored. *)
Definition stub_files : list (string * N) :=
  [("ids", ONE_MIB); ("leases", 2 * ONE_MIB)%N; ("inbox", 8 * ONE_MIB)%N;
   ("outbox", 8 * ONE_MIB)%N].

Definition write_stubs (dom_md : string) : st W unit :=
  st_for stub_files (λ fs,
    let! _ := fs_write (path_join dom_md fs.1) (zeros fs.2) in st_ret tt).

Definition create_storage_domain (params : V) : st W (result V (JsonRpcError V)) :=
  let sd_uuid := param_str "storagedomainID" "" params in
  let typeargs := param_str "typeArgs" "" params in
  let name := param_str "name" "nfs" params in
  let domain_class := param_i64 "domainClass" 1 params in
  let domain_type := param_i64 "domainType" 1 params in
  let block_size := param_i64 "blockSize" 512 params in
  let version := param_i64 "version" 5 params in
  if is_empty sd_uuid then st_ret (Err (invalid_params "storagedomainID required"))
  else if negb (is_block_type domain_type) && is_empty typeargs then
    st_ret (Err (invalid_params "typeArgs required for file storage domain types"))
  else
    let remote_path := if is_block_type domain_type then sd_uuid else typeargs in
    let metadata := kv_text (domain_metadata block_size (class_to_str domain_class) name
                               remote_path sd_uuid (type_to_str domain_type) version) in
    let? dom_md := if is_block_type domain_type then block_layout sd_uuid
                   else file_layout typeargs sd_uuid in
    let! r := fs_write (path_join dom_md "metadata") metadata in
    match r with
    | Err e => st_ret (Err (internal ("write metadata: " +:+ e)))
    | Ok _ =>
        let! _ := write_stubs dom_md in
        st_ret (Ok (jobj []))
    end.

(** [s.split_whitespace().filter_map(|t| t.parse().ok()).collect::<Vec<u64>>()] *)
Definition u64_tokens (s : string) : list N := omap parse_u64 (split_whitespace s).

Definition first_two (n : list N) : N * N :=
  (default 0%N (n !! 0), default 0%N (n !! 1)).

Definition sd_total_free (sd_uuid : string) : st W (N * N) :=
  let! b := sd_backend sd_uuid in
  match b with
  | Some (FileSd sd_path) =>
      let! out := command_output "/usr/bin/df" ["-B1"; "--output=size,avail"; display sd_path] in
      st_ret (match out with
              | Err _ => (0, 0)%N
              | Ok out =>
                  first_two (default [] (u64_tokens <$> last (lines (from_utf8_lossy (stdout out)))))
              end)
  | Some (BlockSd vg_name _) =>
      let! out := command_output "/usr/sbin/vgs"
                    ["--noheadings"; "--units"; "B"; "--nosuffix"; "-o"; "vg_size,vg_free"; vg_name] in
      st_ret (match out with
              | Err _ => (0, 0)%N
              | Ok out => first_two (u64_tokens (from_utf8_lossy (stdout out)))
              end)
  | None => st_ret (0, 0)%N
  end.

Definition get_storage_domain_stats (params : V) : st W (result V (JsonRpcError V)) :=
  let sd_uuid := param_str "storagedomainID" "" params in
  let! tf := sd_total_free sd_uuid in
  let '(total, free) := tf in
  let reply := Ok (jobj [("disktotal", jstr (to_string total)); ("diskfree", jstr (to_string free));
                         ("mdasize", jstr (to_string (total / 100)));
                         ("mdafree", jstr (to_string (free / 100)))]) in
  if (total =? 0)%N && (free =? 0)%N then
    let! b := sd_backend sd_uuid in
    match b with
    | None => st_ret (Err (internal ("SD " +:+ sd_uuid +:+ " not found")))
    | Some _ => st_ret reply
    end
  else st_ret reply.

Definition attach_storage_domain (params : V) : st W (result V (JsonRpcError V)) :=
  st_ret (Ok (jobj [])).
Definition activate_storage_domain (params : V) : st W (result V (JsonRpcError V)) :=
  st_ret (Ok (jobj [])).
Definition hsm_get_all_tasks_statuses (params : V) : st W (result V (JsonRpcError V)) :=
  st_ret (Ok (jobj [])).

(** ** The pool *)

(** [for d in ds { if !v.contains(&d) { v.push(d) } }] *)
Definition push_new (v ds : list string) : list string :=
  foldl (λ v d, if decide (d ∈ v) then v else v ++ [d]) v ds.

Definition unless_empty (new old : string) : string := if is_empty new then old else new.

Definition connect_storage_pool (params : V) : st (store W) (result V (JsonRpcError V)) :=
  let pid := param_str "storagepoolID" "" params in
  let msd := param_str "masterSdUUID" "" params in
  let ver := param_i64 "masterVersion" 1 params in
  let ds := default [] (jget "domainsMap" params ≫= object_keys) in
  let! _ := update_pool (λ s,
    mkPool (unless_empty pid (pool_id s)) (unless_empty msd (master_sd s))
      (Z.max ver (master_ver s)) (push_new (domains s) ds)) in
  st_ret (Ok (jobj [])).

Definition create_storage_pool (params : V) : st (store W) (result V (JsonRpcError V)) :=
  let pid := default "" (get_either "poolID" "storagepoolID" params ≫= as_str) in
  let msd := default "" (get_either "masterDom" "masterSdUUID" params ≫= as_str) in
  let ds := str_array (jget "domList" params) in
  let! _ := update_pool (λ s,
    mkPool (unless_empty pid (pool_id s)) (unless_empty msd (master_sd s))
      (if (master_ver s =? 0)%Z then 1 else master_ver s) (push_new (domains s) ds)) in
  st_ret (Ok (jobj [])).

Definition spm_start (params : V) : st (store W) (result V (JsonRpcError V)) :=
  let pid := param_str "storagepoolID" "" params in
  let! _ := update_pool (λ s,
    mkPool (unless_empty pid (pool_id s)) (master_sd s) (master_ver s) (domains s)) in
  st_ret (Ok (jobj [])).

Definition get_spm_status (params : V) : st (store W) (result V (JsonRpcError V)) :=
  st_ret (Ok (jobj [("spmStatus", jstr "SPM"); ("spmLver", jstr "0"); ("spmId", jstr "1")])).

Definition dominfo_entry (free : N) : V :=
  jobj [("status", jstr "Active"); ("diskfree", jstr (to_string free)); ("alerts", jarr []);
        ("version", jstr "5"); ("isoprefix", jstr "")].

Fixpoint dominfo_loop (ds : list string) (dominfo : list (string * V)) : st W (list (string * V)) :=
  match ds with
  | [] => st_ret dominfo
  | sd :: ds' =>
      let! tf := sd_total_free sd in
      dominfo_loop ds' (dominfo ++ [(sd, dominfo_entry tf.2)])
  end.

Definition get_storage_pool_info (params : V) : st (store W) (result V (JsonRpcError V)) := λ s,
  let p := pool_state s in
  (let! dominfo := on_sys (dominfo_loop (domains p) []) in
   let! dominfo :=
     if negb (is_empty (master_sd p)) && negb (bool_decide (master_sd p ∈ dominfo.*1)) then
       let! tf := on_sys (sd_total_free (master_sd p)) in
       st_ret (dominfo ++ [(master_sd p, dominfo_entry tf.2)])
     else st_ret dominfo in
   st_ret (Ok (jobj [
     ("info", jobj [("name", jstr "Default"); ("version", jstr "5"); ("isoprefix", jstr "");
                    ("master_uuid", jstr (master_sd p)); ("master_ver", jint (master_ver p));
                    ("lver", jint 0); ("spm_id", jint 1); ("type", jstr "NFS");
                    ("pool_status", jstr "connected")]);
     ("dominfo", jobj dominfo)]))) s.

(** ** getInfo *)

Definition metadata_path (b : SdBackend) : string :=
  match b with
  | FileSd sd_path => path_join (path_join sd_path "dom_md") "metadata"
  | BlockSd _ state_dir => path_join (path_join state_dir "dom_md") "metadata"
  end.

Definition domain_info (sd_uuid : string) (meta : gmap string string) : V :=
  let g k := jstr (default "" (meta !! k)) in
  jobj [("uuid", jstr sd_uuid); ("type", g "TYPE"); ("class", g "CLASS");
        ("name", g "DESCRIPTION"); ("role", g "ROLE"); ("pool", jarr []);
        ("version", g "VERSION"); ("remotePath", g "REMOTE_PATH");
        ("alignment", g "ALIGNMENT"); ("block_size", g "BLOCK_SIZE");
        ("master_ver", g "MASTER_VERSION"); ("lver", jstr "-1"); ("spm_id", jstr "-1");
        ("state", jstr "OK")].

Definition get_storage_domain_info (params : V) : st W (result V (JsonRpcError V)) :=
  let sd_uuid := param_str "storagedomainID" "" params in
  if is_empty sd_uuid then st_ret (Err (invalid_params "storagedomainID required"))
  else
    let! b := sd_backend sd_uuid in
    match b with
    | None => st_ret (Err (internal ("SD " +:+ sd_uuid +:+ " not found")))
    | Some b => λ w,
        let path := metadata_path b in
        if negb (fs_exists path w) then
          (Err (internal ("SD " +:+ sd_uuid +:+ " metadata missing at " +:+ display path)), w)
        else
          match fs_read path w with
          | Err e => (Err (internal ("read metadata: " +:+ e)), w)
          | Ok content => (Ok (domain_info sd_uuid (parse_kv content)), w)
          end
    end.
End domain.
