(* ===== verification/StorageDomainFacts.v ===== *)
(** * Properties of storage domains and the pool

    The metadata a domain is created with is the metadata [getInfo] reports;
    the pool only grows and always reports its master. *)

From stdpp Require Import options.
From S2P Require Import Prelude Utf8 RustStr Json Rpc Os Supervdsm SupervdsmFacts Storage StorageFacts StorageDomain.

(** ** Key=value files *)

Definition key_ok (k : string) : bool :=
  utf8_valid k && trimmed k && negb (has_byte "=" k) && negb (has_byte LF k).

(** A value that stays on its line. *)
Definition value_ok (v : string) : bool :=
  utf8_valid v && negb (has_byte LF v) && bool_decide (str_last v ≠ Some CR).

Definition kvs_ok (kvs : list (string * string)) : bool :=
  forallb (λ kv, key_ok kv.1 && value_ok kv.2) kvs.

Lemma kv_line_eq k v s : kv_line k v +:+ s = (k +:+ String "=" v) +:+ String LF s.
Proof. unfold kv_line. by rewrite !app_assoc_str. Qed.

Lemma kv_lines kvs t :
  kvs_ok kvs = true →
  lines (kv_text kvs +:+ t) = ((λ kv, kv.1 +:+ String "=" kv.2) <$> kvs) ++ lines t.
Proof.
  unfold kvs_ok. induction kvs as [|[k v] kvs IH]; [done|]. cbn [forallb kv_text foldr fmap list_fmap].
  intros. breflect. cbn [fst snd] in *. unfold key_ok, value_ok in *. breflect.
  rewrite app_assoc_str, kv_line_eq, lines_cons; [cbn [app]; by f_equal; apply IH| |].
  - rewrite has_byte_app. cbn [has_byte].
    by repeat match goal with Hb : has_byte LF _ = false |- _ => rewrite Hb; clear Hb end.
  - rewrite str_last_app. by destruct v.
Qed.

Lemma split_once_kv k v : has_byte "=" k = false → split_once "=" (k +:+ String "=" v) = Some (k, v).
Proof.
  intros Hk. unfold split_once. rewrite find_byte_app_hit by done.
  by rewrite str_take_app, str_drop_S_app.
Qed.

(** What a key=value file says of a key after it was written and read back: the
    last value given to it, trimmed.  Lines after the pairs that have no [=]
    do not matter. *)
Lemma parse_kv_text_tail kvs t k :
  kvs_ok kvs = true → Forall (λ l, split_once "=" l = None) (lines t) →
  parse_kv (kv_text kvs +:+ t) !! k = trim <$> assoc_last k kvs.
Proof.
  intros Hok Ht. unfold parse_kv. rewrite kv_lines by done. rewrite foldl_app.
  match goal with |- foldl ?f ?m (lines t) !! k = _ =>
    assert (foldl f m (lines t) = m) as ->;
      [clear Hok; revert Ht; generalize m; induction 1 as [|l ls Hl _ IH];
       [done|cbn [foldl]; by rewrite Hl]|] end.
  assert (∀ m : gmap string string,
    foldl (λ m line, match split_once "=" line with
                     | Some (k, v) => <[trim k := trim v]> m
                     | None => m end) m ((λ kv, kv.1 +:+ String "=" kv.2) <$> kvs) !! k =
    match assoc_last k kvs with Some v => Some (trim v) | None => m !! k end) as Hgen.
  { clear -Hok. induction kvs as [|[k' v] kvs IH]; intros m; [done|].
    unfold kvs_ok in Hok. cbn [forallb] in Hok. breflect. cbn [fst snd] in *.
    unfold key_ok in H. breflect.
    cbn [fmap list_fmap foldl fst snd assoc_last]. rewrite split_once_kv by done.
    cbn [list_fmap] in IH. rewrite IH by done.
    destruct (assoc_last k kvs); [done|]. rewrite trim_trimmed by done.
    destruct (String.eqb_spec k' k) as [->|]; [by rewrite lookup_insert_eq|].
    by rewrite lookup_insert_ne. }
  rewrite Hgen. by destruct (assoc_last k kvs).
Qed.

Lemma parse_kv_text kvs k :
  kvs_ok kvs = true → parse_kv (kv_text kvs) !! k = trim <$> assoc_last k kvs.
Proof.
  intros Hok. rewrite <- (app_nil_r_str (kv_text kvs)). apply parse_kv_text_tail; [done|constructor].
Qed.

Lemma z_to_string_solid z : str_all solid (z_to_string z) = true.
Proof.
  assert (∀ n : N, str_all solid (pretty n) = true) as HN.
  { intros n. eapply str_all_impl; [apply digits_solid|]. apply to_string_digits. }
  unfold z_to_string. destruct z as [|p|p]; [done|apply (HN (Npos p))|].
  change (pretty (Zneg p)) with ("-" +:+ pretty (Npos p)). by rewrite str_all_app, HN.
Qed.

Lemma solid_value_ok s : str_all solid s = true → value_ok s = true.
Proof.
  intros Hs. unfold value_ok. rewrite (str_all_no_byte solid) by done.
  rewrite utf8_valid_all_ascii; [cbn [negb andb]|eapply str_all_impl, Hs; unfold solid; intros; by breflect].
  apply bool_decide_eq_true. intros Hl. by apply (str_all_last _ _ _ Hs) in Hl.
Qed.

Lemma trim_solid s : str_all solid s = true → trim s = s.
Proof. intros. by apply trim_trimmed, solid_trimmed. Qed.

Lemma class_to_str_solid c : str_all solid (class_to_str c) = true.
Proof. destruct c as [|p|p]; [done| |done]. by destruct p as [[]|[]|]. Qed.

Lemma type_to_str_solid t : str_all solid (type_to_str t) = true.
Proof.
  destruct t as [|p|p]; [done| |done].
  destruct p as [[[]|[]|]|[[]|[]|]|]; done.
Qed.

#[export] Hint Resolve z_to_string_solid class_to_str_solid type_to_str_solid solid_value_ok : vdsm.

Lemma domain_metadata_ok bs c name remote uuid t ver :
  value_ok name = true → value_ok remote = true → value_ok uuid = true →
  kvs_ok (domain_metadata bs (class_to_str c) name remote uuid (type_to_str t) ver) = true.
Proof.
  intros Hn Hr Hu. unfold kvs_ok, domain_metadata. cbn [forallb fst snd].
  rewrite Hn, Hr, Hu, !solid_value_ok by eauto with vdsm. reflexivity.
Qed.

Lemma kv_text_utf8 kvs : kvs_ok kvs = true → utf8_valid (kv_text kvs) = true.
Proof.
  unfold kvs_ok. induction kvs as [|[k v] kvs IH]; [done|]. cbn [forallb kv_text foldr fst snd].
  intros. breflect. unfold key_ok, value_ok in *. breflect.
  apply utf8_valid_app; [|by apply IH]. unfold kv_line.
  apply utf8_valid_app; [done|]. apply utf8_valid_app; [done|]. by apply utf8_valid_app.
Qed.

(** ** Create, then ask *)

(** A command that only reports: it changes nothing the daemon reads. *)
Definition query_only {W} `{OsOps W} (bin : string) : Prop :=
  ∀ args (w : W) r w', command_output bin args w = (r, w') → ∀ p,
    fs_read p w' = fs_read p w ∧ fs_exists p w' = fs_exists p w ∧
    fs_is_dir p w' = fs_is_dir p w ∧ fs_read_dir p w' = fs_read_dir p w.

Section roundtrip.
Context {W} `{OsOps W} {V : Type} `{JsonOps V}.

Lemma create_dirs_ok `{!OsLaws W} dirs (w w' : W) :
  create_dirs (V := V) dirs w = (Ok tt, w') →
  (∀ d, d ∈ dirs → fs_is_dir d w' = true) ∧ (∀ q, fs_is_dir q w = true → fs_is_dir q w' = true).
Proof.
  revert w. induction dirs as [|d dirs IH]; intros w; cbn [create_dirs]; unfold st_bind, st_ret.
  { intros [= <-]. split; [intros d Hd; by apply not_elem_of_nil in Hd|done]. }
  destruct (fs_create_dir_all d w) as [[[]|e] w1] eqn:E; [|by intros [= ]].
  intros [Hin Hkeep]%IH. split.
  - intros d' [->|Hd]%elem_of_cons; [|by apply Hin]. by eapply Hkeep, is_dir_after_create.
  - intros q Hq. by eapply Hkeep, is_dir_create_other.
Qed.

Lemma write_stubs_keep `{!OsLaws W} dom_md (w w' : W) :
  write_stubs dom_md w = (tt, w') →
  let p := path_join dom_md "metadata" in
  fs_read p w' = fs_read p w ∧ fs_exists p w' = fs_exists p w ∧
  ∀ q, fs_is_dir q w' = fs_is_dir q w.
Proof.
  intros Hw p. revert Hw. unfold write_stubs.
  assert (Forall (λ f : string * N, plain_name f.1 = true ∧ f.1 ≠ "metadata") stub_files) as Hf
    by (repeat constructor; done).
  revert w. induction Hf as [|[f n] l [Hp Hne] Hl IH]; intros w; cbn [st_for]; unfold st_bind, st_ret.
  { by intros [= <-]. }
  cbn [fst snd] in *. destruct (fs_write (path_join dom_md f) (zeros n) w) as [r w1] eqn:E.
  intros (Hr & He & Hd)%IH.
  destruct (write_other dom_md f "metadata" _ _ _ _ Hp eq_refl Hne E) as [Hr1 He1].
  split; [by rewrite Hr|]. split; [by rewrite He|].
  intros q. by rewrite Hd, (write_is_dir _ _ q _ _ _ E).
Qed.

(** The state a successful layout leaves. *)
Lemma layout_ok `{!OsLaws W} (t : Z) typeargs uuid (w w' : W) dom_md :
  (if is_block_type t then block_layout (V := V) uuid else file_layout typeargs uuid) w
    = (Ok dom_md, w') →
  if is_block_type t
  then dom_md = path_join (path_join BLOCK_SD_STATE_BASE uuid) "dom_md"
  else let sd := path_join (mountpoint (connection_to typeargs)) uuid in
       dom_md = path_join sd "dom_md" ∧ fs_is_dir sd w' = true.
Proof.
  destruct (is_block_type t).
  - unfold block_layout, st_bind. destruct (vg_exists uuid w) as [[] w1]; cbn [negb]; [|by intros [= ]].
    unfold st_try, st_ret. destruct (create_dirs _ w1) as [[[]|] w2]; by intros [= <- _].
  - unfold file_layout. destruct (fs_exists _ w); cbn [negb]; [|by intros [= ]].
    unfold st_try, st_ret.
    match goal with |- context [create_dirs ?ds w] => destruct (create_dirs ds w) as [[[]|] w2] eqn:E end;
      [|by intros [= ]].
    intros [= <- <-]. split; [done|]. apply create_dirs_ok in E as [E _]. apply E. left.
Qed.

(** What a successful create leaves on disk. *)
Lemma create_storage_domain_ok `{!OsLaws W} (params : V) (w w' : W) r :
  let uuid := param_str "storagedomainID" "" params in
  let typeargs := param_str "typeArgs" "" params in
  let name := param_str "name" "nfs" params in
  let t := param_i64 "domainType" 1 params in
  let remote := if is_block_type t then uuid else typeargs in
  let sd := if is_block_type t then path_join BLOCK_SD_STATE_BASE uuid
            else path_join (mountpoint (connection_to typeargs)) uuid in
  let path := path_join (path_join sd "dom_md") "metadata" in
  let meta := domain_metadata (param_i64 "blockSize" 512 params)
                (class_to_str (param_i64 "domainClass" 1 params)) name remote uuid
                (type_to_str t) (param_i64 "version" 5 params) in
  value_ok name = true → value_ok remote = true → value_ok uuid = true →
  create_storage_domain params w = (Ok r, w') →
  is_empty uuid = false ∧ fs_read path w' = Ok (kv_text meta) ∧ fs_exists path w' = true ∧
  kvs_ok meta = true ∧ (is_block_type t = false → fs_is_dir sd w' = true).
Proof.
  intros uuid typeargs name t remote sd path meta Hn Hr Hu.
  unfold create_storage_domain. fold uuid typeargs name t.
  destruct (is_empty uuid) eqn:Ee; [by intros [= ]|].
  destruct (negb (is_block_type t) && is_empty typeargs); [by intros [= ]|].
  fold remote. fold meta. unfold st_try at 1.
  match goal with |- context [(if is_block_type t then ?a else ?b) w] =>
    destruct ((if is_block_type t then a else b) w) as [[dom_md|e] w1] eqn:El end; [|by intros [= ]].
  apply layout_ok in El. unfold st_bind, st_ret.
  destruct (fs_write (path_join dom_md "metadata") (kv_text meta) w1) as [[[]|e] w2] eqn:Ew;
    [|by intros [= ]].
  destruct (write_stubs dom_md w2) as [[] w3] eqn:Es. intros [= _ <-].
  assert (kvs_ok meta = true) as Hok by (by apply domain_metadata_ok).
  destruct (read_after_write _ _ _ _ Ew (kv_text_utf8 _ Hok)) as [Hrd Hex].
  destruct (write_stubs_keep _ _ _ Es) as (Hrd' & Hex' & Hdir).
  unfold path, sd. destruct (is_block_type t).
  - rewrite El in *. by rewrite Hrd', Hex'.
  - destruct El as [-> Hisdir]. rewrite Hrd', Hex', Hdir.
    by rewrite (write_is_dir _ _ _ _ _ _ Ew).
Qed.

Lemma scan_mounts_unique names esc uuid (w : W) :
  esc ∈ names →
  fs_is_dir (path_join (path_join MNT_BASE esc) uuid) w = true →
  (∀ n, n ∈ names → n ≠ esc → fs_is_dir (path_join (path_join MNT_BASE n) uuid) w = false) →
  scan_mounts (Ok <$> names) uuid w = Some (FileSd (path_join (path_join MNT_BASE esc) uuid)).
Proof.
  intros Hin Hd Hother. induction names as [|n names IH]; [by apply not_elem_of_nil in Hin|].
  cbn [fmap list_fmap scan_mounts]. destruct (decide (n = esc)) as [->|Hne]; [by rewrite Hd|].
  rewrite Hother by (done || left). apply IH.
  - apply elem_of_cons in Hin as [?|?]; [congruence|done].
  - intros m Hm. apply Hother. by right.
Qed.

Lemma sd_backend_after (uuid : string) (w : W) b :
  is_empty uuid = false → vg_exists uuid w = (b, (vg_exists uuid w).2) →
  sd_backend uuid w =
  (if b then Some (BlockSd uuid (path_join BLOCK_SD_STATE_BASE uuid))
   else match fs_read_dir MNT_BASE (vg_exists uuid w).2 with
        | Err _ => None
        | Ok entries => scan_mounts entries uuid (vg_exists uuid w).2
        end, (vg_exists uuid w).2).
Proof.
  intros He Hv. unfold sd_backend. rewrite He. unfold st_bind. rewrite Hv. cbn [snd].
  by destruct b.
Qed.

Lemma vg_exists_query (uuid : string) (w : W) p :
  query_only (W := W) "/usr/sbin/vgs" →
  let w1 := (vg_exists uuid w).2 in
  fs_read p w1 = fs_read p w ∧ fs_exists p w1 = fs_exists p w ∧
  fs_is_dir p w1 = fs_is_dir p w ∧ fs_read_dir p w1 = fs_read_dir p w.
Proof.
  intros Hq. unfold vg_exists, st_bind, st_ret.
  destruct (command_output _ _ w) as [out w1] eqn:E. by apply Hq in E.
Qed.

(** The backend is found again: the volume group for a block domain, the one
    mount that carries the uuid for a file domain. *)
Lemma sd_backend_found (blk : bool) uuid typeargs names (w : W) :
  let esc := replace_char "/" "_" typeargs in
  let sd := path_join (mountpoint (connection_to typeargs)) uuid in
  query_only (W := W) "/usr/sbin/vgs" → is_empty uuid = false →
  (vg_exists uuid w).1 = blk →
  (blk = false →
     fs_is_dir sd w = true ∧ fs_read_dir MNT_BASE w = Ok (Ok <$> names) ∧ esc ∈ names ∧
     ∀ n, n ∈ names → n ≠ esc →
       fs_is_dir (path_join (path_join MNT_BASE n) uuid) w = false) →
  sd_backend uuid w =
  (Some (if blk then BlockSd uuid (path_join BLOCK_SD_STATE_BASE uuid) else FileSd sd),
   (vg_exists uuid w).2).
Proof.
  intros esc sd Hq He Hvg Hdirs.
  rewrite (sd_backend_after uuid w blk He) by (rewrite <- Hvg; apply surjective_pairing).
  destruct blk; [done|]. destruct (Hdirs eq_refl) as (Hd & Hnames & Hin & Hother).
  destruct (vg_exists_query uuid w MNT_BASE Hq) as (_ & _ & _ & Hrd). rewrite Hrd, Hnames.
  rewrite (scan_mounts_unique names esc uuid); [done|done| |].
  - destruct (vg_exists_query uuid w (path_join (path_join MNT_BASE esc) uuid) Hq)
      as (_ & _ & Hd1 & _). by rewrite Hd1.
  - intros n Hin' Hne. destruct (vg_exists_query uuid w (path_join (path_join MNT_BASE n) uuid) Hq)
      as (_ & _ & Hd1 & _). rewrite Hd1. by apply Hother.
Qed.

(** The name a table gives to a code. *)
Definition code_name (tbl : list (Z * string)) (dflt : string) (t : Z) : string :=
  default dflt (snd <$> (snd <$> list_find (λ p, p.1 = t) tbl)).

(** Upstream vdsm's names of the domain types and classes. *)
Definition upstream_types : list (Z * string) :=
  [(1, "NFS"); (2, "FCP"); (3, "ISCSI"); (4, "LOCALFS"); (5, "CIFS"); (6, "SHAREDFS");
   (7, "POSIXFS"); (8, "GLUSTERFS")]%Z.
Definition upstream_classes : list (Z * string) := [(1, "Data"); (2, "Iso"); (3, "Backup")]%Z.

(** The type that is reported: the upstream name, except that SHAREDFS and
    GLUSTERFS, as every unknown type, are reported as NFS. *)
Definition reported_type (t : Z) : string :=
  if decide (t = 6%Z ∨ t = 8%Z) then "NFS" else code_name upstream_types "NFS" t.

Lemma type_to_str_reported t : type_to_str t = reported_type t.
Proof.
  destruct (decide (t ∈ [1; 2; 3; 4; 5; 6; 7; 8]%Z)) as [Ht|Ht].
  - repeat (apply elem_of_cons in Ht as [->|Ht]; [vm_compute; reflexivity|]).
    by apply not_elem_of_nil in Ht.
  - unfold reported_type, code_name, upstream_types. cbn [list_find].
    rewrite !not_elem_of_cons in Ht. destruct Ht as (?&?&?&?&?&?&?&?&_).
    rewrite !decide_False by (cbn; intuition congruence). cbn.
    destruct t as [|q|q]; try done.
    do 4 (destruct q as [q|q|]; try done).
Qed.

Lemma class_to_str_reported c : class_to_str c = code_name upstream_classes "Data" c.
Proof.
  unfold code_name, upstream_classes. cbn [list_find].
  destruct (decide (c ∈ [1; 2; 3]%Z)) as [Hc|Hc].
  - repeat (apply elem_of_cons in Hc as [->|Hc]; [vm_compute; reflexivity|]).
    by apply not_elem_of_nil in Hc.
  - rewrite !not_elem_of_cons in Hc. destruct Hc as (?&?&?&_).
    rewrite !decide_False by (cbn; congruence). cbn.
    destruct c as [|q|q]; try done. do 2 (destruct q as [q|q|]; try done).
Qed.

(** What [getInfo] must report of a domain created with [params]. *)
Definition expected_info (params : V) : V :=
  let uuid := param_str "storagedomainID" "" params in
  let t := param_i64 "domainType" 1 params in
  jobj [("uuid", jstr uuid);
        ("type", jstr (reported_type t));
        ("class", jstr (code_name upstream_classes "Data" (param_i64 "domainClass" 1 params)));
        ("name", jstr (trim (param_str "name" "nfs" params)));
        ("role", jstr "Regular"); ("pool", jarr []);
        ("version", jstr (z_to_string (param_i64 "version" 5 params)));
        ("remotePath", jstr (trim (if is_block_type t then uuid
                                   else param_str "typeArgs" "" params)));
        ("alignment", jstr "1048576");
        ("block_size", jstr (z_to_string (param_i64 "blockSize" 512 params)));
        ("master_ver", jstr "0"); ("lver", jstr "-1"); ("spm_id", jstr "-1");
        ("state", jstr "OK")].

End roundtrip.

(** ** The pool *)

Section pool.
Context {W} `{OsOps W} {V} `{JsonOps V}.

(** The verbs that work on the pool state. *)
Inductive pool_step : store W → store W → Prop :=
| step_connect (params : V) s r s' : connect_storage_pool params s = (r, s') → pool_step s s'
| step_create (params : V) s r s' : create_storage_pool params s = (r, s') → pool_step s s'
| step_spm_start (params : V) s r s' : spm_start params s = (r, s') → pool_step s s'
| step_info (params : V) s r s' : get_storage_pool_info params s = (r, s') → pool_step s s'.

Lemma push_new_spec v ds :
  v `prefix_of` push_new v ds ∧ (NoDup v → NoDup (push_new v ds)) ∧
  (∀ d, d ∈ push_new v ds ↔ d ∈ v ∨ d ∈ ds).
Proof.
  unfold push_new. revert v. induction ds as [|d ds IH]; intros v; cbn [foldl].
  { split; [done|]. split; [done|]. set_solver. }
  destruct (IH (if decide (d ∈ v) then v else v ++ [d])) as (Hp & Hn & Hin).
  destruct (decide (d ∈ v)) as [Hd|Hd].
  - split; [done|]. split; [done|]. intros d'. rewrite Hin. set_solver.
  - split; [by eapply transitivity, Hp; apply prefix_app_r|]. split.
    + intros. apply Hn. apply NoDup_app. split; [done|]. split; [|apply NoDup_singleton]. set_solver.
    + intros d'. rewrite Hin. set_solver.
Qed.

Lemma unless_empty_keep new old : old ≠ "" → unless_empty new old ≠ "".
Proof. unfold unless_empty. by destruct new. Qed.

Lemma on_sys_pool {A} (m : st W A) s : pool_state (on_sys m s).2 = pool_state s.
Proof. unfold on_sys. by destruct (m (sys s)). Qed.

Lemma get_storage_pool_info_pool (params : V) s :
  pool_state (get_storage_pool_info params s).2 = pool_state s.
Proof.
  unfold get_storage_pool_info, st_bind, st_ret.
  match goal with |- context [on_sys ?m s] =>
    pose proof (on_sys_pool m s) as Hs; destruct (on_sys m s) as [di s1] end.
  destruct (_ && _); [|done].
  match goal with |- context [on_sys ?m s1] =>
    pose proof (on_sys_pool m s1) as Hs1; destruct (on_sys m s1) as [tf s2] end.
  cbn [snd] in *. congruence.
Qed.

Definition pool_le (p p' : PoolState) : Prop :=
  domains p `prefix_of` domains p' ∧ (master_ver p ≤ master_ver p')%Z ∧
  (master_sd p ≠ "" → master_sd p' ≠ "") ∧ (pool_id p ≠ "" → pool_id p' ≠ "").

Definition pool_ok (p : PoolState) : Prop := NoDup (domains p) ∧ (0 ≤ master_ver p)%Z.

Lemma pool_step_spec s s' :
  pool_step s s' → pool_ok (pool_state s) →
  pool_ok (pool_state s') ∧ pool_le (pool_state s) (pool_state s').
Proof.
  intros Hstep [Hnd Hver].
  destruct Hstep as [params s r s' E|params s r s' E|params s r s' E|params s r s' E].
  - destruct (push_new_spec (domains (pool_state s)) (default [] (jget "domainsMap" params ≫= object_keys)))
      as (Hp & Hn & _). revert E. intros [= _ <-]. unfold pool_ok, pool_le. cbn.
    split; [split; [auto|lia]|]. split; [done|]. split; [lia|]. auto using unless_empty_keep.
  - destruct (push_new_spec (domains (pool_state s)) (str_array (jget "domList" params)))
      as (Hp & Hn & _). revert E. intros [= _ <-]. unfold pool_ok, pool_le. cbn.
    destruct (Z.eqb_spec (master_ver (pool_state s)) 0);
      (split; [split; [auto|lia]|]; split; [done|]; split; [lia|]); auto using unless_empty_keep.
  - revert E. intros [= _ <-]. unfold pool_ok, pool_le. cbn.
    split; [done|]. split; [done|]. split; [done|]. auto using unless_empty_keep.
  - pose proof (get_storage_pool_info_pool params s) as Hp. rewrite E in Hp. cbn [snd] in Hp.
    rewrite Hp. unfold pool_ok, pool_le. split; [done|]. split; [done|]. auto with lia.
Qed.

Lemma pool_reachable_ok s0 s :
  pool_state s0 = pool_default → rtc pool_step s0 s → pool_ok (pool_state s).
Proof.
  intros Hd Hr. assert (pool_ok (pool_state s0)) as Hok.
  { rewrite Hd. split; [constructor|done]. }
  clear Hd. induction Hr as [s|s s1 s2 Hst _ IH]; [done|].
  by apply IH, (pool_step_spec s).
Qed.

(** Whatever sequence of pool verbs the engine sends, the pool lists no
    domain twice and its master version is never negative; and every further
    verb keeps the known domains in their order, never lowers the master
    version, and never forgets the pool or the master domain once known. *)
Theorem pool_invariant s0 s :
  pool_state s0 = pool_default → rtc pool_step s0 s →
  pool_ok (pool_state s) ∧ ∀ s', pool_step s s' → pool_le (pool_state s) (pool_state s').
Proof.
  intros Hd Hr. pose proof (pool_reachable_ok s0 s Hd Hr) as Hok. split; [done|].
  intros s' Hs. by apply pool_step_spec.
Qed.

Lemma dominfo_loop_keys ds acc (w : W) :
  (dominfo_loop ds acc w).1.*1 = (acc : list (string * V)).*1 ++ ds.
Proof.
  revert acc w. induction ds as [|d ds IH]; intros acc w; cbn [dominfo_loop].
  { unfold st_ret. cbn. by rewrite app_nil_r. }
  unfold st_bind. destruct (sd_total_free d w) as [tf w1]. rewrite IH, fmap_app, <- app_assoc. done.
Qed.

(** [StoragePool.getInfo] names every domain of the pool and its master, each
    once and nothing else; so a connected pool with a master never reports an
    empty [dominfo]. *)
Theorem pool_info_complete `{!JsonLaws V} (params : V) s r s' :
  get_storage_pool_info params s = (r, s') →
  ∃ v info keys, r = Ok v ∧ jget "dominfo" v = Some info ∧ object_keys info = Some keys ∧
    NoDup keys ∧
    ∀ d, d ∈ keys ↔ d ∈ domains (pool_state s) ∨ (d = master_sd (pool_state s) ∧ d ≠ "").
Proof.
  unfold get_storage_pool_info, st_bind, st_ret. set (p := pool_state s).
  destruct (on_sys (dominfo_loop (domains p) []) s) as [di s1] eqn:E.
  assert (di.*1 = domains p) as Hdi.
  { pose proof (dominfo_loop_keys (domains p) [] (sys s)) as Hk. revert E. unfold on_sys.
    destruct (dominfo_loop (domains p) [] (sys s)). by intros [= <- _]. }
  assert (∀ kvs : list (string * V), (∀ d, d ∈ kvs.*1 ↔ d ∈ domains p ∨ (d = master_sd p ∧ d ≠ "")) →
    ∃ keys, object_keys (jobj kvs) = Some keys ∧ NoDup keys ∧
      ∀ d, d ∈ keys ↔ d ∈ domains p ∨ (d = master_sd p ∧ d ≠ "")) as Hkeys.
  { intros kvs Hkvs. destruct (object_keys_obj kvs) as (ks & Hks & Hnd & Hin).
    exists ks. split; [done|]. split; [done|]. intros d. by rewrite Hin. }
  destruct (negb (is_empty (master_sd p)) && negb (bool_decide (master_sd p ∈ di.*1))) eqn:Em.
  - destruct (on_sys (sd_total_free (master_sd p)) s1) as [tf s2]. intros [= <- _].
    destruct (Hkeys (di ++ [(master_sd p, dominfo_entry tf.2)])) as (keys & Hks & Hnd & Hin).
    { intros d. rewrite fmap_app, Hdi. breflect. destruct (master_sd p); [done|]. set_solver. }
    do 2 eexists. exists keys. split; [done|]. split; [by rewrite jget_obj|]. done.
  - intros [= <- _]. destruct (Hkeys di) as (keys & Hks & Hnd & Hin).
    { intros d. rewrite Hdi. apply andb_false_iff in Em as [Em|Em]; breflect.
      - destruct (master_sd p); [|done]. naive_solver.
      - rewrite Hdi in Em. naive_solver. }
    do 2 eexists. exists keys. split; [done|]. split; [by rewrite jget_obj|]. done.
Qed.
End pool.

(** ** Witnesses *)

Definition create_params : JVal :=
  JObj [("storagedomainID", JStr "5f1c0000"); ("typeArgs", JStr "srv:/export/data");
        ("name", JStr "data1"); ("domainType", JInt 1); ("version", JInt 5)].

Definition mounted_world : demo :=
  demo_world [] [MNT_BASE; "/rhev/data-center/mnt/srv:_export_data"].

Lemma demo_query_only bin : query_only (W := demo) bin.
Proof. by intros args w r w' [= _ <-] p. Qed.


Lemma pool_invariant_witness :
  let s0 := store_of (demo_world [] []) in
  let s := (create_storage_pool (JObj [("masterDom", JStr "m"); ("domList", JArr [JStr "m"; JStr "m"])]) s0).2 in
  pool_ok (pool_state s) ∧
  ∀ s', pool_step (V := JVal) s s' → pool_le (pool_state s) (pool_state s').
Proof.
  intros s0 s. apply (pool_invariant s0 s); [reflexivity|].
  eapply rtc_once, step_create, surjective_pairing.
Defined.

Lemma pool_info_complete_witness :
  let s := mkStore [] (mkPool "p" "m" 1 ["d"]) (demo_world [] []) in
  let r := (get_storage_pool_info JNull s).1 in
  ∃ v info keys, r = Ok v ∧ jget "dominfo" v = Some info ∧ object_keys info = Some keys ∧
    NoDup keys ∧ ∀ d, d ∈ keys ↔ d ∈ ["d"] ∨ (d = "m" ∧ d ≠ "").
Proof.
  intros s r. apply (pool_info_complete JNull s r (get_storage_pool_info JNull s).2).
  apply surjective_pairing.
Defined.
