(* ===== verification/Volumes.v ===== *)
(** * Images and volumes (crates/vdsm-storage/src/volumes.rs) *)

From stdpp Require Import options.
From S2P Require Import Prelude Utf8 RustStr Json Rpc Os Supervdsm Storage StorageDomain.

Definition ZERO_UUID : string := "00000000-0000-0000-0000-000000000000".

Definition vol_format_str (v : Z) : string := match v with 4%Z => "COW" | _ => "RAW" end.

Definition vol_alloc_str (v : Z) : string :=
  match v with 1%Z => "PREALLOCATED" | _ => "SPARSE" end.

(** The pairs of the template; it ends with a line [EOF] that is not a pair. *)
Definition volume_metadata (size_bytes ctime : N)
  (desc disk_type sd_id fmt_str img_id src_vol alloc_str : string) : list (string * string) :=
  [("CAP", to_string size_bytes); ("CTIME", to_string ctime); ("DESCRIPTION", desc);
   ("DISKTYPE", disk_type); ("DOMAIN", sd_id); ("FORMAT", fmt_str); ("GEN", "0");
   ("IMAGE", img_id); ("LEGALITY", "LEGAL"); ("PUUID", src_vol); ("TYPE", alloc_str);
   ("VOLTYPE", "LEAF")].

Definition build_meta (size_bytes ctime : N)
  (desc disk_type sd_id fmt_str img_id src_vol alloc_str : string) : string :=
  kv_text (volume_metadata size_bytes ctime desc disk_type sd_id fmt_str img_id src_vol alloc_str)
  +:+ "EOF" +:+ String LF "".

(** [a.div_ceil(b)] *)
Definition div_ceil (a b : N) : N := if (a mod b =? 0)%N then a / b else a / b + 1.

Definition extent_bytes : N := 128 * 1024 * 1024.

(** [size_bytes.div_ceil(extent_bytes) * extent_bytes], wrapping as in a release
    build. *)
Definition rounded (size_bytes : N) : N := wmul64 (div_ceil size_bytes extent_bytes) extent_bytes.

Section volumes.
Context {W} `{OsOps W, PrivSerde} {V} `{JsonOps V}.

Definition create_file_volume (sd_path img_id vol_id : string) (size_bytes : N)
  (qemu_fmt alloc_str meta_blob : string) : st W (result unit (JsonRpcError V)) :=
  let img_dir := path_join (path_join sd_path "images") img_id in
  let! r := fs_create_dir_all img_dir in
  match r with
  | Err e => st_ret (Err (internal ("mkdir " +:+ display img_dir +:+ ": " +:+ e)))
  | Ok _ =>
      let vol_path := path_join img_dir vol_id in
      let args := ["create"; "-f"; qemu_fmt]
                  ++ (if String.eqb alloc_str "PREALLOCATED" then ["-o"; "preallocation=falloc"] else [])
                  ++ [display vol_path; to_string size_bytes] in
      let! out := command_output "/usr/bin/qemu-img" args in
      match out with
      | Err e => st_ret (Err (internal ("qemu-img spawn: " +:+ e)))
      | Ok out =>
          if negb (status_success out) then
            st_ret (Err (internal ("qemu-img create: " +:+ from_utf8_lossy (stderr out))))
          else
            let! r := fs_write (path_join img_dir (vol_id +:+ ".meta")) meta_blob in
            match r with
            | Err e => st_ret (Err (internal ("write .meta: " +:+ e)))
            | Ok _ =>
                let! _ := fs_write (path_join img_dir (vol_id +:+ ".lease")) (zeros ONE_MIB) in
                st_ret (Ok tt)
            end
      end
  end.

(** The metadata sidecar of a block volume. *)
Definition write_sidecar (state_dir img_id vol_id meta_blob : string)
  : st W (result unit (JsonRpcError V)) :=
  let meta_dir := path_join (path_join state_dir "images") img_id in
  let! r := fs_create_dir_all meta_dir in
  match r with
  | Err e => st_ret (Err (internal ("mkdir state " +:+ display meta_dir +:+ ": " +:+ e)))
  | Ok _ =>
      let! r := fs_write (path_join meta_dir (vol_id +:+ ".meta")) meta_blob in
      match r with
      | Err e => st_ret (Err (internal ("write block .meta: " +:+ e)))
      | Ok _ => st_ret (Ok tt)
      end
  end.

Definition create_block_volume (vg state_dir img_id vol_id : string) (size_bytes : N)
  (qemu_fmt meta_blob : string) : st W (result unit (JsonRpcError V)) :=
  let lv_path := vg +:+ "/" +:+ vol_id in
  let! r := run (Lvcreate vg vol_id (rounded size_bytes)) in
  match r with
  | None => st_ret (Err (internal ("lvcreate failed for " +:+ lv_path)))
  | Some _ =>
      let dev := "/dev/" +:+ vg +:+ "/" +:+ vol_id in
      if String.eqb qemu_fmt "qcow2" then
        let! out := command_output "/usr/bin/qemu-img"
                      ["create"; "-f"; "qcow2"; dev; to_string size_bytes] in
        match out with
        | Err e => st_ret (Err (internal ("qemu-img spawn: " +:+ e)))
        | Ok out =>
            if negb (status_success out) then
              let! _ := run (Lvremove vg vol_id) in
              st_ret (Err (internal ("qemu-img create qcow2-on-LV: "
                                       +:+ from_utf8_lossy (stderr out))))
            else write_sidecar state_dir img_id vol_id meta_blob
        end
      else write_sidecar state_dir img_id vol_id meta_blob
  end.

Definition volume_create (params : V) : st W (result V (JsonRpcError V)) := λ w,
  let vol_id := param_str "volumeID" "" params in
  let sd_id := param_str "storagedomainID" "" params in
  let img_id := param_str "imageID" "" params in
  let size_bytes := default 1073741824%N ((jget "size" params ≫= as_str) ≫= parse_u64) in
  let fmt := param_i64 "volFormat" 5 params in
  let prealloc := param_i64 "preallocate" 0 params in
  let desc := param_str "desc" "" params in
  let src_vol := param_str "srcVolUUID" ZERO_UUID params in
  let disk_type := param_str "diskType" "DATA" params in
  if is_empty vol_id || is_empty sd_id || is_empty img_id then
    (Err (invalid_params "volumeID/storagedomainID/imageID required"), w)
  else
    let fmt_str := vol_format_str fmt in
    let alloc_str := vol_alloc_str prealloc in
    let qemu_fmt := if String.eqb fmt_str "COW" then "qcow2" else "raw" in
    let ctime := now_secs w in
    let meta_blob := build_meta size_bytes ctime desc disk_type sd_id fmt_str img_id src_vol alloc_str in
    (let! b := sd_backend sd_id in
     match b with
     | Some (FileSd sd_path) =>
         let? _ := create_file_volume sd_path img_id vol_id size_bytes qemu_fmt alloc_str meta_blob in
         st_ret (Ok (jobj [("uuid", jstr vol_id)]))
     | Some (BlockSd vg_name state_dir) =>
         let? _ := create_block_volume vg_name state_dir img_id vol_id size_bytes qemu_fmt meta_blob in
         st_ret (Ok (jobj [("uuid", jstr vol_id)]))
     | None => st_ret (Err (internal ("SD " +:+ sd_id +:+ " not found")))
     end) w.

Definition lv_size_bytes (vg lv : string) : st W (option N) :=
  let! out := command_output "/usr/sbin/lvs"
                ["--noheadings"; "--units"; "B"; "--nosuffix"; "-o"; "lv_size"; vg +:+ "/" +:+ lv] in
  st_ret (match out with
          | Err _ => None
          | Ok out => if negb (status_success out) then None
                      else parse_u64 (trim (from_utf8_lossy (stdout out)))
          end).

(** The metadata file of a volume and its apparent size. *)
Definition volume_files (b : SdBackend) (img_id vol_id : string) : st W (string * N) :=
  match b with
  | FileSd sd_path => λ w,
      let img_dir := path_join (path_join sd_path "images") img_id in
      let apparent := match fs_len (path_join img_dir vol_id) w with Ok n => n | Err _ => 0%N end in
      ((path_join img_dir (vol_id +:+ ".meta"), apparent), w)
  | BlockSd vg_name state_dir =>
      let! size := lv_size_bytes vg_name vol_id in
      st_ret (path_join (path_join (path_join state_dir "images") img_id) (vol_id +:+ ".meta"),
              default 0%N size)
  end.

Definition volume_info (vol_id img_id sd_id : string) (m : gmap string string) (apparent : N) : V :=
  let g k := jstr (default "" (m !! k)) in
  jobj [("uuid", jstr vol_id); ("image", jstr img_id); ("domain", jstr sd_id);
        ("voltype", g "VOLTYPE"); ("format", g "FORMAT"); ("type", g "TYPE");
        ("disktype", g "DISKTYPE"); ("capacity", g "CAP");
        ("apparentsize", jstr (to_string apparent)); ("truesize", jstr (to_string apparent));
        ("parent", g "PUUID"); ("description", g "DESCRIPTION"); ("legality", g "LEGALITY");
        ("ctime", g "CTIME"); ("mtime", jstr "0"); ("status", jstr "OK"); ("children", jarr [])].

Definition volume_get_info (params : V) : st W (result V (JsonRpcError V)) :=
  let vol_id := param_str "volumeID" "" params in
  let sd_id := param_str "storagedomainID" "" params in
  let img_id := param_str "imageID" "" params in
  let! b := sd_backend sd_id in
  match b with
  | None => st_ret (Err (internal ("SD " +:+ sd_id +:+ " not found")))
  | Some backend =>
      let! ma := volume_files backend img_id vol_id in
      let '(meta_path, apparent) := ma in
      λ w, match fs_read meta_path w with
           | Err e => (Err (internal ("read meta: " +:+ e)), w)
           | Ok content => (Ok (volume_info vol_id img_id sd_id (parse_kv content) apparent), w)
           end
  end.

Definition volume_get_size (params : V) : st W (result V (JsonRpcError V)) :=
  let? info := volume_get_info params in
  st_ret (Ok (jobj [("apparentsize", get_or "apparentsize" (jstr "0") info);
                    ("truesize", get_or "truesize" (jstr "0") info)])).

Definition volume_delete (params : V) : st W (result V (JsonRpcError V)) :=
  let vol_id := param_str "volumeID" "" params in
  let sd_id := param_str "storagedomainID" "" params in
  let img_id := param_str "imageID" "" params in
  let! b := sd_backend sd_id in
  match b with
  | Some (FileSd sd_path) =>
      let img_dir := path_join (path_join sd_path "images") img_id in
      let! _ := fs_remove_file (path_join img_dir vol_id) in
      let! _ := fs_remove_file (path_join img_dir (vol_id +:+ ".meta")) in
      let! _ := fs_remove_file (path_join img_dir (vol_id +:+ ".lease")) in
      st_ret (Ok (jobj []))
  | Some (BlockSd vg_name state_dir) =>
      let! _ := run (Lvremove vg_name vol_id) in
      let meta := path_join (path_join (path_join state_dir "images") img_id) (vol_id +:+ ".meta") in
      let! _ := fs_remove_file meta in
      st_ret (Ok (jobj []))
  | None => st_ret (Ok (jobj []))
  end.

Definition image_prepare (params : V) : st W (result V (JsonRpcError V)) :=
  let vol_id := param_str "volumeID" "" params in
  let sd_id := param_str "storagedomainID" "" params in
  let img_id := param_str "imageID" "" params in
  let! b := sd_backend sd_id in
  match b with
  | Some (FileSd sd_path) => λ w,
      let vol_path := path_join (path_join (path_join sd_path "images") img_id) vol_id in
      if negb (fs_exists vol_path w) then
        (Err (internal ("volume " +:+ display vol_path +:+ " missing")), w)
      else (Ok (jobj [("path", jstr (display vol_path))]), w)
  | Some (BlockSd vg_name _) =>
      let! r := run (Lvchange vg_name vol_id true) in
      match r with
      | None => st_ret (Err (internal ("lvchange -ay " +:+ vg_name +:+ "/" +:+ vol_id)))
      | Some _ => λ w,
          let dev := "/dev/" +:+ vg_name +:+ "/" +:+ vol_id in
          if negb (fs_exists dev w) then
            (Err (internal ("device " +:+ dev +:+ " did not appear")), w)
          else (Ok (jobj [("path", jstr dev)]), w)
      end
  | None => st_ret (Err (internal ("SD " +:+ sd_id +:+ " not found")))
  end.

Definition image_teardown (params : V) : st W (result V (JsonRpcError V)) :=
  let vol_id := param_str "volumeID" "" params in
  let sd_id := param_str "storagedomainID" "" params in
  let! b := sd_backend sd_id in
  match b with
  | Some (BlockSd vg_name _) =>
      if negb (is_empty vol_id) then
        let! _ := run (Lvchange vg_name vol_id false) in st_ret (Ok (jobj []))
      else st_ret (Ok (jobj []))
  | _ => st_ret (Ok (jobj []))
  end.

(** Remove the logical volume behind every [.meta] sidecar; the loop ends at the
    first entry that cannot be read. *)
Fixpoint lvremove_loop (vg_name : string) (entries : list (result string string)) : st W unit :=
  match entries with
  | Ok name :: entries' =>
      let! _ := match strip_suffix ".meta" (from_utf8_lossy name) with
                | Some vol => let! _ := run (Lvremove vg_name vol) in st_ret tt
                | None => st_ret tt
                end in
      lvremove_loop vg_name entries'
  | _ => st_ret tt
  end.

Definition image_delete (params : V) : st W (result V (JsonRpcError V)) :=
  let sd_id := param_str "storagedomainID" "" params in
  let img_id := param_str "imageID" "" params in
  let! b := sd_backend sd_id in
  match b with
  | Some (FileSd sd_path) =>
      let! _ := fs_remove_dir_all (path_join (path_join sd_path "images") img_id) in
      st_ret (Ok (jobj []))
  | Some (BlockSd vg_name state_dir) =>
      let img_dir := path_join (path_join state_dir "images") img_id in
      let! _ := λ w, match fs_read_dir img_dir w with
                     | Ok entries => lvremove_loop vg_name entries w
                     | Err _ => (tt, w)
                     end in
      let! _ := fs_remove_dir_all img_dir in
      st_ret (Ok (jobj []))
  | None => st_ret (Ok (jobj []))
  end.

Definition image_delete_volumes (params : V) : st W (result V (JsonRpcError V)) :=
  image_delete params.
End volumes.
