(* ===== verification/VolumesFacts.v ===== *)
(** * Properties of images and volumes

    The size of a logical volume against the size asked for, what is left behind
    when creating a block volume fails, and that a created volume is reported as
    it was asked for. *)

From stdpp Require Import options.
From Stdlib Require Import Lia.
From S2P Require Import Prelude Utf8 RustStr Json Rpc Os Supervdsm SupervdsmFacts Storage StorageFacts StorageDomain StorageDomainFacts Volumes.

(** ** Rounding to extents *)

(** The largest size whose rounding fits in 64 bits. *)
Definition max_volume : N := u64_max - (extent_bytes - 1).

Lemma div_ceil_spec a b :
  (b ≠ 0)%N → (a ≤ div_ceil a b * b)%N ∧ (div_ceil a b * b < a + b)%N.
Proof.
  intros Hb. unfold div_ceil. pose proof (N.div_mod a b Hb) as Hd.
  pose proof (N.mod_lt a b Hb) as Hm.
  revert Hd Hm. generalize (a / b)%N, (a mod b)%N. intros q r -> Hr.
  destruct (N.eqb_spec r 0) as [->|]; [lia|]. rewrite N.mul_add_distr_r. lia.
Qed.

Lemma rounded_cases size :
  (size ≤ u64_max)%N →
  if (size <=? max_volume)%N then
    (size ≤ rounded size)%N ∧ (rounded size < size + extent_bytes)%N ∧
    (rounded size mod extent_bytes = 0)%N ∧ (rounded size ≤ u64_max)%N
  else rounded size = 0%N.
Proof.
  intros Hs. unfold rounded, wmul64.
  destruct (div_ceil_spec size extent_bytes) as [Hlo Hhi]; [done|].
  remember (div_ceil size extent_bytes) as k eqn:Ek.
  assert (u64_max + 1 = 137438953472 * extent_bytes)%N as Hm by reflexivity.
  assert (max_volume = 137438953471 * extent_bytes)%N as Hmv by reflexivity.
  assert (extent_bytes = 134217728)%N as He by reflexivity.
  destruct (N.leb_spec size max_volume) as [Hle|Hgt].
  - assert (k ≤ 137438953471)%N by nia.
    rewrite N.mod_small by nia. split; [done|]. split; [done|].
    split; [by apply N.Div0.mod_mul|]. lia.
  - assert (k = 137438953472)%N as -> by nia. by rewrite <- Hm, N.Div0.mod_same.
Qed.

Lemma rounded_exact size :
  (size ≤ max_volume)%N → (size mod extent_bytes = 0)%N → rounded size = size.
Proof.
  intros Hs Hm. unfold rounded, wmul64, div_ceil. rewrite Hm. cbn [N.eqb].
  pose proof (N.div_mod size extent_bytes ltac:(done)) as Hd. rewrite Hm, N.add_0_r in Hd.
  rewrite N.mul_comm, <- Hd. apply N.mod_small.
  eapply N.le_lt_trans; [exact Hs|]. by vm_compute.
Qed.

(** C28: the logical volume is at least as large as the disk, a whole number of
    128 MiB extents, and wastes less than one extent, for every size up to
    2^64 - 2^27; a disk that is a whole number of extents gets exactly its own
    size, with no room for qcow2's metadata; and for a size above the bound the
    product wraps to 0. *)
Theorem rounded_spec size :
  (size ≤ u64_max)%N →
  if (size <=? max_volume)%N then
    (size ≤ rounded size)%N ∧ (rounded size < size + extent_bytes)%N ∧
    (rounded size mod extent_bytes = 0)%N ∧ (rounded size ≤ u64_max)%N ∧
    ((size mod extent_bytes = 0)%N → rounded size = size)
  else rounded size = 0%N.
Proof.
  intros Hs. pose proof (rounded_cases size Hs) as Hr. destruct (N.leb_spec size max_volume) as [Hle|]; [|done].
  destruct Hr as (H1 & H2 & H3 & H4). split_and!; [done..|]. by apply rounded_exact.
Qed.

Lemma rounded_spec_witness :
  (1 ≤ rounded 1)%N ∧ (rounded 1 < 1 + extent_bytes)%N ∧
  (rounded 1 mod extent_bytes = 0)%N ∧ (rounded 1 ≤ u64_max)%N ∧
  ((1 mod extent_bytes = 0)%N → rounded 1 = 1%N).
Proof. apply (rounded_spec 1). by vm_compute. Defined.

(** ** Block volumes *)

Section block.
Context {W} `{OsOps W} `{PrivSerde} {V : Type}.

(** Where the metadata of a block volume is written. *)
Definition sidecar_dir (state img : string) : string := path_join (path_join state "images") img.

(** The [qemu-img] call that formats a logical volume. *)
Definition qemu_img_args (vg vol : string) (size : N) : list string :=
  ["create"; "-f"; "qcow2"; "/dev/" +:+ vg +:+ "/" +:+ vol; to_string size].

(** The sidecar is written, or an error is reported and at most the directory
    was made. *)
Lemma write_sidecar_outcome (keeps : W → Prop) state img vol meta (w : W) :
  (∀ d w r w', fs_create_dir_all d w = (r, w') → keeps w → keeps w') →
  (∀ p b w r w', fs_write p b w = (r, w') → keeps w → keeps w') → keeps w →
  let '(r, w') := write_sidecar (V := V) state img vol meta w in
  keeps w' ∧
  match r with
  | Ok _ => ∃ w1, fs_create_dir_all (sidecar_dir state img) w = (Ok tt, w1) ∧
                  fs_write (path_join (sidecar_dir state img) (vol +:+ ".meta")) meta w1 = (Ok tt, w')
  | Err _ => True
  end.
Proof.
  intros Hdir Hwrite Hw. unfold write_sidecar, sidecar_dir, st_bind, st_ret.
  destruct (fs_create_dir_all _ w) as [[[]|e] w1] eqn:Ed; [|by split; [eapply Hdir|]].
  destruct (fs_write _ _ w1) as [[[]|e] w2] eqn:Ew; (split; [by eapply Hwrite, Hdir|done || eauto]).
Qed.

(** C29: creating a block volume, once [lvcreate] has succeeded.  It succeeds only
    if [qemu-img], for a qcow2 volume, and the writing of the metadata succeeded.
    When it fails (raw or qcow2) and [qemu-img] did not run and fail, the logical
    volume is still there: the request has left it behind.  When [qemu-img] did
    run and fail, the removal was asked for last, whatever came of it.
    ([lv] is whether the logical volume exists; it is assumed that [qemu-img],
    making a directory and writing a file do not remove one.) *)
Theorem create_block_volume_failures (lv : W → Prop) vg state img vol size fmt meta (w w1 : W) o :
  (∀ args w r w', command_output "/usr/bin/qemu-img" args w = (r, w') → lv w → lv w') →
  (∀ d w r w', fs_create_dir_all d w = (r, w') → lv w → lv w') →
  (∀ p b w r w', fs_write p b w = (r, w') → lv w → lv w') →
  run (Lvcreate vg vol (rounded size)) w = (Some o, w1) → lv w1 →
  let format_failed := fmt = "qcow2" ∧ ∃ out w2,
    command_output "/usr/bin/qemu-img" (qemu_img_args vg vol size) w1 = (Ok out, w2) ∧
    status_success out = false in
  let '(r, w') := create_block_volume (V := V) vg state img vol size fmt meta w in
  match r with
  | Ok _ =>
      lv w' ∧
      (fmt = "qcow2" → ∃ out w2,
         command_output "/usr/bin/qemu-img" (qemu_img_args vg vol size) w1 = (Ok out, w2) ∧
         status_success out = true) ∧
      ∃ w3 w4, fs_create_dir_all (sidecar_dir state img) w3 = (Ok tt, w4) ∧
        fs_write (path_join (sidecar_dir state img) (vol +:+ ".meta")) meta w4 = (Ok tt, w')
  | Err _ =>
      lv w' ∧ ~ format_failed ∨
      format_failed ∧
        w' = (run (Lvremove vg vol)
                (command_output "/usr/bin/qemu-img" (qemu_img_args vg vol size) w1).2).2
  end.
Proof.
  intros Hq Hdir Hwrite Hl Hw1 format_failed. unfold create_block_volume. unfold st_bind at 1. rewrite Hl.
  assert (∀ w2, lv w2 → let '(r, w') := write_sidecar (V := V) state img vol meta w2 in
    match r with
    | Ok _ => lv w' ∧ ∃ w3 w4, fs_create_dir_all (sidecar_dir state img) w3 = (Ok tt, w4) ∧
        fs_write (path_join (sidecar_dir state img) (vol +:+ ".meta")) meta w4 = (Ok tt, w')
    | Err _ => lv w' end) as Hs.
  { intros w2 Hw2. pose proof (write_sidecar_outcome lv state img vol meta w2 Hdir Hwrite Hw2) as Ho.
    destruct (write_sidecar _ _ _ _ w2) as [[[]|e] w']; destruct Ho as [H1 H2]; [|done].
    split; [done|]. destruct H2 as (w3 & ? & ?). by exists w2, w3. }
  destruct (String.eqb_spec fmt "qcow2") as [Hf|Hf].
  2:{ specialize (Hs w1 Hw1). destruct (write_sidecar _ _ _ _ w1) as [[[]|e] w']; [|left; by split; [|intros [? _]]].
      destruct Hs as [H1 H2]. by split_and!. }
  unfold st_bind at 1. fold (qemu_img_args vg vol size).
  destruct (command_output _ (qemu_img_args vg vol size) w1) as [[out|e] w2] eqn:Eq;
    [|left; split; [by eapply Hq|]; by intros (_ & ? & ? & ? & _)].
  destruct (status_success out) eqn:Es; cbn [negb].
  - specialize (Hs w2 ltac:(by eapply Hq)). destruct (write_sidecar _ _ _ _ w2) as [[[]|e] w'].
    2:{ left. split; [done|]. intros (_ & ? & ? & ? & ?). congruence. }
    destruct Hs as [H1 H2]. split_and!; [done| |done]. intros _. by exists out, w2.
  - unfold st_bind, st_ret. destruct (run (Lvremove vg vol) w2) as [r w3] eqn:Er. right.
    split; [by split; [|exists out, w2]|]. cbn [snd]. by rewrite Er.
Qed.
End block.

(** A size that would wrap around never reaches [lvcreate]: the helper refuses
    a volume of size 0, so the request fails and nothing has changed. *)
Theorem oversize_volume_refused {W} (os : OsOps W) `{PrivSerde} `{!PrivSerdeLaws} {V : Type}
  uid vg state img vol size fmt meta (w : W) :
  (max_volume < size)%N → (size ≤ u64_max)%N →
  ∃ e, @create_block_volume W (with_supervdsmd os uid uid) _ V vg state img vol size fmt meta w
       = (Err e, w).
Proof.
  intros Hgt Hle. pose proof (rounded_cases size Hle) as Hr.
  rewrite (proj2 (N.leb_gt size max_volume) Hgt) in Hr.
  unfold create_block_volume, run, st_bind, st_ret. rewrite Hr, (@call_supervdsmd W os _ _).
  cbn [execute]. unfold st_ret.
  destruct (valid_lvm_name vg); cbn [negb]; [|by eexists].
  destruct (valid_lvm_name vol); cbn [negb]; by eexists.
Qed.

(** ** Create, then ask *)

Lemma vol_format_str_solid f : str_all solid (vol_format_str f) = true.
Proof. destruct f as [|p|p]; [done| |done]. by destruct p as [|[[]|[]|]|]. Qed.

Lemma vol_alloc_str_solid a : str_all solid (vol_alloc_str a) = true.
Proof. destruct a as [|p|p]; [done| |done]. by destruct p. Qed.

#[export] Hint Resolve vol_format_str_solid vol_alloc_str_solid to_string_solid : vdsm.

Lemma volume_metadata_ok size ctime desc disk sd f img src a :
  value_ok desc = true → value_ok disk = true → value_ok sd = true → value_ok img = true →
  value_ok src = true →
  kvs_ok (volume_metadata size ctime desc disk sd (vol_format_str f) img src (vol_alloc_str a)) = true.
Proof.
  intros H1 H2 H3 H4 H5. unfold kvs_ok, volume_metadata. cbn [forallb fst snd].
  rewrite H1, H2, H3, H4, H5, !solid_value_ok by eauto with vdsm. reflexivity.
Qed.

Lemma plain_name_suffix vol s :
  plain_name vol = true → has_byte "/" s = false → (2 ≤ strlen s)%nat →
  plain_name (vol +:+ s) = true.
Proof.
  unfold plain_name. intros Hv Hs Hl. breflect.
  assert (∀ t, (strlen t ≤ 2)%nat → vol +:+ s ≠ t) as Hlen.
  { intros t Ht E%(f_equal String.length). rewrite strlen_app in E.
    destruct vol as [|c v]; [done|]. cbn in E. lia. }
  match goal with Hb : has_byte "/" vol = false |- _ => rewrite has_byte_app, Hs, Hb end.
  rewrite (proj2 (String.eqb_neq _ ".")), (proj2 (String.eqb_neq _ ".."))
    by (apply Hlen; cbn; lia).
  destruct vol; [done|]. by rewrite app_String.
Qed.

Section roundtrip.
Context {W} `{OsOps W} `{PrivSerde} {V : Type} `{JsonOps V}.

(** The metadata file of a volume. *)
Definition meta_path (b : SdBackend) (img vol : string) : string :=
  let root := match b with FileSd p => p | BlockSd _ d => d end in
  path_join (path_join (path_join root "images") img) (vol +:+ ".meta").

Lemma create_file_volume_ok `{!OsLaws W} sd img vol size fmt alloc meta (w w' : W) :
  plain_name vol = true → utf8_valid meta = true →
  create_file_volume (V := V) sd img vol size fmt alloc meta w = (Ok tt, w') →
  fs_read (meta_path (FileSd sd) img vol) w' = Ok meta.
Proof.
  intros Hv Hu. unfold create_file_volume, st_bind, st_ret.
  destruct (fs_create_dir_all _ w) as [[[]|e] w1]; [|by intros [= ]].
  match goal with |- context [command_output _ ?a w1] => generalize a; intros args end.
  destruct (command_output _ args w1) as [[out|e] w2]; [|by intros [= ]].
  destruct (status_success out); cbn [negb]; [|by intros [= ]].
  set (dir := path_join (path_join sd "images") img).
  destruct (fs_write (path_join dir (vol +:+ ".meta")) meta w2) as [[[]|e] w3] eqn:Ew; [|by intros [= ]].
  destruct (fs_write (path_join dir (vol +:+ ".lease")) _ w3) as [r w4] eqn:El. intros [= <-].
  destruct (read_after_write _ _ _ _ Ew Hu) as [Hr _]. unfold meta_path. fold dir.
  destruct (write_other dir (vol +:+ ".lease") (vol +:+ ".meta") (zeros ONE_MIB) w3 r w4)
    as [Hk _]; [..|congruence].
  - by apply plain_name_suffix; [| |cbn; lia].
  - by apply plain_name_suffix; [| |cbn; lia].
  - by intros ?%app_inv_head_str.
  - exact El.
Qed.

Lemma write_sidecar_ok `{!OsLaws W} vg state img vol meta (w w' : W) :
  utf8_valid meta = true →
  write_sidecar (V := V) state img vol meta w = (Ok tt, w') →
  fs_read (meta_path (BlockSd vg state) img vol) w' = Ok meta.
Proof.
  intros Hu. unfold write_sidecar, st_bind, st_ret.
  destruct (fs_create_dir_all _ w) as [[[]|e] w1]; [|by intros [= ]].
  destruct (fs_write _ meta w1) as [[[]|e] w2] eqn:Ew; [|by intros [= ]].
  intros [= <-]. by eapply read_after_write.
Qed.

Lemma create_block_volume_ok `{!OsLaws W} vg state img vol size fmt meta (w w' : W) :
  utf8_valid meta = true →
  create_block_volume (V := V) vg state img vol size fmt meta w = (Ok tt, w') →
  fs_read (meta_path (BlockSd vg state) img vol) w' = Ok meta.
Proof.
  intros Hu. unfold create_block_volume, st_bind, st_ret.
  destruct (run _ w) as [[o|] w1]; [|by intros [= ]].
  destruct (String.eqb fmt "qcow2"); [|by apply write_sidecar_ok].
  match goal with |- context [command_output _ ?a w1] => generalize a; intros args end.
  destruct (command_output _ args w1) as [[out|e] w2]; [|by intros [= ]].
  destruct (status_success out); cbn [negb]; [by apply write_sidecar_ok|].
  by destruct (run _ w2).
Qed.

Definition volume_size (params : V) : N :=
  default 1073741824%N ((jget "size" params ≫= as_str) ≫= parse_u64).

(** Upstream vdsm's codes of formats and allocations. *)
Definition upstream_formats : list (Z * string) := [(4, "COW"); (5, "RAW")]%Z.
Definition upstream_allocations : list (Z * string) := [(0, "SPARSE"); (1, "PREALLOCATED")]%Z.

Lemma vol_format_reported f : vol_format_str f = code_name upstream_formats "RAW" f.
Proof.
  unfold code_name, upstream_formats. cbn [list_find].
  destruct (decide (f = 4%Z)) as [->|]; [done|]. destruct (decide (f = 5%Z)) as [->|]; [done|].
  rewrite !decide_False by (cbn; congruence). cbn.
  destruct f as [|q|q]; try done. do 3 (destruct q as [q|q|]; try done).
Qed.

Lemma vol_alloc_reported a : vol_alloc_str a = code_name upstream_allocations "SPARSE" a.
Proof.
  unfold code_name, upstream_allocations. cbn [list_find].
  destruct (decide (a = 0%Z)) as [->|]; [done|]. destruct (decide (a = 1%Z)) as [->|]; [done|].
  rewrite !decide_False by (cbn; congruence). cbn.
  destruct a as [|q|q]; try done. by destruct q.
Qed.

(** What [Volume.getInfo] must report of a volume created with [params] at
    [ctime]. *)
Definition expected_volume (params : V) (ctime apparent : N) : V :=
  jobj [("uuid", jstr (param_str "volumeID" "" params));
        ("image", jstr (param_str "imageID" "" params));
        ("domain", jstr (param_str "storagedomainID" "" params));
        ("voltype", jstr "LEAF");
        ("format", jstr (code_name upstream_formats "RAW" (param_i64 "volFormat" 5 params)));
        ("type", jstr (code_name upstream_allocations "SPARSE" (param_i64 "preallocate" 0 params)));
        ("disktype", jstr (trim (param_str "diskType" "DATA" params)));
        ("capacity", jstr (to_string (volume_size params)));
        ("apparentsize", jstr (to_string apparent)); ("truesize", jstr (to_string apparent));
        ("parent", jstr (trim (param_str "srcVolUUID" ZERO_UUID params)));
        ("description", jstr (trim (param_str "desc" "" params)));
        ("legality", jstr "LEGAL"); ("ctime", jstr (to_string ctime)); ("mtime", jstr "0");
        ("status", jstr "OK"); ("children", jarr [])].

Definition volume_blob (params : V) (ctime : N) : string :=
  build_meta (volume_size params) ctime (param_str "desc" "" params)
    (param_str "diskType" "DATA" params) (param_str "storagedomainID" "" params)
    (vol_format_str (param_i64 "volFormat" 5 params)) (param_str "imageID" "" params)
    (param_str "srcVolUUID" ZERO_UUID params) (vol_alloc_str (param_i64 "preallocate" 0 params)).

(** The strings of a request that end up in the metadata stay on their line. *)
Definition volume_values_ok (params : V) : bool :=
  value_ok (param_str "desc" "" params) && value_ok (param_str "diskType" "DATA" params)
  && value_ok (param_str "storagedomainID" "" params) && value_ok (param_str "imageID" "" params)
  && value_ok (param_str "srcVolUUID" ZERO_UUID params).

Lemma volume_blob_info (params : V) ctime apparent :
  volume_values_ok params = true →
  utf8_valid (volume_blob params ctime) = true ∧
  volume_info (param_str "volumeID" "" params) (param_str "imageID" "" params)
    (param_str "storagedomainID" "" params) (parse_kv (volume_blob params ctime)) apparent
  = expected_volume params ctime apparent.
Proof.
  unfold volume_values_ok. intros Hv. breflect.
  assert (kvs_ok (volume_metadata (volume_size params) ctime (param_str "desc" "" params)
    (param_str "diskType" "DATA" params) (param_str "storagedomainID" "" params)
    (vol_format_str (param_i64 "volFormat" 5 params)) (param_str "imageID" "" params)
    (param_str "srcVolUUID" ZERO_UUID params) (vol_alloc_str (param_i64 "preallocate" 0 params))) = true)
    as Hok by (by apply volume_metadata_ok).
  unfold volume_blob, build_meta. split.
  - apply utf8_valid_app; [by apply kv_text_utf8|done].
  - unfold volume_info, expected_volume. rewrite <- vol_format_reported, <- vol_alloc_reported.
    rewrite !parse_kv_text_tail by (done || by repeat constructor).
    cbn -[trim to_string vol_format_str vol_alloc_str jobj jstr param_str param_i64 volume_size].
    by rewrite !(trim_solid _ (to_string_solid _)), (trim_solid _ (vol_format_str_solid _)),
      (trim_solid _ (vol_alloc_str_solid _)).
Qed.

Lemma volume_create_meta `{!OsLaws W} (params : V) b wb (w w' : W) r :
  volume_values_ok params = true → plain_name (param_str "volumeID" "" params) = true →
  sd_backend (param_str "storagedomainID" "" params) w = (Some b, wb) →
  volume_create params w = (Ok r, w') →
  fs_read (meta_path b (param_str "imageID" "" params) (param_str "volumeID" "" params)) w'
    = Ok (volume_blob params (now_secs w)).
Proof.
  intros Hv Hn Hb. destruct (volume_blob_info params (now_secs w) 0 Hv) as [Hu _].
  unfold volume_create. destruct (_ || _ || _); [by intros [= ]|].
  fold (volume_size params). fold (volume_blob params (now_secs w)).
  unfold st_bind. rewrite Hb. unfold st_try, st_ret.
  destruct b as [sd|vg state].
  - match goal with |- context [create_file_volume ?a ?b ?c ?d ?e ?f ?g wb] =>
      destruct (create_file_volume a b c d e f g wb) as [[[]|e'] w2] eqn:E end; [|by intros [= ]].
    intros [= _ <-]. by eapply create_file_volume_ok.
  - match goal with |- context [create_block_volume ?a ?b ?c ?d ?e ?f ?g wb] =>
      destruct (create_block_volume a b c d e f g wb) as [[[]|e'] w2] eqn:E end; [|by intros [= ]].
    intros [= _ <-]. by eapply create_block_volume_ok.
Qed.

Lemma sd_backend_query uuid (w : W) p :
  query_only (W := W) "/usr/sbin/vgs" → fs_read p (sd_backend uuid w).2 = fs_read p w.
Proof.
  intros Hq. unfold sd_backend. destruct (is_empty uuid); [done|].
  destruct (vg_exists_query uuid w p Hq) as [Hr _]. unfold st_bind.
  destruct (vg_exists uuid w) as [[] w1]; exact Hr.
Qed.

End roundtrip.

(** ** Prepare and delete *)

Section images.
Context {W} `{OsOps W} `{PrivSerde} {V : Type} `{JsonOps V}.

(** The path [Image.prepare] hands to libvirt exists when it is handed out,
    and for a block domain the logical volume was activated just before. *)
Theorem image_prepare_path (params : V) b wb (w w' : W) v :
  let img := param_str "imageID" "" params in
  let vol := param_str "volumeID" "" params in
  sd_backend (param_str "storagedomainID" "" params) w = (Some b, wb) →
  image_prepare params w = (Ok v, w') →
  match b with
  | FileSd sd =>
      let p := path_join (path_join (path_join sd "images") img) vol in
      v = jobj [("path", jstr (display p))] ∧ fs_exists p w' = true ∧ w' = wb
  | BlockSd vg _ =>
      let p := "/dev/" +:+ vg +:+ "/" +:+ vol in
      v = jobj [("path", jstr p)] ∧ fs_exists p w' = true ∧
      ∃ out, run (Lvchange vg vol true) wb = (Some out, w')
  end.
Proof.
  intros img vol Hb. unfold image_prepare, st_bind. rewrite Hb. destruct b as [sd|vg state]; cbn [negb].
  - fold img vol. destruct (fs_exists _ wb) eqn:E; cbn [negb]; [|by intros [= ]]. by intros [= <- <-].
  - fold vol. destruct (run _ wb) as [[out|] w1] eqn:Er; [|by intros [= ]].
    destruct (fs_exists _ w1) eqn:E; cbn [negb]; [|by intros [= ]]. intros [= <- <-]. eauto.
Qed.

(** A volume's file in a file domain. *)
Definition volume_file (sd img vol : string) : string :=
  path_join (path_join (path_join sd "images") img) vol.

Lemma volume_file_eq sd img vol :
  clean_path sd = true → plain_name img = true → plain_name vol = true →
  volume_file sd img vol =
    (sd +:+ String "/" "images") +:+ String "/" (img +:+ String "/" vol) ∧
  clean_path (volume_file sd img vol) = true.
Proof.
  intros Hsd Hi Hv. unfold volume_file.
  destruct (clean_path_join sd "images" Hsd eq_refl) as [-> Hc1].
  destruct (clean_path_join _ img Hc1 Hi) as [-> Hc2].
  destruct (clean_path_join _ vol Hc2 Hv) as [-> Hc3].
  split; [by rewrite app_assoc_str, app_String|done].
Qed.

Lemma plain_no_slash n : plain_name n = true → has_byte "/" n = false ∧ n ≠ "".
Proof. unfold plain_name. intros. breflect. split; [done|by intros ->]. Qed.

(** C30: deleting an image of a file domain, when its [imageID] is a plain name:
    the request is answered with success whatever came of the removal; when the
    removal succeeded none of the image's volumes exists any more; and, also when
    it failed, the volumes of every other image are still there, unchanged. *)
Theorem image_delete_exact `{!OsLaws W} (params : V) sd (w wb w' : W) img r :
  let del := param_str "imageID" "" params in
  sd_backend (param_str "storagedomainID" "" params) w = (Some (FileSd sd), wb) →
  clean_path sd = true → plain_name del = true → plain_name img = true →
  fs_remove_dir_all (path_join (path_join sd "images") del) wb = (r, w') →
  image_delete params w = (Ok (jobj []), w') ∧
  ∀ vol, plain_name vol = true →
    if decide (img = del) then r = Ok tt → fs_exists (volume_file sd img vol) w' = false
    else fs_exists (volume_file sd img vol) w' = fs_exists (volume_file sd img vol) wb ∧
         fs_read (volume_file sd img vol) w' = fs_read (volume_file sd img vol) wb.
Proof.
  intros del Hb Hsd Hd Hi Hrm. split.
  { unfold image_delete, st_bind. rewrite Hb. fold del. by rewrite Hrm. }
  intros vol Hv. destruct (volume_file_eq sd img vol Hsd Hi Hv) as [Hf Hclean].
  destruct (clean_path_join sd "images" Hsd eq_refl) as [Ei Hci]. rewrite Ei in Hrm.
  destruct (clean_path_join _ del Hci Hd) as [Ed Hcd]. rewrite Ed in Hrm.
  destruct (plain_no_slash del Hd) as [Hds Hdne]. destruct (plain_no_slash img Hi) as [His _].
  pose proof (under_child (sd +:+ String "/" "images") del img vol Hds His Hdne) as Hu.
  rewrite <- Hf in Hu. case_decide as E.
  - subst img. rewrite String.eqb_refl in Hu. intros ->. by eapply remove_dir_all_gone.
  - rewrite (proj2 (String.eqb_neq del img)) in Hu by congruence.
    destruct (remove_dir_all_other _ _ _ _ _ Hrm Hcd Hclean Hu) as [Hr He]. done.
Qed.


(** C31: a request to delete an image that names no image deletes them all: the
    handler does not check [imageID], and the path it removes is then the
    domain's whole [images] directory. *)
Theorem image_delete_without_id `{!OsLaws W} (params : V) sd (w wb w' : W) :
  param_str "imageID" "" params = "" →
  sd_backend (param_str "storagedomainID" "" params) w = (Some (FileSd sd), wb) →
  clean_path sd = true →
  fs_remove_dir_all (sd +:+ "/images/") wb = (Ok tt, w') →
  image_delete params w = (Ok (jobj []), w') ∧
  ∀ img vol, plain_name img = true → plain_name vol = true →
    fs_exists (volume_file sd img vol) w' = false.
Proof.
  intros Hid Hb Hsd Hrm. destruct (clean_path_join sd "images" Hsd eq_refl) as [Ei Hci].
  assert (path_join (path_join sd "images") "" = sd +:+ "/images/") as Ep.
  { rewrite Ei. unfold path_join. cbn [starts_with]. rewrite str_last_app. cbn.
    by rewrite app_nil_r_str, app_assoc_str. }
  split.
  { unfold image_delete, st_bind. rewrite Hb, Hid, Ep, Hrm. done. }
  intros img vol Hi Hv. destruct (volume_file_eq sd img vol Hsd Hi Hv) as [Hf Hclean].
  eapply remove_dir_all_gone; [exact Hrm|done|]. unfold under.
  rewrite bool_decide_true by (by rewrite (str_last_app sd "/" "images/")).
  rewrite Hf. change (sd +:+ "/images/") with (sd +:+ ((String "/" "images") +:+ "/")).
  rewrite !app_assoc_str, starts_with_cancel. reflexivity.
Qed.
End images.

(** ** Witnesses *)

(** The helper answers every operation with success. *)
Definition obliging (files : list (string * bytes)) (dirs : list string)
  (cmd : string → list string → result Output string) : demo :=
  mkDemo files dirs [] cmd (λ _, Ok (digits_of (true, 0%Z, "", "") +:+ String LF "")).

Definition no_qemu : string → list string → result Output string :=
  λ bin _, if String.eqb bin "/usr/bin/qemu-img" then Err "No such file or directory (os error 2)"
           else Ok (mkOutput true (Some 0%Z) "" "").

(** On this host a logical volume exists when it was created and not removed. *)
Definition lv_there (w : demo) : Prop :=
  Exists (λ c, c.1 = "/usr/sbin/lvcreate") (d_log w) ∧ Forall (λ c, c.1 ≠ "/usr/sbin/lvremove") (d_log w).

Lemma lv_there_keep bin args (w : demo) :
  bin ≠ "/usr/sbin/lvremove" → lv_there w → lv_there (log_cmd (bin, args) w).
Proof.
  intros Hb [H1 H2]. unfold lv_there. cbn. rewrite Exists_app, Forall_app. split; [by left|].
  split; [done|]. by constructor.
Qed.

(** The helper runs as root on a host that has no [qemu-img]. *)
Lemma create_block_volume_failures_witness :
  let w := mkDemo [] [] [] no_qemu (λ _, Err "refused") in
  let r := @create_block_volume demo (with_supervdsmd demo_os 36 36) _ JVal "vg" "/s" "i" "v" 1 "qcow2" "m" w in
  is_ok r.1 = false ∧ lv_there r.2.
Proof.
  intros w r. split; [vm_compute; reflexivity|].
  pose proof (@create_block_volume_failures demo (with_supervdsmd demo_os 36 36) _ JVal lv_there
    "vg" "/s" "i" "v" 1 "qcow2" "m" w
    (log_cmd ("/usr/sbin/lvcreate", ["-W"; "y"; "-Z"; "n"; "-n"; "v"; "-L"; "134217728B"; "vg"]) w) "") as Hc.
  fold r in Hc. destruct r as [rr w'] eqn:Er. assert (is_ok rr = false) as Hrr.
  { transitivity (is_ok (rr, w').1); [reflexivity|]. rewrite <- Er. vm_compute. reflexivity. }
  destruct rr as [|e]; [discriminate|]. destruct Hc as [[Hl _]|[(_ & out & w2 & Hq & _) _]].
  - intros args w0 q w1 [= _ <-]. by apply lv_there_keep.
  - intros d w0 q w1 [= _ <-]. done.
  - intros p b w0 q w1. cbn. destruct (has_dir p w0); by intros [= _ <-].
  - vm_compute. reflexivity.
  - split; [by left|]. by repeat constructor.
  - exact Hl.
  - cbn in Hq. discriminate.
Defined.

Lemma oversize_volume_refused_witness :
  ∃ e, @create_block_volume demo (with_supervdsmd demo_os 36 36) _ JVal "vg" "/s" "i" "v"
         18446744073709551615 "raw" "m" (demo_world [] []) = (Err e, demo_world [] []).
Proof.
  apply (oversize_volume_refused demo_os (V := JVal) 36 "vg" "/s" "i" "v" 18446744073709551615 "raw" "m"
    (demo_world [] [])); by vm_compute.
Defined.

Definition sd_dir : string := "/rhev/data-center/mnt/srv:_export/5f1c".

Definition domain_world : demo :=
  demo_world [(sd_dir +:+ "/images/img1/vol1", "data"); (sd_dir +:+ "/images/img2/vol2", "data")]
    [MNT_BASE; "/rhev/data-center/mnt/srv:_export"; sd_dir].

Definition volume_params : JVal :=
  JObj [("storagedomainID", JStr "5f1c"); ("imageID", JStr "img1"); ("volumeID", JStr "vol1");
        ("size", JStr "4096"); ("desc", JStr "root disk")].


Lemma image_prepare_path_witness :
  let p := volume_file sd_dir (param_str "imageID" "" volume_params)
             (param_str "volumeID" "" volume_params) in
  let w' := (sd_backend "5f1c" domain_world).2 in
  JObj [("path", JStr p)] = jobj [("path", jstr (display p))] ∧ fs_exists p w' = true ∧ w' = w'.
Proof.
  intros p w'.
  apply (image_prepare_path volume_params (FileSd sd_dir) w' domain_world w' (JObj [("path", JStr p)]));
    vm_compute; reflexivity.
Defined.

Lemma image_delete_exact_witness :
  let wb := (sd_backend "5f1c" domain_world).2 in
  let w' := (fs_remove_dir_all (sd_dir +:+ "/images/img1") wb).2 in
  image_delete volume_params domain_world = (Ok (jobj []), w') ∧
  ∀ vol, plain_name vol = true →
    if decide ("img2" = param_str "imageID" "" volume_params)
    then Ok tt = Ok (E := string) tt → fs_exists (volume_file sd_dir "img2" vol) w' = false
    else fs_exists (volume_file sd_dir "img2" vol) w' = fs_exists (volume_file sd_dir "img2" vol) wb ∧
         fs_read (volume_file sd_dir "img2" vol) w' = fs_read (volume_file sd_dir "img2" vol) wb.
Proof.
  intros wb w'. apply (image_delete_exact volume_params sd_dir domain_world wb w' "img2" (Ok tt));
    vm_compute; reflexivity.
Defined.


Lemma image_delete_without_id_witness :
  let params := JObj [("storagedomainID", JStr "5f1c")] in
  let w' := (image_delete params domain_world).2 in
  image_delete params domain_world = (Ok (jobj []), w') ∧
  ∀ img vol, plain_name img = true → plain_name vol = true →
    fs_exists (volume_file sd_dir img vol) w' = false.
Proof.
  intros params w'.
  apply (image_delete_without_id params sd_dir domain_world (sd_backend "5f1c" domain_world).2 w');
    vm_compute; reflexivity.
Defined.
