(* ===== verification/Block.v ===== *)
(** * iSCSI, FC and LVM verbs (crates/vdsm-storage/src/block.rs) *)

From stdpp Require Import options.
From S2P Require Import Prelude Utf8 RustStr Json Rpc Os Supervdsm Storage.

Record IscsiTargetSpec := mkTarget {
  iqn : string;
  portal : string;
  port : string;
  user : string;
  password : string;
  tpgt : string
}.

Definition target_default : IscsiTargetSpec := mkTarget "" "" "" "" "" "".

(** [serde_json::from_value::<IscsiTargetSpec>] *)
Class IscsiSerde (V : Type) := { target_from_value : V → option IscsiTargetSpec }.

(** [s.trim_start_matches("0x")]: every leading [0x] goes. *)
Fixpoint trim_0x_go (fuel : nat) (s : string) : string :=
  match fuel with
  | O => s
  | S fuel' => match strip_prefix "0x" s with Some s' => trim_0x_go fuel' s' | None => s end
  end.
Definition trim_0x (s : string) : string := trim_0x_go (strlen s) s.

Section block.
Context {W} `{OsOps W, PrivSerde} {V} `{JsonOps V, StorageSerde V, IscsiSerde V}.

Definition query (bin : string) (args : list string) : st W (option string) :=
  let! out := command_output bin args in
  st_ret (match out with
          | Err _ => None
          | Ok out => if negb (status_success out) then None else Some (from_utf8_lossy (stdout out))
          end).

(** [serde_json::from_value(params.get("con").cloned().unwrap_or(params.clone()))
    .unwrap_or_default()] *)
Definition target_param (params : V) : IscsiTargetSpec :=
  default target_default (target_from_value (get_or "con" params params)).

Definition portal_of (spec : IscsiTargetSpec) : string :=
  let p := if is_empty (port spec) then "3260" else port spec in
  portal spec +:+ ":" +:+ p.

(** One line of discovery output: the address and the target's name. *)
Definition discovery_line (line : string) : option (string * string) :=
  let parts := split_whitespace line in
  match parts !! 0, parts !! 1 with
  | Some addr, Some name => Some (addr, name)
  | _, _ => None
  end.

Definition iscsi_discover_send_targets (params : V) : st W (result V (JsonRpcError V)) :=
  let spec := target_param params in
  if is_empty (portal spec) then
    st_ret (Ok (jobj [("fullTargets", jarr []); ("targets", jarr [])]))
  else
    let! r := run (IscsiDiscover (portal_of spec)) in
    let found := omap discovery_line (lines (default "" r)) in
    st_ret (Ok (jobj [
      ("fullTargets",
        jarr ((λ an, jobj [("portal", jstr an.1); ("iqn", jstr an.2)]) <$> found));
      ("targets", jarr ((λ an, jstr an.2) <$> found))])).

Definition iscsi_login (params : V) : st W (result V (JsonRpcError V)) :=
  let spec := target_param params in
  if is_empty (iqn spec) || is_empty (portal spec) then
    st_ret (Err (invalid_params "iqn + portal required"))
  else
    let! _ := run (IscsiLogin (iqn spec) (portal_of spec)) in
    st_ret (Ok (jobj [])).

Definition iscsi_logout (params : V) : st W (result V (JsonRpcError V)) :=
  let spec := target_param params in
  if is_empty (iqn spec) then st_ret (Ok (jobj []))
  else
    let! _ := run (IscsiLogout (iqn spec) (portal_of spec)) in
    st_ret (Ok (jobj [])).

Definition iscsi_rescan (params : V) : st W (result V (JsonRpcError V)) :=
  let! _ := run IscsiRescan in st_ret (Ok (jobj [])).

(** ** Devices *)

Definition pv_membership (dev : string) : st W (string * string) :=
  let! r := query "/usr/sbin/pvs" ["--noheadings"; "-o"; "pv_uuid,vg_uuid"; dev] in
  st_ret (match r with
          | None => ("", "")
          | Some raw =>
              let it := split_whitespace raw in (default "" (it !! 0), default "" (it !! 1))
          end).

Definition devtype (tran : string) : string :=
  let t := to_ascii_lowercase tran in
  if String.eqb t "iscsi" then "iSCSI"
  else if String.eqb t "fc" then "FCP"
  else if String.eqb t "sas" then "SAS"
  else "SCSI".

Definition str_field (k : string) (d : V) : string := default "" (jget k d ≫= as_str).

(** One disk of [lsblk]'s report; [None] when the loop skips it. *)
Definition device_entry (d : V) : st W (option V) :=
  if negb (bool_decide (jget "type" d ≫= as_str = Some "disk")) then st_ret None
  else
    let name := str_field "name" d in
    let wwn := str_field "wwn" d in
    if is_empty wwn then st_ret None
    else
      let! pv := pv_membership ("/dev/" +:+ name) in
      st_ret (Some (jobj [
        ("GUID", jstr (trim_0x wwn)); ("devtype", jstr (devtype (str_field "tran" d)));
        ("capacity", get_or "size" (jstr "0") d); ("vendorID", get_or "vendor" (jstr "") d);
        ("productID", get_or "model" (jstr "") d); ("serial", get_or "serial" (jstr "") d);
        ("fwrev", jstr ""); ("status", jstr (if is_empty pv.2 then "free" else "used"));
        ("pathstatus", jarr [jobj [("physdev", jstr name); ("state", jstr "active")]]);
        ("pvUUID", jstr pv.1); ("vgUUID", jstr pv.2); ("pathlist", jarr [])])).

Fixpoint device_loop (ds : list V) (out : list V) : st W (list V) :=
  match ds with
  | [] => st_ret out
  | d :: ds' =>
      let! e := device_entry d in
      device_loop ds' (match e with Some e => out ++ [e] | None => out end)
  end.

Definition get_device_list_lsblk (params : V) : st W (result V (JsonRpcError V)) :=
  let! raw := query "/usr/bin/lsblk"
                ["-J"; "-b"; "-o"; "NAME,SIZE,TYPE,WWN,VENDOR,MODEL,SERIAL,FSTYPE,TRAN"] in
  let parsed := default (jobj []) (json_from_str (default "" raw)) in
  let! out := device_loop (default [] (jget "blockdevices" parsed ≫= as_array)) [] in
  st_ret (Ok (jarr out)).

Definition get_devices_visibility (params : V) : st W (result V (JsonRpcError V)) := λ w,
  let ids := str_array (get_either "devices" "guids" params) in
  let visible id := is_ok (fs_len ("/dev/disk/by-id/wwn-0x" +:+ id) w)
                    || is_ok (fs_len ("/dev/disk/by-id/" +:+ id) w) in
  (Ok (jobj ((λ id, (id, jbool (visible id))) <$> ids)), w).

(** ** Volume groups *)

Definition vg_entry (vg : V) : V :=
  jobj [("vgUUID", get_or "vg_uuid" (jstr "") vg); ("name", get_or "vg_name" (jstr "") vg);
        ("size", get_or "vg_size" (jstr "0") vg); ("free", get_or "vg_free" (jstr "0") vg);
        ("attr", jstr ""); ("state", jstr "OK"); ("pvList", jarr [])].

Definition report_vgs (parsed : V) : list V :=
  default [] (jget "report" parsed ≫= as_array) ≫= λ r, default [] (jget "vg" r ≫= as_array).

Definition get_lvm_vg_list (params : V) : st W (result V (JsonRpcError V)) :=
  let! raw := query "/usr/sbin/vgs"
                ["--reportformat"; "json"; "-o"; "vg_uuid,vg_name,vg_size,vg_free,vg_tags"] in
  let parsed := default (jobj []) (json_from_str (default "" raw)) in
  st_ret (Ok (jarr (vg_entry <$> report_vgs parsed))).

(** Is this entry the volume group that was asked for? *)
Definition vg_matches (vg : string) (v : V) : bool :=
  String.eqb (str_field "vgUUID" v) vg || String.eqb (str_field "name" v) vg.

Definition vg_param (params : V) : string :=
  default "" (get_either "vgUUID" "vgName" params ≫= as_str).

Definition get_vg_info (params : V) : st W (result V (JsonRpcError V)) :=
  let vg := vg_param params in
  if is_empty vg then st_ret (Err (invalid_params "vgUUID or vgName required"))
  else
    let? list := get_lvm_vg_list (jobj []) in
    st_ret (match List.find (vg_matches vg) (default [] (as_array list)) with
            | Some v => Ok v
            | None => Err (internal ("VG " +:+ vg +:+ " not found"))
            end).

Fixpoint pvcreate_loop (devices : list string) : st W (result unit (JsonRpcError V)) :=
  match devices with
  | [] => st_ret (Ok tt)
  | d :: devices' =>
      let! r := run (Pvcreate d) in
      match r with
      | None => st_ret (Err (internal ("pvcreate " +:+ d +:+ " failed")))
      | Some _ => pvcreate_loop devices'
      end
  end.

Definition create_vg (params : V) : st W (result V (JsonRpcError V)) :=
  let name := default "" (get_either "vgName" "name" params ≫= as_str) in
  let devices := str_array (jget "devlist" params) in
  if is_empty name || bool_decide (devices = []) then
    st_ret (Err (invalid_params "vgName + devlist required"))
  else
    let? _ := pvcreate_loop devices in
    let! r := run (Vgcreate name devices) in
    match r with
    | None => st_ret (Err (internal "vgcreate failed"))
    | Some _ =>
        let! info := get_vg_info (jobj [("vgName", jstr name)]) in
        let info := match info with Ok v => v | Err _ => jobj [] end in
        st_ret (Ok (jobj [("uuid", jstr (str_field "vgUUID" info))]))
    end.

Definition extend_vg (params : V) : st W (result V (JsonRpcError V)) :=
  let vg := vg_param params in
  let devices := str_array (jget "devlist" params) in
  if is_empty vg || bool_decide (devices = []) then
    st_ret (Err (invalid_params "vg + devlist required"))
  else
    let! _ := st_for devices (λ d,
      let! _ := run (Pvcreate d) in
      let! _ := run (Vgextend vg d) in
      st_ret tt) in
    st_ret (Ok (jobj [])).

Definition remove_vg (params : V) : st W (result V (JsonRpcError V)) :=
  let vg := vg_param params in
  if is_empty vg then st_ret (Err (invalid_params "vg required"))
  else let! _ := run (Vgremove vg) in st_ret (Ok (jobj [])).

(** ** Multipath *)

Definition multipath_path (p : V) : V :=
  jobj [("physdev", get_or "dev" (jstr "") p); ("state", get_or "dm_st" (jstr "") p);
        ("type", get_or "chk_st" (jstr "") p)].

Definition multipath_map (m : V) : V :=
  let paths := default [] (jget "path_groups" m ≫= as_array)
               ≫= λ pg, default [] (jget "paths" pg ≫= as_array) in
  jobj [("name", jstr (str_field "name" m)); ("GUID", jstr (str_field "uuid" m));
        ("paths", jarr (multipath_path <$> paths)); ("status", jstr "active")].

Definition get_path_list_status (params : V) : st W (result V (JsonRpcError V)) :=
  let! r := run MultipathList in
  match r with
  | None => st_ret (Ok (jarr []))
  | Some raw =>
      let parsed := default (jobj []) (json_from_str raw) in
      st_ret (Ok (jarr (multipath_map <$> default [] (jget "maps" parsed ≫= as_array))))
  end.

Definition fc_scan (params : V) : st W (result V (JsonRpcError V)) :=
  let! _ := run FcScan in st_ret (Ok (jobj [])).
End block.
