(* ===== verification/BlockFacts.v ===== *)
(** * Properties of the LVM verbs *)

From stdpp Require Import options.
From S2P Require Import Prelude Utf8 RustStr Json Rpc Os Supervdsm SupervdsmFacts Storage StorageFacts Block.

Section vg.
Context {W} `{OsOps W} `{PrivSerde} {V} `{JsonOps V} `{StorageSerde V}.

(** The operations were asked of the helper one after the other and each
    succeeded. *)
Inductive all_ran : list PrivOp → W → W → Prop :=
| ran_nil w : all_ran [] w w
| ran_cons op ops w o w1 w2 :
    run op w = (Some o, w1) → all_ran ops w1 w2 → all_ran (op :: ops) w w2.

Lemma pvcreate_loop_spec devices (w w' : W) r :
  pvcreate_loop (V := V) devices w = (r, w') →
  ∃ ran rest w1, devices = ran ++ rest ∧ all_ran (Pvcreate <$> ran) w w1 ∧
    match rest with
    | [] => r = Ok tt ∧ w' = w1
    | d :: _ => run (Pvcreate d) w1 = (None, w') ∧ is_ok r = false
    end.
Proof.
  revert w. induction devices as [|d devices IH]; intros w; cbn [pvcreate_loop].
  { intros [= <- <-]. exists [], [], w. by repeat constructor. }
  unfold st_bind, st_ret. destruct (run (Pvcreate d) w) as [[o|] w1] eqn:E.
  - intros (ran & rest & w2 & -> & Hran & Hrest)%IH.
    exists (d :: ran), rest, w2. split; [done|]. split; [|done]. by econstructor.
  - intros [= <- <-]. exists [], (d :: devices), w. by repeat constructor.
Qed.

(** [Host.createVG] prepares the devices in order and stops at the first that
    fails; the volume group is created only when every device was prepared, from
    exactly the devices of the request, and the verb succeeds exactly when that
    creation does. *)
Theorem create_vg_ordered (params : V) (w w' : W) r :
  let name := default "" (get_either "vgName" "name" params ≫= as_str) in
  let devices := str_array (jget "devlist" params) in
  name ≠ "" → devices ≠ [] → create_vg params w = (r, w') →
  ∃ ran rest w1, devices = ran ++ rest ∧ all_ran (Pvcreate <$> ran) w w1 ∧
    match rest with
    | d :: _ => run (Pvcreate d) w1 = (None, w') ∧ is_ok r = false
    | [] =>
        (run (Vgcreate name devices) w1 = (None, w') ∧ is_ok r = false) ∨
        (∃ o w2, run (Vgcreate name devices) w1 = (Some o, w2) ∧ is_ok r = true ∧
                 w' = (get_vg_info (jobj [("vgName", jstr name)]) w2).2)
    end.
Proof.
  intros name devices Hn Hd. unfold create_vg. fold name devices.
  rewrite bool_decide_false by done.
  assert (is_empty name = false) as -> by (by destruct name). cbn [orb].
  unfold st_try at 1. destruct (pvcreate_loop devices w) as [r1 w1] eqn:El.
  destruct (pvcreate_loop_spec _ _ _ _ El) as (ran & rest & w2 & Hdev & Hran & Hrest).
  intros Hr. exists ran, rest, w2. split; [done|]. split; [done|].
  destruct rest as [|d rest].
  - destruct Hrest as [-> ->]. revert Hr. unfold st_bind, st_ret.
    destruct (run (Vgcreate name devices) w2) as [[o|] w3] eqn:Ev.
    + right. exists o, w3. split; [done|]. revert Hr.
      destruct (get_vg_info _ w3) as [info w4]. by intros [= <- <-].
    + left. by injection Hr as <- <-.
  - destruct Hrest as [Hrun Hr1]. destruct r1 as [|e]; [done|]. injection Hr as <- <-. done.
Qed.
End vg.

#[export] Instance demo_iscsi_serde : IscsiSerde JVal := {| target_from_value _ := None |}.

Lemma create_vg_ordered_witness :
  let params := JObj [("vgName", JStr "vg0"); ("devlist", JArr [JStr "/dev/sdb"])] in
  let w := mkDemo [] [] [] (λ _ _, Err "") (λ _, Ok (digits_of (true, 0%Z, "", "") +:+ String LF "")) in
  let name := default "" (get_either "vgName" "name" params ≫= as_str) in
  let devices := str_array (jget "devlist" params) in
  let r := (create_vg params w).1 in
  let w' := (create_vg params w).2 in
  ∃ ran rest w1, devices = ran ++ rest ∧ all_ran (Pvcreate <$> ran) w w1 ∧
    match rest with
    | d :: _ => run (Pvcreate d) w1 = (None, w') ∧ is_ok r = false
    | [] =>
        (run (Vgcreate name devices) w1 = (None, w') ∧ is_ok r = false) ∨
        (∃ o w2, run (Vgcreate name devices) w1 = (Some o, w2) ∧ is_ok r = true ∧
                 w' = (get_vg_info (jobj [("vgName", jstr name)]) w2).2)
    end.
Proof.
  intros params w name devices r w'.
  apply (create_vg_ordered params w w' r); [done|done|apply surjective_pairing].
Defined.
