(* ===== verification/Async.v ===== *)
(** * Tasks that wait (tokio, as the handlers use it)

    A handler is an [async fn]: at every [await] another task may run.  Here a
    handler is a program, a tree whose nodes are the points where it waits: for a
    process or a file, or for the lock of the state that the tasks share.
    [seq_run] runs a program without interruption; [cstep] runs any number of
    them, one effect at a time.

    The state is behind a [tokio::sync::RwLock].  A read guard is never kept
    across an [await], so reading is one effect, possible while nobody writes; a
    write guard may be, so taking and dropping it are effects of their own. *)

From stdpp Require Import options.
From S2P Require Import Prelude.

(** What the tasks share: a value behind the lock, the tasks that were spawned
    and have not started, and the system. *)
Class Shared (S W R T : Type) := {
  get_reg : S → R; set_reg : R → S → S;
  get_tasks : S → list T; set_tasks : list T → S → S;
  get_world : S → W; set_world : W → S → S;
}.

Class SharedLaws (S W R T : Type) `{!Shared S W R T} := {
  get_set_reg r s : get_reg (set_reg r s) = r;
  get_reg_tasks ts s : get_reg (set_tasks ts s) = get_reg s;
  get_reg_world w s : get_reg (set_world w s) = get_reg s;
}.

(** ** Programs *)

Inductive eff {W R T : Type} : Type → Type :=
| OnHost {B} (m : st W B) : eff B
| ReadReg : eff R
| Lock : eff unit
| Peek : eff R
| Update (f : R → R) : eff unit
| Unlock : eff unit
| Spawn (t : T) : eff unit.
Arguments eff : clear implicits.

Inductive prog {W R T A : Type} : Type :=
| Ret (a : A)
| Do {B} (e : eff W R T B) (k : B → prog).
Arguments prog : clear implicits.

#[export] Instance prog_ret {W R T} : MRet (prog W R T) := λ A a, Ret a.
#[export] Instance prog_bind {W R T} : MBind (prog W R T) := λ A B f,
  fix go p := match p with Ret a => f a | Do e k => Do e (λ b, go (k b)) end.

Definition await {W R T B} (e : eff W R T B) : prog W R T B := Do e Ret.

(** [state().write().await] for one change. *)
Definition a_write {W R T} (f : R → R) : prog W R T unit :=
  _ ← await Lock; _ ← await (Update f); await Unlock.

Fixpoint a_for {W R T A} (l : list A) (body : A → prog W R T unit) : prog W R T unit :=
  match l with [] => Ret tt | x :: l' => _ ← body x; a_for l' body end.

(** ** One task alone *)

Section run.
Context {S W R T : Type} `{!Shared S W R T}.

(** What an effect does; the lock is not part of this state. *)
Definition eff_run {B} (e : eff W R T B) : st S B :=
  match e in eff _ _ _ B return st S B with
  | OnHost m => λ s, let '(b, w) := m (get_world s) in (b, set_world w s)
  | ReadReg | Peek => λ s, (get_reg s, s)
  | Lock | Unlock => st_ret tt
  | Update f => λ s, (tt, set_reg (f (get_reg s)) s)
  | Spawn t => λ s, (tt, set_tasks (get_tasks s ++ [t]) s)
  end.

Fixpoint seq_run {A} (p : prog W R T A) : st S A :=
  match p with
  | Ret a => st_ret a
  | Do e k => let! b := eff_run e in seq_run (k b)
  end.
End run.

(** ** Many tasks *)

Section tasks.
Context {S W R T Q : Type} `{!Shared S W R T}.

(** A task serves a request, or works in the background. *)
Definition serving (p : prog W R T Q) : prog W R T (option Q) := r ← p; Ret (Some r).
Definition working (p : prog W R T unit) : prog W R T (option Q) := _ ← p; Ret None.

(** The tasks, who holds the write guard, and the state they share. *)
Record cfg := mkCfg {
  threads : gmap nat (prog W R T (option Q)); lock : option nat; shared : S
}.

(** Reading and taking the lock need it free, using and dropping it need it
    held. *)
Definition allowed {B} (i : nat) (e : eff W R T B) (l : option nat) : Prop :=
  match e with
  | ReadReg | Lock => l = None
  | Peek | Update _ | Unlock => l = Some i
  | _ => True
  end.

Definition lock_after {B} (i : nat) (e : eff W R T B) (l : option nat) : option nat :=
  match e with Lock => Some i | Unlock => None | _ => l end.

(** One effect of one task. *)
Inductive task_step : cfg → cfg → Prop :=
| do_effect i {B} (e : eff W R T B) k ts l s b s' :
    ts !! i = Some (Do e k) → allowed i e l → eff_run e s = (b, s') →
    task_step (mkCfg ts l s) (mkCfg (<[i := k b]> ts) (lock_after i e l) s').

(** The programs of requests, and of the tasks that are spawned. *)
Context (request : prog W R T Q → Prop) (work : T → prog W R T unit).

(** A request arrives, a task that was spawned starts, or the system moves on. *)
Inductive env_step : cfg → cfg → Prop :=
| new_request i p ts l s :
    ts !! i = None → request p →
    env_step (mkCfg ts l s) (mkCfg (<[i := serving p]> ts) l s)
| new_task i t ts1 ts2 ts l s :
    ts !! i = None → get_tasks s = ts1 ++ t :: ts2 →
    env_step (mkCfg ts l s) (mkCfg (<[i := working (work t)]> ts) l (set_tasks (ts1 ++ ts2) s))
| new_world ts l s w :
    env_step (mkCfg ts l s) (mkCfg ts l (set_world w s)).

Definition cstep (c c' : cfg) : Prop := task_step c c' ∨ env_step c c'.

(** The scheduler lets task [i] go on. *)
#[export] Instance allowed_dec {B} i (e : eff W R T B) l : Decision (allowed i e l).
Proof. destruct e; cbn; apply _. Defined.

Definition exec (i : nat) (c : cfg) : option cfg :=
  match threads c !! i with
  | Some (Do e k) =>
      if decide (allowed i e (lock c)) then
        let '(b, s') := eff_run e (shared c) in
        Some (mkCfg (<[i := k b]> (threads c)) (lock_after i e (lock c)) s')
      else None
  | _ => None
  end.

Fixpoint schedule (order : list nat) (c : cfg) : option cfg :=
  match order with [] => Some c | i :: js => exec i c ≫= schedule js end.

Definition cfg_start (s : S) : cfg := mkCfg ∅ None s.
End tasks.
Arguments cfg : clear implicits.
