(* ===== verification/AsyncFacts.v ===== *)
(** * Tasks that keep the discipline of the lock

    For programs that take and drop the guard as they should, on every path:
    whatever the schedule, the shared value keeps its invariant, only the holder
    of the guard changes it, no state is a deadlock, and every schedule of the
    pending tasks comes to an end with all of them answered. *)

From stdpp Require Import options.
From S2P Require Import Prelude Async.

(** ** Running a program alone *)

Lemma seq_bind {S W R T} `{!Shared S W R T} {A B} (p : prog W R T A) (k : A → prog W R T B) (s : S) :
  seq_run (p ≫= k) s = (let '(a, s') := seq_run p s in seq_run (k a) s').
Proof.
  revert s. induction p as [a|C e k' IH]; intros s; [done|].
  change (seq_run (Do e k' ≫= k) s) with ((let! b := eff_run e in seq_run (k' b ≫= k)) s).
  cbn [seq_run]. unfold st_bind. destruct (eff_run e s) as [b s']. apply IH.
Qed.

(** ** The discipline of the lock *)

Section discipline.
Context {W R T : Type} (ok : R → Prop).

Definition lock_ok {B} (held : bool) (e : eff W R T B) : Prop :=
  match e with
  | ReadReg | Lock => held = false
  | Peek | Update _ | Unlock => held = true
  | _ => True
  end.

Definition held_after {B} (e : eff W R T B) (held : bool) : bool :=
  match e with Lock => true | Unlock => false | _ => held end.

Definition update_ok {B} (e : eff W R T B) : Prop :=
  match e with Update f => ∀ reg, ok reg → ok (f reg) | _ => True end.

(** From a state of the guard to another, on every path, with updates that keep
    the shared value well-formed. *)
Fixpoint disc {A} (h h' : bool) (p : prog W R T A) : Prop :=
  match p with
  | Ret _ => h = h'
  | Do e k => lock_ok h e ∧ update_ok e ∧ ∀ b, disc (held_after e h) h' (k b)
  end.

Lemma disc_bind {A B} h h1 h2 (p : prog W R T A) (k : A → prog W R T B) :
  disc h h1 p → (∀ a, disc h1 h2 (k a)) → disc h h2 (p ≫= k).
Proof.
  revert h. induction p as [a|C e k' IH]; intros h Hp Hk; [by rewrite Hp; apply Hk|].
  destruct Hp as (H1 & H2 & H3). split; [done|]. split; [done|]. intros b. by apply IH.
Qed.

Lemma disc_write f : (∀ reg, ok reg → ok (f reg)) → disc false false (a_write f).
Proof. intros Hf. by repeat (split; [done|]; try intros ?). Qed.

Lemma disc_await {B} h (e : eff W R T B) :
  lock_ok h e → update_ok e → disc h (held_after e h) (await e).
Proof. done. Qed.

Lemma disc_for {A} h (l : list A) body : (∀ x, disc h h (body x)) → disc h h (a_for l body).
Proof. intros Hb. induction l as [|x l IH]; [done|]. cbn [a_for]. by eapply disc_bind. Qed.

Lemma disc_serving {Q} (p : prog W R T Q) : disc false false p → disc false false (serving p).
Proof. intros Hp. by eapply disc_bind. Qed.

Lemma disc_working {Q} (p : prog W R T unit) :
  disc false false p → disc false false (working (Q := Q) p).
Proof. intros Hp. by eapply disc_bind. Qed.
End discipline.

(** Follow the binds and the branches of a program. *)
Ltac disc_tac :=
  repeat match goal with
  | |- ∀ _, disc _ _ _ _ => intros ?
  | |- disc _ _ _ (let '(_, _) := ?x in _) => destruct x as [? ?]
  | |- disc _ _ _ (_ ≫= _) => eapply disc_bind
  | |- disc _ _ _ (a_write _) => apply disc_write; intros ? ?
  | |- disc _ _ _ (await (Update _)) => apply disc_await; [done|intros ? ?]
  | |- disc _ _ _ (await _) => apply disc_await; done
  | |- disc _ _ _ (Ret _) => done
  | |- disc _ _ _ (match ?x with _ => _ end) => destruct x
  end.

(** ** Many tasks *)

(** Whether task [i] holds the guard. *)
Definition holds (i : nat) (l : option nat) : bool := bool_decide (l = Some i).

Section locks.
Context {W R T B : Type}.
Implicit Types e : eff W R T B.

Lemma holds_self i e l : holds i (lock_after i e l) = held_after e (holds i l).
Proof. unfold holds. destruct e; cbn; try done; by rewrite bool_decide_eq_true. Qed.

Lemma holds_other i j e l : i ≠ j → allowed i e l → holds j (lock_after i e l) = holds j l.
Proof.
  intros Hij Ha. unfold holds. destruct e; cbn in *; try done; apply bool_decide_ext; split; congruence.
Qed.

Lemma lock_ok_allowed i e l : lock_ok (holds i l) e → (l = None ∨ l = Some i) → allowed i e l.
Proof. unfold holds. intros H [->| ->]; destruct e; by case_bool_decide. Qed.
End locks.

Section pool.
Context {S W R T Q : Type} `{!Shared S W R T, !SharedLaws S W R T}.
Context (ok : R → Prop) (request : prog W R T Q → Prop) (work : T → prog W R T unit).
Context (request_disc : ∀ p, request p → disc ok false false p).
Context (work_disc : ∀ t, disc ok false false (work t)).
Implicit Types c : cfg S W R T Q.

Lemma eff_run_registry {B} (e : eff W R T B) (s s' : S) b :
  eff_run e s = (b, s') →
  get_reg s' = match e with Update f => f (get_reg s) | _ => get_reg s end.
Proof using SharedLaws0.
  destruct e; cbn; [destruct (m (get_world s))|..]; intros [= <- <-];
    by rewrite ?get_set_reg, ?get_reg_tasks, ?get_reg_world.
Qed.

(** The shared value is well-formed, every task is at a point of its discipline,
    and the guard belongs to a task. *)
Record cfg_ok c : Prop := {
  ok_registry : ok (get_reg (shared c));
  ok_threads : ∀ i p, threads c !! i = Some p → disc ok (holds i (lock c)) false p;
  ok_lock : ∀ i, lock c = Some i → is_Some (threads c !! i) }.

Lemma start_cfg_ok s : ok (get_reg s) → cfg_ok (cfg_start s).
Proof. intros Hs. split; cbn; [done|by intros i p ?%lookup_empty_Some|done]. Qed.

Lemma task_step_ok c c' : task_step c c' → cfg_ok c → cfg_ok c'.
Proof using SharedLaws0.
  intros [i B e k ts l s b s' Hi Ha Hr] [Hreg Hts Hl]. cbn in *.
  destruct (Hts _ _ Hi) as (Hlock & Hup & Hk). split; cbn.
  - rewrite (eff_run_registry _ _ _ _ Hr). destruct e; try done. by apply Hup.
  - intros j p. destruct (decide (i = j)) as [<-|Hij].
    + rewrite lookup_insert_eq. intros [= <-]. rewrite holds_self. apply Hk.
    + rewrite lookup_insert_ne by done. rewrite holds_other by done. apply Hts.
  - intros j Hj. rewrite lookup_insert_is_Some. destruct (decide (i = j)); [by left|]. right.
    split; [done|]. apply Hl. destruct e; cbn in *; congruence.
Qed.

Lemma fresh_thread_ok ts l s s' i p :
  cfg_ok (mkCfg ts l s) → ts !! i = None → disc ok false false p → get_reg s' = get_reg s →
  cfg_ok (mkCfg (<[i := p]> ts) l s').
Proof.
  intros [Hreg Hts Hl] Hi Hp Hs. cbn in *.
  assert (l ≠ Some i) as Hli. { intros Hli. destruct (Hl _ Hli). congruence. }
  split; cbn; [by rewrite Hs| |].
  - intros j q. destruct (decide (i = j)) as [<-|Hij].
    + rewrite lookup_insert_eq. intros [= <-]. unfold holds. by rewrite bool_decide_eq_false_2.
    + rewrite lookup_insert_ne by done. apply Hts.
  - intros j Hj. rewrite lookup_insert_is_Some. destruct (decide (i = j)); [by left|]. right.
    split; [done|]. by apply Hl.
Qed.

Lemma cstep_ok c c' : cstep request work c c' → cfg_ok c → cfg_ok c'.
Proof using SharedLaws0 request_disc work_disc.
  intros [Hs|Hs]; [by apply task_step_ok|].
  destruct Hs as [i p ts l s Hi Hp|i t ts1 ts2 ts l s Hi Ht|ts l s w]; intros Hok.
  - eapply fresh_thread_ok; [done..| |done]. by apply disc_serving, request_disc.
  - eapply fresh_thread_ok; [done..| |apply get_reg_tasks]. apply disc_working, work_disc.
  - destruct Hok as [H1 H2 H3]. split; cbn in *; [by rewrite get_reg_world|done|done].
Qed.

Lemma reachable_ok s c : ok (get_reg s) → rtc (cstep request work) (cfg_start s) c → cfg_ok c.
Proof using SharedLaws0 request_disc work_disc.
  intros Hs Hr. eapply (rtc_ind_r (λ c, cfg_ok c)); [by apply start_cfg_ok| |exact Hr].
  intros y z _ Hyz. by apply cstep_ok.
Qed.

(** The value changes by one update of the holder of the guard. *)
Lemma cstep_registry c c' :
  cfg_ok c → cstep request work c c' → get_reg (shared c') ≠ get_reg (shared c) →
  ∃ i f k, lock c = Some i ∧ threads c !! i = Some (Do (Update f) k) ∧
           get_reg (shared c') = f (get_reg (shared c)) ∧
           (∀ j p, j ≠ i → threads c !! j = Some p → disc ok false false p).
Proof using SharedLaws0.
  intros Hok [Hs|Hs] Hne.
  2:{ by destruct Hs; cbn in Hne; rewrite ?get_reg_tasks, ?get_reg_world in Hne. }
  destruct Hs as [i B e k ts l s b s' Hi Ha Hr]. cbn in *.
  pose proof (eff_run_registry _ _ _ _ Hr) as Heq. destruct e; try done.
  exists i, f, k. repeat split; [done..|]. intros j p Hj Hp.
  pose proof (ok_threads _ Hok _ _ Hp) as Hd. cbn in Hd, Ha. rewrite Ha in Hd. unfold holds in Hd.
  by rewrite bool_decide_eq_false_2 in Hd by congruence.
Qed.

(** *** Every schedule ends *)

Definition prog_step {A} (p p' : prog W R T A) : Prop :=
  match p with Ret _ => False | Do e k => ∃ b, p' = k b end.

(** One task of a pool goes on. *)
Definition pool_step {A} (m m' : gmap nat (prog W R T A)) : Prop :=
  ∃ i p p', m !! i = Some p ∧ prog_step p p' ∧ m' = <[i := p']> m.

Lemma pool_insert_acc {A} (m : gmap nat (prog W R T A)) i p :
  Acc (flip pool_step) m → m !! i = None → Acc (flip pool_step) (<[i := p]> m).
Proof.
  intros Hm. revert i p. induction Hm as [m _ IHm]. intros i p Hi.
  induction p as [a|B e k IHp]; constructor; intros m' (j & q & q' & Hj & Hq & ->).
  all: destruct (decide (i = j)) as [<-|Hij];
    [|rewrite lookup_insert_ne in Hj by done; rewrite insert_insert_ne by done;
      apply IHm; [by exists j, q, q'|by rewrite lookup_insert_ne]].
  - rewrite lookup_insert_eq in Hj. by simplify_eq.
  - rewrite lookup_insert_eq in Hj. simplify_eq. destruct Hq as [b ->].
    rewrite insert_insert_eq. apply IHp.
Qed.

Lemma pool_acc {A} (m : gmap nat (prog W R T A)) : Acc (flip pool_step) m.
Proof.
  induction m as [|i p m Hi IH] using map_ind; [|by apply pool_insert_acc].
  constructor. intros m' (j & q & q' & Hj & _). by rewrite lookup_empty in Hj.
Qed.

Lemma task_step_pool c c' : task_step c c' → pool_step (threads c) (threads c').
Proof. intros [i B e k ts l s b s' Hi _ _]. exists i, (Do e k), (k b). split_and!; [done|by exists b|done]. Qed.

Lemma task_step_acc c : Acc (flip task_step) c.
Proof.
  assert (∀ m c, threads c = m → Acc (flip task_step) c) as H; [|by eapply H].
  intros m. induction (pool_acc m) as [m _ IH]. intros c0 <-. constructor. intros c' Hs.
  by eapply IH; [apply task_step_pool|].
Qed.

Definition answered (p : prog W R T (option Q)) : Prop := ∃ r, p = Ret r.
#[export] Instance answered_dec p : Decision (answered p).
Proof. destruct p as [r|]; [left; by exists r|right; by intros [??]]. Defined.

(** No deadlock: some task goes on, unless all have answered and the guard is
    free. *)
Lemma task_progress c :
  cfg_ok c → (∃ c', task_step c c') ∨ (lock c = None ∧ map_Forall (λ _, answered) (threads c)).
Proof.
  intros [Hreg Hts Hl]. destruct c as [ts l s]. cbn in *.
  assert (∀ i p, ts !! i = Some p → l = None ∨ l = Some i → ¬ answered p →
    ∃ c', task_step (mkCfg ts l s) c') as Hgo.
  { intros i [r|B e k] Hi Hli Hp; [destruct Hp; by exists r|].
    destruct (Hts _ _ Hi) as [Hlock _]. destruct (eff_run e s) as [b s'] eqn:Hr.
    eexists. eapply do_effect; [done| |done]. by apply lock_ok_allowed. }
  destruct l as [i|].
  - left. destruct (Hl i eq_refl) as [p Hp]. eapply Hgo; [done|by right|]. intros [r ->].
    pose proof (Hts _ _ Hp) as Hd. cbn in Hd. unfold holds in Hd. by rewrite bool_decide_eq_true_2 in Hd.
  - destruct (decide (map_Forall (λ _, answered) ts)) as [|Hn]; [by right|left].
    apply map_not_Forall in Hn as (i & p & Hp & Hn); [|apply _]. by eapply Hgo; [|left|].
Qed.

(** The leaves of a program. *)
Fixpoint leaves {A} (P : A → Prop) (p : prog W R T A) : Prop :=
  match p with Ret a => P a | Do _ k => ∀ b, leaves P (k b) end.

Lemma leaves_serving p : leaves is_Some (serving (Q := Q) p).
Proof. induction p as [r|B e k IH]; [by eexists|]. intros b. apply IH. Qed.

Lemma task_steps_leaves c c' i p :
  rtc task_step c c' → threads c !! i = Some p → leaves is_Some p →
  ∃ p', threads c' !! i = Some p' ∧ leaves is_Some p'.
Proof.
  intros Hr. revert p. induction Hr as [c|c1 c2 c3 Hs _ IH]; intros p Hp Hlv; [by eauto|].
  destruct Hs as [j B e k ts l s b s' Hj _ _]. cbn in *.
  destruct (decide (j = i)) as [->|Hij]; simplify_eq.
  - eapply IH; [apply lookup_insert_eq|apply Hlv].
  - eapply IH; [by rewrite lookup_insert_ne|done].
Qed.

Lemma task_steps_ok c c' : rtc task_step c c' → cfg_ok c → cfg_ok c'.
Proof using SharedLaws0. induction 1; [done|]. intros Hok. by eapply IHrtc, task_step_ok. Qed.

(** The end of a schedule: the guard is free, all tasks are done, and a request
    that had been taken up has its reply. *)
Lemma tasks_complete c :
  cfg_ok c →
  Acc (flip task_step) c ∧
  ∀ c', rtc task_step c c' → (¬ ∃ c'', task_step c' c'') →
    lock c' = None ∧ map_Forall (λ _, answered) (threads c') ∧
    ∀ i p, threads c !! i = Some (serving p) → ∃ r, threads c' !! i = Some (Ret (Some r)).
Proof using SharedLaws0.
  intros Hok. split; [apply task_step_acc|]. intros c' Hr Hend.
  pose proof (task_steps_ok _ _ Hr Hok) as Hok'.
  destruct (task_progress _ Hok') as [|[Hl Ha]]; [done|]. split_and!; [done..|]. intros i p Hi.
  destruct (task_steps_leaves _ _ _ _ Hr Hi (leaves_serving _)) as (q & Hq & Hlv).
  destruct (Ha _ _ Hq) as [r ->]. destruct Hlv as [r' ->]. by exists r'.
Qed.

Lemma answered_end c : map_Forall (λ _, answered) (threads c) → ¬ ∃ c', task_step c c'.
Proof.
  intros Ha [c' Hs]. destruct Hs as [i B e k ts l s b s' Hi _ _]. by destruct (Ha _ _ Hi).
Qed.

(** *** Schedules *)

Lemma exec_step i c c' : exec i c = Some c' → task_step c c'.
Proof.
  destruct c as [ts l s]. unfold exec. cbn. intros Hx.
  destruct (ts !! i) as [[|B e k]|] eqn:Hi; try done. case_decide as Ha; [|done].
  destruct (eff_run e s) as [b s'] eqn:Hr. simplify_eq. by eapply do_effect.
Qed.

(** A schedule is a run: what [schedule] computes is reached by steps of the
    tasks it names, and every run of the tasks is a schedule. *)
Lemma schedule_steps c c' : rtc task_step c c' ↔ ∃ order, schedule order c = Some c'.
Proof.
  split.
  - induction 1 as [c|c1 c2 c3 Hs _ [order IH]]; [by exists []|].
    destruct Hs as [i B e k ts l s b s' Hi Ha Hr]. exists (i :: order).
    cbn. unfold exec. cbn. rewrite Hi, decide_True by done. cbn. by rewrite Hr.
  - intros [order Hs]. revert c Hs. induction order as [|i order IH]; intros c Hs; [by simplify_eq/=|].
    cbn in Hs. apply bind_Some in Hs as (c1 & H1%exec_step & H2). by eapply rtc_l; [|apply IH].
Qed.

Lemma steps_l i {B} (e : eff W R T B) k ts l s b s' c' :
  ts !! i = Some (Do e k) → allowed i e l → eff_run e s = (b, s') →
  rtc (cstep request work) (mkCfg (<[i := k b]> ts) (lock_after i e l) s') c' →
  rtc (cstep request work) (mkCfg ts l s) c'.
Proof. intros. eapply rtc_l; [left; by eapply do_effect|done]. Qed.

(** The same for an effect on the system. *)
Lemma host_step {B} (m : st W B) (k : B → prog W R T (option Q)) i ts l s r w' c' :
  ts !! i = Some (Do (OnHost m) k) → m (get_world s) = (r, w') →
  rtc (cstep request work) (mkCfg (<[i := k r]> ts) l (set_world w' s)) c' →
  rtc (cstep request work) (mkCfg ts l s) c'.
Proof. intros Hi Hr Hc. eapply steps_l; [done|done| |done]. cbn. by rewrite Hr. Qed.
End pool.
