(* ===== verification/StorageAsync.v ===== *)
(** * The verbs of storage servers, await by await (crates/vdsm-storage/src/verbs.rs)

    Connecting mounts a file system and then adds the connection to the list of
    the process; disconnecting unmounts it and then removes it.  The list is
    behind a lock, which is taken for one change at a time; between a mount and
    the change of the list other requests may run.  The verbs that change the
    state of the pool do so under one guard without waiting; as programs they
    are in [Flights]. *)

From stdpp Require Import options.
From S2P Require Import Prelude Utf8 RustStr Json Rpc Os Supervdsm SupervdsmFacts Storage StorageFacts Async AsyncFacts.

Abbreviation conn_list := (list StorageServerConnection).

#[export] Instance store_shared {W} : Shared (store W) W conn_list Empty_set := {
  get_reg := connections; set_reg cs s := mkStore cs (pool_state s) (sys s);
  get_tasks _ := []; set_tasks _ s := s;
  get_world := sys; set_world w s := mkStore (connections s) (pool_state s) w;
}.

#[export] Instance store_shared_laws {W} : SharedLaws (store W) W conn_list Empty_set.
Proof. by split. Qed.

Section verbs.
Context {W} `{!OsOps W, !PrivSerde}.
Context {V} `{!JsonOps V, !StorageSerde V}.

Abbreviation sprog := (prog W conn_list Empty_set).

Definition conn_reply : Type := result V (JsonRpcError V).

(** What the verbs wait for: the helper, a file, a directory. *)
Definition a_call (op : PrivOp) : sprog (result PrivResult string) := await (OnHost (call op)).
Definition a_run (op : PrivOp) : sprog (option string) := await (OnHost (run op)).
Definition a_is_mounted (mp : string) : sprog bool := await (OnHost (λ w, (is_mounted mp w, w))).

Fixpoint a_login_loop (iqns : list string) (portal : string) (ok : bool) : sprog bool :=
  match iqns with
  | [] => Ret ok
  | iqn :: iqns' =>
      r ← a_run (IscsiLogin iqn portal);
      a_login_loop iqns' portal (if decide (is_Some r) then true else ok)
  end.

Definition a_iscsi_login_one (spec : StorageServerConnection) : sprog Z :=
  if is_empty (connection spec) then Ret 22%Z
  else
    let portal := connection spec in
    r ← a_run (IscsiDiscover portal);
    match r with
    | None => Ret 101%Z
    | Some raw =>
        let iqns := omap (λ l, split_whitespace l !! 1) (lines raw) in
        match iqns with
        | [] => Ret 101%Z
        | _ => ok ← a_login_loop iqns portal false; Ret (if ok : bool then 0%Z else 101%Z)
        end
    end.

Definition a_mount_fs (spec : StorageServerConnection) (domain_type : Z) : sprog Z :=
  let mp := mountpoint spec in
  r ← await (OnHost (fs_create_dir_all mp));
  match r with
  | Err _ => Ret 13%Z
  | Ok _ =>
      mounted ← a_is_mounted mp;
      if mounted : bool then Ret 0%Z
      else
        let vfs := if negb (is_empty (vfs_type spec)) then vfs_type spec
                   else default_vfs domain_type in
        r ← a_call (Mount vfs (connection spec) (display mp) (mnt_options spec));
        Ret (match r with Ok r => if pr_ok r then 0%Z else 100%Z | Err _ => 13%Z end)
  end.

Definition a_mount_one (spec : StorageServerConnection) (domain_type : Z) : sprog Z :=
  match domain_type with
  | 2%Z => Ret 0%Z
  | 3%Z => a_iscsi_login_one spec
  | _ => a_mount_fs spec domain_type
  end.

Fixpoint a_connect_loop (con_list : conn_list) (domain_type : Z) (statuslist : list V)
  : sprog (list V) :=
  match con_list with
  | [] => Ret statuslist
  | spec :: con_list' =>
      status ← a_mount_one spec domain_type;
      _ ← (if (status =? 0)%Z then a_write (λ cs, cs ++ [spec]) else Ret tt);
      a_connect_loop con_list' domain_type (statuslist ++ [status_entry spec status])
  end.

Definition a_connect_storage_server (params : V) : sprog conn_reply :=
  let domain_type := param_i64 "domainType" 1 params in
  statuslist ← a_connect_loop (connection_params params) domain_type [];
  Ret (Ok (jarr statuslist)).

Definition a_umount_one (spec : StorageServerConnection) : sprog Z :=
  let mp := mountpoint spec in
  mounted ← a_is_mounted mp;
  if mounted : bool then
    r ← a_call (Umount (display mp));
    Ret (match r with Ok r => if pr_ok r then 0%Z else 16%Z | Err _ => 16%Z end)
  else Ret 0%Z.

Fixpoint a_disconnect_loop (con_list : conn_list) (statuslist : list V) : sprog (list V) :=
  match con_list with
  | [] => Ret statuslist
  | spec :: con_list' =>
      status ← a_umount_one spec;
      _ ← a_write (λ cs, filter (λ c, conn_id c ≠ conn_id spec) cs);
      a_disconnect_loop con_list' (statuslist ++ [status_entry spec status])
  end.

Definition a_disconnect_storage_server (params : V) : sprog conn_reply :=
  statuslist ← a_disconnect_loop (connection_params params) []; Ret (Ok (jarr statuslist)).

Definition a_get_storage_server_connections_list (params : V) : sprog conn_reply :=
  cs ← await ReadReg; Ret (Ok (jarr (conn_to_value <$> cs))).

(** A request, whose connections satisfy [A] when it is to connect. *)
Inductive conn_request (A : StorageServerConnection → Prop) : sprog conn_reply → Prop :=
| request_connect params :
    Forall A (connection_params params) → conn_request A (a_connect_storage_server params)
| request_disconnect params : conn_request A (a_disconnect_storage_server params)
| request_list params : conn_request A (a_get_storage_server_connections_list params).

(** There are no background tasks. *)
Definition no_task (t : Empty_set) : sprog unit := match t with end.

Definition conn_cfg : Type := cfg (store W) W conn_list Empty_set conn_reply.
Definition conn_cstep (A : StorageServerConnection → Prop) : relation conn_cfg :=
  cstep (conn_request A) no_task.
Definition conn_start (w : W) : conn_cfg := cfg_start (mkStore [] pool_default w).
End verbs.

(** ** One request alone *)

Section alone.
Context {W} `{!OsOps W, !PrivSerde}.
Context {V} `{!JsonOps V, !StorageSerde V}.
Implicit Types s : store W.

Lemma seq_host {A} (m : st W A) s : seq_run (await (OnHost m)) s = on_sys m s.
Proof. cbn. unfold st_bind, on_sys. by destruct (m (sys s)). Qed.

Lemma seq_conn_write f s :
  seq_run (a_write f) s = (tt, mkStore (f (connections s)) (pool_state s) (sys s)).
Proof. done. Qed.

Lemma on_sys_bind {A B} (m : st W A) (k : A → st W B) s :
  on_sys (let! a := m in k a) s = (let! a := on_sys m in on_sys (k a)) s.
Proof. unfold on_sys, st_bind. by destruct (m (sys s)) as [a w]. Qed.

Lemma on_sys_ret {A} (a : A) s : on_sys (st_ret a) s = (a, s).
Proof. by destruct s. Qed.

Lemma login_loop_seq iqns portal ok s :
  seq_run (a_login_loop iqns portal ok) s = on_sys (login_loop iqns portal ok) s.
Proof.
  revert ok s. induction iqns as [|iqn iqns IH]; intros ok s; [by destruct s|].
  cbn [a_login_loop login_loop]. rewrite seq_bind, on_sys_bind. unfold a_run. rewrite seq_host.
  unfold st_bind. destruct (on_sys (run _) s) as [r s1]. apply IH.
Qed.

Lemma mount_fs_seq spec t s : seq_run (a_mount_fs spec t) s = on_sys (mount_fs spec t) s.
Proof.
  unfold a_mount_fs, mount_fs. rewrite seq_bind, seq_host, on_sys_bind. unfold st_bind at 1.
  destruct (on_sys (fs_create_dir_all _) s) as [[u|e] s1]; [|by destruct s1].
  rewrite seq_bind. unfold a_is_mounted. rewrite seq_host. unfold on_sys at 1. cbn zeta.
  destruct s1 as [cs p w]. cbn [sys connections pool_state]. unfold on_sys at 1. cbn [sys].
  destruct (is_mounted (mountpoint spec) w); [done|]. rewrite seq_bind. unfold a_call.
  rewrite seq_host. unfold on_sys, st_bind. cbn [sys]. by destruct (call _ w) as [r w1].
Qed.

Lemma mount_one_seq spec t s : seq_run (a_mount_one spec t) s = on_sys (mount_one spec t) s.
Proof.
  assert (seq_run (a_iscsi_login_one spec) s = on_sys (iscsi_login_one spec) s) as Hi.
  { unfold a_iscsi_login_one, iscsi_login_one. destruct (is_empty (connection spec)); [by destruct s|].
    rewrite seq_bind, on_sys_bind. unfold a_run. rewrite seq_host. unfold st_bind at 1.
    destruct (on_sys (run _) s) as [[raw|] s1]; [|by destruct s1].
    destruct (omap _ (lines raw)) as [|iqn iqns]; [by destruct s1|].
    rewrite seq_bind, login_loop_seq, on_sys_bind. unfold st_bind.
    destruct (on_sys (login_loop _ _ _) s1) as [ok s2]. by destruct s2. }
  unfold a_mount_one, mount_one.
  repeat match goal with |- context [match ?x with _ => _ end] => is_var x; destruct x end;
    first [apply mount_fs_seq | exact Hi | by destruct s].
Qed.

Lemma connect_loop_seq specs t (acc : list V) s :
  seq_run (a_connect_loop specs t acc) s = connect_loop specs t acc s.
Proof.
  revert acc s. induction specs as [|spec specs IH]; intros acc s; [done|].
  cbn [a_connect_loop connect_loop]. rewrite seq_bind, mount_one_seq. unfold st_bind at 1.
  destruct (on_sys _ s) as [status s1]. rewrite seq_bind. unfold st_bind.
  destruct (status =? 0)%Z; apply IH.
Qed.

Lemma umount_one_seq spec s : seq_run (a_umount_one spec) s = on_sys (umount_one spec) s.
Proof.
  unfold a_umount_one, umount_one. rewrite seq_bind. unfold a_is_mounted. rewrite seq_host.
  destruct s as [cs p w]. unfold on_sys. cbn [sys connections pool_state].
  destruct (is_mounted (mountpoint spec) w); [|done]. rewrite seq_bind. unfold a_call. rewrite seq_host.
  unfold on_sys, st_bind. cbn [sys]. by destruct (call _ w).
Qed.

Lemma disconnect_loop_seq specs (acc : list V) s :
  seq_run (a_disconnect_loop specs acc) s = disconnect_loop specs acc s.
Proof.
  revert acc s. induction specs as [|spec specs IH]; intros acc s; [done|].
  cbn [a_disconnect_loop disconnect_loop]. rewrite seq_bind, umount_one_seq. unfold st_bind at 1.
  destruct (on_sys _ s) as [status s1]. rewrite seq_bind. unfold st_bind. apply IH.
Qed.

(** Run without interruption, the programs are the verbs of [Storage]. *)
Lemma storage_sequential (params : V) s :
  seq_run (a_connect_storage_server params) s = connect_storage_server params s ∧
  seq_run (a_disconnect_storage_server params) s = disconnect_storage_server params s ∧
  seq_run (a_get_storage_server_connections_list params) s =
    get_storage_server_connections_list params s.
Proof.
  unfold a_connect_storage_server, connect_storage_server, a_disconnect_storage_server,
    disconnect_storage_server. rewrite !seq_bind, connect_loop_seq, disconnect_loop_seq.
  unfold st_bind. destruct (connect_loop _ _ _ s), (disconnect_loop _ _ s). done.
Qed.
End alone.

(** ** Many requests *)

Section pool.
Context {W} `{!OsOps W, !PrivSerde}.
Context {V} `{!JsonOps V, !StorageSerde V}.
Context (A : StorageServerConnection → Prop).
Implicit Types c : conn_cfg (W := W) (V := V).

Abbreviation sdisc := (disc (W := W) (R := conn_list) (T := Empty_set) (Forall A)).

Lemma disc_mount_one spec t : sdisc false false (a_mount_one spec t).
Proof.
  assert (∀ iqns portal ok, sdisc false false (a_login_loop iqns portal ok)) as Hl.
  { induction iqns as [|iqn iqns IH]; intros portal ok; [done|]. cbn [a_login_loop].
    unfold a_run. disc_tac. apply IH. }
  assert (sdisc false false (a_iscsi_login_one spec)) as Hi.
  { unfold a_iscsi_login_one, a_run. cbv zeta. disc_tac. apply Hl. }
  assert (sdisc false false (a_mount_fs spec t)) as Hm.
  { unfold a_mount_fs, a_is_mounted, a_call. cbv zeta. disc_tac. }
  unfold a_mount_one. by repeat case_match.
Qed.

Lemma disc_connect specs t (acc : list V) :
  Forall A specs → sdisc false false (a_connect_loop specs t acc).
Proof.
  intros Hs. revert acc. induction Hs as [|spec specs Hspec _ IH]; intros acc; [done|].
  cbn [a_connect_loop]. eapply disc_bind; [apply disc_mount_one|]. intros status.
  eapply disc_bind; [|intros _; apply IH]. destruct (status =? 0)%Z; [|done].
  apply disc_write. intros cs Hcs. apply Forall_app_2; [done|]. by constructor.
Qed.

Lemma disc_disconnect specs (acc : list V) : sdisc false false (a_disconnect_loop specs acc).
Proof.
  revert acc. induction specs as [|spec specs IH]; intros acc; [done|]. cbn [a_disconnect_loop].
  eapply disc_bind; [unfold a_umount_one, a_is_mounted, a_call; cbv zeta; disc_tac|]. intros status.
  eapply disc_bind; [|intros _; apply IH]. apply disc_write. intros cs Hcs.
  apply Forall_forall. intros x [_ Hx]%list_elem_of_filter. by eapply Forall_forall in Hcs.
Qed.

Lemma conn_request_disc p : conn_request (V := V) A p → sdisc false false p.
Proof.
  intros [params Hp|params|params].
  - eapply disc_bind; [by apply disc_connect|done].
  - eapply disc_bind; [apply disc_disconnect|done].
  - done.
Qed.

Lemma conn_reachable_ok w c : rtc (conn_cstep A) (conn_start w) c → cfg_ok (Forall A) c.
Proof. apply reachable_ok; [apply conn_request_disc|intros []|constructor]. Qed.

(** C25: however the requests to connect and to disconnect storage servers are
    interleaved, and whatever the helper and the system answer: the list of
    connections holds nothing but connections that some request asked for, it
    changes only by an update of the request that holds its guard, and every
    schedule of the pending requests ends with all of them answered. *)
Theorem connections_async w c :
  rtc (conn_cstep A) (conn_start w) c →
  Forall A (connections (shared c)) ∧
  (∀ c', conn_cstep A c c' → connections (shared c') ≠ connections (shared c) →
     ∃ i f k, lock c = Some i ∧ threads c !! i = Some (Do (Update f) k) ∧
              connections (shared c') = f (connections (shared c))) ∧
  Acc (flip task_step) c ∧
  ∀ c', rtc task_step c c' → (¬ ∃ c'', task_step c' c'') →
    lock c' = None ∧
    ∀ i p, threads c !! i = Some (serving p) → ∃ r, threads c' !! i = Some (Ret (Some r)).
Proof.
  intros Hok%conn_reachable_ok. destruct (tasks_complete (Forall A) _ Hok) as [Hacc Hend].
  split; [apply Hok|]. split; [|split; [done|]].
  - intros c' Hs Hne.
    destruct (cstep_registry (Forall A) _ _ _ _ Hok Hs Hne) as (i & f & k & ? & ? & ? & _).
    by exists i, f, k.
  - intros c' Hr Hn. by destruct (Hend c' Hr Hn) as (? & _ & ?).
Qed.

(** A connection can be listed after it was disconnected: when the unmount and
    the removal of [disconnectStorageServer] come between the mount of
    [connectStorageServer] and its entry in the list, both report success, the
    file system is unmounted and the connection is listed. *)
Lemma connect_race (params : V) spec w w1 w2 w3 r2 r3 :
  connection_params params = [spec] → A spec →
  param_i64 "domainType" 1 params = 1%Z → vfs_type spec = "" →
  fs_create_dir_all (mountpoint spec) w = (Ok tt, w1) → is_mounted (mountpoint spec) w1 = false →
  call (Mount "nfs" (connection spec) (display (mountpoint spec)) (mnt_options spec)) w1 = (Ok r2, w2) →
  pr_ok r2 = true → is_mounted (mountpoint spec) w2 = true →
  call (Umount (display (mountpoint spec))) w2 = (Ok r3, w3) → pr_ok r3 = true →
  ∃ c, rtc (conn_cstep A) (conn_start w) c ∧
    threads c !! 0 = Some (Ret (Some (Ok (jarr [status_entry spec 0])))) ∧
    threads c !! 1 = Some (Ret (Some (Ok (jarr [status_entry spec 0])))) ∧
    shared c = mkStore [spec] pool_default w3.
Proof.
  intros Hp HA Ht Hv Hdir Hm1 Hmount H2 Hm2 Hum H3.
  destruct r2 as [ok2 code2 out2 err2], r3 as [ok3 code3 out3 err3]. cbn in H2, H3. subst ok2 ok3.
  eexists. split.
  { eapply rtc_l; [right; apply (new_request _ _ 0 (a_connect_storage_server params)); [done|]|].
    { apply request_connect. rewrite Hp. by constructor. }
    eapply rtc_l; [right; apply (new_request _ _ 1 (a_disconnect_storage_server params)); [done|]|].
    { apply request_disconnect. }
    unfold a_connect_storage_server, a_disconnect_storage_server. rewrite Hp, Ht.
    eapply (host_step _ _ _ _ 0); [done|exact Hdir|].
    eapply (host_step _ _ _ _ 0); [done|done|]. cbn [get_world set_world store_shared sys]. rewrite Hm1.
    rewrite Hv.
    eapply (host_step _ _ _ _ 0); [done|exact Hmount|].
    eapply (host_step _ _ _ _ 1); [done|done|]. cbn [get_world set_world store_shared sys]. rewrite Hm2.
    eapply (host_step _ _ _ _ 1); [done|exact Hum|].
    do 3 (eapply (steps_l _ _ 1); [done|done|done|]).
    do 3 (eapply (steps_l _ _ 0); [done|done|done|]).
    apply rtc_refl. }
  cbn. split_and!; by simplify_map_eq.
Qed.
End pool.

(** ** A system with one mount point *)

(** The world is whether the file system is mounted; the helper does as it is
    told. *)
#[local] Instance toy_mounts : OsOps bool := {
  command_output _ _ w := (Err "no such command", w);
  fs_read _ w := Ok (if w then "1 2 0:1 / /rhev/data-center/mnt/h:_e rw" else "");
  fs_open_read _ _ _ := Err "not found"; fs_len _ _ := Err "not found";
  fs_exists _ _ := false; fs_is_dir _ _ := false; fs_read_dir _ _ := Err "not found";
  fs_write _ _ w := (Ok tt, w); fs_create_dir_all _ w := (Ok tt, w);
  fs_remove_file _ w := (Ok tt, w); fs_remove_dir_all _ w := (Ok tt, w);
  unix_exchange _ b w :=
    (Ok (digits_of (true, 0%Z, "", "") +:+ String LF ""),
     match op_from_str (trim b) with Ok (Mount _ _ _ _) => true | Ok (Umount _) => false | _ => w end);
  now_secs _ := 0%N;
}.

Definition toy_conn : StorageServerConnection := mkConnection "c1" "h:/e" "" "" "".
Definition toy_params : JVal :=
  JObj [("connectionParams", JArr [JObj [("id", JStr "c1"); ("connection", JStr "h:/e")]])].
Definition toy_export (c : StorageServerConnection) : Prop := connection c = "h:/e".

(** A request to connect and one to disconnect, taken up together. *)
Definition two_storage_requests : conn_cfg (W := bool) (V := JVal) :=
  mkCfg (<[1 := serving (a_disconnect_storage_server toy_params)]>
           (<[0 := serving (a_connect_storage_server toy_params)]> ∅))
    None (mkStore [] pool_default false).

Lemma two_storage_reachable : rtc (conn_cstep toy_export) (conn_start false) two_storage_requests.
Proof.
  eapply rtc_l; [right; apply (new_request _ _ 0 (a_connect_storage_server toy_params)); [done|]|].
  { apply request_connect. by repeat constructor. }
  eapply rtc_once. right. apply (new_request _ _ 1 (a_disconnect_storage_server toy_params)); [done|].
  apply request_disconnect.
Qed.

(** The mount and the entry of the first, then the second. *)
Definition in_order : conn_cfg (W := bool) (V := JVal) :=
  default two_storage_requests
    (schedule [0; 0; 0; 0; 0; 0; 1; 1; 1; 1; 1] two_storage_requests).

Lemma in_order_steps : rtc task_step two_storage_requests in_order.
Proof.
  apply schedule_steps. exists [0; 0; 0; 0; 0; 0; 1; 1; 1; 1; 1]. vm_compute. reflexivity.
Qed.

Lemma connections_async_witness :
  Forall toy_export (connections (shared two_storage_requests)) ∧
  connections (shared in_order) = [] ∧ sys (shared in_order) = false ∧
  lock in_order = None ∧ ∃ r, threads in_order !! 0 = Some (Ret (Some r)).
Proof.
  destruct (connections_async toy_export false two_storage_requests two_storage_reachable)
    as (H1 & _ & _ & H4).
  split; [exact H1|]. split; [vm_compute; reflexivity|]. split; [vm_compute; reflexivity|].
  destruct (H4 in_order in_order_steps) as [Hl Ha].
  - apply answered_end. refine (bool_decide_unpack _ _). vm_compute. exact I.
  - split; [exact Hl|]. apply (Ha 0 (a_connect_storage_server toy_params)). reflexivity.
Defined.

Lemma connect_race_witness :
  ∃ c : conn_cfg (W := bool) (V := JVal), rtc (conn_cstep toy_export) (conn_start false) c ∧
    threads c !! 0 = Some (Ret (Some (Ok (jarr [status_entry toy_conn 0])))) ∧
    threads c !! 1 = Some (Ret (Some (Ok (jarr [status_entry toy_conn 0])))) ∧
    shared c = mkStore [toy_conn] pool_default false.
Proof.
  apply (connect_race toy_export toy_params toy_conn false false true false
    (mkPrivResult true 0 "" "") (mkPrivResult true 0 "" "")); vm_compute; reflexivity.
Defined.
