(* ===== verification/Virt.v ===== *)
(** * Virtual machines (crates/vdsm-virt)

    The domain description built from the engine's parameters ([DomainSpec]),
    the registry of virtual machines and the [VM.*] verbs.  A verb that leaves
    work behind with [tokio::spawn] adds a [task] to the state; [run_task] is
    what that task does when it is scheduled, so every interleaving of verbs and
    tasks is a sequence of steps.  [virsh] is an external command: [VirshOps]
    is its interface. *)

From stdpp Require Import options.
From S2P Require Import Prelude Utf8 RustStr Json Rpc Os.

(** ** lib.rs *)

Inductive VmState := WaitForLaunch | PoweringUp | Up | Down | Paused | PoweringDown.

#[export] Instance VmState_eq_dec : EqDecision VmState.
Proof. solve_decision. Defined.

Definition as_engine_str (s : VmState) : string :=
  match s with
  | WaitForLaunch => "WaitForLaunch"
  | PoweringUp => "Powering up"
  | Up => "Up"
  | Down => "Down"
  | Paused => "Paused"
  | PoweringDown => "Powering down"
  end.

Record VmRecord := mkVm {
  vm_id : string;
  vm_name : string;
  mem_size_mb : N;
  vcpus : N;
  vm_state : VmState;
  created_secs : N
}.

Definition set_state (s : VmState) (r : VmRecord) : VmRecord :=
  mkVm (vm_id r) (vm_name r) (mem_size_mb r) (vcpus r) s (created_secs r).

(** ** domain_xml.rs *)

Definition DEFAULT_MEM_MB : N := 1024.
Definition DEFAULT_VCPUS : N := 1.

Record DomainSpec := mkSpec {
  spec_uuid : string;
  spec_name : string;
  spec_mem_mb : N;
  spec_vcpus : N
}.

Definition xml_escape (s : string) : string :=
  replace_char "'" "&apos;"
    (replace_char "034" "&quot;"
       (replace_char ">" "&gt;"
          (replace_char "<" "&lt;"
             (replace_char "&" "&amp;" s)))).

(** The lines of the template, filled in. *)
Definition xml_lines (d : DomainSpec) : list string :=
  ["<domain type='kvm'>";
   "  <name>" +:+ xml_escape (spec_name d) +:+ "</name>";
   "  <uuid>" +:+ spec_uuid d +:+ "</uuid>";
   "  <memory unit='MiB'>" +:+ to_string (spec_mem_mb d) +:+ "</memory>";
   "  <currentMemory unit='MiB'>" +:+ to_string (spec_mem_mb d) +:+ "</currentMemory>";
   "  <vcpu placement='static'>" +:+ to_string (spec_vcpus d) +:+ "</vcpu>";
   "  <os>";
   "    <type arch='x86_64' machine='q35'>hvm</type>";
   "    <boot dev='hd'/>";
   "    <boot dev='cdrom'/>";
   "    <boot dev='network'/>";
   "  </os>";
   "  <features>";
   "    <acpi/>";
   "    <apic/>";
   "  </features>";
   "  <cpu mode='host-passthrough' check='none'/>";
   "  <clock offset='utc'/>";
   "  <on_poweroff>destroy</on_poweroff>";
   "  <on_reboot>restart</on_reboot>";
   "  <on_crash>destroy</on_crash>";
   "  <devices>";
   "    <emulator>/usr/bin/qemu-system-x86_64</emulator>";
   "    <controller type='usb' model='qemu-xhci'/>";
   "    <serial type='pty'><target port='0'/></serial>";
   "    <console type='pty'><target type='serial' port='0'/></console>";
   "    <input type='tablet' bus='usb'/>";
   "    <graphics type='vnc' port='-1' autoport='yes' listen='127.0.0.1'/>";
   "    <video><model type='virtio'/></video>";
   "    <memballoon model='virtio'/>";
   "  </devices>";
   "</domain>"].

Definition to_xml (d : DomainSpec) : string :=
  foldr (λ l s, l +:+ String LF s) "" (xml_lines d).

(** ** verbs.rs *)

Definition URI : string := "qemu:///system".

(** What became of one [virsh] process: it could not be started, its standard
    input could not be written, waiting for it failed, or it ended. *)
Inductive virsh_run :=
| SpawnFailed (e : string)
| StdinFailed (e : string)
| WaitFailed (e : string)
| Exited (o : Output).

Class VirshOps (W : Type) := {
  (** the arguments of the process and what is written to its standard input *)
  virsh : list string → option string → st W virsh_run;
  (** [SystemTime::now()] in seconds since the epoch *)
  clock : W → N;
}.

(** Work left to the background. *)
Inductive task :=
| Migration (name dst : string)
| Watchdog (name vm : string).

Record vms (W : Type) := mkVms {
  registry : gmap string VmRecord;
  tasks : list task;
  host : W
}.
Arguments mkVms {W} _ _ _.
Arguments registry {W} _.
Arguments tasks {W} _.
Arguments host {W} _.

Definition on_host {W A} (m : st W A) : st (vms W) A := λ s,
  let '(a, w) := m (host s) in (a, mkVms (registry s) (tasks s) w).

Definition update_registry {W} (f : gmap string VmRecord → gmap string VmRecord)
  : st (vms W) unit := λ s, (tt, mkVms (f (registry s)) (tasks s) (host s)).

Definition spawn {W} (t : task) : st (vms W) unit := λ s,
  (tt, mkVms (registry s) (tasks s ++ [t]) (host s)).

Section virt.
Context {V} `{JsonOps V}.

Definition first_str (p : V) (keys : list string) : option string :=
  foldr (λ k rest, match jget k p ≫= as_str with Some s => Some s | None => rest end) None keys.

(** A number, or a string that parses as one. *)
Definition u64_value (v : V) : option N :=
  match as_u64 v with
  | Some n => Some n
  | None => as_str v ≫= parse_u64
  end.

Definition first_u64 (p : V) (keys : list string) : option N :=
  foldr (λ k rest, match jget k p ≫= u64_value with Some n => Some n | None => rest end) None keys.

Definition from_vm_params (id : string) (params : V) : DomainSpec :=
  let p := default params (jget "vmParams" params) in
  let name := default id (first_str p ["vmName"]) in
  let mem_mb := default DEFAULT_MEM_MB (first_u64 p ["memSize"]) in
  let smp := (default DEFAULT_VCPUS (first_u64 p ["smp"; "maxVCpus"]) mod (u32_max + 1))%N in
  mkSpec id name mem_mb (N.max smp 1).

Definition vm_id_from (params : V) : result string (JsonRpcError V) :=
  match jget "vmID" params ≫= as_str with
  | Some id => Ok id
  | None => Err (invalid_params "vmID missing")
  end.

Context {W} `{VirshOps W}.

Definition run_virsh (args : list string) (stdin : option string) : st W (result string string) :=
  let! r := virsh (["-c"; URI] ++ args) stdin in
  st_ret (match r with
          | SpawnFailed e => Err ("spawn virsh: " +:+ e)
          | StdinFailed e => Err ("virsh stdin: " +:+ e)
          | WaitFailed e => Err e
          | Exited o =>
              if negb (status_success o) then Err (trim (from_utf8_lossy (stderr o)))
              else Ok (from_utf8_lossy (stdout o))
          end).

(** The libvirt name of a virtual machine: the registry's, else its id. *)
Definition name_of (id : string) (s : vms W) : string :=
  match registry s !! id with Some r => vm_name r | None => id end.

(** [run_virsh(..).await] in a handler. *)
Definition virsh_do (args : list string) : st (vms W) (result string string) :=
  on_host (run_virsh args None).

(** A handler that needs [vmID]. *)
Definition with_vm_id (params : V) (k : string → st (vms W) (result V (JsonRpcError V)))
  : st (vms W) (result V (JsonRpcError V)) :=
  match vm_id_from params with Ok id => k id | Err e => st_ret (Err e) end.

Definition vm_migrate (params : V) : st (vms W) (result V (JsonRpcError V)) :=
  with_vm_id params (λ id s,
    let dst := match jget "dst" params with
               | Some v => Some v
               | None => get_either "hostname" "dstHost" params
               end ≫= as_str in
    match dst with
    | None => (Err (invalid_params "dst (destination host) required"), s)
    | Some dst =>
        (let! _ := spawn (Migration (name_of id s) dst) in
         st_ret (Ok (jobj [("status", jobj [("code", jint 0); ("message", jstr "Migration started")]);
                           ("progress", jint 0)]))) s
    end).

Definition record_of (d : DomainSpec) (st : VmState) (now : N) : VmRecord :=
  mkVm (spec_uuid d) (spec_name d) (spec_mem_mb d) (spec_vcpus d) st now.

Definition vm_migration_create (params : V) : st (vms W) (result V (JsonRpcError V)) :=
  with_vm_id params (λ id s,
    let spec := from_vm_params id params in
    (let! _ := update_registry (<[id := record_of spec WaitForLaunch (clock (host s))]>) in
     st_ret (Ok (jobj [("migrationPort", jint 49152); ("params", jobj [])]))) s).

Definition vm_migration_cancel (params : V) : st (vms W) (result V (JsonRpcError V)) :=
  with_vm_id params (λ id s,
    (let! _ := virsh_do ["domjobabort"; name_of id s] in st_ret (Ok (jobj []))) s).

Definition vm_migrate_change_params (params : V) : st (vms W) (result V (JsonRpcError V)) :=
  st_ret (Ok (jobj [])).

(** The first token of a quantity, as a number. *)
Definition quantity (v : string) : N :=
  default 0%N (split_whitespace v !! 0 ≫= parse_u64).

(** Total, processed and remaining after the lines of [domjobinfo]. *)
Definition job_line (acc : N * N * N) (line : string) : N * N * N :=
  let '(total, processed, remaining) := acc in
  let line := trim line in
  match strip_prefix "Data total:" line with
  | Some v => (quantity v, processed, remaining)
  | None =>
      match strip_prefix "Data processed:" line with
      | Some v => (total, quantity v, remaining)
      | None =>
          match strip_prefix "Data remaining:" line with
          | Some v => (total, processed, quantity v)
          | None => acc
          end
      end
  end.

Definition job_info (info : string) : N * N * N := foldl job_line (0, 0, 0)%N (lines info).

(** [n as i64] *)
Definition as_i64_cast (n : N) : Z :=
  if (Z.of_N n <=? i64_max)%Z then Z.of_N n else (Z.of_N n - 18446744073709551616)%Z.

Definition progress (total processed : N) : Z :=
  if (0 <? total)%N then as_i64_cast (wmul64 processed 100 / total) else 0%Z.

Definition vm_migrate_status (params : V) : st (vms W) (result V (JsonRpcError V)) :=
  with_vm_id params (λ id s,
    (let! r := virsh_do ["domjobinfo"; name_of id s] in
     let info := match r with Ok i => i | Err _ => "" end in
     let '(total, processed, remaining) := job_info info in
     st_ret (Ok (jobj [
       ("status", jobj [("code", jint 0); ("message", jstr "Done")]);
       ("progress", jint (progress total processed)); ("downtime", jint 0);
       ("dataTotal", jstr (to_string total)); ("dataProcessed", jstr (to_string processed));
       ("dataRemaining", jstr (to_string remaining))]))) s).

Definition vm_set_ticket (params : V) : st (vms W) (result V (JsonRpcError V)) :=
  with_vm_id params (λ id s,
    let password := param_str "password" "" params in
    let ttl := default 120%N ((jget "ttl" params ≫= as_str) ≫= parse_u64) in
    let name := name_of id s in
    (let! _ := virsh_do ["qemu-monitor-command"; name; "--hmp"; "set_password vnc " +:+ password] in
     let! _ := virsh_do ["qemu-monitor-command"; name; "--hmp";
                         "expire_password vnc +" +:+ to_string ttl] in
     st_ret (Ok (jobj []))) s).

Definition vm_update_device (params : V) : st (vms W) (result V (JsonRpcError V)) :=
  st_ret (Ok (jobj [])).

Definition vm_create (params : V) : st (vms W) (result V (JsonRpcError V)) :=
  with_vm_id params (λ id,
    let spec := from_vm_params id params in
    let! r := on_host (run_virsh ["define"; "/dev/stdin"] (Some (to_xml spec))) in
    match r with
    | Err e => st_ret (Err (internal ("virsh define: " +:+ e)))
    | Ok _ =>
        let! r := virsh_do ["start"; spec_name spec] in
        match r with
        | Err e => st_ret (Err (internal ("virsh start: " +:+ e)))
        | Ok _ => λ s,
            (let! _ := update_registry (<[id := record_of spec Up (clock (host s))]>) in
             st_ret (Ok (jobj [("vmList", jobj [("vmId", jstr id);
                                                ("status", jstr (as_engine_str Up))])]))) s
        end
    end).

Definition vm_destroy (params : V) : st (vms W) (result V (JsonRpcError V)) :=
  with_vm_id params (λ id s,
    let name := name_of id s in
    (let! _ := virsh_do ["destroy"; name] in
     let! _ := virsh_do ["undefine"; name] in
     let! _ := update_registry (delete id) in
     st_ret (Ok (jobj []))) s).

Definition vm_shutdown (params : V) : st (vms W) (result V (JsonRpcError V)) :=
  with_vm_id params (λ id s,
    let name := name_of id s in
    (let! _ := virsh_do ["shutdown"; name] in
     let! _ := update_registry (alter (set_state PoweringDown) id) in
     let! _ := spawn (Watchdog name id) in
     st_ret (Ok (jobj []))) s).

Definition vm_cont (params : V) : st (vms W) (result V (JsonRpcError V)) :=
  with_vm_id params (λ id s,
    (let! _ := virsh_do ["resume"; name_of id s] in
     let! _ := update_registry (alter (set_state Up) id) in
     st_ret (Ok (jobj []))) s).

Definition vm_pause (params : V) : st (vms W) (result V (JsonRpcError V)) :=
  with_vm_id params (λ id s,
    (let! _ := virsh_do ["suspend"; name_of id s] in
     let! _ := update_registry (alter (set_state Paused) id) in
     st_ret (Ok (jobj []))) s).

Fixpoint dump_loop (ids : list string) (out : list (string * V)) : st (vms W) (list (string * V)) :=
  match ids with
  | [] => st_ret out
  | id :: ids' =>
      let! r := virsh_do ["dumpxml"; id] in
      dump_loop ids' (match r with Ok xml => out ++ [(id, jstr xml)] | Err _ => out end)
  end.

Definition dump_xmls (params : V) : st (vms W) (result V (JsonRpcError V)) :=
  let! out := dump_loop (str_array (get_either "vmList" "vmIds" params)) [] in
  st_ret (Ok (jobj out)).

Definition record_to_stats (now : N) (r : VmRecord) : V :=
  jobj [("vmId", jstr (vm_id r)); ("vmName", jstr (vm_name r));
        ("status", jstr (as_engine_str (vm_state r))); ("memSize", jint (Z.of_N (mem_size_mb r)));
        ("vcpuCount", jint (Z.of_N (vcpus r)));
        ("elapsedTime", jstr (to_string (now - created_secs r)));
        ("monitorResponse", jstr "0");
        ("displayInfo", jarr [jobj [("type", jstr "vnc"); ("port", jstr "5900");
                                    ("ipAddress", jstr "127.0.0.1")]]);
        ("kvmEnable", jstr "true"); ("exitCode", jint 0); ("exitMessage", jstr "");
        ("guestCPUCount", jint (-1)); ("vmType", jstr "kvm"); ("session", jstr "Unknown");
        ("clientIp", jstr ""); ("username", jstr ""); ("appsList", jarr []);
        ("guestIPs", jstr ""); ("guestFQDN", jstr "")].

Definition vm_get_stats (params : V) : st (vms W) (result V (JsonRpcError V)) :=
  with_vm_id params (λ id s,
    let stats := match registry s !! id with
                 | Some r => record_to_stats (clock (host s)) r
                 | None => jobj [("vmId", jstr id); ("status", jstr "Down")]
                 end in
    (Ok (jobj [("statsList", jarr [stats])]), s)).

(** ** Reconciling with libvirt *)

Definition running_names (out : string) : list string :=
  filter (λ l, l ≠ "") (trim <$> lines out).

(** [info.lines().find_map(|l| l.strip_prefix(p).map(str::trim))] *)
Definition info_field (p info : string) : option string :=
  trim <$> head (omap (strip_prefix p) (lines info)).

Definition info_mem_mb (info : string) : N :=
  match info_field "Used memory:" info ≫= λ s, split_whitespace s !! 0 ≫= parse_u64 with
  | Some kb => kb / 1024
  | None => 0
  end.

Definition info_vcpus (info : string) : N :=
  default 1%N (info_field "CPU(s):" info ≫= parse_u32).

(** One running domain: known already, or entered with what [dominfo] says. *)
Definition reconcile_one (name : string) : st (vms W) unit :=
  let! r := virsh_do ["domuuid"; name] in
  match r with
  | Err _ => st_ret tt
  | Ok uuid_out => λ s,
      let uuid := trim uuid_out in
      if is_empty uuid then (tt, s)
      else if decide (is_Some (registry s !! uuid)) then (tt, s)
      else
        (let! r := virsh_do ["dominfo"; name] in
         let info := match r with Ok i => i | Err _ => "" end in
         λ s, update_registry
           (<[uuid := mkVm uuid name (info_mem_mb info) (info_vcpus info) Up (clock (host s))]>) s) s
  end.

Definition reconcile_from_libvirt : st (vms W) unit :=
  let! r := virsh_do ["list"; "--name"; "--state-running"] in
  match r with
  | Err _ => st_ret tt
  | Ok out =>
      let names := running_names out in
      let! _ := update_registry (filter (λ kv, vm_name kv.2 ∈ names)) in
      st_for names reconcile_one
  end.

(** ** Background tasks *)

Definition run_task (t : task) : st (vms W) unit :=
  match t with
  | Migration name dst =>
      let! _ := virsh_do ["migrate"; "--live"; "--persistent"; "--undefinesource"; "--verbose";
                          "--auto-converge"; name; "qemu+tls://" +:+ dst +:+ "/system"] in
      st_ret tt
  | Watchdog name id =>
      let! r := virsh_do ["domstate"; name] in
      if match r with
         | Ok s => String.eqb (to_ascii_lowercase (trim s)) "running"
         | Err _ => false
         end
      then
        let! _ := virsh_do ["destroy"; name] in
        update_registry (alter (set_state Down) id)
      else st_ret tt
  end.
End virt.
