(* ===== verification/VirtFacts.v ===== *)
(** * Properties of virtual machines *)

From stdpp Require Import options.
From Stdlib Require Import Lia.
From S2P Require Import Prelude Utf8 RustStr Json Rpc Os Virt.

(** ** Escaping *)

(** The entity a character is replaced by. *)
Definition xml_entity (c : ascii) : string :=
  if Ascii.eqb c "&" then "&amp;" else if Ascii.eqb c "<" then "&lt;"
  else if Ascii.eqb c ">" then "&gt;" else if Ascii.eqb c "034" then "&quot;"
  else if Ascii.eqb c "'" then "&apos;" else String c "".

(** What an XML reader makes of character data: the five entities. *)
Fixpoint xml_unescape_go (fuel : nat) (s : string) : string :=
  match fuel, s with
  | S fuel', String c s' =>
      if negb (Ascii.eqb c "&") then String c (xml_unescape_go fuel' s')
      else match strip_prefix "amp;" s' with
      | Some t => String "&" (xml_unescape_go fuel' t)
      | None => match strip_prefix "lt;" s' with
      | Some t => String "<" (xml_unescape_go fuel' t)
      | None => match strip_prefix "gt;" s' with
      | Some t => String ">" (xml_unescape_go fuel' t)
      | None => match strip_prefix "quot;" s' with
      | Some t => String "034" (xml_unescape_go fuel' t)
      | None => match strip_prefix "apos;" s' with
      | Some t => String "'" (xml_unescape_go fuel' t)
      | None => String c (xml_unescape_go fuel' s')
      end end end end end
  | _, _ => ""
  end.
Definition xml_unescape (s : string) : string := xml_unescape_go (strlen s) s.

Lemma replace_char_app c r s t :
  replace_char c r (s +:+ t) = replace_char c r s +:+ replace_char c r t.
Proof.
  induction s as [|a s IH]; [done|]. rewrite app_String. cbn [replace_char].
  by rewrite IH, app_assoc_str.
Qed.

Lemma replace_char_one c r a :
  replace_char c r (String a "") = if Ascii.eqb a c then r else String a "".
Proof. cbn [replace_char]. by rewrite app_nil_r_str. Qed.

Lemma xml_escape_String c s : xml_escape (String c s) = xml_entity c +:+ xml_escape s.
Proof.
  unfold xml_escape. change (String c s) with (String c "" +:+ s). rewrite !replace_char_app.
  f_equal. unfold xml_entity. rewrite replace_char_one.
  destruct (Ascii.eqb_spec c "&") as [->|H1]; [done|]. rewrite replace_char_one.
  destruct (Ascii.eqb_spec c "<") as [->|H2]; [done|]. rewrite replace_char_one.
  destruct (Ascii.eqb_spec c ">") as [->|H3]; [done|]. rewrite replace_char_one.
  destruct (Ascii.eqb_spec c "034") as [->|H4]; [done|]. by rewrite replace_char_one.
Qed.

Lemma xml_entity_nonempty c : (1 ≤ strlen (xml_entity c))%nat.
Proof. unfold xml_entity. repeat case_match; cbn; lia. Qed.

Lemma xml_unescape_entity fuel c s :
  xml_unescape_go (S fuel) (xml_entity c +:+ s) = String c (xml_unescape_go fuel s).
Proof.
  unfold xml_entity.
  destruct (Ascii.eqb_spec c "&") as [->|H1]; [done|].
  destruct (Ascii.eqb_spec c "<") as [->|H2]; [done|].
  destruct (Ascii.eqb_spec c ">") as [->|H3]; [done|].
  destruct (Ascii.eqb_spec c "034") as [->|H4]; [done|].
  destruct (Ascii.eqb_spec c "'") as [->|H5]; [done|].
  rewrite app_String, app_nil_l_str. cbn [xml_unescape_go].
  by destruct (Ascii.eqb_spec c "&").
Qed.

Lemma xml_unescape_go_escape fuel s :
  (strlen (xml_escape s) ≤ fuel)%nat → xml_unescape_go fuel (xml_escape s) = s.
Proof.
  revert fuel. induction s as [|c s IH]; intros fuel Hf; [by destruct fuel|].
  rewrite xml_escape_String in *. rewrite strlen_app in Hf. pose proof (xml_entity_nonempty c).
  destruct fuel as [|fuel]; [lia|]. rewrite xml_unescape_entity, IH; [done|lia].
Qed.

Lemma xml_entity_meta c m :
  In m ["<"; ">"; "034"; "'"]%char → has_byte m (xml_entity c) = false.
Proof.
  intros Hm. unfold xml_entity.
  destruct (Ascii.eqb_spec c "&") as [->|H1]; [by repeat destruct Hm as [<-|Hm]|].
  destruct (Ascii.eqb_spec c "<") as [->|H2]; [by repeat destruct Hm as [<-|Hm]|].
  destruct (Ascii.eqb_spec c ">") as [->|H3]; [by repeat destruct Hm as [<-|Hm]|].
  destruct (Ascii.eqb_spec c "034") as [->|H4]; [by repeat destruct Hm as [<-|Hm]|].
  destruct (Ascii.eqb_spec c "'") as [->|H5]; [by repeat destruct Hm as [<-|Hm]|].
  cbn [has_byte]. destruct (Ascii.eqb_spec c m) as [->|]; [|done].
  by repeat destruct Hm as [<-|Hm].
Qed.

(** A virtual machine's name cannot change the structure of its domain XML:
    the escaped name has no markup character or quote in it, and an XML reader
    gets the name back from it. *)
Theorem xml_escape_safe s :
  (∀ m, In m ["<"; ">"; "034"; "'"]%char → has_byte m (xml_escape s) = false) ∧
  xml_unescape (xml_escape s) = s.
Proof.
  split; [|by apply xml_unescape_go_escape].
  intros m Hm. induction s as [|c s IH]; [done|].
  by rewrite xml_escape_String, has_byte_app, xml_entity_meta, IH.
Qed.

Lemma contains_app_r p s t : contains p t = true → contains p (s +:+ t) = true.
Proof.
  intros (a & b & ->)%contains_spec. apply contains_spec. exists (s +:+ a), b.
  by rewrite app_assoc_str.
Qed.

Lemma contains_app_l p s t : contains p s = true → contains p (s +:+ t) = true.
Proof.
  intros (a & b & ->)%contains_spec. apply contains_spec. exists a, (b +:+ t).
  by rewrite !app_assoc_str.
Qed.

(** The id gets no such treatment: the [vmID] of a request is copied into the
    domain XML as it is, markup included. *)
Theorem to_xml_id_verbatim {V} `{JsonOps V} id (params : V) :
  contains ("<uuid>" +:+ id +:+ "</uuid>") (to_xml (from_vm_params id params)) = true.
Proof.
  unfold to_xml, xml_lines. cbn [foldr].
  apply contains_app_r, (contains_app_r _ (String LF "")).
  apply contains_app_r, (contains_app_r _ (String LF "")).
  change (String LF ?s) with (String LF "" +:+ s). apply contains_app_l.
  change ("  <uuid>" +:+ ?s) with ("  " +:+ ("<uuid>" +:+ s)).
  apply contains_app_r. apply contains_spec. exists "", "". by rewrite app_nil_l_str, app_nil_r_str.
Qed.

(** ** Sizes *)

Lemma spec_vcpus_eq {V} `{JsonOps V} id (params : V) :
  let p := default params (jget "vmParams" params) in
  let asked := default DEFAULT_VCPUS (first_u64 p ["smp"; "maxVCpus"]) in
  spec_vcpus (from_vm_params id params) = N.max (asked mod 4294967296) 1.
Proof. reflexivity. Qed.

Lemma spec_vcpus_bounds {V} `{JsonOps V} id (params : V) :
  (1 ≤ spec_vcpus (from_vm_params id params) ≤ u32_max)%N.
Proof.
  rewrite spec_vcpus_eq. set (a := default _ _). pose proof (N.mod_lt a 4294967296).
  change u32_max with 4294967295%N. lia.
Qed.

(** Whatever number of processors the engine asks for, the domain gets between
    1 and 2^32 - 1, and exactly the number asked for when that is in range; a
    larger number loses its upper bits. *)
Theorem from_vm_params_vcpus {V} `{JsonOps V} id (params : V) :
  let p := default params (jget "vmParams" params) in
  let asked := default DEFAULT_VCPUS (first_u64 p ["smp"; "maxVCpus"]) in
  let got := spec_vcpus (from_vm_params id params) in
  (1 ≤ got ≤ u32_max)%N ∧
  ((1 ≤ asked ≤ u32_max)%N → got = asked) ∧ got = N.max (N.land asked u32_max) 1.
Proof.
  intros p asked got. split; [apply spec_vcpus_bounds|].
  unfold got. rewrite spec_vcpus_eq. fold p asked. split.
  - change u32_max with 4294967295%N. intros Ha. rewrite N.mod_small by lia. lia.
  - change u32_max with (N.ones 32). by rewrite N.land_ones.
Qed.

(** ** The registry *)

Section registry.
Context {V} `{JsonOps V} {W} `{VirshOps W}.

Definition handlers : list (V → st (vms W) (result V (JsonRpcError V))) :=
  [vm_migrate; vm_migration_create; vm_migration_cancel; vm_migrate_change_params;
   vm_migrate_status; vm_set_ticket; vm_update_device; vm_create; vm_destroy; vm_shutdown;
   vm_cont; vm_pause; dump_xmls; vm_get_stats].

(** A verb, a reconciliation, one of the background tasks, or the world outside
    moving on. *)
Inductive vm_step : vms W → vms W → Prop :=
| step_verb f params s : f ∈ handlers → vm_step s (f params s).2
| step_reconcile s : vm_step s (reconcile_from_libvirt s).2
| step_task t ts1 ts2 s :
    tasks s = ts1 ++ t :: ts2 →
    vm_step s (run_task t (mkVms (registry s) (ts1 ++ ts2) (host s))).2
| step_world s w : vm_step s (mkVms (registry s) (tasks s) w).

Definition record_ok (k : string) (r : VmRecord) : Prop :=
  vm_id r = k ∧ (vcpus r ≤ u32_max)%N.

Definition registry_ok (reg : gmap string VmRecord) : Prop := map_Forall record_ok reg.

(** Every change to the registry is one of these. *)
Inductive reg_change : gmap string VmRecord → gmap string VmRecord → Prop :=
| change_refl reg : reg_change reg reg
| change_insert reg k r : record_ok k r → reg_change reg (<[k := r]> reg)
| change_state reg k st : reg_change reg (alter (set_state st) k reg)
| change_delete reg k : reg_change reg (delete k reg)
| change_filter reg (P : string * VmRecord → Prop) `{∀ x, Decision (P x)} :
    reg_change reg (filter P reg)
| change_trans reg1 reg2 reg3 : reg_change reg1 reg2 → reg_change reg2 reg3 → reg_change reg1 reg3.

Lemma reg_change_ok reg reg' : reg_change reg reg' → registry_ok reg → registry_ok reg'.
Proof.
  induction 1 as [|reg k r Hr|reg k st|reg k|reg P HP|r1 r2 r3 _ IH1 _ IH2]; intros Hok;
    [done|..|by apply IH2, IH1].
  - by apply map_Forall_insert_2.
  - intros k' r' Hk'. rewrite lookup_alter in Hk'. case_decide; [|exact (Hok _ _ Hk')].
    apply fmap_Some in Hk' as (r & Hr & ->). subst. exact (Hok _ _ Hr).
  - by apply map_Forall_delete.
  - intros k' r' [Hk' _]%map_lookup_filter_Some. exact (Hok _ _ Hk').
Qed.

Lemma virsh_do_registry args s : registry (virsh_do args s).2 = registry s.
Proof. unfold virsh_do, on_host. by destruct (run_virsh _ _ _). Qed.

Lemma virsh_do_pair args s :
  ∃ r w, virsh_do args s = (r, mkVms (registry s) (tasks s) w).
Proof. unfold virsh_do, on_host. destruct (run_virsh _ _ _). eauto. Qed.

Lemma from_vm_params_ok id (params : V) st now : record_ok id (record_of (from_vm_params id params) st now).
Proof. split; [done|]. apply spec_vcpus_bounds. Qed.

(** Run the verbs of a handler one after the other. *)
Ltac run_steps :=
  unfold with_vm_id, st_bind, update_registry, spawn, st_ret;
  repeat first
    [ match goal with |- context [virsh_do ?a ?s] =>
        let r := fresh "r" in let w := fresh "w" in
        destruct (virsh_do_pair a s) as (r & w & ->) end
    | progress cbn [registry tasks host snd fst]
    | case_match ].

Lemma run_virsh_host args stdin s :
  ∃ r w, on_host (run_virsh args stdin) s = (r, mkVms (registry s) (tasks s) w).
Proof. unfold on_host. destruct (run_virsh _ _ _). eauto. Qed.

Lemma vm_create_change (params : V) s :
  reg_change (registry s) (registry (vm_create params s).2).
Proof.
  unfold vm_create, with_vm_id. destruct (vm_id_from params) as [id|e]; [|apply change_refl].
  unfold st_bind at 1.
  destruct (run_virsh_host ["define"; "/dev/stdin"] (Some (to_xml (from_vm_params id params))) s)
    as (r & w & ->).
  destruct r as [o|e]; [|apply change_refl]. run_steps; [|apply change_refl].
  apply change_insert, from_vm_params_ok.
Qed.

Lemma dump_loop_registry ids acc s :
  registry (dump_loop (V := V) ids acc s).2 = registry s.
Proof.
  revert acc s. induction ids as [|id ids IH]; intros acc s; [done|]. cbn [dump_loop].
  unfold st_bind. destruct (virsh_do_pair ["dumpxml"; id] s) as (r & w & ->). by rewrite IH.
Qed.

Lemma handler_change f params s :
  f ∈ handlers → reg_change (registry s) (registry (f params s).2).
Proof.
  intros Hf. unfold handlers in Hf.
  repeat (apply elem_of_cons in Hf as [->|Hf]); [..|by apply not_elem_of_nil in Hf].
  - unfold vm_migrate. run_steps; apply change_refl.
  - unfold vm_migration_create. run_steps; [|apply change_refl].
    apply change_insert, from_vm_params_ok.
  - unfold vm_migration_cancel. run_steps; apply change_refl.
  - apply change_refl.
  - unfold vm_migrate_status. run_steps; apply change_refl.
  - unfold vm_set_ticket. run_steps; apply change_refl.
  - apply change_refl.
  - apply vm_create_change.
  - unfold vm_destroy. run_steps; [apply change_delete|apply change_refl].
  - unfold vm_shutdown. run_steps; [apply change_state|apply change_refl].
  - unfold vm_cont. run_steps; [apply change_state|apply change_refl].
  - unfold vm_pause. run_steps; [apply change_state|apply change_refl].
  - unfold dump_xmls, st_bind.
    pose proof (dump_loop_registry (str_array (get_either "vmList" "vmIds" params)) [] s) as Hd.
    destruct (dump_loop _ _ s) as [out s']. cbn in *. rewrite Hd. apply change_refl.
  - unfold vm_get_stats. run_steps; apply change_refl.
Qed.

Lemma info_vcpus_le info : (info_vcpus info ≤ u32_max)%N.
Proof.
  unfold info_vcpus. destruct (info_field _ _ ≫= parse_u32) as [n|] eqn:E; [|done].
  apply bind_Some in E as (x & _ & Hx). by apply parse_uint_le in Hx.
Qed.

Lemma reconcile_one_change name s :
  reg_change (registry s) (registry (reconcile_one name s).2).
Proof.
  unfold reconcile_one. unfold st_bind at 1.
  destruct (virsh_do_pair ["domuuid"; name] s) as (r & w & ->).
  destruct r as [u|e]; [|apply change_refl]. cbn [registry].
  destruct (is_empty (trim u)); [apply change_refl|].
  case_decide; [apply change_refl|]. unfold st_bind.
  match goal with |- context [virsh_do ?a ?s] => destruct (virsh_do_pair a s) as (r & w' & ->) end.
  cbn. apply change_insert. split; [done|]. apply info_vcpus_le.
Qed.

Lemma st_for_change l s :
  reg_change (registry s) (registry (st_for l reconcile_one s).2).
Proof.
  revert s. induction l as [|n l IH]; intros s; [apply change_refl|]. cbn [st_for]. unfold st_bind.
  pose proof (reconcile_one_change n s) as Hn. destruct (reconcile_one n s) as [[] s1].
  eapply change_trans; [exact Hn|apply IH].
Qed.

Lemma reconcile_change s : reg_change (registry s) (registry (reconcile_from_libvirt s).2).
Proof.
  unfold reconcile_from_libvirt. unfold st_bind at 1.
  match goal with |- context [virsh_do ?a ?s] => destruct (virsh_do_pair a s) as (r & w & ->) end.
  destruct r as [out|e]; [|apply change_refl]. unfold st_bind, update_registry. cbn [registry].
  eapply change_trans; [apply (change_filter _ (λ kv, vm_name kv.2 ∈ running_names out))|].
  match goal with |- context [st_for ?l reconcile_one ?s] => exact (st_for_change l s) end.
Qed.

Lemma run_task_change t s : reg_change (registry s) (registry (run_task t s).2).
Proof.
  destruct t as [name dst|name id]; cbn [run_task]; unfold st_bind.
  - match goal with |- context [virsh_do ?a ?s] => destruct (virsh_do_pair a s) as (r & w & ->) end.
    apply change_refl.
  - destruct (virsh_do_pair ["domstate"; name] s) as (r & w & ->).
    match goal with |- context [if ?b then _ else _] => destruct b end; [|apply change_refl].
    match goal with |- context [virsh_do ?a ?s] => destruct (virsh_do_pair a s) as (r' & w' & ->) end.
    apply change_state.
Qed.

(** Under every interleaving of verbs, reconciliations and background tasks,
    each record of the registry is filed under its own id and its number of
    processors fits in 32 bits. *)
Theorem registry_invariant s0 s :
  registry s0 = ∅ → rtc vm_step s0 s → registry_ok (registry s).
Proof.
  intros Hd Hr. assert (registry_ok (registry s0)) as Hok by (rewrite Hd; apply map_Forall_empty).
  clear Hd. induction Hr as [s|s s1 s2 Hst _ IH]; [done|]. apply IH. revert Hok.
  destruct Hst as [f params s Hf|s|t ts1 ts2 s Ht|s w]; [| | |done]; apply reg_change_ok.
  - by apply handler_change.
  - apply reconcile_change.
  - match goal with |- context [run_task t ?s'] => exact (run_task_change t s') end.
Qed.

(** A virtual machine enters the registry exactly when libvirt both defined
    and started it, as [Up], under its id and with the name, memory and
    processors of the request; when [VM.create] fails the registry is as
    before. *)
Theorem vm_create_registers (params : V) s r s' :
  vm_create params s = (r, s') →
  match r with
  | Err _ => registry s' = registry s
  | Ok _ =>
      ∃ id o1 o2 w1,
        vm_id_from params = Ok id ∧
        let spec := from_vm_params id params in
        run_virsh ["define"; "/dev/stdin"] (Some (to_xml spec)) (host s) = (Ok o1, w1) ∧
        run_virsh ["start"; spec_name spec] None w1 = (Ok o2, host s') ∧
        registry s' = <[id := record_of spec Up (clock (host s'))]> (registry s)
  end.
Proof.
  unfold vm_create, with_vm_id. destruct (vm_id_from params) as [id|e]; [|by intros [= <- <-]].
  unfold st_bind at 1. unfold on_host at 1.
  destruct (run_virsh ["define"; "/dev/stdin"] _ (host s)) as [[o1|e] w1] eqn:E1;
    [|by intros [= <- <-]].
  unfold st_bind at 1. unfold virsh_do, on_host. cbn [host registry tasks].
  destruct (run_virsh ["start"; _] None w1) as [[o2|e] w2] eqn:E2; [|by intros [= <- <-]].
  intros [= <- <-]. exists id, o1, o2, w1. done.
Qed.

(** C33: the watchdog of [VM.shutdown] does not know which run of a machine it was
    started for: whenever it is scheduled and libvirt says the name is running,
    it destroys the domain and marks the record [Down], also when the machine
    was shut down in the meantime and created again. *)
Theorem watchdog_unconditional s ts1 ts2 name id o w w' r :
  tasks s = ts1 ++ Watchdog name id :: ts2 →
  run_virsh ["domstate"; name] None (host s) = (Ok o, w) →
  to_ascii_lowercase (trim o) = "running" →
  run_virsh ["destroy"; name] None w = (r, w') →
  vm_step s (mkVms (alter (set_state Down) id (registry s)) (ts1 ++ ts2) w').
Proof.
  intros Ht Hd Ho Hx.
  replace (mkVms (alter (set_state Down) id (registry s)) (ts1 ++ ts2) w')
    with (run_task (Watchdog name id) (mkVms (registry s) (ts1 ++ ts2) (host s))).2;
    [by apply step_task|].
  cbn [run_task]. unfold st_bind, virsh_do, on_host. cbn [host registry tasks].
  rewrite Hd, Ho, String.eqb_refl. cbn [host registry tasks]. rewrite Hx. done.
Qed.
End registry.

(** ** Reconciling *)

Section reconcile.
Context {W} `{VirshOps W}.

(** What one round does to the registry. *)
Lemma reconcile_one_registry name (s : vms W) :
  let reg' := registry (reconcile_one name s).2 in
  match (run_virsh ["domuuid"; name] None (host s)).1 with
  | Err _ => reg' = registry s
  | Ok u =>
      trim u = "" ∧ reg' = registry s ∨
      trim u ≠ "" ∧ is_Some (registry s !! trim u) ∧ reg' = registry s ∨
      trim u ≠ "" ∧ registry s !! trim u = None ∧
        ∃ r, vm_name r = name ∧ reg' = <[trim u := r]> (registry s)
  end.
Proof.
  intros reg'. remember reg' as reg'' eqn:E. unfold reg' in E. clear reg'. revert E.
  unfold reconcile_one. unfold st_bind at 1. unfold virsh_do at 1. unfold on_host.
  destruct (run_virsh ["domuuid"; name] None (host s)) as [[u|e] w]; cbn [registry fst snd]; [|done].
  destruct (trim u) as [|a t] eqn:Et; [by left|]. cbn [is_empty].
  case_decide as Hk; [intros ->; right; left; by split_and!|]. unfold st_bind.
  match goal with |- context [virsh_do ?x ?y] => destruct (virsh_do_pair x y) as (r & w' & ->) end.
  cbn [registry snd update_registry]. intros ->. right. right. split; [done|].
  split; [by apply eq_None_not_Some|]. eexists. split; [|reflexivity]. reflexivity.
Qed.

(** [virsh domuuid n] is asked in the course of the loop, and answers [u]. *)
Fixpoint uuid_answer (s : vms W) (l : list string) (n u : string) : Prop :=
  match l with
  | [] => False
  | m :: l' =>
      m = n ∧ (run_virsh ["domuuid"; m] None (host s)).1 = Ok u ∨
      uuid_answer (reconcile_one m s).2 l' n u
  end.

Lemma uuid_answer_listed s l n u : uuid_answer s l n u → n ∈ l.
Proof.
  revert s. induction l as [|m l IH]; intros s; [done|].
  intros [[-> _]|Ha]; [left|right; by eapply IH].
Qed.

Lemma st_for_reconcile l (s : vms W) :
  let reg' := registry (st_for l reconcile_one s).2 in
  registry s ⊆ reg' ∧
  (∀ n u, uuid_answer s l n u → trim u ≠ "" → is_Some (reg' !! trim u)) ∧
  (∀ k r, reg' !! k = Some r →
     registry s !! k = Some r ∨
     registry s !! k = None ∧ ∃ u, uuid_answer s l (vm_name r) u ∧ k = trim u).
Proof.
  revert s. induction l as [|m l IH]; intros s; [split_and!; [done..|by left]|].
  cbn [st_for uuid_answer]. unfold st_bind. pose proof (reconcile_one_registry m s) as Ho. cbn zeta in Ho.
  destruct (reconcile_one m s) as [[] s1]. cbn [snd] in *.
  destruct (IH s1) as (Hsub & Hans & Hback). clear IH.
  set (reg' := registry (st_for l reconcile_one s1).2) in *.
  destruct (run_virsh ["domuuid"; m] None (host s)).1 as [u0|e] eqn:Eu.
  2:{ rewrite Ho in *. split_and!; [done| |].
      - intros n u [[_ [=]]|Ha]. by eapply Hans.
      - intros k r Hr. destruct (Hback k r Hr) as [|[? (u & Ha & ->)]]; [by left|right].
        split; [done|]. exists u. auto. }
  destruct Ho as [[Ht Ho]|[(Ht & [r0 Hr0] & Ho)|(Ht & Hnone & r0 & Hname & Ho)]]; rewrite Ho in *.
  - split_and!; [done| |].
    + intros n u [[_ [= <-]]|Ha]; [done|]. by eapply Hans.
    + intros k r Hr. destruct (Hback k r Hr) as [|[? (u & Ha & ->)]]; [by left|right].
      split; [done|]. exists u. auto.
  - split_and!; [done| |].
    + intros n u [[_ [= <-]]|Ha]; [intros _; exists r0; by eapply lookup_weaken|]. by eapply Hans.
    + intros k r Hr. destruct (Hback k r Hr) as [|[? (u & Ha & ->)]]; [by left|right].
      split; [done|]. exists u. auto.
  - split_and!.
    + etrans; [by apply (insert_subseteq (registry s) (trim u0) r0)|done].
    + intros n u [[_ [= <-]]|Ha]; [|by eapply Hans]. intros _. exists r0.
      eapply lookup_weaken; [|done]. apply lookup_insert_eq.
    + intros k r Hr. destruct (Hback k r Hr) as [Hk|[Hk (u & Ha & ->)]].
      * destruct (decide (trim u0 = k)) as [<-|Hne].
        -- rewrite lookup_insert_eq in Hk. simplify_eq. right. split; [done|]. exists u0. auto.
        -- rewrite lookup_insert_ne in Hk by done. by left.
      * apply lookup_insert_None in Hk as [Hk _]. right. split; [done|]. exists u. auto.
Qed.

(** C32: what a reconciliation leaves in the registry, when [virsh list] has
    answered: only machines whose name is listed as running (a paused one is not,
    and is dropped); of those it keeps the records it had; it has a record for
    the uuid of every listed domain for which [virsh domuuid] answered in this
    run with a uuid; and every record that is new belongs to such a domain, so a
    listed domain that had no record stays without one when [domuuid] fails. *)
Theorem reconcile_spec (s : vms W) out w :
  run_virsh ["list"; "--name"; "--state-running"] None (host s) = (Ok out, w) →
  let names := running_names out in
  let s1 := mkVms (filter (λ kv, vm_name kv.2 ∈ names) (registry s)) (tasks s) w in
  let reg' := registry (reconcile_from_libvirt s).2 in
  (∀ k r, reg' !! k = Some r → vm_name r ∈ names) ∧
  (∀ k r, registry s !! k = Some r → vm_name r ∈ names → reg' !! k = Some r) ∧
  (∀ n u, uuid_answer s1 names n u → trim u ≠ "" → is_Some (reg' !! trim u)) ∧
  (∀ k r, reg' !! k = Some r →
     registry s !! k = Some r ∨ ∃ u, uuid_answer s1 names (vm_name r) u ∧ k = trim u).
Proof.
  intros Hlist names s1 reg'.
  assert (reg' = registry (st_for names reconcile_one s1).2) as ->.
  { unfold reg', reconcile_from_libvirt, st_bind, virsh_do, on_host. by rewrite Hlist. }
  destruct (st_for_reconcile names s1) as (Hsub & Hans & Hback). cbn [registry s1] in *.
  split_and!; [..|exact Hans|].
  - intros k r Hr. destruct (Hback k r Hr) as [[_ Hn]%map_lookup_filter_Some|(_ & u & Ha & _)]; [done|].
    by eapply uuid_answer_listed.
  - intros k r Hr Hn. eapply lookup_weaken, Hsub. by apply map_lookup_filter_Some.
  - intros k r Hr. destruct (Hback k r Hr) as [[Hk _]%map_lookup_filter_Some|(_ & Ha)]; auto.
Qed.
End reconcile.

(** ** Migration progress *)

(** The progress of a migration is the percentage of the data processed, as
    long as the product with 100 fits in 64 bits. *)
Theorem progress_spec total processed :
  (processed ≤ total)%N → (processed * 100 ≤ u64_max)%N → (0 < total)%N →
  progress total processed = Z.of_N (processed * 100 / total) ∧
  (0 ≤ progress total processed ≤ 100)%Z.
Proof.
  intros Hle Hfit Hpos. unfold progress. rewrite (proj2 (N.ltb_lt 0 total) Hpos).
  assert (wmul64 processed 100 = processed * 100)%N as ->.
  { unfold wmul64. apply N.mod_small. lia. }
  assert (processed * 100 / total ≤ 100)%N as Hq by (apply N.Div0.div_le_upper_bound; nia).
  assert (as_i64_cast (processed * 100 / total) = Z.of_N (processed * 100 / total)) as ->.
  { unfold as_i64_cast. rewrite (proj2 (Z.leb_le _ _)); [done|]. unfold i64_max. lia. }
  split; [done|]. revert Hq. generalize (processed * 100 / total)%N. lia.
Qed.

Lemma digits_val_dot acc s : has_byte "." s = true → digits_val acc s = None.
Proof.
  revert acc. induction s as [|a s IH]; intros acc; [done|]. cbn [has_byte digits_val].
  destruct (Ascii.eqb_spec a ".") as [->|_]; [done|]. cbn [orb]. intros Hs.
  destruct (digit_val a); [cbn; by apply IH|done].
Qed.

Lemma parse_u64_dot s : has_byte "." s = true → parse_u64 s = None.
Proof.
  intros Hs. unfold parse_u64, parse_uint.
  assert (∀ t, has_byte "." t = true → (if is_empty t then None else
    digits_val 0 t ≫= λ n, if (n <=? u64_max)%N then Some n else None) = None) as Ht.
  { intros t Ht. rewrite digits_val_dot by done. by destruct (is_empty t). }
  destruct s as [|a s]; [done|]. cbn [has_byte] in Hs.
  destruct (Ascii.eqb_spec a "+") as [->|_]; apply Ht; [exact Hs|exact Hs].
Qed.

(** The quantities of a [domjobinfo] report that have a decimal point. *)
Definition decimal_line (line : string) : Prop :=
  ∀ p v, p ∈ ["Data total:"; "Data processed:"; "Data remaining:"] →
    strip_prefix p (trim line) = Some v →
    ∃ t, split_whitespace v !! 0 = Some t ∧ has_byte "." t = true.

(** A report whose quantities are written with a decimal point, as [virsh]
    does ("1.500 GiB"), is read as no progress at all: every quantity and the
    progress are 0. *)
Theorem job_info_decimal info :
  Forall decimal_line (lines info) →
  job_info info = (0, 0, 0)%N ∧ progress (job_info info).1.1 (job_info info).1.2 = 0%Z.
Proof.
  intros Hl. assert (job_info info = (0, 0, 0)%N) as ->; [|done].
  unfold job_info. induction Hl as [|l ls Hd _ IH]; [done|]. cbn [foldl].
  assert (job_line (0, 0, 0)%N l = (0, 0, 0)%N) as ->; [|done].
  assert (∀ p v, p ∈ ["Data total:"; "Data processed:"; "Data remaining:"] →
    strip_prefix p (trim l) = Some v → quantity v = 0%N) as Hq.
  { intros p v Hp Hv. destruct (Hd p v Hp Hv) as (t & Ht & Hdot). unfold quantity.
    rewrite Ht. cbn. by rewrite parse_u64_dot. }
  unfold job_line.
  destruct (strip_prefix "Data total:" (trim l)) as [v|] eqn:E1; [by rewrite (Hq "Data total:" v) by (done || set_solver)|].
  destruct (strip_prefix "Data processed:" (trim l)) as [v|] eqn:E2; [by rewrite (Hq "Data processed:" v) by (done || set_solver)|].
  destruct (strip_prefix "Data remaining:" (trim l)) as [v|] eqn:E3; [by rewrite (Hq "Data remaining:" v) by (done || set_solver)|].
  done.
Qed.

(** ** Witnesses: a libvirt that knows which domains run *)

Definition exited (out : string) : virsh_run := Exited (mkOutput true (Some 0%Z) out "").

Definition toy_virsh (args : list string) (running : list string) : virsh_run * list string :=
  match args with
  | _ :: _ :: cmd :: rest =>
      let n := default "" (head rest) in
      if String.eqb cmd "start" then (exited "", n :: running)
      else if String.eqb cmd "shutdown" || String.eqb cmd "destroy"
      then (exited "", filter (λ m, m ≠ n) running)
      else if String.eqb cmd "domstate"
      then (exited (if decide (n ∈ running) then "running" else "shut off"), running)
      else if String.eqb cmd "list" then (exited (foldr (λ m s, m +:+ String LF s) "" running), running)
      else if String.eqb cmd "domuuid" then (exited ("uuid-" +:+ n), running)
      else (exited "", running)
  | _ => (SpawnFailed "no command", running)
  end.

#[export] Instance toy_host : VirshOps (list string) := {
  virsh args _ := toy_virsh args;
  clock _ := 1700000000%N;
}.

Definition vm_params : JVal := JObj [("vmID", JStr "a"); ("smp", JInt 2)].
Definition vms0 : vms (list string) := mkVms ∅ [] [].

(** Created, shut down, created again: the first watchdog is still pending. *)
Definition vms1 : vms (list string) := (vm_create vm_params vms0).2.
Definition vms2 : vms (list string) := (vm_shutdown vm_params vms1).2.
Definition vms3 : vms (list string) := (vm_create vm_params vms2).2.

Lemma vm_create_registers_witness :
  ∃ id o1 o2 w1,
    vm_id_from vm_params = Ok id ∧
    let spec := from_vm_params id vm_params in
    run_virsh ["define"; "/dev/stdin"] (Some (to_xml spec)) (host vms0) = (Ok o1, w1) ∧
    run_virsh ["start"; spec_name spec] None w1 = (Ok o2, host vms1) ∧
    registry vms1 = <[id := record_of spec Up (clock (host vms1))]> (registry vms0).
Proof.
  apply (vm_create_registers vm_params vms0
    (Ok (jobj [("vmList", jobj [("vmId", jstr "a"); ("status", jstr "Up")])])) vms1).
  vm_compute. reflexivity.
Defined.

Lemma registry_invariant_witness : registry_ok (registry vms3).
Proof.
  apply (registry_invariant (V := JVal) vms0 vms3); [reflexivity|].
  eapply rtc_l; [apply (step_verb vm_create vm_params)|].
  { unfold handlers. do 7 right. left. }
  eapply rtc_l; [apply (step_verb vm_shutdown vm_params)|].
  { unfold handlers. do 9 right. left. }
  eapply rtc_once. apply (step_verb vm_create vm_params). unfold handlers. do 7 right. left.
Defined.

Lemma watchdog_unconditional_witness :
  vm_state <$> registry vms3 !! "a" = Some Up ∧ host vms3 = ["a"] ∧
  vm_step (V := JVal) vms3 (mkVms (alter (set_state Down) "a" (registry vms3)) [] []).
Proof.
  split; [vm_compute; reflexivity|]. split; [vm_compute; reflexivity|].
  apply (watchdog_unconditional (V := JVal) vms3 [] [] "a" "a" "running" ["a"] [] (Ok ""));
    vm_compute; reflexivity.
Defined.

Lemma reconcile_spec_witness :
  let names := running_names (String "a" (String LF "")) in
  let s1 := mkVms (filter (λ kv, vm_name kv.2 ∈ names) (registry vms3)) (tasks vms3) ["a"] in
  let reg' := registry (reconcile_from_libvirt vms3).2 in
  uuid_answer s1 names "a" "uuid-a" ∧ is_Some (reg' !! "uuid-a") ∧
  (∀ k r, reg' !! k = Some r → vm_name r ∈ names).
Proof.
  intros names s1 reg'.
  destruct (reconcile_spec vms3 (String "a" (String LF "")) ["a"]) as (H1 & _ & H3 & _);
    [vm_compute; reflexivity|].
  assert (uuid_answer s1 names "a" "uuid-a") as Ha.
  { left. split; [reflexivity|]. vm_compute. reflexivity. }
  split; [exact Ha|]. split; [|exact H1].
  apply (H3 "a" "uuid-a"); [exact Ha|vm_compute; discriminate].
Defined.

Lemma progress_spec_witness :
  progress 200 50 = Z.of_N (50 * 100 / 200) ∧ (0 ≤ progress 200 50 ≤ 100)%Z.
Proof. apply (progress_spec 200 50); vm_compute; (reflexivity || discriminate). Defined.

Lemma job_info_decimal_witness :
  let info := "Data total:   1.500 GiB" +:+ String LF "Data processed: 700.123 MiB" in
  job_info info = (0, 0, 0)%N ∧ progress (job_info info).1.1 (job_info info).1.2 = 0%Z.
Proof.
  intros info. apply (job_info_decimal info).
  assert (lines info = ["Data total:   1.500 GiB"; "Data processed: 700.123 MiB"]) as E
    by (vm_compute; reflexivity).
  rewrite E. repeat constructor; intros p v Hp Hv;
    repeat (apply elem_of_cons in Hp as [->|Hp]; [vm_compute in Hv; try discriminate Hv;
      injection Hv as <-; eexists; split; vm_compute; reflexivity|]);
    by apply not_elem_of_nil in Hp.
Defined.
