(* ===== verification/Sysinfo.v ===== *)
(** * What the host is (crates/vdsm-host/src/sysinfo.rs)

    The readers of /proc and /sys.  A function that only reads files is a
    function of the world; one that runs a command passes the world on. *)

From stdpp Require Import options.
From S2P Require Import Prelude Utf8 RustStr Float64 Os.
Local Open Scope N_scope.

(** ** Strings and sorting *)

(** [s.split(p)] for a string [p] that is not empty: [skip] bytes of the last
    match are still to be passed over. *)
Fixpoint split_str_go (p : string) (skip : nat) (cur s : string) : list string :=
  match s with
  | EmptyString => [cur]
  | String a s' =>
      match skip with
      | S k => split_str_go p k cur s'
      | O =>
          if starts_with p s then cur :: split_str_go p (strlen p - 1) "" s'
          else split_str_go p 0 (cur +:+ String a "") s'
      end
  end.
Definition split_str (p s : string) : list string := split_str_go p 0 "" s.

(** [s.find(p)] *)
Fixpoint find_str (p s : string) : option nat :=
  if starts_with p s then Some O
  else match s with EmptyString => None | String _ s' => S <$> find_str p s' end.

Fixpoint trim_start_matches (p : ascii → bool) (s : string) : string :=
  match s with
  | EmptyString => ""
  | String a s' => if p a then trim_start_matches p s' else s
  end.

(** [s.trim_matches(p)] for a test that every byte of a character outside
    ASCII passes or every one fails. *)
Definition trim_matches (p : ascii → bool) (s : string) : string :=
  String.rev (trim_start_matches p (String.rev (trim_start_matches p s))).

(** The stable [sort_by]: an element goes before the later ones it does not
    exceed. *)
Fixpoint insert_by {A} (le : A → A → bool) (x : A) (l : list A) : list A :=
  match l with
  | [] => [x]
  | y :: l' => if le x y then x :: l else y :: insert_by le x l'
  end.
Definition sort_by {A} (le : A → A → bool) (l : list A) : list A :=
  foldr (insert_by le) [] l.

(** [entries.flatten()] and [file_name().to_string_lossy()] *)
Definition entry_names (l : list (result string string)) : list string :=
  omap (λ e, from_utf8_lossy <$> ok e) l.

Section sysinfo.
Context {W} `{!OsOps W}.

(** [fs::read_to_string(p).map(|s| s.trim().to_string())] *)
Definition read_trim (p : string) (w : W) : result string string :=
  result_bind (fs_read p w) (λ s, Ok (trim s)).

Definition unwrap_or (d : string) (r : result string string) : string :=
  default d (ok r).

Definition hostname (w : W) : string :=
  unwrap_or "unknown" (read_trim "/proc/sys/kernel/hostname" w).

Definition kernel_release (w : W) : string :=
  unwrap_or "unknown" (read_trim "/proc/sys/kernel/osrelease" w).

(** [.ok().map(trim).filter(|s| !s.is_empty())] *)
Definition read_nonempty (p : string) (w : W) : option string :=
  s ← ok (read_trim p w); if is_empty s then None else Some s.

Definition vdsm_id (w : W) : string :=
  match read_nonempty "/etc/vdsm/vdsm.id" w with
  | Some s => s
  | None => default "00000000-0000-0000-0000-000000000000"
              (read_nonempty "/sys/class/dmi/id/product_uuid" w)
  end.

Definition kvm_enabled (w : W) : bool :=
  fs_exists "/sys/module/kvm" w || fs_exists "/dev/kvm" w.

(** ** Processors *)

Record CpuInfo := mkCpuInfo {
  model_name : string;
  flags : list string;
  mhz : f64;
  physical_cores : N;
  logical_cpus : N;
  sockets : N
}.

(** The variables of [cpu_info]; the last three are those of one block. *)
Record cpu_vars := mkCpuVars {
  cv_model : string;
  cv_flags : list string;
  cv_mhz : f64;
  cv_physical_ids : gset N;
  cv_core_ids : gset (N * N);
  cv_logical : N;
  cv_current_phys : option N;
  blk_phys : option N;
  blk_core : option N;
  saw_processor : bool
}.

Definition cpu_line (s : cpu_vars) (line : string) : cpu_vars :=
  let '(mkCpuVars model flags mhz phys cores logical cur bp bc saw) := s in
  match split_once ":" line with
  | None => s
  | Some (k, v) =>
      let k := trim k in
      let v := trim v in
      if String.eqb k "processor" then
        mkCpuVars model flags mhz phys cores (logical + 1) cur bp bc true
      else if String.eqb k "model name" && is_empty model then
        mkCpuVars v flags mhz phys cores logical cur bp bc saw
      else if String.eqb k "flags" && bool_decide (flags = []) then
        mkCpuVars model (split_whitespace v) mhz phys cores logical cur bp bc saw
      else if String.eqb k "cpu MHz" && fis_zero mhz then
        mkCpuVars model flags (default f64_zero (parse_f64 v)) phys cores logical cur bp bc saw
      else if String.eqb k "physical id" then
        mkCpuVars model flags mhz phys cores logical (parse_u32 v) (parse_u32 v) bc saw
      else if String.eqb k "core id" then
        mkCpuVars model flags mhz phys cores logical cur bp (parse_u32 v) saw
      else s
  end.

Definition or_else {A} (a b : option A) : option A :=
  match a with Some _ => a | None => b end.

Definition cpu_block (s : cpu_vars) (block : string) : cpu_vars :=
  let '(mkCpuVars model flags mhz phys cores logical cur bp bc saw) :=
    foldl cpu_line
      (mkCpuVars (cv_model s) (cv_flags s) (cv_mhz s) (cv_physical_ids s) (cv_core_ids s)
         (cv_logical s) (cv_current_phys s) None None false)
      (lines block) in
  if saw then
    let phys := match bp with Some p => {[p]} ∪ phys | None => phys end in
    let cores :=
      match or_else bp cur, bc with
      | Some p, Some c => {[(p, c)]} ∪ cores
      | _, _ => cores
      end in
    mkCpuVars model flags mhz phys cores logical cur bp bc saw
  else mkCpuVars model flags mhz phys cores logical cur bp bc saw.

Definition cpu_info_of (raw : string) : CpuInfo :=
  let s := foldl cpu_block (mkCpuVars "" [] f64_zero ∅ ∅ 0 None None None false)
             (split_str (String LF (String LF "")) raw) in
  {| model_name := if is_empty (cv_model s) then "unknown" else cv_model s;
     flags := cv_flags s;
     mhz := cv_mhz s;
     physical_cores := if bool_decide (cv_core_ids s = ∅) then N.max (cv_logical s) 1
                       else N.of_nat (size (cv_core_ids s));
     logical_cpus := N.max (cv_logical s) 1;
     sockets := N.max (N.of_nat (size (cv_physical_ids s))) 1 |}.

(** [fs::read_to_string(p).unwrap_or_default()] *)
Definition read_or_empty (p : string) (w : W) : string := unwrap_or "" (fs_read p w).

Definition cpu_info (w : W) : CpuInfo := cpu_info_of (read_or_empty "/proc/cpuinfo" w).

(** ** Memory and load *)

Record MemInfo := mkMemInfo {
  total_kb : N;
  free_kb : N;
  available_kb : N;
  buffers_kb : N;
  cached_kb : N;
  swap_total_kb : N;
  swap_free_kb : N
}.

Definition mem_line (m : MemInfo) (line : string) : MemInfo :=
  match split_once ":" line with
  | None => m
  | Some (k, v) =>
      let val := default 0 (head (split_whitespace (trim v)) ≫= parse_u64) in
      let '(mkMemInfo t f a b c st sf) := m in
      if String.eqb k "MemTotal" then mkMemInfo val f a b c st sf
      else if String.eqb k "MemFree" then mkMemInfo t val a b c st sf
      else if String.eqb k "MemAvailable" then mkMemInfo t f val b c st sf
      else if String.eqb k "Buffers" then mkMemInfo t f a val c st sf
      else if String.eqb k "Cached" then mkMemInfo t f a b val st sf
      else if String.eqb k "SwapTotal" then mkMemInfo t f a b c val sf
      else if String.eqb k "SwapFree" then mkMemInfo t f a b c st val
      else m
  end.

Definition mem_info_of (raw : string) : MemInfo :=
  foldl mem_line (mkMemInfo 0 0 0 0 0 0 0) (lines raw).

Definition mem_info (w : W) : MemInfo := mem_info_of (read_or_empty "/proc/meminfo" w).

Definition f64_token (o : option string) : f64 := default f64_zero (o ≫= parse_f64).

Definition loadavg_of (raw : string) : f64 * f64 * f64 :=
  let ts := split_whitespace raw in
  (f64_token (ts !! 0%nat), f64_token (ts !! 1%nat), f64_token (ts !! 2%nat)).

Definition loadavg (w : W) : f64 * f64 * f64 := loadavg_of (read_or_empty "/proc/loadavg" w).

Definition uptime_secs (w : W) : f64 :=
  f64_token (head (split_whitespace (read_or_empty "/proc/uptime" w))).

Definition os_release_line (m : gmap string string) (line : string) : gmap string string :=
  match split_once "=" line with
  | Some (k, v) => <[trim k := trim_matches (Ascii.eqb "034") (trim v)]> m
  | None => m
  end.

Definition os_release (w : W) : gmap string string :=
  foldl os_release_line ∅ (lines (read_or_empty "/etc/os-release" w)).

(** ** Network *)

Definition nic_names (w : W) : list string :=
  match fs_read_dir "/sys/class/net" w with
  | Err _ => []
  | Ok entries =>
      sort_by String.leb (List.filter (λ n, negb (String.eqb n "lo")) (entry_names entries))
  end.

Definition skip_nic (n : string) : bool :=
  String.eqb n "lo" || starts_with "virbr" n || starts_with "docker" n
  || starts_with "br-" n || starts_with "veth" n || starts_with "vnet" n
  || starts_with "ovirtmgmt" n.

Definition nic_up (w : W) (n : string) : bool :=
  let carrier := match read_trim ("/sys/class/net/" +:+ n +:+ "/carrier") w with
                 | Ok s => String.eqb s "1" | Err _ => false end in
  let operstate := unwrap_or "" (read_trim ("/sys/class/net/" +:+ n +:+ "/operstate") w) in
  carrier && (String.eqb operstate "up" || String.eqb operstate "unknown").

Definition mgmt_iface (w : W) : string :=
  let candidates := nic_names w in
  match List.find (λ n, negb (skip_nic n) && nic_up w n) candidates with
  | Some n => n
  | None => default "lo" (List.find (λ n, negb (skip_nic n)) candidates)
  end.

Definition iface_mac (name : string) (w : W) : string :=
  unwrap_or "00:00:00:00:00:00" (read_trim ("/sys/class/net/" +:+ name +:+ "/address") w).

Definition iface_mtu (name : string) (w : W) : string :=
  unwrap_or "1500" (read_trim ("/sys/class/net/" +:+ name +:+ "/mtu") w).

(** [u32::MAX.checked_shl(32 - prefix).unwrap_or(0)]; the subtraction wraps
    around in a release build, and a shift of 32 or more is refused. *)
Definition mask_of_prefix (prefix : N) : N :=
  let s := (32 + 2 ^ 32 - prefix) mod 2 ^ 32 in
  if s <? 32 then N.shiftl u32_max s mod 2 ^ 32 else 0.

Definition dotted (mask : N) : string :=
  to_string (N.land (N.shiftr mask 24) 255) +:+ "." +:+ to_string (N.land (N.shiftr mask 16) 255)
  +:+ "." +:+ to_string (N.land (N.shiftr mask 8) 255) +:+ "." +:+ to_string (N.land mask 255).

(** [s.parse::<Ipv4Addr>()]: four decimal numbers below 256, of one to three
    digits and without a leading zero unless it is the only digit. *)
Definition ipv4_octet (s : string) : bool :=
  (1 <=? strlen s)%nat && (strlen s <=? 3)%nat && str_all is_ascii_digit s
  && ((strlen s =? 1)%nat || negb (starts_with "0" s))
  && match digits_val 0 s with Some n => n <? 256 | None => false end.

Definition parse_ipv4 (s : string) : bool :=
  let parts := split_char "." s in
  (length parts =? 4)%nat && forallb ipv4_octet parts.

(** One token of the output of [ip]. *)
Definition ipv4_token (token : string) : option (string * string * string) :=
  match find_byte "/" token with
  | None => None
  | Some slash =>
      let ip := str_take slash token in
      let mask_str := str_drop slash token in
      if negb (length (split_char "." ip) =? 4)%nat then None
      else if negb (parse_ipv4 ip) then None
      else
        let prefix := default 24 (parse_u32 (str_drop 1 mask_str)) in
        Some (ip, token, dotted (mask_of_prefix prefix))
  end.

Fixpoint first_token {A} (f : string → option A) (ts : list string) : option A :=
  match ts with
  | [] => None
  | t :: ts' => match f t with Some a => Some a | None => first_token f ts' end
  end.

Definition iface_ipv4 (name : string) : st W (string * string * string) :=
  let! out := command_output "/usr/sbin/ip" ["-4"; "-o"; "addr"; "show"; name] in
  st_ret (match out with
          | Err _ => ("", "", "")
          | Ok o => default ("", "", "")
                      (first_token ipv4_token (split_whitespace (from_utf8_lossy (stdout o))))
          end).

Fixpoint after_via (ts : list string) : string :=
  match ts with
  | [] => ""
  | t :: ts' =>
      if String.eqb t "via" then match ts' with gw :: _ => gw | [] => "" end
      else after_via ts'
  end.

Definition default_gateway : st W string :=
  let! out := command_output "/usr/sbin/ip" ["-4"; "route"; "show"; "default"] in
  st_ret (match out with
          | Err _ => ""
          | Ok o => after_via (split_whitespace (from_utf8_lossy (stdout o)))
          end).

(** ** Firmware *)

Definition dmi_field (field : string) (w : W) : string :=
  match read_nonempty ("/sys/class/dmi/id/" +:+ field) w with
  | Some t => t
  | None => unwrap_or "" (read_trim ("/run/vdsm/" +:+ field) w)
  end.

Definition tsc_frequency_mhz (w : W) : string :=
  match ok (fs_read "/sys/devices/system/cpu/cpu0/cpufreq/base_frequency" w)
        ≫= (λ s, parse_u64 (trim s)) with
  | Some khz => fmt_fixed 1 (fdiv (f64_of_N khz) (f64_of_N 1000))
  | None =>
      let cpu := cpu_info w in
      if fltb f64_zero (mhz cpu) then fmt_fixed 1 (mhz cpu) else ""
  end.

(** ** Features *)

Definition model_tokens_from_flags (flags : list string) : list string :=
  let has f := existsb (λ x, String.eqb x f) flags in
  let push (b : bool) ts := if b then ts else [] in
  push (has "ssse3") ["model_Conroe"; "model_Penryn"]
  ++ push (has "sse4_2" && has "popcnt") ["model_Nehalem"]
  ++ push (has "aes" && has "pclmulqdq") ["model_Westmere"]
  ++ push (has "avx") ["model_SandyBridge"]
  ++ push (has "f16c" && has "rdrand") ["model_IvyBridge"]
  ++ push (has "avx2" && has "bmi2") ["model_Haswell-noTSX"; "model_Haswell"]
  ++ push (has "adx" && has "rdseed") ["model_Broadwell-noTSX"; "model_Broadwell"]
  ++ push (has "xsavec" && has "xsaves")
       ["model_Skylake-Client-noTSX-IBRS"; "model_Skylake-Client"]
  ++ push (has "clwb") ["model_Skylake-Server-noTSX-IBRS"; "model_Skylake-Server"]
  ++ push (has "avx512vnni") ["model_Cascadelake-Server-noTSX"; "model_Cascadelake-Server"]
  ++ push (has "gfni" && has "vaes") ["model_Icelake-Server-noTSX"]
  ++ push (has "amx_tile") ["model_SapphireRapids"]
  ++ push (has "svm")
       (["model_Opteron_G1"; "model_Opteron_G2"]
        ++ push (has "sse4a") ["model_Opteron_G3"]
        ++ push (has "avx") ["model_Opteron_G4"]
        ++ push (has "avx" && has "xop") ["model_Opteron_G5"]
        ++ push (has "avx2") ["model_EPYC"; "model_EPYC-Rome"]
        ++ push (has "avx512f") ["model_EPYC-Genoa"]).

(** What [/sys/fs/selinux/enforce] says, if it says anything. *)
Definition selinux_enforce (w : W) : option Z :=
  match fs_open_read 16 "/sys/fs/selinux/enforce" w with
  | Ok b =>
      let t := trim (default "" (ok (from_utf8 b))) in
      if String.eqb t "1" then Some 1%Z else if String.eqb t "0" then Some 0%Z else None
  | Err _ => None
  end.

Definition selinux_mode : st W Z := λ w,
  match selinux_enforce w with
  | Some z => (z, w)
  | None =>
      (let! out := command_output "/usr/sbin/getenforce" [] in
       st_ret (match out with
               | Ok o =>
                   if status_success o then
                     let t := trim (from_utf8_lossy (stdout o)) in
                     if String.eqb t "Enforcing" then 1
                     else if String.eqb t "Permissive" then 0 else -1
                   else -1
               | Err _ => -1
               end)%Z) w
  end.

Definition fips_enabled (w : W) : bool :=
  match read_trim "/proc/sys/crypto/fips_enabled" w with
  | Ok s => String.eqb s "1" | Err _ => false end.

Definition hugepage_size (name : string) : option N :=
  rest ← strip_prefix "hugepages-" name;
  num ← strip_suffix "kB" rest;
  parse_u64 num.

Definition hugepage_sizes_kb (w : W) : list N :=
  match fs_read_dir "/sys/kernel/mm/hugepages" w with
  | Err _ => []
  | Ok entries => sort_by N.leb (omap hugepage_size (entry_names entries))
  end.

(** ** NUMA nodes *)

(** [a..=b] *)
Definition range_incl (a b : N) : list N :=
  (λ i, a + N.of_nat i) <$> seq 0 (N.to_nat (b + 1 - a)).

Definition cpulist_part (part : string) : list N :=
  match split_once "-" part with
  | Some (a, b) =>
      match parse_u32 a, parse_u32 b with
      | Some a, Some b => range_incl a b
      | _, _ => []
      end
  | None => match parse_u32 part with Some c => [c] | None => [] end
  end.

Definition cpulist (s : string) : list N :=
  concat (cpulist_part <$> split_char "," (trim s)).

(** The first line that has the total; its last word but one. *)
Definition node_total_kb (mi : string) : N :=
  match List.find (contains "MemTotal:") (lines mi) with
  | Some line => match rev (split_whitespace line) !! 1%nat with
                 | Some num => default 0 (parse_u64 num)
                 | None => 0
                 end
  | None => 0
  end.

Definition node_dir : string := "/sys/devices/system/node".

Definition numa_node (w : W) (name : string) : option (N * list N * N) :=
  idx_str ← strip_prefix "node" name;
  idx ← parse_u32 idx_str;
  let cpus := match fs_read (node_dir +:+ "/" +:+ name +:+ "/cpulist") w with
              | Ok l => cpulist l | Err _ => [] end in
  let total := match fs_read (node_dir +:+ "/" +:+ name +:+ "/meminfo") w with
               | Ok mi => node_total_kb mi | Err _ => 0 end in
  Some (idx, cpus, total / 1024).

Definition numa_nodes (w : W) : list (N * list N * N) :=
  match fs_read_dir node_dir w with
  | Err _ => []
  | Ok entries =>
      sort_by (λ x y, N.leb x.1.1 y.1.1) (omap (numa_node w) (entry_names entries))
  end.

Definition numa_distances (w : W) : list (N * list N) :=
  (λ x : N * list N * N,
     let idx := x.1.1 in
     (idx, match fs_read (node_dir +:+ "/node" +:+ to_string idx +:+ "/distance") w with
           | Ok s => omap parse_u32 (split_whitespace (trim s))
           | Err _ => []
           end)) <$> numa_nodes w.

Definition boot_time_secs (w : W) : N :=
  match fs_read "/proc/stat" w with
  | Err _ => 0
  | Ok s => default 0 (first_token (strip_prefix "btime ") (lines s) ≫= (λ r, parse_u64 (trim r)))
  end.

(** ** Programs *)

Definition virsh_capabilities : st W (result Output string) :=
  command_output "/usr/bin/virsh" ["-c"; "qemu:///system"; "capabilities"].

Definition default_emulated_machines : list string :=
  ["q35"; "pc"; "pc-q35-rhel9.6.0"; "pc-i440fx-rhel7.6.0"].

Definition push_machine (ms : list string) (m : string) : list string :=
  if existsb (String.eqb m) ms then ms else ms ++ [m].

Definition machine_tag (ms : list string) (tag : string) : list string :=
  match find_str "</machine>" tag with
  | None => ms
  | Some end_ =>
      let inner := str_take end_ tag in
      match find_byte ">" inner with
      | None => ms
      | Some gt =>
          let name := trim (str_drop (S gt) inner) in
          if starts_with "pc-" name || String.eqb name "q35" || String.eqb name "pc"
          then push_machine ms name else ms
      end
  end.

Definition rhel_aliases : list string :=
  ["pc-q35-rhel9.6.0"; "pc-q35-rhel9.4.0"; "pc-q35-rhel9.2.0";
   "pc-q35-rhel8.6.0"; "pc-q35-rhel8.4.0";
   "pc-i440fx-rhel7.6.0"; "pc-i440fx-rhel7.5.0"].

Definition machines_of (xml : string) : list string :=
  match foldl machine_tag [] (split_str "<machine" xml) with
  | [] => default_emulated_machines
  | ms => foldl push_machine ms rhel_aliases
  end.

Definition emulated_machines : st W (list string) :=
  let! out := virsh_capabilities in
  st_ret (match out with
          | Ok o => if status_success o then machines_of (from_utf8_lossy (stdout o))
                    else default_emulated_machines
          | Err _ => default_emulated_machines
          end).

Definition version_token (tok : string) : option string :=
  if negb (str_all (λ c, negb (is_ascii_digit c)) tok) && has_byte "." tok
  then Some (trim_matches (λ c, negb (is_ascii_digit c) && negb (Ascii.eqb c ".")) tok)
  else None.

Definition first_word_version (cmd : string) (args : list string) : st W string :=
  let! out := command_output cmd args in
  st_ret (match out with
          | Ok o => if status_success o
                    then default "" (first_token version_token
                                       (split_whitespace (from_utf8_lossy (stdout o))))
                    else ""
          | Err _ => ""
          end).

(** The rest of the first line of the output that starts with [prefix]. *)
Definition version_line (args : list string) (prefix : string) : st W string :=
  let! out := command_output "/usr/bin/virsh" args in
  st_ret (match out with
          | Ok o => default "" (trim <$> first_token (λ l, strip_prefix prefix (trim l))
                                            (lines (from_utf8_lossy (stdout o))))
          | Err _ => ""
          end).

Definition libvirt_version : st W string :=
  version_line ["-c"; "qemu:///system"; "version"; "--daemon"] "Using library: libvirt ".
Definition kvm_version : st W string :=
  version_line ["-c"; "qemu:///system"; "version"] "Running hypervisor: QEMU ".

Definition spice_version : st W string :=
  first_word_version "pkg-config" ["--modversion"; "spice-server"].
Definition gluster_version : st W string := first_word_version "/usr/sbin/gluster" ["--version"].
Definition ceph_version : st W string := first_word_version "/usr/bin/ceph" ["--version"].
Definition openvswitch_version : st W string :=
  first_word_version "/usr/sbin/ovs-vsctl" ["--version"].
Definition nmstate_version : st W string := first_word_version "/usr/bin/nmstatectl" ["--version"].

Definition vuln_dir : string := "/sys/devices/system/cpu/vulnerabilities".

Definition kernel_features (w : W) : gmap string string :=
  match fs_read_dir vuln_dir w with
  | Err _ => ∅
  | Ok entries =>
      foldl (λ m name, match read_trim (vuln_dir +:+ "/" +:+ name) w with
                       | Ok v => <[name := v]> m
                       | Err _ => m
                       end) ∅ (entry_names entries)
  end.

Definition numa_node_count (w : W) : N :=
  match fs_read_dir node_dir w with
  | Err _ => 1
  | Ok entries =>
      N.max 1 (N.of_nat (length (List.filter
        (λ name, starts_with "node" name && str_all is_ascii_digit (str_drop 4 name))
        (entry_names entries))))
  end.
End sysinfo.
