(* ===== verification/Host.v ===== *)
(** * The host verbs (crates/vdsm-host: caps.rs, stats.rs, hardware.rs, ping.rs,
    setup_networks.rs, vm_stats.rs)

    An object of the [json!] macro whose fields run commands is a list of
    fields with a computation each, run in the order they are written. *)

From stdpp Require Import options.
From S2P Require Import Prelude Utf8 RustStr Float64 Calendar Json Rpc Os Sysinfo Virt.

Definition CLAIMED_VDSM_VERSION : string := "4.50.7".
Definition VDSM_RS_VERSION : string := "4.5.7".

Section host.
Context {V} `{JsonOps V}.

(** ** Packages *)

Definition pkg_version (v : string) : V :=
  if is_empty v then jobj [] else jobj [("version", jstr v); ("release", jstr "")].

Definition pkg_split (v : string) : V :=
  if is_empty v then jobj []
  else match split_once "-" v with
       | Some (ver, rel) => jobj [("version", jstr ver); ("release", jstr rel)]
       | None => jobj [("version", jstr v); ("release", jstr "")]
       end.

Context {W} `{OsOps W}.

(** ** Objects with effects *)

Definition reads {A} (f : W → A) : st W A := λ w, (f w, w).

(** A field that only reads, and one whose command returns a string. *)
Definition rd (f : W → string) : st W V := λ w, (jstr (f w), w).
Definition cmd (m : st W string) : st W V := let! s := m in st_ret (jstr s).
Definition val (v : V) : st W V := st_ret v.

Fixpoint eval_fields (fs : list (string * st W V)) : st W (list (string * V)) :=
  match fs with
  | [] => st_ret []
  | (k, m) :: fs' =>
      let! v := m in
      let! l := eval_fields fs' in
      st_ret ((k, v) :: l)
  end.

Definition obj (fs : list (string * st W V)) : st W V :=
  let! l := eval_fields fs in st_ret (jobj l).

Definition jstrs (l : list string) : V := jarr (jstr <$> l).
Definition jmap (m : gmap string string) : V :=
  jobj ((λ kv : string * string, (kv.1, jstr kv.2)) <$> map_to_list m).
Definition jnums (l : list N) : V := jarr ((λ n, jint (Z.of_N n)) <$> l).

(** ** Host.getStats *)

Definition nic_stats : V :=
  jobj [("rx", jstr "0"); ("tx", jstr "0"); ("rxDropped", jstr "0"); ("txDropped", jstr "0");
        ("rxErrors", jstr "0"); ("txErrors", jstr "0"); ("speed", jstr "1000");
        ("state", jstr "up"); ("name", jstr ""); ("sampleTime", jint 0);
        ("rxRate", jstr "0.0"); ("txRate", jstr "0.0")].

Definition stats_of (mem : MemInfo) (load : f64 * f64 * f64) (nics : list string)
  (uptime : f64) (now : N) : V :=
  let '(load1, load5, load15) := load in
  let total := N.max (total_kb mem) 1 in
  let used := (total - available_kb mem)%N in
  let used_pct := fdiv (fmul (f64_of_N used) (f64_of_N 100)) (f64_of_N total) in
  let hundred := f64_of_N 100 in
  jobj
    [("cpuLoad", jstr (fmt_fixed 2 load1));
     ("cpuIdle", jstr (fmt_fixed 2 (fsub hundred (fmin used_pct hundred))));
     ("cpuSys", jstr "0.00"); ("cpuUser", jstr "0.00");
     ("cpuSysVdsmd", jstr "0.00"); ("cpuUserVdsmd", jstr "0.00");
     ("loadAvg", jobj [("1min", jstr (fmt_fixed 2 load1)); ("5min", jstr (fmt_fixed 2 load5));
                       ("15min", jstr (fmt_fixed 2 load15))]);
     ("memUsed", jstr (to_string used));
     ("memFree", jstr (to_string (free_kb mem / 1024)));
     ("memAvailable", jstr (to_string (available_kb mem / 1024)));
     ("memCommitted", jstr "0");
     ("swapTotal", jstr (to_string (swap_total_kb mem / 1024)));
     ("swapFree", jstr (to_string (swap_total_kb mem / 1024)));
     ("ksmCpu", jstr "0"); ("ksmPages", jstr "0"); ("ksmState", jbool false);
     ("elapsedTime", jstr (fmt_fixed 0 uptime));
     ("network", jobj ((λ n, (n, nic_stats)) <$> nics ++ ["ovirtmgmt"]));
     ("cpuStatistics", jobj []);
     ("numaNodeMemFree", jobj [("0", jstr "0")]);
     ("memShared", jstr "0"); ("guestOverhead", jstr "0"); ("statusTime", jstr "0");
     ("netConfigDirty", jstr "false"); ("status", jstr "Up");
     ("imagesLastCheck", jf64 f64_zero); ("imagesLastDelay", jf64 f64_zero);
     ("transparentHugePages", jint 0); ("kdumpStatus", jint 0);
     ("bootTime", jstr "0"); ("dateTime", jstr (iso_utc now)); ("timeOffset", jstr "0");
     ("haStats", jobj [("active", jbool false)]);
     ("vmCount", jint 0); ("vmActive", jint 0); ("vmMigrating", jint 0);
     ("incomingVmMigrations", jint 0); ("outgoingVmMigrations", jint 0);
     ("anonHugePages", jstr "0"); ("diskStats", jobj []); ("thpState", jstr "always");
     ("boot_time", jstr "0")]%N.

Definition get_stats (_ : V) : st W (result V (JsonRpcError V)) := λ w,
  (Ok (stats_of (mem_info w) (loadavg w) (nic_names w) (uptime_secs w) (now_secs w)), w).

(** ** Host.getHardwareInfo and the verbs that accept everything *)

Definition get_hardware_info (_ : V) : st W (result V (JsonRpcError V)) := λ w,
  let uuid := let u := dmi_field "product_uuid" w in if is_empty u then vdsm_id w else u in
  (Ok (jobj [("systemManufacturer", jstr (dmi_field "sys_vendor" w));
             ("systemProductName", jstr (dmi_field "product_name" w));
             ("systemSerialNumber", jstr (dmi_field "product_serial" w));
             ("systemVersion", jstr (dmi_field "product_version" w));
             ("systemUUID", jstr uuid);
             ("systemFamily", jstr (dmi_field "sys_family" w));
             ("cpuModel", jstr (model_name (cpu_info w)))]), w).

Definition hostdev_list_by_caps (_ : V) : st W (result V (JsonRpcError V)) := st_ret (Ok (jobj [])).
Definition set_mom_policy_parameters (_ : V) : st W (result V (JsonRpcError V)) :=
  st_ret (Ok (jobj [])).
Definition set_mom_policy (_ : V) : st W (result V (JsonRpcError V)) := st_ret (Ok (jobj [])).
Definition setup_networks (_ : V) : st W (result V (JsonRpcError V)) := st_ret (Ok (jobj [])).
Definition set_safe_network_config (_ : V) : st W (result V (JsonRpcError V)) :=
  st_ret (Ok (jobj [])).

Definition ping2 (_ : V) : st W (result V (JsonRpcError V)) :=
  st_ret (Ok (jobj [("status", jobj [("code", jint 0); ("message", jstr "Done")])])).

(** ** Host.getCapabilities *)

Definition cpu_flags_str (fl : list string) : string :=
  join "," (fl ++ model_tokens_from_flags fl).

(** The packages whose version is known, asked for in this order. *)
Fixpoint add_packages (ps : list (string * st W string)) (pkgs : list (string * V))
  : st W (list (string * V)) :=
  match ps with
  | [] => st_ret pkgs
  | (name, m) :: ps' =>
      let! v := m in
      add_packages ps' (if is_empty v then pkgs else pkgs ++ [(name, pkg_version v)])
  end.

Definition packages (w0 : W) : st W (list (string * V)) :=
  add_packages
    [("qemu-kvm", kvm_version); ("qemu-img", kvm_version); ("libvirt", libvirt_version);
     ("spice-server", spice_version); ("gluster", gluster_version);
     ("glusterfs-cli", gluster_version); ("librbd1", ceph_version);
     ("openvswitch", openvswitch_version); ("nmstate", nmstate_version)]
    [("vdsm", jobj [("version", jstr CLAIMED_VDSM_VERSION);
                    ("release", jstr ("vdsm-rs-" +:+ VDSM_RS_VERSION))]);
     ("kernel", pkg_split (kernel_release w0))].

Definition numa_dicts (w : W) : V :=
  jobj ((λ x : N * list N * N,
           (to_string x.1.1, jobj [("cpus", jnums x.1.2); ("totalMemory", jstr (to_string x.2))]))
        <$> numa_nodes w).
Definition numa_dist_dicts (w : W) : V :=
  jobj ((λ x : N * list N, (to_string x.1, jnums x.2)) <$> numa_distances w).

(** [sysinfo::iface_ipv4(&sysinfo::mgmt_iface())] and one of its parts. *)
Definition mgmt_ipv4 : st W (string * string * string) := λ w, iface_ipv4 (mgmt_iface w) w.
Definition mgmt_addr : st W V := let! t := mgmt_ipv4 in st_ret (jstr t.1.1).
Definition mgmt_cidr : st W V := let! t := mgmt_ipv4 in st_ret (jarr [jstr t.1.2]).
Definition mgmt_netmask : st W V := let! t := mgmt_ipv4 in st_ret (jstr t.2).
Definition mgmt_mtu : st W V := rd (λ w, iface_mtu (mgmt_iface w) w).
Definition mgmt_mac : st W V := rd (λ w, iface_mac (mgmt_iface w) w).

Definition nic_entry : st W V :=
  obj [("addr", mgmt_addr); ("cfg", val (jobj [])); ("mtu", mgmt_mtu); ("netmask", mgmt_netmask);
       ("ipv4addrs", mgmt_cidr); ("ipv6addrs", val (jarr [])); ("hwaddr", mgmt_mac);
       ("speed", val (jint 1000)); ("state", val (jstr "up")); ("duplex", val (jstr "full"));
       ("ad_aggregator_id", val (jstr "0")); ("permhwaddr", mgmt_mac);
       ("dhcpv4", val (jbool false)); ("dhcpv6", val (jbool false));
       ("ipv4defaultroute", val (jbool true)); ("gateway", cmd default_gateway);
       ("ipv6gateway", val (jstr "")); ("ipv6autoconf", val (jbool false))].

Definition bridge_entry : st W V :=
  obj [("addr", mgmt_addr); ("cfg", val (jobj [])); ("ipv4addrs", mgmt_cidr);
       ("ipv6addrs", val (jarr [])); ("mtu", mgmt_mtu); ("netmask", mgmt_netmask);
       ("stp", val (jstr "off")); ("ports", reads (λ w, jarr [jstr (mgmt_iface w)]));
       ("dhcpv4", val (jbool false)); ("dhcpv6", val (jbool false));
       ("gateway", cmd default_gateway); ("ipv6gateway", val (jstr ""));
       ("ipv4defaultroute", val (jbool true)); ("ipv6autoconf", val (jbool false));
       ("opts", val (jobj []))].

Definition network_entry : st W V :=
  obj [("iface", val (jstr "ovirtmgmt")); ("bridge", val (jstr "ovirtmgmt"));
       ("bridged", val (jbool true)); ("addr", mgmt_addr); ("ipv4addrs", mgmt_cidr);
       ("ipv6addrs", val (jarr [])); ("netmask", mgmt_netmask); ("mtu", mgmt_mtu);
       ("stp", val (jstr "off")); ("ports", reads (λ w, jarr [jstr (mgmt_iface w)]));
       ("switch", val (jstr "legacy")); ("dhcpv4", val (jbool false));
       ("dhcpv6", val (jbool false)); ("gateway", cmd default_gateway);
       ("ipv6gateway", val (jstr "")); ("ipv4defaultroute", val (jbool true));
       ("ipv6autoconf", val (jbool false)); ("southbound", rd mgmt_iface)].

(** [json!({ sysinfo::mgmt_iface(): {...} })] *)
Definition nics_entry : st W V := λ w,
  (let! v := nic_entry in st_ret (jobj [(mgmt_iface w, v)])) w.

Definition selinux_json : st W V := let! z := selinux_mode in st_ret (jint z).

Definition cmdline (w : W) : string := trim (read_or_empty "/proc/cmdline" w).

Definition cluster_levels : V := jstrs ["4.8"; "4.7"; "4.6"; "4.5"; "4.4"].

Definition os_field (os : gmap string string) (k d : string) : string := default d (os !! k).

(** The fields of the answer, with what was computed before them. *)
Definition capability_fields (cpu : CpuInfo) (mem : MemInfo) (os : gmap string string) (load1 : f64)
  (pkgs : list (string * V)) (numa dist : V) (hugepages : list N) (emulated : list string)
  : list (string * st W V) :=
  [("uuid", rd vdsm_id); ("hostname", rd hostname);
   ("kvmEnabled", rd (λ w, if kvm_enabled w then "true" else "false"));
   ("cpuSpeed", val (jstr (fmt_fixed 1 (if fltb f64_zero (mhz cpu) then mhz cpu
                                        else f64_of_N 2400))));
   ("cpuCores", val (jstr (to_string (physical_cores cpu))));
   ("cpuThreads", val (jstr (to_string (logical_cpus cpu))));
   ("cpuSockets", val (jstr (to_string (sockets cpu))));
   ("cpuModel", val (jstr (model_name cpu)));
   ("cpuFlags", val (jstr (cpu_flags_str (flags cpu))));
   ("onlineCpus", val (jstr (to_string (logical_cpus cpu))));
   ("cpuLoad", val (jstr (fmt_fixed 2 load1)));
   ("memSize", val (jstr (to_string (total_kb mem / 1024))));
   ("freeMem", val (jstr (to_string (available_kb mem / 1024))));
   ("software_version", val (jstr CLAIMED_VDSM_VERSION));
   ("vdsm_rs_version", val (jstr VDSM_RS_VERSION));
   ("kernel", rd kernel_release);
   ("operatingSystem",
      obj [("name", val (jstr (os_field os "NAME" "Linux")));
           ("version", val (jstr (os_field os "VERSION_ID" "")));
           ("release", rd (λ w, os_field os "BUILD_ID" (kernel_release w)));
           ("pretty_name", val (jstr (os_field os "PRETTY_NAME" "")))]);
   ("boot_time", rd (λ w, to_string (boot_time_secs w)));
   ("bootTime", rd (λ w, to_string (boot_time_secs w)));
   ("kvm_version", cmd kvm_version); ("kvmVersion", cmd kvm_version);
   ("libvirt_version", cmd libvirt_version); ("libvirtVersion", cmd libvirt_version);
   ("kernel_version", rd kernel_release); ("kernelVersion", rd kernel_release);
   ("version_name", val (jstr "Software Version"));
   ("spice_version", cmd spice_version); ("spiceVersion", cmd spice_version);
   ("gluster_version", cmd gluster_version); ("glusterVersion", cmd gluster_version);
   ("glusterfs_cli_version", cmd gluster_version);
   ("ceph_version", cmd ceph_version); ("cephVersion", cmd ceph_version);
   ("librbd1_version", cmd ceph_version);
   ("openvswitch_version", cmd openvswitch_version);
   ("nmstate_version", cmd nmstate_version); ("nmstateVersion", cmd nmstate_version);
   ("rpm_version", val (jstr ("vdsm-rs-" +:+ VDSM_RS_VERSION +:+ "-fc44")));
   ("hw_version", rd (dmi_field "bios_version")); ("hwVersion", rd (dmi_field "bios_version"));
   ("systemSerialNumber", rd (dmi_field "product_serial"));
   ("hwSerialNumber", rd (dmi_field "product_serial"));
   ("serial", rd (dmi_field "product_serial"));
   ("tscFrequency", rd tsc_frequency_mhz); ("tsc_frequency", rd tsc_frequency_mhz);
   ("systemManufacturer", rd (dmi_field "sys_vendor"));
   ("systemProductName", rd (dmi_field "product_name"));
   ("systemSerialNumber", rd (dmi_field "product_serial"));
   ("systemVersion", rd (dmi_field "bios_version"));
   ("systemFamily", rd (dmi_field "sys_family"));
   ("kernel_features", reads (λ w, jmap (kernel_features w)));
   ("kernelFeatures", reads (λ w, jmap (kernel_features w)));
   ("kernelArgs", rd cmdline); ("kernel_args", rd cmdline);
   ("vncEncrypted", val (jbool false)); ("ovnConfigured", val (jbool false));
   ("openvswitch", val (jbool false)); ("nmstate", val (jobj []));
   ("packages2", val (jobj pkgs));
   ("nics", nics_entry); ("bonds", val (jobj [])); ("vlans", val (jobj []));
   ("bridges", obj [("ovirtmgmt", bridge_entry)]);
   ("networks", obj [("ovirtmgmt", network_entry)]);
   ("numaNodes", val numa); ("numaNodeDistance", val dist); ("autoNumaBalancing", val (jint 2));
   ("hugepages", val (jnums hugepages)); ("hostdevPassthrough", val (jstr "false"));
   ("supportedRHEVMs", val cluster_levels); ("supportedENGINEs", val cluster_levels);
   ("clusterLevels", val cluster_levels); ("supportedProtocols", val (jstrs ["2.2"; "2.3"]));
   ("selinux", obj [("mode", selinux_json)]); ("selinux_enforce_mode", selinux_json);
   ("additionalFeatures", val (jarr [])); ("fipsEnabled", reads (λ w, jbool (fips_enabled w)));
   ("liveMerge", val (jstr "true")); ("liveSnapshot", val (jstr "true"));
   ("openSessions", val (jint 0)); ("emulatedMachines", val (jstrs emulated));
   ("vmTypes", val (jstrs ["kvm"]));
   ("HBAInventory", val (jobj [("iSCSI", jarr []); ("FC", jarr [])]));
   ("rngSources", val (jstrs ["random"; "hwrng"])); ("reservedMem", val (jstr "321"));
   ("hooks", val (jobj []))]%N.

(** The code first builds another map, [info], from files only, and drops it
    (see [Caps]). *)
Definition get_capabilities (_ : V) : st W (result V (JsonRpcError V)) := λ w0,
  (let! pkgs := packages w0 in
   let! numa := reads numa_dicts in
   let! dist := reads numa_dist_dicts in
   let! hugepages := reads hugepage_sizes_kb in
   let! emulated := emulated_machines in
   let! caps := obj (capability_fields (cpu_info w0) (mem_info w0) (os_release w0) (loadavg w0).1.1
                       pkgs numa dist hugepages emulated) in
   st_ret (Ok caps)) w0.
End host.

(** ** Host.getAllVmStats *)

Section vm_stats.
Context {V} `{JsonOps V} {W} `{VirshOps W}.

(** The order of [HashMap::values] is not specified; here it is that of the
    map's elements. *)
Definition get_all_vm_stats (_ : V) : st (vms W) (result V (JsonRpcError V)) :=
  let! _ := reconcile_from_libvirt in
  λ s, (Ok (jarr ((λ kv : string * VmRecord, record_to_stats (clock (host s)) kv.2)
                  <$> map_to_list (registry s))), s).
End vm_stats.
