(* ===== verification/HostFacts.v ===== *)
(** * Properties of the host verbs

    The numbers the engine reads are the numbers the kernel prints: load
    averages, netmasks, processor lists and the processor topology. *)

From stdpp Require Import options.
From Stdlib Require Import Sorted.
From S2P Require Import Prelude Utf8 RustStr Float64 Calendar Json Rpc Os Sysinfo Virt Host.

(** ** Words of a line *)

Lemma split_ws_go_solid cur tok rest :
  str_all solid tok = true → cur +:+ tok ≠ "" →
  split_ws_go cur (tok +:+ String " " rest) = (cur +:+ tok) :: split_ws_go "" rest.
Proof.
  revert cur. induction tok as [|a tok IH]; intros cur Ht Hne.
  - rewrite app_nil_r_str in *. rewrite app_nil_l_str. cbn [split_ws_go].
    change (ws1 " ") with true. cbn iota. by destruct cur.
  - cbn [str_all] in Ht. breflect. rewrite app_String. cbn [split_ws_go].
    assert (ws1 a = false) as -> by (unfold solid in *; by breflect).
    assert (cur +:+ String a tok = (cur +:+ String a "") +:+ tok) as E
      by (by rewrite app_assoc_str, app_String, app_nil_l_str).
    rewrite IH, <- E by (first [done|by rewrite <- E]).
    destruct (tok +:+ String " " rest) as [|b s2]; [done|].
    destruct (solid_ws2 a b) as [-> _]; [done|]. destruct s2 as [|c s3]; [done|].
    by destruct (solid_ws3 a b c) as [-> _].
Qed.

Lemma split_whitespace_word tok rest :
  str_all solid tok = true → tok ≠ "" →
  split_whitespace (tok +:+ String " " rest) = tok :: split_whitespace rest.
Proof. intros. unfold split_whitespace. by rewrite split_ws_go_solid. Qed.

Lemma show_fixed_solid k n : str_all solid (show_fixed k n) = true ∧ show_fixed k n ≠ "".
Proof.
  destruct (show_fixed_parts k n) as (a & b & Ha & Hb & Hne & _ & _ & ->).
  assert (∀ s, str_all is_ascii_digit s = true → str_all solid s = true) as Hd
    by (intros; by eapply str_all_impl; [apply digits_solid|]).
  split; [|destruct a; done]. rewrite str_all_app, (Hd a Ha). simpl.
  destruct b as [|x b]; cbn [is_empty]; [done|]. rewrite app_String, app_nil_l_str.
  cbn [str_all]. change (solid ".") with true. apply (Hd _ Hb).
Qed.

(** ** Load averages *)

(** A load average as the kernel prints it is read and printed back. *)
Lemma f64_token_fixed n :
  (n < 2 ^ 52)%N → fmt_fixed 2 (f64_token (Some (show_fixed 2 n))) = show_fixed 2 n.
Proof.
  intros Hn. pose proof (fmt_parse_fixed 2 n ltac:(lia) Hn) as E. unfold f64_token.
  cbn [mbind option_bind]. destruct (parse_f64 (show_fixed 2 n)); naive_solver.
Qed.

(** The file /proc/loadavg. *)
Definition loadavg_file (a b c : N) (rest : string) : string :=
  show_fixed 2 a +:+ String " " (show_fixed 2 b +:+ String " " (show_fixed 2 c +:+ String " " rest)).

Lemma loadavg_of_file a b c rest :
  loadavg_of (loadavg_file a b c rest) =
  (f64_token (Some (show_fixed 2 a)), f64_token (Some (show_fixed 2 b)),
   f64_token (Some (show_fixed 2 c))).
Proof.
  unfold loadavg_of, loadavg_file.
  destruct (show_fixed_solid 2 a), (show_fixed_solid 2 b), (show_fixed_solid 2 c).
  by rewrite !split_whitespace_word.
Qed.

(** ** Netmasks *)

Local Open Scope N_scope.

Lemma mask_of_prefix_value p :
  p ≤ 32 → mask_of_prefix p = 2 ^ 32 - 2 ^ (32 - p).
Proof.
  intros Hp. assert (forallb (λ p, mask_of_prefix p =? 2 ^ 32 - 2 ^ (32 - p))
                       (N.of_nat <$> seq 0 33) = true) as Hall by (vm_compute; reflexivity).
  rewrite forallb_forall in Hall. apply N.eqb_eq, Hall, list_elem_of_In, list_elem_of_fmap.
  exists (N.to_nat p). split; [lia|]. apply elem_of_seq. lia.
Qed.

Lemma mask_of_prefix_wide p : 32 < p ≤ u32_max → mask_of_prefix p = 0.
Proof.
  unfold u32_max. intros Hp. unfold mask_of_prefix.
  change (2 ^ 32) with 4294967296. rewrite N.mod_small by lia.
  destruct (N.ltb_spec (32 + 4294967296 - p) 32); [lia|done].
Qed.

(** Bit [i] of a netmask (31 is the first) is set exactly in its prefix. *)
Lemma mask_of_prefix_bits p i :
  p ≤ 32 → i < 32 → N.testbit (mask_of_prefix p) i = (32 - p <=? i).
Proof.
  intros Hp Hi. unfold mask_of_prefix. change (2 ^ 32) with 4294967296.
  assert ((32 + 4294967296 - p) mod 4294967296 = 32 - p) as ->.
  { replace (32 + 4294967296 - p) with (32 - p + 1 * 4294967296) by lia.
    rewrite N.Div0.mod_add. apply N.mod_small. lia. }
  destruct (N.ltb_spec (32 - p) 32) as [Hlt|Hge].
  - change 4294967296 with (2 ^ 32). rewrite N.mod_pow2_bits_low by lia.
    destruct (N.leb_spec (32 - p) i).
    + rewrite N.shiftl_spec_high' by lia. change u32_max with (N.ones 32).
      apply N.ones_spec_low. lia.
    + by apply N.shiftl_spec_low.
  - rewrite N.bits_0. symmetry. apply N.leb_gt. lia.
Qed.

(** The address written with dots. *)
Definition quad (a b c d : N) : string :=
  to_string a +:+ "." +:+ to_string b +:+ "." +:+ to_string c +:+ "." +:+ to_string d.

Lemma dotted_quad a b c d :
  a < 256 → b < 256 → c < 256 → d < 256 →
  dotted (((a * 256 + b) * 256 + c) * 256 + d) = quad a b c d.
Proof.
  intros Ha Hb Hc Hd. unfold dotted, quad. change 255 with (N.ones 8).
  rewrite !N.land_ones, !N.shiftr_div_pow2. change (2 ^ 8) with 256. change (2 ^ 16) with (256 * 256).
  change (2 ^ 24) with (256 * (256 * 256)).
  assert (∀ x y, y < 256 → (x * 256 + y) / 256 = x) as Hdiv.
  { intros x y Hy. rewrite N.div_add_l by lia. rewrite N.div_small by lia. lia. }
  assert (∀ x y, y < 256 → (x * 256 + y) mod 256 = y) as Hmod.
  { intros x y Hy. rewrite N.add_comm, N.Div0.mod_add. by apply N.mod_small. }
  rewrite <- !N.Div0.div_div, !Hdiv, !Hmod, (N.mod_small a) by done. done.
Qed.

Lemma ipv4_octet_to_string a : a < 256 → ipv4_octet (to_string a) = true.
Proof.
  intros Ha. assert (forallb (λ a, ipv4_octet (to_string a)) (N.of_nat <$> seq 0 256) = true)
    as Hall by (vm_compute; reflexivity).
  rewrite forallb_forall in Hall. apply Hall, list_elem_of_In, list_elem_of_fmap.
  exists (N.to_nat a). split; [lia|]. apply elem_of_seq. lia.
Qed.

Lemma to_string_no c n : is_ascii_digit c = false → has_byte c (to_string n) = false.
Proof. intros. by apply (str_all_no_byte is_ascii_digit), to_string_digits. Qed.

Lemma quad_split a b c d :
  split_char "." (quad a b c d) = [to_string a; to_string b; to_string c; to_string d].
Proof.
  unfold quad. rewrite !(app_String "." ""), !app_nil_l_str, !split_char_app.
  by rewrite !split_char_no by (by apply to_string_no).
Qed.

Lemma quad_no_slash a b c d : has_byte "/" (quad a b c d) = false.
Proof. unfold quad. rewrite !has_byte_app, !to_string_no by done. done. Qed.

Lemma ipv4_token_quad a b c d p :
  a < 256 → b < 256 → c < 256 → d < 256 → p ≤ u32_max →
  ipv4_token (quad a b c d +:+ "/" +:+ to_string p) =
  Some (quad a b c d, quad a b c d +:+ "/" +:+ to_string p, dotted (mask_of_prefix p)).
Proof.
  intros. unfold ipv4_token. rewrite (app_String "/" ""), app_nil_l_str.
  rewrite find_byte_app_hit by apply quad_no_slash.
  rewrite str_take_app, str_drop_app. unfold parse_ipv4. rewrite quad_split.
  cbn [length Nat.eqb negb forallb andb]. rewrite !ipv4_octet_to_string by done.
  cbn [andb negb]. change (str_drop 1 (String "/" (to_string p))) with (str_drop 0 (to_string p)).
  assert (str_drop 0 (to_string p) = to_string p) as -> by (by destruct (to_string p)).
  unfold parse_u32. by rewrite parse_uint_to_string.
Qed.

Lemma ipv4_token_no_slash t : has_byte "/" t = false → ipv4_token t = None.
Proof. intros Ht%find_byte_None. unfold ipv4_token. by rewrite Ht. Qed.

Lemma first_token_skip {A} (f : string → option A) l t l' a :
  Forall (λ x, f x = None) l → f t = Some a → first_token f (l ++ t :: l') = Some a.
Proof.
  intros Hl Ht. induction Hl as [|x l Hx Hl IH]; cbn [first_token app]; [by rewrite Ht|].
  by rewrite Hx.
Qed.

(** ** Memory *)

Lemma spaces_skip n s : split_whitespace (Nat.iter n (String " ") s) = split_whitespace s.
Proof. by induction n as [|n IH]. Qed.

Lemma iter_space_app n s t : Nat.iter n (String " ") s +:+ t = Nat.iter n (String " ") (s +:+ t).
Proof.
  induction n as [|n IH]; [done|]. cbn [Nat.iter nat_rect]. rewrite app_String. f_equal. apply IH.
Qed.

Lemma has_byte_iter c n s : c ≠ " "%char → has_byte c (Nat.iter n (String " ") s) = has_byte c s.
Proof.
  intros Hc. induction n as [|n IH]; [done|]. cbn [Nat.iter nat_rect has_byte].
  destruct (Ascii.eqb_spec " " c); [congruence|]. apply IH.
Qed.

Lemma lines_first l rest :
  has_byte LF l = false → has_byte CR l = false → lines (l +:+ String LF rest) = l :: lines rest.
Proof.
  intros Hl Hr. apply lines_cons; [done|]. intros E%has_byte_last. congruence.
Qed.

(** A line of /proc/meminfo: a name, some spaces, and a number of KiB; and the
    file, as the kernel prints it. *)
Definition meminfo_line (e : string * nat * N) : string :=
  e.1.1 +:+ String ":" (Nat.iter e.1.2 (String " ") (to_string e.2 +:+ " kB")).
Definition meminfo_file (es : list (string * nat * N)) : string :=
  foldr (λ e s, meminfo_line e +:+ String LF s) "" es.

Definition meminfo_entry_ok (e : string * nat * N) : Prop :=
  has_byte ":" e.1.1 = false ∧ has_byte LF e.1.1 = false ∧ has_byte CR e.1.1 = false ∧ e.2 ≤ u64_max.

(** The numbers that are read from it. *)
Definition mem_fields : list (string * (MemInfo → N)) :=
  [("MemTotal", total_kb); ("MemFree", free_kb); ("MemAvailable", available_kb);
   ("Buffers", buffers_kb); ("Cached", cached_kb); ("SwapTotal", swap_total_kb);
   ("SwapFree", swap_free_kb)].

Lemma trim_kb n v : trim (Nat.iter n (String " ") (to_string v +:+ " kB")) = to_string v +:+ " kB".
Proof.
  assert (∀ s, trim (Nat.iter n (String " ") s) = trim s) as ->.
  { intros s. induction n as [|n IH]; [done|]. cbn [Nat.iter nat_rect]. unfold trim, trim_start in *.
    cbn [trim_front]. change (ws1 " ") with true. exact IH. }
  unfold trim. destruct (to_string v) as [|a t] eqn:E; [by destruct (to_string_nonempty v)|].
  pose proof (to_string_solid v) as Hs. rewrite E in Hs. cbn [str_all] in Hs. breflect.
  rewrite app_String, trim_start_solid, <- app_String by done.
  change (" kB") with (" k" +:+ "B"). rewrite <- app_assoc_str. by apply trim_end_solid.
Qed.

Lemma mem_line_field k get e m :
  meminfo_entry_ok e → (k, get) ∈ mem_fields →
  get (mem_line m (meminfo_line e)) = if String.eqb e.1.1 k then e.2 else get m.
Proof.
  destruct e as [[k' pad] v]. intros (H1 & _ & _ & Hv) Hk. cbn [fst snd] in *.
  unfold mem_line, meminfo_line, split_once. cbn [fst snd].
  rewrite find_byte_app_hit, str_take_app, str_drop_S_app, trim_kb by done.
  change (to_string v +:+ " kB") with (to_string v +:+ String " " "kB").
  rewrite split_whitespace_word by (first [apply to_string_solid | apply to_string_nonempty]).
  cbn [head]. cbn. unfold parse_u64. rewrite parse_uint_to_string by done. cbn [default].
  destruct m as [t f a b c st sf]. unfold mem_fields in Hk.
  repeat (apply elem_of_cons in Hk as [[= -> ->]|Hk];
    [repeat match goal with |- context [String.eqb k' ?x] =>
       destruct (String.eqb_spec k' x) as [->|]; try done end|]).
  by apply not_elem_of_nil in Hk.
Qed.

Lemma meminfo_lines es : Forall meminfo_entry_ok es → lines (meminfo_file es) = meminfo_line <$> es.
Proof.
  induction 1 as [|e es (H1 & H2 & H3 & _) _ IH]; [done|]. cbn [meminfo_file foldr fmap list_fmap].
  rewrite lines_first; [by f_equal; apply IH|..]; unfold meminfo_line;
    rewrite has_byte_app; cbn [has_byte]; rewrite has_byte_iter, has_byte_app, to_string_no by done;
    [by rewrite H2|by rewrite H3].
Qed.

(** A number of the file is read as it is. *)
Lemma mem_info_field es k get pad v :
  Forall meminfo_entry_ok es → NoDup (fst <$> (fst <$> es)) → (k, get) ∈ mem_fields →
  (k, pad, v) ∈ es → get (mem_info_of (meminfo_file es)) = v.
Proof.
  intros Hok Hnd Hk Hin. unfold mem_info_of. rewrite meminfo_lines by done.
  generalize (mkMemInfo 0 0 0 0 0 0 0). revert Hok Hnd Hin.
  assert (∀ es m, Forall meminfo_entry_ok es → k ∉ (fst <$> (fst <$> es)) →
    get (foldl mem_line m (meminfo_line <$> es)) = get m) as Hskip.
  { clear -Hk. induction es as [|e es IH]; intros m Hok Hn; [done|].
    cbn [fmap list_fmap foldl] in *. apply Forall_cons in Hok as [He Hok].
    apply not_elem_of_cons in Hn as [Hne Hn].
    rewrite IH, (mem_line_field k get) by done. destruct (String.eqb_spec e.1.1 k); [congruence|done]. }
  induction es as [|e es IH]; intros Hok Hnd Hin m; [by apply not_elem_of_nil in Hin|].
  cbn [fmap list_fmap foldl] in *. apply Forall_cons in Hok as [He Hok]. apply NoDup_cons in Hnd as [Hn Hnd].
  apply elem_of_cons in Hin as [<-|Hin]; [|by apply IH].
  rewrite Hskip, (mem_line_field k get) by done. cbn [fst snd]. by rewrite String.eqb_refl.
Qed.

Section host_facts.
Context {V} `{!JsonOps V} {W} `{!OsOps W}.

(** C37: the address reported for an interface is that of the first word with a
    slash in what [ip] prints, and its netmask has exactly the bits of the prefix
    set.  That is the interface's own address where [ip] prints [inet A/p]; on a
    point-to-point link, where it prints [inet A peer B/p], it is the address B
    of the other end. *)
Theorem iface_ipv4_netmask name (w w' : W) o before a b c d p after :
  command_output "/usr/sbin/ip" ["-4"; "-o"; "addr"; "show"; name] w = (Ok o, w') →
  utf8_valid (stdout o) = true →
  split_whitespace (stdout o) =
    before ++ (quad a b c d +:+ "/" +:+ to_string p) :: after →
  Forall (λ t, has_byte "/" t = false) before →
  a < 256 → b < 256 → c < 256 → d < 256 → p ≤ 32 →
  ∃ m1 m2 m3 m4,
    let m := ((m1 * 256 + m2) * 256 + m3) * 256 + m4 in
    iface_ipv4 name w = ((quad a b c d, quad a b c d +:+ "/" +:+ to_string p,
                          quad m1 m2 m3 m4), w') ∧
    m1 < 256 ∧ m2 < 256 ∧ m3 < 256 ∧ m4 < 256 ∧
    ∀ i, i < 32 → N.testbit m i = (32 - p <=? i).
Proof.
  intros Hc Hu Hs Hb Ha' Hb' Hc' Hd' Hp.
  set (m := mask_of_prefix p).
  assert (m < 2 ^ 32) as Hm.
  { unfold m. rewrite mask_of_prefix_value by done. pose proof (N.pow_nonzero 2 (32 - p)). lia. }
  change (2 ^ 32) with 4294967296 in Hm.
  exists (m / 256 / 256 / 256), (m / 256 / 256 mod 256), (m / 256 mod 256), (m mod 256).
  assert (∀ x, x / 256 * 256 + x mod 256 = x) as Hdm.
  { intros x. pose proof (N.Div0.div_mod x 256). lia. }
  assert (∀ x, x mod 256 < 256) as Hlt by (intros; by apply N.mod_lt).
  assert (m / 256 / 256 / 256 < 256) as H1.
  { rewrite !N.Div0.div_div. apply N.Div0.div_lt_upper_bound. lia. }
  cbn zeta. rewrite !Hdm. split; [|repeat split; auto].
  - unfold iface_ipv4, st_bind. rewrite Hc. unfold st_ret. f_equal.
    rewrite from_utf8_lossy_id, Hs by done.
    rewrite (first_token_skip _ _ _ _
      (quad a b c d, quad a b c d +:+ "/" +:+ to_string p, dotted m)).
    + cbn [default]. rewrite <- (dotted_quad (m / 256 / 256 / 256) (m / 256 / 256 mod 256)
        (m / 256 mod 256) (m mod 256)) by auto. by rewrite !Hdm.
    + eapply Forall_impl; [done|]. intros t Ht. by apply ipv4_token_no_slash.
    + apply ipv4_token_quad; try done. unfold u32_max. lia.
  - intros i Hi. by apply mask_of_prefix_bits.
Qed.

(** ** Statistics *)


(** ** Lists of processors *)

(** How the kernel prints a set of processors: ranges, separated by commas. *)
Definition show_range (r : N * N) : string :=
  if r.1 =? r.2 then to_string r.1 else to_string r.1 +:+ "-" +:+ to_string r.2.
Definition cpulist_file (rs : list (N * N)) : string :=
  join "," (show_range <$> rs) +:+ String LF "".

Lemma split_char_join c l :
  l ≠ [] → Forall (λ s, has_byte c s = false) l → split_char c (join (String c "") l) = l.
Proof.
  intros Hne Hl. induction Hl as [|x l Hx Hl IH]; [done|].
  destruct l as [|y l]; [by apply split_char_no|].
  change (join (String c "") (x :: y :: l)) with (x +:+ String c (join (String c "") (y :: l))).
  rewrite split_char_app, (split_char_no _ _ Hx), IH by done. done.
Qed.

Lemma str_all_join p sep l :
  str_all p sep = true → Forall (λ s, str_all p s = true) l → str_all p (join sep l) = true.
Proof.
  intros Hs Hl. induction Hl as [|x l Hx Hl IH]; [done|].
  destruct l as [|y l]; [done|].
  change (join sep (x :: y :: l)) with (x +:+ sep +:+ join sep (y :: l)).
  by rewrite !str_all_app, Hx, Hs, IH.
Qed.

Lemma show_range_solid r : str_all solid (show_range r) = true ∧ has_byte "," (show_range r) = false.
Proof.
  unfold show_range. destruct (_ =? _).
  - split; [apply to_string_solid|by apply to_string_no].
  - rewrite !str_all_app, !has_byte_app, !to_string_solid, !to_string_no by done. done.
Qed.

Lemma cpulist_part_range r :
  r.2 ≤ u32_max → r.1 ≤ r.2 → cpulist_part (show_range r) = range_incl r.1 r.2.
Proof.
  intros Hu Hle. unfold cpulist_part, show_range, split_once.
  destruct (N.eqb_spec r.1 r.2) as [E|Hne].
  - rewrite (proj2 (find_byte_None "-" _)) by (by apply to_string_no).
    unfold parse_u32. rewrite parse_uint_to_string by lia. rewrite <- E. unfold range_incl.
    replace (r.1 + 1 - r.1) with 1 by lia.
    change ([r.1] = [r.1 + 0]). by rewrite N.add_0_r.
  - rewrite (app_String "-" ""), app_nil_l_str.
    rewrite find_byte_app_hit by (by apply to_string_no).
    rewrite str_take_app, str_drop_S_app. unfold parse_u32.
    by rewrite !parse_uint_to_string by lia.
Qed.

Lemma cpulist_ranges rs :
  rs ≠ [] → Forall (λ r, r.1 ≤ r.2 ∧ r.2 ≤ u32_max) rs →
  cpulist (cpulist_file rs) = concat ((λ r, range_incl r.1 r.2) <$> rs).
Proof.
  intros Hne Hrs. unfold cpulist, cpulist_file.
  rewrite trim_trimmed_lf.
  - rewrite split_char_join.
    + rewrite <- list_fmap_compose. f_equal. apply list_fmap_ext. intros i r Hr.
      rewrite Forall_lookup in Hrs. destruct (Hrs i r Hr). by apply cpulist_part_range.
    + by destruct rs.
    + apply Forall_fmap, Forall_true. intros r. apply show_range_solid.
  - apply solid_trimmed, str_all_join; [done|]. apply Forall_fmap, Forall_true. intros r.
    apply show_range_solid.
Qed.

(** ** Sorting *)

Lemma insert_by_perm {A} (le : A → A → bool) x l : insert_by le x l ≡ₚ x :: l.
Proof.
  induction l as [|y l IH]; cbn [insert_by]; [done|]. destruct (le x y); [done|].
  rewrite IH. apply Permutation_swap.
Qed.

Lemma sort_by_perm {A} (le : A → A → bool) l : sort_by le l ≡ₚ l.
Proof.
  induction l as [|x l IH]; [done|]. change (sort_by le (x :: l)) with (insert_by le x (sort_by le l)).
  by rewrite insert_by_perm, IH.
Qed.

Lemma insert_by_sorted {A} (le : A → A → bool) x l :
  (∀ x y, le x y = false → le y x = true) →
  Sorted (λ a b, le a b = true) l → Sorted (λ a b, le a b = true) (insert_by le x l).
Proof.
  intros Ht Hl. induction Hl as [|y l Hl IH Hy]; cbn [insert_by]; [by repeat constructor|].
  destruct (le x y) eqn:E.
  - constructor; [by constructor|]. by constructor.
  - constructor; [done|]. destruct Hy as [|z l Hz]; cbn [insert_by].
    + constructor. by apply Ht.
    + destruct (le x z); constructor; [by apply Ht|done].
Qed.

Lemma sort_by_sorted {A} (le : A → A → bool) l :
  (∀ x y, le x y = false → le y x = true) → Sorted (λ a b, le a b = true) (sort_by le l).
Proof.
  intros Ht. induction l as [|x l IH]; [constructor|]. by apply insert_by_sorted.
Qed.

(** ** NUMA nodes *)

(** The first line of a node's meminfo file. *)
Definition node_meminfo (i : N) (pad : nat) (kb : N) : string :=
  "Node " +:+ to_string i +:+ " MemTotal: " +:+ Nat.iter pad (String " ") (to_string kb +:+ " kB").

Lemma node_meminfo_words i pad kb :
  split_whitespace (node_meminfo i pad kb) = ["Node"; to_string i; "MemTotal:"; to_string kb; "kB"].
Proof.
  unfold node_meminfo.
  change ("Node " +:+ to_string i +:+ " MemTotal: " +:+ ?x)
    with ("Node" +:+ String " " (to_string i +:+ String " " ("MemTotal:" +:+ String " " x))).
  rewrite !split_whitespace_word by (first [done | apply to_string_solid | apply to_string_nonempty]).
  rewrite spaces_skip.
  change (to_string kb +:+ " kB") with (to_string kb +:+ String " " "kB").
  rewrite split_whitespace_word by (first [apply to_string_solid | apply to_string_nonempty]).
  done.
Qed.

Lemma node_total_first i pad kb rest :
  kb ≤ u64_max → node_total_kb (node_meminfo i pad kb +:+ String LF rest) = kb.
Proof.
  intros Hkb. unfold node_total_kb.
  assert (∀ c, c = LF ∨ c = CR → has_byte c (node_meminfo i pad kb) = false) as Hno.
  { unfold node_meminfo. intros c [-> | ->];
      (rewrite !has_byte_app, has_byte_iter, has_byte_app, !to_string_no by done; done). }
  rewrite lines_first by (apply Hno; auto).
  cbn [List.find].
  assert (contains "MemTotal:" (node_meminfo i pad kb) = true) as ->.
  { apply contains_spec. unfold node_meminfo.
    exists ("Node " +:+ to_string i +:+ " "), (" " +:+ Nat.iter pad (String " ") (to_string kb +:+ " kB")).
    by rewrite !app_assoc_str. }
  rewrite node_meminfo_words. cbn [rev app lookup list_lookup].
  unfold parse_u64. by rewrite parse_uint_to_string.
Qed.

Lemma entry_names_elem n l : utf8_valid n = true → Ok n ∈ l → n ∈ entry_names l.
Proof.
  intros Hn Hl. unfold entry_names. apply list_elem_of_omap. exists (Ok n). split; [done|].
  cbn. by rewrite from_utf8_lossy_id.
Qed.

(** Host.getCapabilities' NUMA nodes are listed in the order of their
    numbers, and a node directory of sysfs is reported with the processors its
    cpulist file describes and its memory in MiB. *)
Theorem numa_nodes_spec (w : W) entries :
  fs_read_dir node_dir w = Ok entries →
  Sorted (λ x y, (x.1.1 <=? y.1.1) = true) (numa_nodes w) ∧
  ∀ i rs pad kb rest,
    Ok ("node" +:+ to_string i) ∈ entries → i ≤ u32_max → kb ≤ u64_max →
    rs ≠ [] → Forall (λ r, r.1 ≤ r.2 ∧ r.2 ≤ u32_max) rs →
    fs_read (node_dir +:+ "/" +:+ ("node" +:+ to_string i) +:+ "/cpulist") w
      = Ok (cpulist_file rs) →
    fs_read (node_dir +:+ "/" +:+ ("node" +:+ to_string i) +:+ "/meminfo") w
      = Ok (node_meminfo i pad kb +:+ String LF rest) →
    (i, concat ((λ r, range_incl r.1 r.2) <$> rs), kb / 1024) ∈ numa_nodes w.
Proof.
  intros He. unfold numa_nodes. rewrite He. split.
  - apply (sort_by_sorted (λ x y : N * list N * N, x.1.1 <=? y.1.1)).
    intros x y Hxy. apply N.leb_le. apply N.leb_gt in Hxy. lia.
  - intros i rs pad kb rest Hi Hu Hkb Hne Hrs Hc Hm. rewrite sort_by_perm.
    apply list_elem_of_omap. exists ("node" +:+ to_string i). split.
    + apply entry_names_elem; [|done].
      apply utf8_valid_app; [done|apply to_string_utf8].
    + unfold numa_node. rewrite (proj2 (strip_prefix_spec "node" _ (to_string i))) by done.
      cbn [mbind option_bind]. unfold parse_u32. rewrite parse_uint_to_string by done.
      cbn [mbind option_bind]. by rewrite Hc, Hm, cpulist_ranges, node_total_first.
Qed.

(** ** Processor topology *)

Definition TAB : ascii := "009".

(** A line of /proc/cpuinfo. *)
Definition cpu_field (kv : string * string) : string :=
  kv.1 +:+ String TAB (": " +:+ kv.2).

Definition field_ok (kv : string * string) : bool :=
  trimmed kv.1 && trimmed kv.2 && negb (is_empty kv.1) && negb (has_byte ":" kv.1)
  && negb (has_byte LF kv.1) && negb (has_byte LF kv.2).

Lemma trim_trimmed_ws a s :
  trimmed s = true → is_ascii a = true → ws1 a = true →
  trim (s +:+ String a "") = s ∧ trim (String a s) = s.
Proof.
  intros Hs Ha Hw. split.
  - unfold trim, trimmed in *. destruct s as [|x s].
    + rewrite app_nil_l_str. unfold trim_start. cbn [trim_front]. by rewrite Hw.
    + breflect. destruct (str_last (String x s)) as [z|] eqn:E; [|done].
      rewrite app_String, trim_start_solid, <- app_String by done.
      destruct (str_last_split _ _ E) as [t ->]. unfold trim_end. rewrite rev_snoc.
      cbn [trim_front]. rewrite Hw. by apply trim_end_solid.
  - unfold trim. change (trim_start (String a s)) with (trim_front ws2 ws3 (String a s)).
    cbn [trim_front]. rewrite Hw. by apply trim_trimmed.
Qed.

(** The fields of [cpu_vars] that count processors. *)
Record topology := mkTopology {
  t_phys : gset N; t_cores : gset (N * N); t_logical : N; t_cur : option N;
  t_bp : option N; t_bc : option N; t_saw : bool
}.
Definition topo (s : cpu_vars) : topology :=
  mkTopology (cv_physical_ids s) (cv_core_ids s) (cv_logical s) (cv_current_phys s)
    (blk_phys s) (blk_core s) (saw_processor s).

Definition topo_field (t : topology) (kv : string * string) : topology :=
  let '(mkTopology ph co lo cur bp bc saw) := t in
  if String.eqb kv.1 "processor" then mkTopology ph co (lo + 1) cur bp bc true
  else if String.eqb kv.1 "physical id" then
    mkTopology ph co lo (parse_u32 kv.2) (parse_u32 kv.2) bc saw
  else if String.eqb kv.1 "core id" then mkTopology ph co lo cur bp (parse_u32 kv.2) saw
  else t.

Lemma cpu_line_topo s kv :
  field_ok kv = true → topo (cpu_line s (cpu_field kv)) = topo_field (topo s) kv.
Proof.
  destruct kv as [k v]. unfold field_ok, cpu_field. cbn [fst snd]. intros Hok. breflect.
  destruct s as [mo fl mh ph co lo cur bp bc saw]. unfold cpu_line, split_once.
  replace (k +:+ String TAB (": " +:+ v)) with ((k +:+ String TAB "") +:+ String ":" (String " " v))
    by (by rewrite app_assoc_str).
  rewrite find_byte_app_hit by (by rewrite has_byte_app, H2).
  rewrite str_take_app, str_drop_S_app.
  rewrite (proj1 (trim_trimmed_ws TAB k H eq_refl eq_refl)),
    (proj2 (trim_trimmed_ws " " v H4 eq_refl eq_refl)).
  unfold topo, topo_field. cbn [fst snd cv_physical_ids cv_core_ids cv_logical cv_current_phys
    blk_phys blk_core saw_processor].
  destruct (String.eqb_spec k "processor"); [done|].
  destruct (String.eqb_spec k "physical id") as [->|];
    [by destruct (fis_zero mh); cbn|].
  destruct (String.eqb_spec k "core id") as [->|]; [by destruct (fis_zero mh); cbn|].
  by repeat case_match.
Qed.

Lemma cpu_lines_topo kvs s :
  Forall (λ kv, field_ok kv = true) kvs →
  topo (foldl cpu_line s (cpu_field <$> kvs)) = foldl topo_field (topo s) kvs.
Proof.
  intros Hk. revert s. induction Hk as [|kv kvs Hkv Hk IH]; intros s; [done|].
  cbn [fmap list_fmap foldl]. by rewrite IH, cpu_line_topo.
Qed.

(** One processor: its number, package and core, among other fields. *)
Record cpu := mkCpu {
  c_num : N; c_phys : N; c_core : N;
  c_mid1 : list (string * string); c_mid2 : list (string * string);
  c_mid3 : list (string * string)
}.

Definition cpu_fields (c : cpu) : list (string * string) :=
  ("processor", to_string (c_num c)) :: c_mid1 c ++ ("physical id", to_string (c_phys c))
  :: c_mid2 c ++ ("core id", to_string (c_core c)) :: c_mid3 c.

Definition other_field (kv : string * string) : bool :=
  field_ok kv && negb (String.eqb kv.1 "processor") && negb (String.eqb kv.1 "physical id")
  && negb (String.eqb kv.1 "core id").

Definition cpu_ok (c : cpu) : bool :=
  (c_phys c <=? u32_max) && (c_core c <=? u32_max) &&
  forallb other_field (c_mid1 c) && forallb other_field (c_mid2 c) && forallb other_field (c_mid3 c).

Lemma topo_other kvs t : forallb other_field kvs = true → foldl topo_field t kvs = t.
Proof.
  revert t. induction kvs as [|[k v] kvs IH]; intros t Hk; [done|]. cbn [forallb foldl] in *.
  unfold other_field at 1 in Hk. cbn [fst] in *. breflect.
  assert (topo_field t (k, v) = t) as ->; [|by apply IH].
  destruct t. unfold topo_field. cbn [fst].
  destruct (String.eqb_spec k "processor"), (String.eqb_spec k "physical id"),
    (String.eqb_spec k "core id"); done.
Qed.

Lemma to_string_field k n :
  field_ok (k, "0") = true → field_ok (k, to_string n) = true.
Proof.
  unfold field_ok. cbn [fst snd]. intros. breflect. rewrite to_string_trimmed, to_string_no_lf.
  by repeat match goal with H : _ = _ |- _ => rewrite H end.
Qed.

Lemma cpu_fields_ok c : cpu_ok c = true → Forall (λ kv, field_ok kv = true) (cpu_fields c).
Proof.
  unfold cpu_ok. intros. breflect.
  assert (∀ l, forallb other_field l = true → Forall (λ kv, field_ok kv = true) l) as Ho.
  { intros l Hl. apply Forall_forall. intros kv Hkv. rewrite forallb_forall in Hl.
    specialize (Hl kv (proj1 (list_elem_of_In _ _) Hkv)). unfold other_field in Hl. by breflect. }
  unfold cpu_fields. constructor; [by apply to_string_field|].
  apply Forall_app. split; [by apply Ho|]. constructor; [by apply to_string_field|].
  apply Forall_app. split; [by apply Ho|]. constructor; [by apply to_string_field|].
  by apply Ho.
Qed.

Lemma cpu_fields_topo c t :
  cpu_ok c = true →
  foldl topo_field t (cpu_fields c) =
  mkTopology (t_phys t) (t_cores t) (t_logical t + 1) (Some (c_phys c)) (Some (c_phys c))
    (Some (c_core c)) true.
Proof.
  unfold cpu_ok. intros. breflect. unfold cpu_fields. cbn [foldl]. rewrite foldl_app.
  cbn [foldl]. rewrite foldl_app. cbn [foldl]. rewrite !topo_other by done. destruct t.
  unfold topo_field. cbn. unfold parse_u32. rewrite !parse_uint_to_string by (by apply N.leb_le).
  done.
Qed.

(** ** The blocks of /proc/cpuinfo *)

Definition LF2 : string := String LF (String LF "").

(** No empty line, neither inside nor at the end. *)
Fixpoint no_blank (s : string) : bool :=
  match s with
  | EmptyString => true
  | String a s' =>
      (negb (Ascii.eqb a LF) || match s' with EmptyString => false | String b _ => negb (Ascii.eqb b LF) end)
      && no_blank s'
  end.

Lemma no_blank_line l s : has_byte LF l = false → no_blank (l +:+ s) = no_blank s.
Proof.
  induction l as [|a l IH]; [done|]. cbn [has_byte]. intros. breflect. rewrite app_String.
  cbn [no_blank]. rewrite (proj2 (Ascii.eqb_neq a LF)) by done. by apply IH.
Qed.

Lemma split_block b cur rest :
  no_blank b = true →
  split_str_go LF2 0 cur (b +:+ LF2 +:+ rest) = (cur +:+ b) :: split_str_go LF2 0 "" rest.
Proof.
  revert cur. induction b as [|a b IH]; intros cur Hb.
  - by rewrite app_nil_r_str.
  - cbn [no_blank] in Hb. breflect. rewrite app_String. cbn [split_str_go].
    assert (starts_with LF2 (String a (b +:+ LF2 +:+ rest)) = false) as ->.
    { unfold LF2. cbn [starts_with]. destruct (Ascii.eqb_spec LF a) as [<-|]; [|done].
      change (Ascii.eqb LF LF) with true in H. destruct b as [|x b]; [by destruct H|].
      rewrite app_String. destruct H as [?|Hx]; [done|]. breflect. cbn [starts_with andb].
      destruct (Ascii.eqb_spec LF x); [congruence|done]. }
    rewrite IH by done. by rewrite app_assoc_str, app_String, app_nil_l_str.
Qed.

(** The text of one processor: its lines, without the line end of the last. *)
Definition cpu_text (c : cpu) : string := join (String LF "") (cpu_field <$> cpu_fields c).
Definition cpuinfo_file (cpus : list cpu) : string :=
  foldr (λ c s, cpu_text c +:+ LF2 +:+ s) "" cpus.

Definition line_ok (l : string) : Prop :=
  l ≠ "" ∧ has_byte LF l = false ∧ str_last l ≠ Some CR.

Lemma no_blank_join ls :
  ls ≠ [] → Forall line_ok ls →
  no_blank (join (String LF "") ls) = true ∧ starts_with (String LF "") (join (String LF "") ls) = false
  ∧ lines (join (String LF "") ls) = ls.
Proof.
  intros Hne Hl. induction Hl as [|l ls (Hn & Hlf & Hcr) Hls IH]; [done|].
  assert (∀ s, starts_with (String LF "") (l +:+ s) = false) as Hst.
  { intros s. destruct l as [|a l]; [done|]. cbn [has_byte] in Hlf. breflect.
    rewrite app_String. cbn [starts_with].
    destruct (Ascii.eqb_spec LF a); [congruence|done]. }
  destruct ls as [|l' ls].
  - change (join (String LF "") [l]) with l. repeat split.
    + rewrite <- (app_nil_r_str l). by rewrite no_blank_line.
    + rewrite <- (app_nil_r_str l). apply Hst.
    + unfold lines. rewrite <- (app_nil_r_str l) at 1.
      clear -Hlf Hn. assert (∀ cur, cur +:+ l ≠ "" → lines_go cur (l +:+ "") = [cur +:+ l]) as Hg.
      { clear Hn. induction l as [|a l IH]; intros cur Hc.
        - rewrite app_nil_r_str in Hc. rewrite !app_nil_r_str. by destruct cur.
        - cbn [has_byte] in Hlf. breflect. rewrite app_String. cbn [lines_go].
          rewrite (proj2 (Ascii.eqb_neq a LF)) by done. rewrite IH; [|done|].
          + by rewrite app_assoc_str, app_String, app_nil_l_str.
          + rewrite app_assoc_str, app_String, app_nil_l_str. done. }
      rewrite Hg; by rewrite app_nil_l_str.
  - change (join (String LF "") (l :: l' :: ls))
      with (l +:+ String LF (join (String LF "") (l' :: ls))).
    destruct IH as (H1 & H2 & H3); [done|]. split; [|split; [apply Hst|]].
    + rewrite no_blank_line by done. cbn [no_blank]. rewrite H1.
      change (Ascii.eqb LF LF) with true. destruct (join _ _) as [|x s] eqn:E.
      * apply Forall_inv in Hls as (? & ? & ?). destruct l' as [|y l']; [done|].
        by destruct ls.
      * cbn [starts_with] in H2. destruct (Ascii.eqb_spec x LF) as [->|]; done.
    + rewrite lines_cons by done. by rewrite H3.
Qed.

Lemma cpu_field_line_ok kv : field_ok kv = true → line_ok (cpu_field kv).
Proof.
  destruct kv as [k v]. unfold field_ok, cpu_field, line_ok. cbn [fst snd]. intros. breflect.
  split; [by destruct k|]. split; [by rewrite has_byte_app, H1; simpl|].
  intros E. destruct v as [|x v].
  - rewrite app_nil_r_str in E.
    change (k +:+ String TAB ": ") with (k +:+ String TAB (":" +:+ String " " "")) in E.
    rewrite str_last_app in E. done.
  - rewrite str_last_app in E.
    change (String TAB (": " +:+ String x v)) with ((String TAB ": ") +:+ String x v) in E.
    rewrite str_last_app in E. unfold trimmed in H4. rewrite E in H4. breflect. done.
Qed.

Lemma cpu_block_topo s c :
  cpu_ok c = true →
  topo (cpu_block s (cpu_text c)) =
  mkTopology ({[c_phys c]} ∪ cv_physical_ids s) ({[(c_phys c, c_core c)]} ∪ cv_core_ids s)
    (cv_logical s + 1) (Some (c_phys c)) (Some (c_phys c)) (Some (c_core c)) true.
Proof.
  intros Hc. unfold cpu_block, cpu_text.
  destruct (no_blank_join (cpu_field <$> cpu_fields c)) as (_ & _ & ->); [done| |].
  { apply Forall_fmap. eapply Forall_impl; [by apply cpu_fields_ok|]. apply cpu_field_line_ok. }
  pose proof (cpu_lines_topo (cpu_fields c)
    (mkCpuVars (cv_model s) (cv_flags s) (cv_mhz s) (cv_physical_ids s) (cv_core_ids s)
         (cv_logical s) (cv_current_phys s) None None false) (cpu_fields_ok c Hc)) as Ht.
  rewrite cpu_fields_topo in Ht by done.
  destruct (foldl cpu_line _ _) as [mo fl mh ph co lo cur bp bc saw].
  unfold topo in Ht. cbn in Ht. injection Ht as -> -> -> -> -> -> ->. done.
Qed.

Lemma cpu_blocks_topo cpus s :
  Forall (λ c, cpu_ok c = true) cpus →
  let s' := foldl cpu_block s (split_str LF2 (cpuinfo_file cpus)) in
  cv_physical_ids s' = list_to_set (c_phys <$> cpus) ∪ cv_physical_ids s ∧
  cv_core_ids s' = list_to_set ((λ c, (c_phys c, c_core c)) <$> cpus) ∪ cv_core_ids s ∧
  cv_logical s' = N.of_nat (length cpus) + cv_logical s.
Proof.
  intros Hcs. revert s. induction Hcs as [|c cpus Hc Hcs IH]; intros s.
  - cbn. repeat split; set_solver.
  - unfold split_str. cbn [cpuinfo_file foldr]. rewrite split_block.
    + rewrite app_nil_l_str. cbn [foldl].
      destruct (IH (cpu_block s (cpu_text c))) as (H1 & H2 & H3).
      unfold split_str, cpuinfo_file in H1, H2, H3. cbn zeta. rewrite H1, H2, H3.
      pose proof (cpu_block_topo s c Hc) as Ht. unfold topo in Ht.
      injection Ht as -> -> -> _ _ _ _. cbn [fmap list_fmap list_to_set].
      split; [set_solver|]. split; [set_solver|]. cbn [length]. lia.
    + apply (no_blank_join (cpu_field <$> cpu_fields c)); [done|].
      apply Forall_fmap. eapply Forall_impl; [by apply cpu_fields_ok|]. apply cpu_field_line_ok.
Qed.

(** From the kernel's description of the processors the code counts them,
    the packages and the cores exactly: two hardware threads of one core count
    once, and cores of the same number in different packages count twice. *)
Theorem cpu_info_counts (w : W) cpus :
  fs_read "/proc/cpuinfo" w = Ok (cpuinfo_file cpus) →
  cpus ≠ [] → Forall (λ c, cpu_ok c = true) cpus →
  logical_cpus (cpu_info w) = N.of_nat (length cpus) ∧
  sockets (cpu_info w) = N.of_nat (size (list_to_set (c_phys <$> cpus) : gset N)) ∧
  physical_cores (cpu_info w)
    = N.of_nat (size (list_to_set ((λ c, (c_phys c, c_core c)) <$> cpus) : gset (N * N))).
Proof.
  intros Hf Hne Hcs. assert (cpu_info w = cpu_info_of (cpuinfo_file cpus)) as ->.
  { unfold cpu_info, read_or_empty. by rewrite Hf. }
  unfold cpu_info_of. change (String LF (String LF "")) with LF2.
  destruct (cpu_blocks_topo cpus (mkCpuVars "" [] f64_zero ∅ ∅ 0 None None None false) Hcs)
    as (H1 & H2 & H3).
  cbn [logical_cpus sockets physical_cores]. rewrite H1, H2, H3.
  cbn [cv_physical_ids cv_core_ids cv_logical]. rewrite !(right_id_L ∅ (∪)).
  destruct cpus as [|c cpus]; [done|]. cbn [length].
  split; [lia|].
  assert (∀ {A} `{Countable A} (f : cpu → A),
    (list_to_set (f <$> c :: cpus) : gset A) ≠ ∅) as Hnz.
  { intros A ?? f E. assert (f c ∈ (∅ : gset A)) as Hin; [|set_solver].
    rewrite <- E. cbn. set_solver. }
  split.
  - assert (size (list_to_set (c_phys <$> c :: cpus) : gset N) ≠ 0%nat); [|lia].
    intros E%size_empty_inv. apply (Hnz N _ _ c_phys). by apply leibniz_equiv.
  - rewrite bool_decide_false by apply (Hnz (N * N)%type). done.
Qed.
End host_facts.

(** ** A host *)

(** Two packages with one core of two threads each. *)
Definition demo_cpus : list cpu :=
  [mkCpu 0 0 0 [("model name", "Xeon")] [("siblings", "2")] [("flags", "fpu svm")];
   mkCpu 1 0 0 [] [] []; mkCpu 2 1 0 [] [] []; mkCpu 3 1 0 [] [] []].

Definition demo_meminfo : list (string * nat * N) :=
  [("MemTotal", 8%nat, 2048000); ("MemFree", 10%nat, 512000); ("MemAvailable", 4%nat, 1024000);
   ("Active(anon)", 3%nat, 77)].

Definition demo_host : demo :=
  mkDemo
    [("/proc/loadavg", loadavg_file 15 7 212 "1/845 4242");
     ("/proc/meminfo", meminfo_file demo_meminfo);
     ("/proc/cpuinfo", cpuinfo_file demo_cpus);
     (node_dir +:+ "/" +:+ ("node" +:+ to_string 0) +:+ "/cpulist", cpulist_file [(0, 3); (8, 8)]);
     (node_dir +:+ "/" +:+ ("node" +:+ to_string 0) +:+ "/meminfo",
        node_meminfo 0 6 8158356 +:+ String LF "Node 0 MemFree: 1 kB")]
    [node_dir; node_dir +:+ "/node0"; node_dir +:+ "/power"] []
    (λ _ _, Ok (mkOutput true (Some 0%Z) "2: eth0    inet 192.168.0.99/24 brd 192.168.0.255" ""))
    (λ _, Err "").

Lemma iface_ipv4_netmask_witness :
  ∃ m1 m2 m3 m4,
    let m := ((m1 * 256 + m2) * 256 + m3) * 256 + m4 in
    iface_ipv4 "eth0" demo_host =
      ((quad 192 168 0 99, quad 192 168 0 99 +:+ "/" +:+ to_string 24, quad m1 m2 m3 m4),
       log_cmd ("/usr/sbin/ip", ["-4"; "-o"; "addr"; "show"; "eth0"]) demo_host) ∧
    m1 < 256 ∧ m2 < 256 ∧ m3 < 256 ∧ m4 < 256 ∧
    ∀ i, i < 32 → N.testbit m i = (32 - 24 <=? i).
Proof.
  apply (iface_ipv4_netmask "eth0" demo_host
    (log_cmd ("/usr/sbin/ip", ["-4"; "-o"; "addr"; "show"; "eth0"]) demo_host)
    (mkOutput true (Some 0%Z) "2: eth0    inet 192.168.0.99/24 brd 192.168.0.255" "")
    ["2:"; "eth0"; "inet"] 192 168 0 99 24 ["brd"; "192.168.0.255"]);
    try reflexivity; [repeat constructor|done].
Defined.

Example iface_ipv4_demo :
  (iface_ipv4 "eth0" demo_host).1 = ("192.168.0.99", "192.168.0.99/24", "255.255.255.0").
Proof. vm_compute. reflexivity. Qed.


(** The processors are not looked at: [cpuIdle] is the share of memory that is
    available. *)
Example cpu_idle_is_memory :
  match (get_stats JNull demo_host).1 with Ok v => jget "cpuIdle" v | Err _ => None end
  = Some (JStr "50.00").
Proof. vm_compute. reflexivity. Qed.

(** A point-to-point link: the peer's address is reported. *)
Example iface_ipv4_peer :
  (iface_ipv4 "tun0" (mkDemo [] [] []
     (λ _ _, Ok (mkOutput true (Some 0%Z) "5: tun0    inet 10.8.0.6 peer 10.8.0.5/32" "")) (λ _, Err ""))).1
  = ("10.8.0.5", "10.8.0.5/32", "255.255.255.255").
Proof. vm_compute. reflexivity. Qed.

Lemma numa_nodes_spec_witness :
  (0, [0; 1; 2; 3; 8], 7967) ∈ numa_nodes demo_host.
Proof.
  destruct (numa_nodes_spec demo_host
    [Ok "node0"; Ok "power"]) as [_ Hn]; [reflexivity|].
  apply (Hn 0 [(0, 3); (8, 8)] 6%nat 8158356 "Node 0 MemFree: 1 kB"); try done.
  - left.
  - repeat constructor; done.
Defined.

Lemma cpu_info_counts_witness :
  (logical_cpus (cpu_info demo_host), sockets (cpu_info demo_host), physical_cores (cpu_info demo_host))
  = (4, 2, 2).
Proof.
  destruct (cpu_info_counts demo_host demo_cpus) as (-> & -> & ->);
    [reflexivity|done|repeat constructor|]. vm_compute. reflexivity.
Defined.

(** A prefix longer than an address wraps the shift around: the netmask is
    empty, not full. *)
Example netmask_wide : (ipv4_token "10.0.0.1/33") = Some ("10.0.0.1", "10.0.0.1/33", "0.0.0.0").
Proof. vm_compute. reflexivity. Qed.

(** Every AMD processor that has virtualisation, and every Intel processor
    that is given the flag, gets the AMD models: the vendor is not looked at. *)
Example svm_models :
  "model_Opteron_G1" ∈ model_tokens_from_flags ["ssse3"; "svm"].
Proof. apply (bool_decide_unpack _). vm_compute. exact I. Qed.
