(* ===== verification/Caps.v ===== *)
(** * The capabilities that are built and not sent (get_capabilities of
    crates/vdsm-host/src/caps.rs)

    Before the answer, [get_capabilities] builds a fuller map, [info], and drops
    it.  It only reads files, so the answer does not depend on it; what it holds
    that the answer does not is what the engine will not see. *)

From stdpp Require Import options.
From S2P Require Import Prelude Utf8 RustStr Float64 Calendar Json Rpc Os Sysinfo Virt Host.

Section caps.
Context {V} `{JsonOps V} {W} `{OsOps W}.

(** ** Helpers *)

Definition numa_topology (w : W) : V :=
  jobj ((λ i, (to_string (N.of_nat i), jobj [("cpus", jarr []); ("totalMemory", jstr "0")]))
        <$> seq 0 (N.to_nat (numa_node_count w))).

Definition cpu_entry (i : nat) : V :=
  jobj [("cpu_id", jint (Z.of_nat i)); ("core_id", jint (Z.of_nat i)); ("socket_id", jint 0);
        ("numa_cell_id", jint 0)].

Definition cpu_topology (logical_cpus : N) : V :=
  jarr (cpu_entry <$> seq 0 (N.to_nat logical_cpus)).

Definition current_iso_datetime (w : W) : string := to_string (now_secs w) +:+ "Z".

Definition fs_first_line (path : string) (w : W) : option string :=
  match fs_read path w with
  | Ok s => trim <$> head (lines s)
  | Err _ => None
  end.

(** ** Networks *)

Definition info_nics (names : list string) : V :=
  jobj ((λ n, (n, jobj [
    ("speed", jint 1000); ("mtu", jstr "1500"); ("hwaddr", jstr "00:00:00:00:00:00");
    ("addr", jstr ""); ("netmask", jstr ""); ("ipv4addrs", jarr []); ("ipv6addrs", jarr []);
    ("permhwaddr", jstr "00:00:00:00:00:00"); ("operstate", jstr "up"); ("duplex", jstr "full")]))
    <$> names).

Definition info_networks (primary_nic : string) : V :=
  jobj [("ovirtmgmt", jobj [
    ("iface", jstr "ovirtmgmt"); ("ports", jstrs [primary_nic]); ("stp", jstr "off");
    ("switch", jstr "legacy"); ("addr", jstr ""); ("netmask", jstr ""); ("ipv4addrs", jarr []);
    ("ipv4defaultroute", jbool true); ("gateway", jstr ""); ("ipv6addrs", jarr []);
    ("ipv6autoconf", jbool true); ("ipv6gateway", jstr "::"); ("dhcpv4", jbool false);
    ("dhcpv6", jbool false); ("mtu", jstr "1500"); ("bootproto4", jstr "none");
    ("bridged", jbool true); ("cfg", jobj []); ("qosOutbound", jstr ""); ("qosInbound", jstr "")])].

Definition info_bridges (primary_nic : string) : V :=
  jobj [("ovirtmgmt", jobj [
    ("ports", jstrs [primary_nic]); ("stp", jstr "off"); ("addr", jstr ""); ("netmask", jstr "");
    ("ipv4addrs", jarr []); ("ipv6addrs", jarr []); ("mtu", jstr "1500"); ("cfg", jobj []);
    ("opts", jobj [])])].

(** ** The map *)

Definition info_package (version release : string) : V :=
  jobj [("version", jstr version); ("release", jstr release); ("buildtime", jint 0)].

Definition info_packages2 (w : W) : V :=
  jobj [("vdsm", info_package CLAIMED_VDSM_VERSION "1.el9");
        ("libvirt", info_package "10.0.0" "1.el9"); ("qemu-kvm", info_package "8.2.0" "1.el9");
        ("qemu-img", info_package "8.2.0" "1.el9"); ("kernel", info_package (kernel_release w) "");
        ("spice-server", info_package "0.15.2" "1.el9");
        ("openvswitch", info_package "3.4.0" "1.el9")].

Definition info_levels : V := jstrs ["4.5"; "4.4"].

(** Up to the feature flags. *)
Definition info_host (cpu : CpuInfo) (mem : MemInfo) (os : gmap string string) (load1 : f64)
  (names : list string) : list (string * st W V) :=
  let primary_nic := default "lo" (head names) in
  [("uuid", rd vdsm_id); ("hostname", rd hostname);
   ("kvmEnabled", rd (λ w, if kvm_enabled w then "true" else "false"));
   ("cpuModel", val (jstr (model_name cpu)));
   ("cpuFlags", val (jstr (join "," (flags cpu))));
   ("cpuSpeed", val (jstr (fmt_fixed 1 (if fltb f64_zero (mhz cpu) then mhz cpu
                                        else f64_of_N 2400))));
   ("cpuCores", val (jstr (to_string (physical_cores cpu))));
   ("cpuThreads", val (jstr (to_string (logical_cpus cpu))));
   ("cpuSockets", val (jstr (to_string (sockets cpu))));
   ("onlineCpus", val (jstr (to_string (logical_cpus cpu))));
   ("cpuLoad", val (jstr (fmt_fixed 2 load1)));
   ("memSize", val (jstr (to_string (total_kb mem / 1024))));
   ("freeMem", val (jstr (to_string (available_kb mem / 1024))));
   ("version_name", val (jstr "Software Version"));
   ("software_version", val (jstr CLAIMED_VDSM_VERSION));
   ("vdsm_rs_version", val (jstr VDSM_RS_VERSION));
   ("kernel", rd kernel_release);
   ("operatingSystem",
      val (jobj [("name", jstr (os_field os "NAME" "Linux"));
                 ("version", jstr (os_field os "VERSION_ID" ""));
                 ("release", jstr (os_field os "BUILD_ID" ""));
                 ("pretty_name", jstr (os_field os "PRETTY_NAME" ""))]));
   ("nics", val (info_nics names)); ("bonds", val (jobj [])); ("vlans", val (jobj []));
   ("bridges", val (info_bridges primary_nic)); ("networks", val (info_networks primary_nic));
   ("numaNodes", reads numa_topology); ("numaNodeDistance", val (jobj []));
   ("autoNumaBalancing", val (jint 2)); ("hugepages", val (jarr [jint 2048]));
   ("hostdevPassthrough", val (jstr "false"));
   ("supportedRHEVMs", val info_levels); ("supportedENGINEs", val info_levels);
   ("clusterLevels", val info_levels); ("supportedProtocols", val (jstrs ["2.2"; "2.3"]));
   ("selinux", obj [("mode", rd (λ w, default "0" (fs_first_line "/sys/fs/selinux/enforce" w)))]);
   ("additionalFeatures", val (jarr [])); ("fipsEnabled", val (jbool false));
   ("liveMerge", val (jstr "false")); ("liveSnapshot", val (jstr "false"));
   ("openSessions", val (jint 0))]%N.

(** From the packages on. *)
Definition info_engine (cpu : CpuInfo) : list (string * st W V) :=
  [("packages2", reads info_packages2);
   ("emulatedMachines",
      val (jstrs ["pc-q35-rhel9.4.0"; "pc-q35-rhel9.2.0"; "pc-q35-rhel8.6.0"; "q35"]));
   ("vmTypes", val (jstrs ["kvm"])); ("hbaInventory", val (jobj [("iSCSI", jarr []); ("FC", jarr [])]));
   ("rngSources", val (jstrs ["random"])); ("reservedMem", val (jstr "321"));
   ("cpuTopology", val (cpu_topology (logical_cpus cpu))); ("hooks", val (jobj []));
   ("kdumpStatus", val (jint 0)); ("bootTime", val (jstr "0")); ("dateTime", rd current_iso_datetime);
   ("timeOffset", val (jstr "0")); ("kernelArgs", val (jstr "")); ("ISCSIInitiatorName", val (jstr ""));
   ("transparentHugePages", val (jstr "")); ("nr_hugepages", val (jint 0));
   ("vm.free_hugepages", val (jint 0)); ("nmstate", val (jobj [])); ("openvswitch", val (jbool false));
   ("ovnConfigured", val (jbool false)); ("supported_block_size", val (jstrs ["4k"; "512"]));
   ("domain_versions", val (jarr [jint 3; jint 4; jint 5]))].

Definition info_fields (cpu : CpuInfo) (mem : MemInfo) (os : gmap string string) (load1 : f64)
  (names : list string) : list (string * st W V) :=
  info_host cpu mem os load1 names ++ info_engine cpu.

(** [get_capabilities] as it is written: [info] is built first. *)
Definition get_capabilities_full (params : V) : st W (result V (JsonRpcError V)) := λ w0,
  let '(info, w1) := obj (info_fields (cpu_info w0) (mem_info w0) (os_release w0) (loadavg w0).1.1
                            (nic_names w0)) w0 in
  get_capabilities params w1.
End caps.

Section facts.
Context {V} `{!JsonOps V} {W} `{!OsOps W}.

(** A field that leaves the system as it is. *)
Definition only_reads (m : st W V) : Prop := ∀ w, (m w).2 = w.

Lemma eval_fields_reads (fs : list (string * st W V)) w :
  Forall (λ f, only_reads f.2) fs → (eval_fields fs w).2 = w.
Proof.
  intros Hfs. revert w. induction Hfs as [|[k m] fs Hm _ IH]; intros w; [done|].
  cbn [eval_fields]. unfold st_bind. pose proof (Hm w) as Hw. cbn [snd] in Hw.
  destruct (m w) as [v w1]. cbn [snd] in Hw. subst w1.
  specialize (IH w). destruct (eval_fields fs w) as [l w2]. done.
Qed.

Lemma obj_reads (fs : list (string * st W V)) :
  Forall (λ f, only_reads f.2) fs → only_reads (obj fs).
Proof.
  intros Hfs w. unfold obj, st_bind. pose proof (eval_fields_reads _ w Hfs) as Hw.
  by destruct (eval_fields fs w).
Qed.

Lemma info_reads cpu mem os load1 names :
  Forall (λ f, only_reads f.2) (info_fields (V := V) (W := W) cpu mem os load1 names).
Proof.
  unfold info_fields, info_host, info_engine. cbn [app].
  repeat (apply List.Forall_cons; [done || (apply obj_reads; repeat constructor)|]). constructor.
Qed.

(** The fields of [info] that the answer does not have. *)
Definition info_only : list string :=
  ["hbaInventory"; "cpuTopology"; "kdumpStatus"; "dateTime"; "timeOffset"; "ISCSIInitiatorName";
   "transparentHugePages"; "nr_hugepages"; "vm.free_hugepages"; "supported_block_size";
   "domain_versions"].

(** Building the fuller map changes nothing: [get_capabilities] answers and
    leaves the system as it would without it; and the fields of that map that
    the answer lacks are exactly eleven, among them [kdumpStatus], [dateTime],
    [timeOffset] and [ISCSIInitiatorName], which it holds because the engine
    reads them without a guard. *)
Theorem caps_info_dropped (params : V) (w : W) cpu mem os load1 names pkgs numa dist hugepages emulated :
  get_capabilities_full params w = get_capabilities params w ∧
  (∀ k, k ∈ (info_fields (V := V) (W := W) cpu mem os load1 names).*1 →
     k ∉ (capability_fields (V := V) (W := W) cpu mem os load1 pkgs numa dist hugepages emulated).*1 ↔
     k ∈ info_only).
Proof.
  split.
  - unfold get_capabilities_full.
    pose proof (obj_reads _ (info_reads (cpu_info w) (mem_info w) (os_release w) (loadavg w).1.1
      (nic_names w)) w) as Hw.
    destruct (obj (info_fields _ _ _ _ _) w) as [info w1]. cbn in Hw. by subst w1.
  - set (caps := (capability_fields _ _ _ _ _ _ _ _ _).*1).
    set (keys := (info_fields _ _ _ _ _).*1). intros k Hk.
    assert (Forall (λ k, bool_decide (k ∉ caps) = bool_decide (k ∈ info_only)) keys) as Hall.
    { refine (bool_decide_unpack _ _). vm_compute. exact I. }
    rewrite Forall_forall in Hall. specialize (Hall k Hk).
    by rewrite <- (bool_decide_eq_true (k ∉ caps)), Hall, bool_decide_eq_true.
Qed.

(** Every CPU has its entry, under its own number. *)
Lemma cpu_topology_entries n :
  ∃ l, cpu_topology n = jarr l ∧ length l = N.to_nat n ∧
       ∀ i, i < N.to_nat n → l !! i = Some (cpu_entry i).
Proof.
  eexists. split; [reflexivity|]. split; [by rewrite length_fmap, length_seq|].
  intros i Hi. by rewrite list_lookup_fmap, lookup_seq_lt.
Qed.
End facts.
