(* ===== verification/VirtAsync.v ===== *)
(** * The verbs of virtual machines, await by await (crates/vdsm-virt)

    The verbs of [Virt] as programs over the registry of machines: a [virsh]
    process and the lock of the registry are where they wait.  The write guard of
    the reconciliation is kept across its [virsh] calls.

    Run alone, a program is the verb.  Run together, whatever the schedule: the
    registry keeps its invariant, only the holder of the guard changes it, and
    every schedule of the pending tasks comes to an end with all of them
    answered.  What is lost is the atomicity of a reconciliation. *)

From stdpp Require Import options.
From S2P Require Import Prelude Utf8 RustStr Json Rpc Os Virt VirtFacts Host Async AsyncFacts.

Abbreviation vm_registry := (gmap string VmRecord).

#[export] Instance vms_shared {W} : Shared (vms W) W vm_registry task := {
  get_reg := registry; set_reg r s := mkVms r (tasks s) (host s);
  get_tasks := tasks; set_tasks ts s := mkVms (registry s) ts (host s);
  get_world := host; set_world w s := mkVms (registry s) (tasks s) w;
}.

#[export] Instance vms_shared_laws {W} : SharedLaws (vms W) W vm_registry task.
Proof. by split. Qed.

(** ** The verbs *)

Section verbs.
Context {V} `{JsonOps V} {W} `{VirshOps W}.

Abbreviation vprog := (prog W vm_registry task).

Definition reply : Type := result V (JsonRpcError V).

Definition a_run_virsh (args : list string) (stdin : option string) : vprog (result string string) :=
  await (OnHost (run_virsh args stdin)).
Definition a_virsh (args : list string) : vprog (result string string) := a_run_virsh args None.

(** [now_secs()] does not wait; it is a read of the system. *)
Definition a_now : vprog N := await (OnHost (λ w, (clock w, w))).

Definition a_with_vm_id (params : V) (k : string → vprog reply) : vprog reply :=
  match vm_id_from params with Ok id => k id | Err e => Ret (Err e) end.

(** [registry().read().await.get(&vm_id).map(|r| r.vm_name.clone()).unwrap_or(vm_id)] *)
Definition a_name_of (id : string) : vprog string :=
  reg ← await ReadReg;
  Ret (match reg !! id with Some r => vm_name r | None => id end).

Definition a_vm_migrate (params : V) : vprog reply :=
  a_with_vm_id params (λ id,
    let dst := match jget "dst" params with
               | Some v => Some v
               | None => get_either "hostname" "dstHost" params
               end ≫= as_str in
    match dst with
    | None => Ret (Err (invalid_params "dst (destination host) required"))
    | Some dst =>
        name ← a_name_of id;
        _ ← await (Spawn (Migration name dst));
        Ret (Ok (jobj [("status", jobj [("code", jint 0); ("message", jstr "Migration started")]);
                       ("progress", jint 0)]))
    end).

Definition a_vm_migration_create (params : V) : vprog reply :=
  a_with_vm_id params (λ id,
    let spec := from_vm_params id params in
    now ← a_now;
    _ ← a_write (<[id := record_of spec WaitForLaunch now]>);
    Ret (Ok (jobj [("migrationPort", jint 49152); ("params", jobj [])]))).

Definition a_vm_migration_cancel (params : V) : vprog reply :=
  a_with_vm_id params (λ id,
    name ← a_name_of id; _ ← a_virsh ["domjobabort"; name]; Ret (Ok (jobj []))).

Definition a_vm_migrate_change_params (params : V) : vprog reply := Ret (Ok (jobj [])).

Definition a_vm_migrate_status (params : V) : vprog reply :=
  a_with_vm_id params (λ id,
    name ← a_name_of id;
    r ← a_virsh ["domjobinfo"; name];
    let info := match r with Ok i => i | Err _ => "" end in
    let '(total, processed, remaining) := job_info info in
    Ret (Ok (jobj [
       ("status", jobj [("code", jint 0); ("message", jstr "Done")]);
       ("progress", jint (progress total processed)); ("downtime", jint 0);
       ("dataTotal", jstr (to_string total)); ("dataProcessed", jstr (to_string processed));
       ("dataRemaining", jstr (to_string remaining))]))).

Definition a_vm_set_ticket (params : V) : vprog reply :=
  a_with_vm_id params (λ id,
    let password := param_str "password" "" params in
    let ttl := default 120%N ((jget "ttl" params ≫= as_str) ≫= parse_u64) in
    name ← a_name_of id;
    _ ← a_virsh ["qemu-monitor-command"; name; "--hmp"; "set_password vnc " +:+ password];
    _ ← a_virsh ["qemu-monitor-command"; name; "--hmp"; "expire_password vnc +" +:+ to_string ttl];
    Ret (Ok (jobj []))).

Definition a_vm_update_device (params : V) : vprog reply := Ret (Ok (jobj [])).

Definition a_vm_create (params : V) : vprog reply :=
  a_with_vm_id params (λ id,
    let spec := from_vm_params id params in
    r ← a_run_virsh ["define"; "/dev/stdin"] (Some (to_xml spec));
    match r with
    | Err e => Ret (Err (internal ("virsh define: " +:+ e)))
    | Ok _ =>
        r ← a_virsh ["start"; spec_name spec];
        match r with
        | Err e => Ret (Err (internal ("virsh start: " +:+ e)))
        | Ok _ =>
            now ← a_now;
            _ ← a_write (<[id := record_of spec Up now]>);
            Ret (Ok (jobj [("vmList", jobj [("vmId", jstr id);
                                            ("status", jstr (as_engine_str Up))])]))
        end
    end).

Definition a_vm_destroy (params : V) : vprog reply :=
  a_with_vm_id params (λ id,
    name ← a_name_of id;
    _ ← a_virsh ["destroy"; name];
    _ ← a_virsh ["undefine"; name];
    _ ← a_write (delete id);
    Ret (Ok (jobj []))).

Definition a_vm_shutdown (params : V) : vprog reply :=
  a_with_vm_id params (λ id,
    name ← a_name_of id;
    _ ← a_virsh ["shutdown"; name];
    _ ← a_write (alter (set_state PoweringDown) id);
    _ ← await (Spawn (Watchdog name id));
    Ret (Ok (jobj []))).

Definition a_vm_cont (params : V) : vprog reply :=
  a_with_vm_id params (λ id,
    name ← a_name_of id;
    _ ← a_virsh ["resume"; name];
    _ ← a_write (alter (set_state Up) id);
    Ret (Ok (jobj []))).

Definition a_vm_pause (params : V) : vprog reply :=
  a_with_vm_id params (λ id,
    name ← a_name_of id;
    _ ← a_virsh ["suspend"; name];
    _ ← a_write (alter (set_state Paused) id);
    Ret (Ok (jobj []))).

Fixpoint a_dump_loop (ids : list string) (out : list (string * V)) : vprog (list (string * V)) :=
  match ids with
  | [] => Ret out
  | id :: ids' =>
      r ← a_virsh ["dumpxml"; id];
      a_dump_loop ids' (match r with Ok xml => out ++ [(id, jstr xml)] | Err _ => out end)
  end.

Definition a_dump_xmls (params : V) : vprog reply :=
  out ← a_dump_loop (str_array (get_either "vmList" "vmIds" params)) []; Ret (Ok (jobj out)).

Definition a_vm_get_stats (params : V) : vprog reply :=
  a_with_vm_id params (λ id,
    reg ← await ReadReg;
    now ← a_now;
    let stats := match reg !! id with
                 | Some r => record_to_stats now r
                 | None => jobj [("vmId", jstr id); ("status", jstr "Down")]
                 end in
    Ret (Ok (jobj [("statsList", jarr [stats])]))).

(** ** Reconciliation: the guard is taken once and kept to the end *)

Definition a_reconcile_one (name : string) : vprog unit :=
  r ← a_virsh ["domuuid"; name];
  match r with
  | Err _ => Ret tt
  | Ok uuid_out =>
      let uuid := trim uuid_out in
      if is_empty uuid then Ret tt
      else
        reg ← await Peek;
        if decide (is_Some (reg !! uuid)) then Ret tt
        else
          r ← a_virsh ["dominfo"; name];
          let info := match r with Ok i => i | Err _ => "" end in
          now ← a_now;
          await (Update (<[uuid := mkVm uuid name (info_mem_mb info) (info_vcpus info) Up now]>))
  end.

Definition a_reconcile_from_libvirt : vprog unit :=
  r ← a_virsh ["list"; "--name"; "--state-running"];
  match r with
  | Err _ => Ret tt
  | Ok out =>
      let names := running_names out in
      _ ← await Lock;
      _ ← await (Update (filter (λ kv, vm_name kv.2 ∈ names)));
      _ ← a_for names a_reconcile_one;
      await Unlock
  end.

Definition a_get_all_vm_stats (params : V) : vprog reply :=
  _ ← a_reconcile_from_libvirt;
  reg ← await ReadReg;
  now ← a_now;
  Ret (Ok (jarr ((λ kv : string * VmRecord, record_to_stats now kv.2) <$> map_to_list reg))).

(** ** Background tasks *)

Definition a_run_task (t : task) : vprog unit :=
  match t with
  | Migration name dst =>
      _ ← a_virsh ["migrate"; "--live"; "--persistent"; "--undefinesource"; "--verbose";
                   "--auto-converge"; name; "qemu+tls://" +:+ dst +:+ "/system"];
      Ret tt
  | Watchdog name id =>
      r ← a_virsh ["domstate"; name];
      if match r with
         | Ok s => String.eqb (to_ascii_lowercase (trim s)) "running"
         | Err _ => false
         end
      then _ ← a_virsh ["destroy"; name]; a_write (alter (set_state Down) id)
      else Ret tt
  end.

(** Every verb. *)
Definition a_handlers : list (V → vprog reply) :=
  [a_vm_migrate; a_vm_migration_create; a_vm_migration_cancel; a_vm_migrate_change_params;
   a_vm_migrate_status; a_vm_set_ticket; a_vm_update_device; a_vm_create; a_vm_destroy;
   a_vm_shutdown; a_vm_cont; a_vm_pause; a_dump_xmls; a_vm_get_stats; a_get_all_vm_stats].

(** The programs a request can start. *)
Definition vm_request (p : vprog reply) : Prop := ∃ f params, f ∈ a_handlers ∧ p = f params.

(** The tasks over one registry. *)
Definition vm_cfg : Type := cfg (vms W) W vm_registry task reply.
Definition vm_cstep : relation vm_cfg := cstep vm_request a_run_task.
Definition vm_start (w : W) : vm_cfg := cfg_start (mkVms ∅ [] w).
End verbs.

(** ** Running a program alone *)

Section alone.
Context {V} `{!JsonOps V} {W} `{!VirshOps W}.
Implicit Types s : vms W.

Lemma seq_write f s :
  seq_run (a_write f) s = (tt, mkVms (f (registry s)) (tasks s) (host s)).
Proof. done. Qed.

Lemma seq_name_of id s : seq_run (a_name_of id) s = (name_of id s, s).
Proof. done. Qed.

Lemma seq_run_virsh args stdin s :
  seq_run (a_run_virsh args stdin) s = on_host (run_virsh args stdin) s.
Proof. cbn. unfold st_bind, on_host. by destruct (run_virsh args stdin (host s)). Qed.

Lemma seq_virsh args s : seq_run (a_virsh args) s = virsh_do args s.
Proof. apply seq_run_virsh. Qed.

Lemma seq_now s : seq_run a_now s = (clock (host s), s).
Proof. by destruct s. Qed.

(** Step through a program and the verb side by side. *)
Ltac seq_steps :=
  repeat first
    [ rewrite seq_bind
    | rewrite seq_name_of
    | rewrite seq_virsh
    | rewrite seq_run_virsh
    | rewrite seq_now
    | rewrite seq_write
    | progress unfold st_bind, st_ret, update_registry, spawn
    | progress cbn [registry tasks host fst snd seq_run eff_run await
                    vms_shared get_reg set_reg get_tasks set_tasks get_world set_world]
    | match goal with |- context [virsh_do ?a ?s] =>
        let r := fresh "r" in let w := fresh "w" in
        destruct (virsh_do_pair a s) as (r & w & ->) end
    | done
    | case_match; simplify_eq ].

Lemma with_vm_id_seq (params : V) f a s :
  (∀ id s, seq_run (a id) s = f id s) →
  seq_run (a_with_vm_id params a) s = with_vm_id params f s.
Proof. intros Hf. unfold a_with_vm_id, with_vm_id. by destruct (vm_id_from params). Qed.

Lemma dump_loop_seq ids out s :
  seq_run (a_dump_loop (V := V) ids out) s = dump_loop ids out s.
Proof.
  revert out s. induction ids as [|id ids IH]; intros out s; [done|]. cbn [a_dump_loop dump_loop].
  rewrite seq_bind, seq_virsh. unfold st_bind. destruct (virsh_do _ s) as [r s']. apply IH.
Qed.

Lemma reconcile_one_seq name s : seq_run (a_reconcile_one name) s = reconcile_one name s.
Proof.
  unfold a_reconcile_one, reconcile_one. rewrite seq_bind, seq_virsh. unfold st_bind at 1.
  destruct (virsh_do_pair ["domuuid"; name] s) as (r & w & ->). destruct r as [u|]; [|done].
  destruct (is_empty (trim u)); [done|]. rewrite seq_bind.
  cbn [await seq_run eff_run]. unfold st_bind at 1, st_ret at 1. cbn [registry get_reg vms_shared].
  destruct (decide (is_Some (registry s !! trim u))); [done|].
  rewrite seq_bind, seq_virsh. unfold st_bind. destruct (virsh_do _ _) as [r s1].
  rewrite seq_bind, seq_now. done.
Qed.

Lemma reconcile_seq s : seq_run a_reconcile_from_libvirt s = reconcile_from_libvirt s.
Proof.
  assert (∀ l s, seq_run (a_for l a_reconcile_one) s = st_for l reconcile_one s) as Hfor.
  { induction l as [|n l IH]; intros t; [done|]. cbn [a_for st_for]. rewrite seq_bind, reconcile_one_seq.
    unfold st_bind. destruct (reconcile_one n t) as [[] t']. apply IH. }
  unfold a_reconcile_from_libvirt, reconcile_from_libvirt. rewrite seq_bind, seq_virsh. unfold st_bind.
  destruct (virsh_do _ s) as [[out|e] s1]; [|done].
  rewrite seq_bind. cbn [await seq_run eff_run]. unfold st_bind, st_ret.
  rewrite seq_bind. cbn [await seq_run eff_run]. unfold st_bind, st_ret, update_registry.
  rewrite seq_bind, Hfor. by destruct (st_for _ _ _) as [[] s2].
Qed.

Lemma run_task_seq t s : seq_run (a_run_task t) s = run_task t s.
Proof. destruct t; cbn [a_run_task run_task]; seq_steps. Qed.

(** The verbs and their programs. *)
Definition verb_programs : list ((V → st (vms W) reply) * (V → prog W vm_registry task reply)) :=
  zip (handlers ++ [get_all_vm_stats]) a_handlers.

(** A verb that is not interrupted does what the sequential model of it
    says: for every verb of virtual machines, running its program from the first
    await to the last without letting anyone in between is the verb, on every
    request and every state; and so are reconciliation and the background
    tasks. *)
Theorem async_sequential :
  (∀ f a, (f, a) ∈ verb_programs → ∀ params s, seq_run (a params) s = f params s) ∧
  (∀ s, seq_run a_reconcile_from_libvirt s = reconcile_from_libvirt s) ∧
  (∀ t s, seq_run (a_run_task t) s = run_task t s).
Proof.
  split; [|split; [apply reconcile_seq|apply run_task_seq]].
  intros f a Hfa params s. unfold verb_programs, handlers, a_handlers in Hfa. cbn [zip zip_with app] in Hfa.
  repeat (apply elem_of_cons in Hfa as [[= -> ->]|Hfa]); [..|by apply not_elem_of_nil in Hfa].
  all: try (apply with_vm_id_seq; clear s; intros id s; seq_steps).
  - done.
  - done.
  - unfold a_dump_xmls, dump_xmls. rewrite seq_bind, dump_loop_seq. unfold st_bind.
    by destruct (dump_loop _ _ s).
  - unfold a_get_all_vm_stats, get_all_vm_stats. rewrite seq_bind, reconcile_seq. unfold st_bind.
    destruct (reconcile_from_libvirt s) as [[] s1]. seq_steps.
Qed.
End alone.


(** ** The discipline of the lock *)

Section discipline.
Context {V} `{!JsonOps V} {W} `{!VirshOps W}.

Abbreviation vdisc := (disc (W := W) (R := vm_registry) (T := task) registry_ok).


Lemma disc_run_virsh h args stdin : vdisc h h (a_run_virsh args stdin).
Proof. done. Qed.

Lemma disc_virsh h args : vdisc h h (a_virsh args).
Proof. done. Qed.

Lemma disc_now h : vdisc h h a_now.
Proof. done. Qed.

Lemma disc_name_of id : vdisc false false (a_name_of id).
Proof. done. Qed.

Ltac vdisc_tac :=
  repeat first
    [ progress disc_tac
    | apply disc_virsh
    | apply disc_run_virsh
    | apply disc_now
    | apply disc_name_of ].

Lemma disc_with_vm_id (params : V) k :
  (∀ id, vdisc false false (k id)) → vdisc false false (a_with_vm_id params k).
Proof. intros Hk. unfold a_with_vm_id. by destruct (vm_id_from params). Qed.

Lemma insert_ok k r reg : record_ok k r → registry_ok reg → registry_ok (<[k := r]> reg).
Proof. intros Hr. by apply reg_change_ok, change_insert. Qed.

Lemma alter_ok st k reg : registry_ok reg → registry_ok (alter (set_state st) k reg).
Proof. apply reg_change_ok, change_state. Qed.

Lemma delete_ok (k : string) reg : registry_ok reg → registry_ok (delete k reg).
Proof. apply reg_change_ok, change_delete. Qed.

Lemma disc_reconcile_one name : vdisc true true (a_reconcile_one name).
Proof.
  unfold a_reconcile_one. vdisc_tac. apply insert_ok; [|done]. split; [done|apply info_vcpus_le].
Qed.

Lemma disc_reconcile : vdisc false false a_reconcile_from_libvirt.
Proof.
  unfold a_reconcile_from_libvirt. eapply disc_bind; [apply disc_virsh|]. intros [out|]; [|done].
  eapply disc_bind; [by apply (disc_await _ false Lock)|]. intros _.
  eapply disc_bind.
  { apply (disc_await _ true (Update _)); [done|]. intros reg. apply reg_change_ok, change_filter. }
  intros _. eapply disc_bind; [|by intros; apply (disc_await _ true Unlock)].
  apply disc_for, disc_reconcile_one.
Qed.

Lemma disc_task t : vdisc false false (a_run_task t).
Proof.
  destruct t as [name dst|name id]; cbn [a_run_task]; vdisc_tac. by apply alter_ok.
Qed.

Lemma disc_handler f (params : V) : f ∈ a_handlers → vdisc false false (f params).
Proof.
  intros Hf. unfold a_handlers in Hf.
  repeat (apply elem_of_cons in Hf as [->|Hf]); [..|by apply not_elem_of_nil in Hf];
    try (apply disc_with_vm_id; intros id).
  all: try solve [cbv zeta; vdisc_tac; first [ by apply alter_ok | by apply delete_ok
    | apply insert_ok; [apply from_vm_params_ok | done] ]].
  all: try solve [cbv zeta; vdisc_tac | done].
  - eapply disc_bind; [|done]. generalize (str_array (get_either "vmList" "vmIds" params)).
    intros ids. generalize ([] : list (string * V)). induction ids as [|id ids IH]; intros acc; [done|].
    cbn [a_dump_loop]. eapply disc_bind; [apply disc_virsh|]. intros r. apply IH.
  - unfold a_get_all_vm_stats. eapply disc_bind; [apply disc_reconcile|]. by vdisc_tac.
Qed.

Lemma request_disc p : vm_request (V := V) (W := W) p → vdisc false false p.
Proof. intros (f & params & Hf & ->). by apply disc_handler. Qed.
End discipline.

(** ** Many tasks *)

Section pool.
Context {V} `{!JsonOps V} {W} `{!VirshOps W}.
Implicit Types c : vm_cfg (V := V) (W := W).

Lemma vm_reachable_ok w c : rtc vm_cstep (vm_start w) c → cfg_ok registry_ok c.
Proof. apply reachable_ok; [apply request_disc|apply disc_task|apply map_Forall_empty]. Qed.

(** C22: whatever requests arrive, however their verbs and the background tasks
    are interleaved and whatever [virsh] answers, the registry of machines stays
    well-formed, and it only ever changes by one update of the task that holds
    its write guard, while no other task is past taking it. *)
Theorem async_registry w c :
  rtc vm_cstep (vm_start w) c →
  registry_ok (registry (shared c)) ∧
  ∀ c', vm_cstep c c' → registry (shared c') ≠ registry (shared c) →
    ∃ i f k, lock c = Some i ∧ threads c !! i = Some (Do (Update f) k) ∧
             registry (shared c') = f (registry (shared c)) ∧
             (∀ j p, j ≠ i → threads c !! j = Some p → disc registry_ok false false p).
Proof.
  intros Hr%vm_reachable_ok. split; [apply Hr|]. intros c' Hs Hne.
  exact (cstep_registry registry_ok _ _ _ _ Hr Hs Hne).
Qed.

(** C23: no verb waits for ever.  From every state that requests can lead to,
    every schedule of the tasks comes to an end ([virsh] answering every time);
    it cannot end before the guard is free again and every task is done; and a
    request that had been taken up then has its reply. *)
Theorem async_completes w c :
  rtc vm_cstep (vm_start w) c →
  Acc (flip task_step) c ∧
  ∀ c', rtc task_step c c' → (¬ ∃ c'', task_step c' c'') →
    lock c' = None ∧ map_Forall (λ _, answered) (threads c') ∧
    ∀ i p, threads c !! i = Some (serving p) → ∃ r, threads c' !! i = Some (Ret (Some r)).
Proof. intros Hok%vm_reachable_ok. by apply (tasks_complete registry_ok). Qed.

Lemma retain_none (reg : vm_registry) :
  filter (λ kv, vm_name kv.2 ∈ running_names "") reg = ∅.
Proof.
  apply map_empty. intros k. apply map_lookup_filter_None. right. intros r _. apply not_elem_of_nil.
Qed.

Lemma vm_request_at (f : V → prog W vm_registry task reply) params n :
  a_handlers !! n = Some f → vm_request (f params).
Proof. intros Hf. exists f, params. split; [by eapply list_elem_of_lookup_2|done]. Qed.

(** C26: a reconciliation can forget a machine that has just been started.  It
    lists the running machines before it takes the guard; when [VM.create]
    defines, starts and registers a machine in between, the entry is dropped
    although the machine runs and the engine was told it is up, and the statistics
    that follow do not mention it. *)
Theorem reconcile_race (params q : V) id w w1 w2 w3 o1 o2 :
  vm_id_from params = Ok id →
  run_virsh ["list"; "--name"; "--state-running"] None w = (Ok "", w1) →
  run_virsh ["define"; "/dev/stdin"] (Some (to_xml (from_vm_params id params))) w1 = (Ok o1, w2) →
  run_virsh ["start"; spec_name (from_vm_params id params)] None w2 = (Ok o2, w3) →
  ∃ c, rtc vm_cstep (vm_start w) c ∧
    threads c !! 0 = Some (Ret (Some (Ok (jarr [])))) ∧
    threads c !! 1 = Some (Ret (Some (Ok (jobj [("vmList",
      jobj [("vmId", jstr id); ("status", jstr (as_engine_str Up))])])))) ∧
    shared c = mkVms ∅ [] w3.
Proof.
  intros Hid Hlist Hdef Hstart. eexists. split; [|].
  { eapply rtc_l; [right; apply (new_request _ _ 0 (a_get_all_vm_stats q)); [done|]|].
    { by apply (vm_request_at _ _ 14). }
    eapply rtc_l; [right; apply (new_request _ _ 1 (a_vm_create params)); [done|]|].
    { by apply (vm_request_at _ _ 7). }
    eapply (host_step _ _ _ _ 0); [done|exact Hlist|].
    unfold a_vm_create, a_with_vm_id. rewrite Hid.
    eapply (host_step _ _ _ _ 1); [done|exact Hdef|].
    eapply (host_step _ _ _ _ 1); [done|exact Hstart|].
    do 4 (eapply (steps_l _ _ 1); [done|done|done|]).
    do 5 (eapply (steps_l _ _ 0); [done|done|done|]).
    apply rtc_refl. }
  cbn -[filter map_to_list running_names]. rewrite !retain_none. split_and!.
  - rewrite lookup_insert_eq. by rewrite map_to_list_empty.
  - by rewrite !lookup_insert_ne, lookup_insert_eq by done.
  - done.
Qed.
End pool.

(** ** Witnesses *)

(** [Host.getAllVMStats] and [VM.create] arrive together on a host without
    machines. *)
Definition two_requests : vm_cfg (V := JVal) (W := list string) :=
  mkCfg (<[1 := serving (a_vm_create vm_params)]> (<[0 := serving (a_get_all_vm_stats JNull)]> ∅))
    None (mkVms ∅ [] []).

Lemma two_requests_reachable : rtc vm_cstep (vm_start []) two_requests.
Proof.
  eapply rtc_l; [right; apply (new_request _ _ 0 (a_get_all_vm_stats JNull)); [done|]|].
  { by apply (vm_request_at _ _ 14). }
  eapply rtc_once. right. apply (new_request _ _ 1 (a_vm_create vm_params)); [done|].
  by apply (vm_request_at _ _ 7).
Qed.

Definition after (order : list nat) : vm_cfg (V := JVal) (W := list string) :=
  default two_requests (schedule order two_requests).

Lemma after_steps order : rtc task_step two_requests (after order).
Proof.
  unfold after. destruct (schedule order two_requests) as [c|] eqn:Hs; [|done].
  apply schedule_steps. by exists order.
Qed.

Lemma after_reachable order : rtc vm_cstep (vm_start []) (after order).
Proof.
  etrans; [apply two_requests_reachable|].
  eapply rtc_subrel; [|apply after_steps]. intros ??. by left.
Qed.

(** The machine has been created; the reconciliation waits to start. *)
Lemma async_registry_witness :
  registry_ok (registry (shared (after [1; 1; 1; 1; 1; 1]))) ∧
  vm_state <$> registry (shared (after [1; 1; 1; 1; 1; 1])) !! "a" = Some Up.
Proof.
  split; [|vm_compute; reflexivity].
  apply (async_registry [] (after [1; 1; 1; 1; 1; 1])). apply after_reachable.
Defined.

Lemma async_completes_witness :
  ∃ r, threads (after [0; 1; 1; 1; 1; 1; 1; 0; 0; 0; 0; 0]) !! 0 = Some (Ret (Some r)).
Proof.
  apply (proj2 (async_completes [] two_requests two_requests_reachable) _ (after_steps _))
    with (p := a_get_all_vm_stats JNull); [|reflexivity].
  apply answered_end. apply (bool_decide_unpack _). vm_compute. exact I.
Defined.

Lemma reconcile_race_witness :
  ∃ c : vm_cfg (V := JVal) (W := list string), rtc vm_cstep (vm_start []) c ∧
    threads c !! 0 = Some (Ret (Some (Ok (jarr [])))) ∧
    threads c !! 1 = Some (Ret (Some (Ok (jobj [("vmList",
      jobj [("vmId", jstr "a"); ("status", jstr (as_engine_str Up))])])))) ∧
    shared c = mkVms ∅ [] ["a"].
Proof.
  apply (reconcile_race vm_params JNull "a" [] [] [] ["a"] "" ""); vm_compute; reflexivity.
Defined.
