(* ===== verification/Vdsmd.v ===== *)
(** * The daemon (crates/vdsmd/src/main.rs)

    The state of the whole process and the table of the verbs it serves. *)

From stdpp Require Import options.
From S2P Require Import Prelude RustStr Json Rpc Os Supervdsm Storage StorageDomain Volumes Block Virt Host.

(** The process-wide registries of the storage and virt crates, the background
    tasks, and the system they share. *)
Record vdsm (W : Type) := mkVdsm {
  v_connections : list StorageServerConnection;
  v_pool : PoolState;
  v_registry : gmap string VmRecord;
  v_tasks : list task;
  v_sys : W
}.
Arguments mkVdsm {W} _ _ _ _ _.
Arguments v_connections {W} _.
Arguments v_pool {W} _.
Arguments v_registry {W} _.
Arguments v_tasks {W} _.
Arguments v_sys {W} _.

(** What the verbs of each crate see of it. *)
Definition as_store {W} (s : vdsm W) : store W := mkStore (v_connections s) (v_pool s) (v_sys s).
Definition as_vms {W} (s : vdsm W) : vms W := mkVms (v_registry s) (v_tasks s) (v_sys s).

Definition put_store {W} (s : vdsm W) (t : store W) : vdsm W :=
  mkVdsm (connections t) (pool_state t) (v_registry s) (v_tasks s) (sys t).
Definition put_vms {W} (s : vdsm W) (t : vms W) : vdsm W :=
  mkVdsm (v_connections s) (v_pool s) (registry t) (tasks t) (host t).
Definition put_sys {W} (s : vdsm W) (w : W) : vdsm W :=
  mkVdsm (v_connections s) (v_pool s) (v_registry s) (v_tasks s) w.

Definition on_store {W A} (m : st (store W) A) : st (vdsm W) A := λ s,
  let '(a, t) := m (as_store s) in (a, put_store s t).
Definition on_vms {W A} (m : st (vms W) A) : st (vdsm W) A := λ s,
  let '(a, t) := m (as_vms s) in (a, put_vms s t).
Definition on_os {W A} (m : st W A) : st (vdsm W) A := λ s,
  let '(a, w) := m (v_sys s) in (a, put_sys s w).

Section vdsmd.
Context {W} `{!OsOps W, !PrivSerde, !VirshOps W}.
Context {V} `{!JsonOps V, !StorageSerde V, !IscsiSerde V}.

(** A verb of the host and storage crates that uses the system only, one that
    uses the storage registries, one that uses the machines. *)
Definition osv (f : handler V W) : handler V (vdsm W) := λ p, on_os (f p).
Definition stv (f : handler V (store W)) : handler V (vdsm W) := λ p, on_store (f p).
Definition vmv (f : handler V (vms W)) : handler V (vdsm W) := λ p, on_vms (f p).

Definition host_verbs : list (string * handler V (vdsm W)) :=
  [("Host.ping2", osv ping2);
   ("Host.getCapabilities", osv get_capabilities);
   ("Host.getStats", osv get_stats);
   ("Host.getAllVmStats", vmv get_all_vm_stats);
   ("Host.setupNetworks", osv setup_networks);
   ("Host.setSafeNetworkConfig", osv set_safe_network_config);
   ("Host.getHardwareInfo", osv get_hardware_info);
   ("Host.hostdevListByCaps", osv hostdev_list_by_caps);
   ("Host.setMOMPolicyParameters", osv set_mom_policy_parameters);
   ("Host.setMOMPolicy", osv set_mom_policy)].

Definition vm_verbs : list (string * handler V (vdsm W)) :=
  [("VM.create", vmv vm_create);
   ("VM.destroy", vmv vm_destroy);
   ("VM.shutdown", vmv vm_shutdown);
   ("VM.cont", vmv vm_cont);
   ("VM.pause", vmv vm_pause);
   ("VM.getStats", vmv vm_get_stats);
   ("VM.setTicket", vmv vm_set_ticket);
   ("VM.updateDevice", vmv vm_update_device);
   ("VM.hotplugDisk", vmv vm_update_device);
   ("VM.hotunplugDisk", vmv vm_update_device);
   ("VM.hotplugNic", vmv vm_update_device);
   ("VM.hotunplugNic", vmv vm_update_device);
   ("VM.migrate", vmv vm_migrate);
   ("VM.migrationCreate", vmv vm_migration_create);
   ("VM.migrationCancel", vmv vm_migration_cancel);
   ("VM.migrateCancel", vmv vm_migration_cancel);
   ("VM.migrateChangeParams", vmv vm_migrate_change_params);
   ("VM.migrateStatus", vmv vm_migrate_status);
   ("Host.dumpxmls", vmv dump_xmls)].

Definition storage_verbs : list (string * handler V (vdsm W)) :=
  [("StoragePool.connectStorageServer", stv connect_storage_server);
   ("StoragePool.disconnectStorageServer", stv disconnect_storage_server);
   ("Host.getStorageServerConnectionsList", stv get_storage_server_connections_list);
   ("Host.discoverSendTargets", stv discover_send_targets);
   ("Host.getDeviceList", stv get_device_list);
   ("StorageDomain.create", osv create_storage_domain);
   ("StorageDomain.getInfo", osv get_storage_domain_info);
   ("StorageDomain.getStats", osv get_storage_domain_stats);
   ("StorageDomain.attach", osv attach_storage_domain);
   ("StorageDomain.activate", osv activate_storage_domain);
   ("StoragePool.connectStoragePool", stv connect_storage_pool);
   ("StoragePool.connect", stv connect_storage_pool);
   ("StoragePool.disconnect", stv connect_storage_pool);
   ("StoragePool.reconstructMaster", stv create_storage_pool);
   ("StoragePool.refresh", stv connect_storage_pool);
   ("StorageDomain.refresh", osv activate_storage_domain);
   ("StorageDomain.detach", osv attach_storage_domain);
   ("StorageDomain.deactivate", osv activate_storage_domain);
   ("StorageDomain.format", osv activate_storage_domain);
   ("StoragePool.spmStop", stv spm_start);
   ("Volume.create", osv volume_create);
   ("Volume.getInfo", osv volume_get_info);
   ("Volume.getSize", osv volume_get_size);
   ("Volume.delete", osv volume_delete);
   ("Image.prepare", osv image_prepare);
   ("Image.teardown", osv image_teardown);
   ("Image.delete", osv image_delete);
   ("Image.deleteVolumes", osv image_delete_volumes)].

Definition block_verbs : list (string * handler V (vdsm W)) :=
  [("Host.discoverSendTargets", osv iscsi_discover_send_targets);
   ("Host.iscsiDiscoverSendTargets", osv iscsi_discover_send_targets);
   ("Host.iscsiLogin", osv iscsi_login);
   ("Host.iscsiLogout", osv iscsi_logout);
   ("Host.iscsiRescan", osv iscsi_rescan);
   ("Host.getDeviceList", stv get_device_list);
   ("Host.getDevicesVisibility", osv get_devices_visibility);
   ("Host.getLVMVGList", osv get_lvm_vg_list);
   ("Host.getVGInfo", osv get_vg_info);
   ("Host.createVG", osv create_vg);
   ("Host.extendVG", osv extend_vg);
   ("Host.removeVG", osv remove_vg);
   ("Host.getPathListStatus", osv get_path_list_status);
   ("Host.fcScan", osv fc_scan);
   ("StoragePool.create", stv create_storage_pool);
   ("StoragePool.spmStart", stv spm_start);
   ("StoragePool.getSpmStatus", stv get_spm_status);
   ("StoragePool.getInfo", stv get_storage_pool_info);
   ("Host.HSMGetAllTasksStatuses", osv hsm_get_all_tasks_statuses)].

(** The [register] calls of [main], in their order. *)
Definition verbs : list (string * handler V (vdsm W)) :=
  host_verbs ++ vm_verbs ++ storage_verbs ++ block_verbs.

Definition vdsmd_dispatcher : Dispatcher V (vdsm W) := build_from verbs.

(** The state [main] starts with: every registry is empty. *)
Definition vdsmd_start (w : W) : vdsm W := mkVdsm [] pool_default ∅ [] w.
End vdsmd.
