(* ===== verification/VdsmdFacts.v ===== *)
(** * Properties of the daemon as a whole

    What a connection can do to the daemon is a sequence of verbs; hence the
    invariants of the components hold of the process, whatever bytes the
    engine, or anyone else, sends. *)

From stdpp Require Import options.
From S2P Require Import Prelude Utf8 RustStr Stomp Json Rpc Server ServerFacts Os Supervdsm SupervdsmFacts Storage StorageFacts StorageDomain StorageDomainFacts Volumes Block BlockFacts Virt VirtFacts Host Vdsmd.

(** ** A connection is a sequence of requests *)

Section connection.
Context {V W : Type} `{!RpcSerde V, !HashIter}.
Context (dispatcher : Dispatcher V W) (sock_ok : list bytes → bytes → bool) (peer : string).

Inductive request_step : W → W → Prop :=
| request method params w : request_step w (invoke dispatcher method params w).2.

Lemma stomp_response_requests b w : rtc request_step w (stomp_response dispatcher b w).2.
Proof.
  unfold stomp_response. destruct (from_str_request b) as [req|e]; [|done].
  pose proof (request (req_method req) (req_params req) w) as Hr.
  destruct (invoke _ _ _ _) as [r w']. by apply rtc_once.
Qed.

Lemma handle_frame_requests f c w :
  rtc request_step w (handle_frame dispatcher sock_ok peer f c w).2.
Proof.
  unfold handle_frame, route_frame. repeat (case_match; try done). unfold handle_stomp_send.
  destruct (from_utf8 (body f)) as [b|e]; [|done].
  pose proof (stomp_response_requests b w) as Hr.
  destruct (stomp_response dispatcher b w) as [[resp id] w']. cbn [snd] in Hr.
  by repeat case_match.
Qed.

Lemma drain_requests fuel buf c w :
  rtc request_step w (drain_go dispatcher sock_ok peer fuel buf c w).2.
Proof.
  revert buf c w. induction fuel as [|fuel IH]; intros buf c w; [done|]. cbn [drain_go].
  destruct (parse_frame buf) as [[[[f rest]|]|e]|]; try done.
  pose proof (handle_frame_requests f c w) as Hf.
  destruct (handle_frame _ _ _ f c w) as [[k c'] w']. cbn [snd] in Hf.
  destruct k; [|done]. etrans; [exact Hf|apply IH].
Qed.

Lemma serve_stomp_requests reads buf c w :
  rtc request_step w (serve_stomp_from dispatcher sock_ok peer reads buf c w).2.
Proof.
  revert buf c w. induction reads as [|[chunk|] reads IH]; intros buf c w; [done| |done].
  cbn [serve_stomp_from]. destruct (is_empty chunk); [done|].
  pose proof (drain_requests (S (strlen (buf +:+ chunk))) (buf +:+ chunk) c w) as Hd.
  unfold drain. destruct (drain_go _ _ _ _ _ c w) as [[[k buf'] c'] w']. cbn [snd] in Hd.
  destruct k; [|done]. etrans; [exact Hd|apply IH].
Qed.

Lemma process_one_requests line w : rtc request_step w (process_one dispatcher line w).2.
Proof.
  unfold process_one. destruct (from_str_request line) as [req|e]; [|done].
  pose proof (request (req_method req) (req_params req) w) as Hr.
  destruct (invoke _ _ _ _) as [r w']. cbn [snd] in Hr.
  destruct (req_id req); by apply rtc_once.
Qed.

Lemma serve_lines_requests fuel input out w :
  rtc request_step w (serve_lines_go dispatcher sock_ok fuel input out w).2.
Proof.
  revert input out w. induction fuel as [|fuel IH]; intros input out w; [done|].
  cbn [serve_lines_go]. destruct (read_line input) as [line rest].
  destruct (is_empty line); [done|]. destruct (negb _); [done|].
  destruct (is_empty (trim line)); [apply IH|].
  pose proof (process_one_requests (trim line) w) as Hp.
  destruct (process_one _ _ w) as [[resp|] w']; cbn [snd] in Hp; [|etrans; [exact Hp|apply IH]].
  destruct (response_to_vec resp); [|done].
  destruct (write_all _ _ _); [|done]. etrans; [exact Hp|apply IH].
Qed.
End connection.

(** ** Steps of the daemon *)

Section daemon.
Context {W} `{!OsOps W, !PrivSerde, !VirshOps W}.
Context {V} `{!JsonOps V, !StorageSerde V, !IscsiSerde V}.

(** A request for any verb, a background task, or the system moving on. *)
Inductive vdsm_step : vdsm W → vdsm W → Prop :=
| vdsm_request method (params : V) s :
    vdsm_step s (invoke vdsmd_dispatcher method params s).2
| vdsm_task t ts1 ts2 s :
    v_tasks s = ts1 ++ t :: ts2 →
    vdsm_step s (put_vms s (run_task t (mkVms (v_registry s) (ts1 ++ ts2) (v_sys s))).2)
| vdsm_world s w : vdsm_step s (put_sys s w).

(** What one step may change of the registries. *)
Definition keeps (s s' : vdsm W) : Prop :=
  reg_change (v_registry s) (v_registry s') ∧
  (pool_ok (v_pool s) → pool_ok (v_pool s') ∧ pool_le (v_pool s) (v_pool s')).

Lemma pool_le_refl p : pool_le p p.
Proof. unfold pool_le. auto with lia. Qed.

Lemma osv_keeps f (params : V) s : keeps s (osv f params s).2.
Proof.
  unfold osv, on_os. destruct (f params (v_sys s)). split; [apply change_refl|].
  split; [done|apply pool_le_refl].
Qed.

Lemma stv_keeps f (params : V) s :
  (∀ t, pool_ok (pool_state t) →
    pool_ok (pool_state (f params t).2) ∧ pool_le (pool_state t) (pool_state (f params t).2)) →
  keeps s (stv f params s).2.
Proof.
  intros Hf. unfold stv, on_store. specialize (Hf (as_store s)).
  destruct (f params (as_store s)). by split; [apply change_refl|].
Qed.

Lemma vmv_keeps f (params : V) s :
  (∀ t, reg_change (registry t) (registry (f params t).2)) → keeps s (vmv f params s).2.
Proof.
  intros Hf. unfold vmv, on_vms. specialize (Hf (as_vms s)).
  destruct (f params (as_vms s)). split; [done|]. split; [done|apply pool_le_refl].
Qed.

Lemma connect_loop_pool l ty (acc : list V) s :
  pool_state (connect_loop l ty acc s).2 = pool_state s.
Proof.
  revert acc s. induction l as [|spec l IH]; intros acc s; [done|]. cbn [connect_loop].
  unfold st_bind. pose proof (on_sys_pool (mount_one spec ty) s) as Hs.
  destruct (on_sys _ s) as [z s1]. cbn [snd] in Hs.
  destruct (z =? 0)%Z; unfold update_connections, st_ret; rewrite IH; done.
Qed.

Lemma disconnect_loop_pool l (acc : list V) s :
  pool_state (disconnect_loop l acc s).2 = pool_state s.
Proof.
  revert acc s. induction l as [|spec l IH]; intros acc s; [done|]. cbn [disconnect_loop].
  unfold st_bind. pose proof (on_sys_pool (umount_one spec) s) as Hs.
  destruct (on_sys _ s) as [z s1]. cbn [snd] in Hs.
  unfold update_connections. rewrite IH. done.
Qed.

(** A storage verb that leaves the pool alone, and the verbs that do not. *)
Lemma stv_same f (params : V) s :
  (∀ t, pool_state (f params t).2 = pool_state t) → keeps s (stv f params s).2.
Proof. intros Hf. apply stv_keeps. intros t Ht. rewrite Hf. split; [done|apply pool_le_refl]. Qed.

Lemma stv_step f (params : V) s :
  (∀ t, pool_step (V := V) t (f params t).2) → keeps s (stv f params s).2.
Proof. intros Hf. apply stv_keeps. intros t Ht. by apply (pool_step_spec (V := V)). Qed.

Lemma get_all_vm_stats_change (params : V) s :
  reg_change (registry s) (registry (get_all_vm_stats params s).2).
Proof.
  unfold get_all_vm_stats, st_bind. pose proof (reconcile_change s) as Hr.
  by destruct (reconcile_from_libvirt s).
Qed.

Ltac in_handlers := first [left | right; in_handlers].

Ltac solve_vmv :=
  apply vmv_keeps; intros;
  first [apply get_all_vm_stats_change | apply handler_change; in_handlers].

Lemma verbs_keep : Forall (λ mh, ∀ (params : V) s, keeps s (mh.2 params s).2) verbs.
Proof.
  unfold verbs. rewrite !Forall_app. repeat split.
  - repeat (constructor; [intros params s; cbn [snd]; first [apply osv_keeps | solve_vmv]|]).
    constructor.
  - repeat (constructor; [intros params s; cbn [snd]; solve_vmv|]). constructor.
  - repeat (constructor; [intros params s; cbn [snd];
      first [ apply osv_keeps | apply stv_same; by intros ?
            | apply stv_step; intros; first [by eapply step_connect | by eapply step_create
                                            | by eapply step_spm_start]
            | idtac ]|]);
    [| |constructor].
    + apply stv_same. intros t. unfold connect_storage_server, st_bind.
      match goal with |- context [connect_loop ?l ?ty ?acc t] =>
        pose proof (connect_loop_pool l ty acc t) as Hc; destruct (connect_loop l ty acc t) end.
      done.
    + apply stv_same. intros t. unfold disconnect_storage_server, st_bind.
      match goal with |- context [disconnect_loop ?l ?acc t] =>
        pose proof (disconnect_loop_pool l acc t) as Hc; destruct (disconnect_loop l acc t) end.
      done.
  - repeat (constructor; [intros params s; cbn [snd];
      first [ apply osv_keeps | apply stv_same; by intros ?
            | apply stv_step; intros; first [by eapply step_create | by eapply step_spm_start]
            | apply stv_same; intros t; apply get_storage_pool_info_pool ]|]).
    constructor.
Qed.

Lemma assoc_last_elem {A} k (l : list (string * A)) v : assoc_last k l = Some v → (k, v) ∈ l.
Proof.
  induction l as [|[k' v'] l IH]; [done|]. cbn [assoc_last].
  destruct (assoc_last k l) as [x|]; [intros [= ->]; right; by apply IH|].
  destruct (String.eqb_spec k' k) as [->|]; [intros [= ->]; left|done].
Qed.

(** What [invoke] does, verb by verb. *)
Lemma vdsmd_invoke method (params : V) s :
  invoke vdsmd_dispatcher method params s =
  match assoc_last method verbs with
  | Some h => h params s
  | None => (Err (method_not_found method), s)
  end.
Proof.
  apply invoke_build_from.
Qed.

Lemma invoke_keeps method (params : V) s :
  keeps s (invoke vdsmd_dispatcher method params s).2.
Proof.
  rewrite vdsmd_invoke. destruct (assoc_last method verbs) as [h|] eqn:E.
  - apply assoc_last_elem in E. pose proof verbs_keep as Hv. rewrite Forall_forall in Hv.
    exact (Hv _ E params s).
  - split; [apply change_refl|]. split; [done|apply pool_le_refl].
Qed.

Lemma step_keeps s s' : vdsm_step s s' → keeps s s'.
Proof.
  intros [method params s0|t ts1 ts2 s0 Ht|s0 w].
  - apply invoke_keeps.
  - split; [|split; [done|apply pool_le_refl]].
    exact (run_task_change t (mkVms (v_registry s0) (ts1 ++ ts2) (v_sys s0))).
  - split; [apply change_refl|]. split; [done|apply pool_le_refl].
Qed.

Lemma pool_le_trans p q r : pool_le p q → pool_le q r → pool_le p r.
Proof.
  unfold pool_le. intros (H1 & H2 & H3 & H4) (H5 & H6 & H7 & H8).
  split; [by etrans|]. split; [lia|]. auto.
Qed.

(** The invariant of the process. *)
Definition vdsm_ok (s : vdsm W) : Prop := registry_ok (v_registry s) ∧ pool_ok (v_pool s).

Lemma start_ok w : vdsm_ok (vdsmd_start w).
Proof. split; [apply map_Forall_empty|]. split; [constructor|done]. Qed.

Lemma steps_ok s s' :
  vdsm_ok s → rtc vdsm_step s s' → vdsm_ok s' ∧ pool_le (v_pool s) (v_pool s').
Proof.
  intros Hok Hr. induction Hr as [s|s s1 s2 Hs _ IH]; [split; [done|apply pool_le_refl]|].
  destruct Hok as [Hreg Hpool]. destruct (step_keeps _ _ Hs) as [Hc Hp].
  destruct (Hp Hpool) as [Hp1 Hle]. destruct IH as [Hok2 Hle2].
  { split; [by eapply reg_change_ok|done]. }
  split; [done|]. by eapply pool_le_trans.
Qed.

Lemma request_vdsm s s' :
  request_step (V := V) vdsmd_dispatcher s s' → vdsm_step s s'.
Proof. intros [method params w]. constructor. Qed.

(** Whatever bytes arrive on a connection, in whatever pieces and in
    either framing, at whatever moment of the daemon's life, and however the
    socket fails: what they do to the daemon is a sequence of verbs, the
    registry of machines and the pool keep their invariants, and the pool only
    grows. *)
Theorem connection_invariant `{!RpcSerde V, !HashIter} (w : W) (s : vdsm W)
    (sock_ok : list bytes → bytes → bool) (peer : string) :
  rtc vdsm_step (vdsmd_start w) s →
  ∀ s', (∃ reads, s' = (serve_stomp vdsmd_dispatcher sock_ok peer reads s).2) ∨
        (∃ input out, s' = (serve_lines vdsmd_dispatcher sock_ok input out s).2) →
  rtc vdsm_step s s' ∧ vdsm_ok s' ∧ pool_le (v_pool s) (v_pool s').
Proof.
  intros Hs s' Hs'. destruct (steps_ok _ _ (start_ok w) Hs) as [Hok _].
  assert (rtc vdsm_step s s') as Hr.
  { apply (rtc_subrel (request_step vdsmd_dispatcher)); [apply request_vdsm|].
    destruct Hs' as [[reads ->]|(input & out & ->)].
    - apply serve_stomp_requests.
    - apply serve_lines_requests. }
  split; [done|]. by apply steps_ok.
Qed.

(** The verbs that should undo something, and the verb each of them runs. *)
Definition undo_verbs : list (string * string) :=
  [("StoragePool.disconnect", "StoragePool.connect"); ("StoragePool.spmStop", "StoragePool.spmStart");
   ("StorageDomain.detach", "StorageDomain.attach");
   ("StorageDomain.deactivate", "StorageDomain.activate");
   ("StorageDomain.format", "StorageDomain.activate");
   ("VM.hotunplugDisk", "VM.hotplugDisk"); ("VM.hotunplugNic", "VM.hotplugNic")].

(** C38: disconnecting the pool, stopping the SPM, detaching, deactivating or
    formatting a domain and unplugging a device are served by the very
    handlers that connect, start, attach, activate and plug: after
    StoragePool.disconnect the pool still has every domain, and one that was
    named in the request is added to it. *)
Theorem undo_verbs_do (params : V) (s : vdsm W) :
  (∀ undo do_, (undo, do_) ∈ undo_verbs →
     invoke vdsmd_dispatcher undo params s = invoke vdsmd_dispatcher do_ params s) ∧
  ∀ d, d ∈ domains (v_pool s) ∨
       d ∈ default [] (jget "domainsMap" params ≫= object_keys) →
       d ∈ domains (v_pool (invoke vdsmd_dispatcher "StoragePool.disconnect" params s).2).
Proof.
  split.
  - intros undo do_ Hu. rewrite !vdsmd_invoke. unfold undo_verbs in Hu.
    repeat (apply elem_of_cons in Hu as [[= -> ->]|Hu]; [reflexivity|]).
    by apply not_elem_of_nil in Hu.
  - intros d Hd. rewrite vdsmd_invoke. cbn [domains v_pool].
    change (assoc_last "StoragePool.disconnect" verbs) with (Some (stv (W := W) (V := V) connect_storage_pool)).
    cbn. by apply push_new_spec.
Qed.
End daemon.

(** ** A daemon on an empty host *)

Import Demo.

#[export] Instance demo_virsh : VirshOps demo := {
  virsh args _ w := (Exited (mkOutput true (Some 0%Z) "" ""), log_cmd ("virsh", args) w);
  clock _ := 1700000000%N;
}.

Definition empty_host : demo :=
  mkDemo [] [] [] (λ _ _, Err "not found") (λ _, Err "no socket").

(** The engine connects, asks for the capabilities and connects the pool. *)
Definition demo_session : list read_event :=
  Read <$> [to_bytes Demo.connect; to_bytes (Demo.send "Host.getCapabilities");
            to_bytes (Demo.send "StoragePool.connect"); ""].

Definition demo_start : vdsm demo := vdsmd_start empty_host.
Definition demo_vdsmd : Dispatcher JVal (vdsm demo) := vdsmd_dispatcher.

Lemma connection_invariant_witness :
  let r := serve_stomp demo_vdsmd Demo.sock "p" demo_session demo_start in
  r.1.1 = ExitOk ∧ length (out r.1.2) = 3 ∧ master_ver (v_pool r.2) = 1%Z ∧ vdsm_ok r.2.
Proof.
  intros r. split; [vm_compute; reflexivity|]. split; [vm_compute; reflexivity|].
  split; [vm_compute; reflexivity|].
  apply (connection_invariant (V := JVal) empty_host demo_start Demo.sock "p");
    [apply rtc_refl|left; by exists demo_session].
Defined.

Lemma undo_verbs_do_witness :
  invoke demo_vdsmd "StoragePool.spmStop" JNull demo_start =
  invoke demo_vdsmd "StoragePool.spmStart" JNull demo_start.
Proof.
  apply (undo_verbs_do (V := JVal) JNull demo_start). right. left.
Defined.

Example verb_count : handler_count demo_vdsmd = 74.
Proof. vm_compute. reflexivity. Qed.
