(* ===== verification/Flights.v ===== *)
(** * Verbs in flight (the handlers of crates/vdsmd/src/main.rs, await by await)

    A verb that a connection has started is a program that waits: for the lock
    of a registry, for a process, for a file.  Here the verbs of the daemon are
    put into one table of such programs, over one daemon state with the locks of
    its three registries.  Verbs that use none of the registries may do anything
    to the system and answer anything, which covers every interleaving of their
    own waits. *)

From stdpp Require Import options.
From S2P Require Import Prelude RustStr Json Rpc Os Supervdsm SupervdsmFacts Storage StorageFacts StorageDomain StorageDomainFacts Volumes Block Virt VirtFacts Host Async AsyncFacts StorageAsync VirtAsync Vdsmd VdsmdFacts.

(** ** Calls *)

(** How a verb is run for connection [i]: what [invoke] starts, what one effect
    of it does to the world, and when it has answered. *)
Record Calls (V W F : Type) := mkCalls {
  launch : string → V → F;
  fly : nat → F * W → F * W → Prop;
  landed : F → option (result V (JsonRpcError V))
}.
Arguments mkCalls {V W F} _ _ _.
Arguments launch {V W F} _ _ _.
Arguments fly {V W F} _ _ _ _.
Arguments landed {V W F} _ _.

(** Calls that are not interrupted do what the dispatcher says; [rest] places
    its state among the worlds. *)
Class CallsAlone {V W X F} (d : Dispatcher V W) (rest : W → X) (cs : Calls V X F) :=
  calls_alone i method params w : ∃ x,
    rtc (fly cs i) (launch cs method params, rest w) (x, rest (invoke d method params w).2) ∧
    landed cs x = Some (invoke d method params w).1.

(** Every verb of a dispatcher in one effect. *)
Definition atomic_calls {V W} (d : Dispatcher V W)
  : Calls V W (string * V + result V (JsonRpcError V)) :=
  mkCalls (λ method params, inl (method, params))
    (λ _ xw xw', ∃ method params r,
       xw.1 = inl (method, params) ∧ invoke d method params xw.2 = (r, xw'.2) ∧ xw'.1 = inr r)
    (λ x, match x with inl _ => None | inr r => Some r end).

#[export] Instance atomic_alone {V W} (d : Dispatcher V W) : CallsAlone d id (atomic_calls d).
Proof.
  intros i method params w. exists (inr (invoke d method params w).1). split; [|done].
  apply rtc_once. exists method, params, (invoke d method params w).1. cbn. split_and!; [done| |done].
  by destruct (invoke d method params w).
Qed.

(** ** One effect of a program *)

Section effects.
Context {S W R T A : Type} `{!Shared S W R T}.

(** A program, who holds the guard, and the state. *)
Inductive eff_step (i : nat) : prog W R T A * option nat * S → prog W R T A * option nat * S → Prop :=
| one_effect {B} (e : eff W R T B) k l s b s' :
    allowed i e l → eff_run e s = (b, s') →
    eff_step i (Do e k, l, s) (k b, lock_after i e l, s').

(** With the guard free, or its own, a disciplined program runs to its end. *)
Lemma eff_alone ok i p l s :
  disc ok (holds i l) false p → l = None ∨ l = Some i →
  rtc (eff_step i) (p, l, s) (Ret (seq_run p s).1, None, (seq_run p s).2).
Proof.
  revert l s. induction p as [a|B e k IH]; intros l s Hd Hl.
  - cbn in Hd. destruct Hl as [->| ->]; [done|]. unfold holds in Hd. by case_bool_decide.
  - destruct Hd as (Hlock & _ & Hk). cbn [seq_run]. unfold st_bind.
    destruct (eff_run e s) as [b s'] eqn:Hr. eapply rtc_l.
    { apply one_effect; [by apply lock_ok_allowed|exact Hr]. }
    apply IH; [rewrite holds_self; apply Hk|]. destruct e; cbn; auto.
Qed.

(** A program that is somewhere on its way. *)
Definition on_way (ok : R → Prop) (p : prog W R T A) : Prop := ∃ h, disc ok h false p.

Lemma eff_step_ok `{!SharedLaws S W R T} ok i p l s p' l' s' :
  eff_step i (p, l, s) (p', l', s') → on_way ok p → ok (get_reg s) →
  on_way ok p' ∧ ok (get_reg s').
Proof using A.
  intros Hs [h Hd] Hok. inversion Hs as [B e k l0 s0 b s1 Ha Hr]. subst. clear Hs.
  destruct Hd as (_ & Hu & Hk). split; [eexists; apply Hk|].
  rewrite (eff_run_registry _ _ _ _ Hr). destruct e; try done. by apply Hu.
Qed.
End effects.

(** ** The verbs of the pool *)

#[export] Instance pool_shared {W} : Shared (store W) W PoolState Empty_set := {
  get_reg := pool_state; set_reg p s := mkStore (connections s) p (sys s);
  get_tasks _ := []; set_tasks _ s := s;
  get_world := sys; set_world w s := mkStore (connections s) (pool_state s) w;
}.

#[export] Instance pool_shared_laws {W} : SharedLaws (store W) W PoolState Empty_set.
Proof. by split. Qed.

Section pool.
Context {W V : Type} `{!JsonOps V}.

Abbreviation pprog := (prog W PoolState Empty_set (result V (JsonRpcError V))).

Definition a_connect_storage_pool (params : V) : pprog :=
  let pid := param_str "storagepoolID" "" params in
  let msd := param_str "masterSdUUID" "" params in
  let ver := param_i64 "masterVersion" 1 params in
  let ds := default [] (jget "domainsMap" params ≫= object_keys) in
  _ ← a_write (λ s,
    mkPool (unless_empty pid (pool_id s)) (unless_empty msd (master_sd s))
      (Z.max ver (master_ver s)) (push_new (domains s) ds));
  Ret (Ok (jobj [])).

Definition a_create_storage_pool (params : V) : pprog :=
  let pid := default "" (get_either "poolID" "storagepoolID" params ≫= as_str) in
  let msd := default "" (get_either "masterDom" "masterSdUUID" params ≫= as_str) in
  let ds := str_array (jget "domList" params) in
  _ ← a_write (λ s,
    mkPool (unless_empty pid (pool_id s)) (unless_empty msd (master_sd s))
      (if (master_ver s =? 0)%Z then 1 else master_ver s) (push_new (domains s) ds));
  Ret (Ok (jobj [])).

(** The lock is not taken for an empty id. *)
Definition a_spm_start (params : V) : pprog :=
  let pid := param_str "storagepoolID" "" params in
  _ ← (if is_empty pid then Ret tt
       else a_write (λ s, mkPool pid (master_sd s) (master_ver s) (domains s)));
  Ret (Ok (jobj [])).

Lemma pool_disc (params : V) p :
  p ∈ [a_connect_storage_pool params; a_create_storage_pool params; a_spm_start params] →
  disc pool_ok false false p.
Proof.
  assert (∀ v ds, NoDup v → NoDup (push_new v ds)) as Hn by (intros; by apply push_new_spec).
  intros Hp. repeat (apply elem_of_cons in Hp as [->|Hp]); [..|by apply not_elem_of_nil in Hp].
  - eapply disc_bind; [|done]. apply disc_write. intros reg [H1 H2]. split; cbn; [auto|lia].
  - eapply disc_bind; [|done]. apply disc_write. intros reg [H1 H2]. split; cbn; [auto|].
    destruct (_ =? _)%Z; lia.
  - eapply disc_bind; [|done]. destruct (is_empty _); [done|]. apply disc_write.
    intros reg [H1 H2]. by split.
Qed.

Lemma pool_seq (params : V) (s : store W) :
  seq_run (a_connect_storage_pool params) s = connect_storage_pool params s ∧
  seq_run (a_create_storage_pool params) s = create_storage_pool params s ∧
  seq_run (a_spm_start params) s = spm_start params s.
Proof.
  split_and!; [done..|]. unfold a_spm_start, spm_start. cbv zeta. rewrite seq_bind.
  destruct (param_str "storagepoolID" "" params) eqn:E; cbn; unfold st_bind, update_pool, unless_empty;
    cbn; [|done]. by destruct s as [cs [] w].
Qed.
End pool.

(** ** The daemon *)

(** The registries and the system, who holds each of the three write guards,
    and the background tasks that have started. *)
Record daemon (W : Type) := mkDaemon {
  d_state : vdsm W;
  d_vm_lock : option nat;
  d_conn_lock : option nat;
  d_pool_lock : option nat;
  d_work : gmap nat (prog W vm_registry task unit)
}.
Arguments mkDaemon {W} _ _ _ _ _.
Arguments d_state {W} _.
Arguments d_vm_lock {W} _.
Arguments d_conn_lock {W} _.
Arguments d_pool_lock {W} _.
Arguments d_work {W} _.

(** No guard is held and nothing runs in the background. *)
Definition at_rest {W} (s : vdsm W) : daemon W := mkDaemon s None None None ∅.

Definition with_vms {W} (d : daemon W) (l : option nat) (t : vms W) : daemon W :=
  mkDaemon (put_vms (d_state d) t) l (d_conn_lock d) (d_pool_lock d) (d_work d).
Definition with_conns {W} (d : daemon W) (l : option nat) (t : store W) : daemon W :=
  mkDaemon (put_store (d_state d) t) (d_vm_lock d) l (d_pool_lock d) (d_work d).
Definition with_pool {W} (d : daemon W) (l : option nat) (t : store W) : daemon W :=
  mkDaemon (put_store (d_state d) t) (d_vm_lock d) (d_conn_lock d) l (d_work d).
Definition with_sys {W} (d : daemon W) (w : W) : daemon W :=
  mkDaemon (put_sys (d_state d) w) (d_vm_lock d) (d_conn_lock d) (d_pool_lock d) (d_work d).
Definition with_work {W} (d : daemon W) (m : gmap nat (prog W vm_registry task unit)) : daemon W :=
  mkDaemon (d_state d) (d_vm_lock d) (d_conn_lock d) (d_pool_lock d) m.

(** The tasks of the process: connections and background work. *)
Definition conn_task (i : nat) : nat := 2 * i.
Definition work_task (j : nat) : nat := 2 * j + 1.

(** What a connection waits for: a verb of the machines, of the connections, of
    the pool, one that uses the system only, or nothing any more. *)
Inductive flight {W V : Type} :=
| OnVms (p : prog W vm_registry task (result V (JsonRpcError V)))
| OnConns (p : prog W conn_list Empty_set (result V (JsonRpcError V)))
| OnPool (p : prog W PoolState Empty_set (result V (JsonRpcError V)))
| OnSystem
| Landed (r : result V (JsonRpcError V)).
Arguments flight : clear implicits.

Section flights.
Context {W} `{!OsOps W, !PrivSerde, !VirshOps W}.
Context {V} `{!JsonOps V, !StorageSerde V, !IscsiSerde V}.

(** The verbs that use a registry. *)
Definition registry_verbs : list (string * (V → flight W V)) :=
  [("Host.getAllVmStats", λ p, OnVms (a_get_all_vm_stats p));
   ("VM.create", λ p, OnVms (a_vm_create p));
   ("VM.destroy", λ p, OnVms (a_vm_destroy p));
   ("VM.shutdown", λ p, OnVms (a_vm_shutdown p));
   ("VM.cont", λ p, OnVms (a_vm_cont p));
   ("VM.pause", λ p, OnVms (a_vm_pause p));
   ("VM.getStats", λ p, OnVms (a_vm_get_stats p));
   ("VM.setTicket", λ p, OnVms (a_vm_set_ticket p));
   ("VM.updateDevice", λ p, OnVms (a_vm_update_device p));
   ("VM.hotplugDisk", λ p, OnVms (a_vm_update_device p));
   ("VM.hotunplugDisk", λ p, OnVms (a_vm_update_device p));
   ("VM.hotplugNic", λ p, OnVms (a_vm_update_device p));
   ("VM.hotunplugNic", λ p, OnVms (a_vm_update_device p));
   ("VM.migrate", λ p, OnVms (a_vm_migrate p));
   ("VM.migrationCreate", λ p, OnVms (a_vm_migration_create p));
   ("VM.migrationCancel", λ p, OnVms (a_vm_migration_cancel p));
   ("VM.migrateCancel", λ p, OnVms (a_vm_migration_cancel p));
   ("VM.migrateChangeParams", λ p, OnVms (a_vm_migrate_change_params p));
   ("VM.migrateStatus", λ p, OnVms (a_vm_migrate_status p));
   ("Host.dumpxmls", λ p, OnVms (a_dump_xmls p));
   ("StoragePool.connectStorageServer", λ p, OnConns (a_connect_storage_server p));
   ("StoragePool.disconnectStorageServer", λ p, OnConns (a_disconnect_storage_server p));
   ("Host.getStorageServerConnectionsList",
      λ p, OnConns (a_get_storage_server_connections_list p));
   ("StoragePool.connectStoragePool", λ p, OnPool (a_connect_storage_pool p));
   ("StoragePool.connect", λ p, OnPool (a_connect_storage_pool p));
   ("StoragePool.disconnect", λ p, OnPool (a_connect_storage_pool p));
   ("StoragePool.refresh", λ p, OnPool (a_connect_storage_pool p));
   ("StoragePool.reconstructMaster", λ p, OnPool (a_create_storage_pool p));
   ("StoragePool.create", λ p, OnPool (a_create_storage_pool p));
   ("StoragePool.spmStop", λ p, OnPool (a_spm_start p));
   ("StoragePool.spmStart", λ p, OnPool (a_spm_start p))].

(** Starting a verb: every other one that is registered uses the system only
    (or reads a registry once and then the system). *)
Definition launch_verb (method : string) (params : V) : flight W V :=
  match assoc_last method registry_verbs with
  | Some f => f params
  | None =>
      match assoc_last method (verbs (W := W) (V := V)) with
      | Some _ => OnSystem
      | None => Landed (Err (method_not_found method))
      end
  end.

(** One effect of the verb of connection [i]. *)
Inductive fly_verb (i : nat) : flight W V * daemon W → flight W V * daemon W → Prop :=
| fly_vms p p' l t d :
    eff_step (conn_task i) (p, d_vm_lock d, as_vms (d_state d)) (p', l, t) →
    fly_verb i (OnVms p, d) (OnVms p', with_vms d l t)
| fly_conns p p' l t d :
    eff_step (conn_task i) (p, d_conn_lock d, as_store (d_state d)) (p', l, t) →
    fly_verb i (OnConns p, d) (OnConns p', with_conns d l t)
| fly_pool p p' l t d :
    eff_step (conn_task i) (p, d_pool_lock d, as_store (d_state d)) (p', l, t) →
    fly_verb i (OnPool p, d) (OnPool p', with_pool d l t)
| fly_system w r d : fly_verb i (OnSystem, d) (Landed r, with_sys d w).

Definition landed_verb (x : flight W V) : option (result V (JsonRpcError V)) :=
  match x with
  | OnVms (Ret r) | OnConns (Ret r) | OnPool (Ret r) | Landed r => Some r
  | _ => None
  end.

Definition daemon_calls : Calls V (daemon W) (flight W V) :=
  mkCalls launch_verb fly_verb landed_verb.

(** Meanwhile: a background task that was spawned starts, one has an effect, or
    the system moves on. *)
Inductive meanwhile : daemon W → daemon W → Prop :=
| work_starts j t ts1 ts2 d :
    v_tasks (d_state d) = ts1 ++ t :: ts2 → d_work d !! j = None →
    meanwhile d
      (with_work (with_vms d (d_vm_lock d)
                    (mkVms (v_registry (d_state d)) (ts1 ++ ts2) (v_sys (d_state d))))
         (<[j := a_run_task t]> (d_work d)))
| work_goes_on j p p' l t d :
    d_work d !! j = Some p →
    eff_step (work_task j) (p, d_vm_lock d, as_vms (d_state d)) (p', l, t) →
    meanwhile d (with_work (with_vms d l t) (<[j := p']> (d_work d)))
| system_moves w d : meanwhile d (with_sys d w).

(** ** Invariants *)

Definition flight_ok (x : flight W V) : Prop :=
  match x with
  | OnVms p => on_way registry_ok p
  | OnPool p => on_way pool_ok p
  | _ => True
  end.

Definition daemon_ok (d : daemon W) : Prop :=
  vdsm_ok (d_state d) ∧ map_Forall (λ _, on_way registry_ok) (d_work d).

Lemma launch_ok method params : flight_ok (launch_verb method params).
Proof.
  unfold launch_verb. destruct (assoc_last method registry_verbs) as [f|] eqn:E;
    [|by destruct (assoc_last method verbs)].
  apply assoc_last_elem in E. unfold registry_verbs in E.
  assert (∀ g, g ∈ a_handlers → flight_ok (OnVms (g params))) as Hv.
  { intros g Hg. exists false. by apply disc_handler. }
  assert (∀ p, p ∈ [a_connect_storage_pool params; a_create_storage_pool params; a_spm_start params] →
    flight_ok (OnPool p)) as Hp.
  { intros p Hp. exists false. by eapply pool_disc. }
  repeat (apply elem_of_cons in E as [[= -> ->]|E]; [first [exact I | apply Hp | apply Hv]|]);
    [..|by apply not_elem_of_nil in E].
  all: repeat first [left | right].
Qed.

(** Effects on the list of connections and on the pool leave the other alone. *)
Lemma conns_keep_pool {B} (e : eff W conn_list Empty_set B) (s s' : store W) b :
  eff_run e s = (b, s') → pool_state s' = pool_state s.
Proof. destruct e as [B' m| | | | | |]; cbn; [destruct (m (sys s))|..]; by intros [= _ <-]. Qed.

Lemma fly_ok i x d x' d' :
  fly_verb i (x, d) (x', d') → flight_ok x → daemon_ok d → flight_ok x' ∧ daemon_ok d'.
Proof.
  intros Hf Hx [[Hreg Hpool] Hw].
  inversion Hf as [p p' l t d0 Hs|p p' l t d0 Hs|p p' l t d0 Hs|w r d0]; subst; clear Hf.
  - destruct (eff_step_ok registry_ok _ _ _ _ _ _ _ Hs Hx Hreg) as [H1 H2].
    split; [done|]. split; [|done]. by split.
  - split; [done|]. split; [|done]. split; [done|]. inversion Hs as [B e k l0 s0 b s1 _ Hr]. subst.
    cbn. by rewrite (conns_keep_pool _ _ _ _ Hr).
  - destruct (eff_step_ok pool_ok _ _ _ _ _ _ _ Hs Hx Hpool) as [H1 H2]. split; [done|].
    split; [|done]. by split.
  - done.
Qed.

Lemma meanwhile_ok d d' : meanwhile d d' → daemon_ok d → daemon_ok d'.
Proof.
  intros Hm [[Hreg Hpool] Hw]. destruct Hm as [j t ts1 ts2 d Ht Hj|j p p' l t d Hj Hs|w d].
  - split; [done|]. apply map_Forall_insert_2; [|done]. exists false. apply disc_task.
  - destruct (eff_step_ok registry_ok _ _ _ _ _ _ _ Hs (Hw _ _ Hj) Hreg) as [H1 H2].
    split; [done|]. by apply map_Forall_insert_2.
  - done.
Qed.

Lemma rest_ok w : daemon_ok (at_rest (vdsmd_start w)).
Proof. split; [apply start_ok|apply map_Forall_empty]. Qed.

(** ** A verb alone *)

(** The call [x] alone is the handler [h]. *)
Definition runs_as (h : handler V (vdsm W)) (params : V) (x : flight W V) : Prop :=
  ∀ i s, ∃ x', rtc (fly_verb i) (x, at_rest s) (x', at_rest (h params s).2) ∧
               landed_verb x' = Some (h params s).1.

Lemma lift_vms i d x y :
  rtc (eff_step (conn_task i)) x y →
  rtc (fly_verb i) (OnVms x.1.1, with_vms d x.1.2 x.2) (OnVms y.1.1, with_vms d y.1.2 y.2).
Proof.
  apply (rtc_congruence (λ x, (OnVms x.1.1, with_vms d x.1.2 x.2))).
  intros [[p l] [reg ts w]] [[p' l'] t'] Hs.
  exact (fly_vms i p p' l' t' (with_vms d l (mkVms reg ts w)) Hs).
Qed.

Lemma lift_conns i d x y :
  rtc (eff_step (conn_task i)) x y →
  rtc (fly_verb i) (OnConns x.1.1, with_conns d x.1.2 x.2) (OnConns y.1.1, with_conns d y.1.2 y.2).
Proof.
  apply (rtc_congruence (λ x, (OnConns x.1.1, with_conns d x.1.2 x.2))).
  intros [[p l] [cs ps w]] [[p' l'] t'] Hs.
  exact (fly_conns i p p' l' t' (with_conns d l (mkStore cs ps w)) Hs).
Qed.

Lemma lift_pool i d x y :
  rtc (eff_step (conn_task i)) x y →
  rtc (fly_verb i) (OnPool x.1.1, with_pool d x.1.2 x.2) (OnPool y.1.1, with_pool d y.1.2 y.2).
Proof.
  apply (rtc_congruence (λ x, (OnPool x.1.1, with_pool d x.1.2 x.2))).
  intros [[p l] [cs ps w]] [[p' l'] t'] Hs.
  exact (fly_pool i p p' l' t' (with_pool d l (mkStore cs ps w)) Hs).
Qed.

Lemma vms_alone f a (params : V) :
  a ∈ a_handlers → (∀ s, seq_run (a params) s = f params s) → runs_as (vmv f) params (OnVms (a params)).
Proof.
  intros Ha Hf i s. unfold vmv, on_vms. specialize (Hf (as_vms s)).
  destruct (f params (as_vms s)) as [r t]. exists (OnVms (Ret r)). split; [|done].
  pose proof (eff_alone registry_ok (conn_task i) (a params) None (as_vms s)
    (disc_handler a params Ha) (or_introl eq_refl)) as Hr. rewrite Hf in Hr.
  apply (lift_vms i (at_rest s)) in Hr. by destruct s.
Qed.

Lemma conns_alone f p (params : V) :
  disc (λ _, True) false false p → (∀ s, seq_run p s = f params s) →
  runs_as (stv f) params (OnConns p).
Proof.
  intros Ha Hf i s. unfold stv, on_store. specialize (Hf (as_store s)).
  destruct (f params (as_store s)) as [r t]. exists (OnConns (Ret r)). split; [|done].
  pose proof (eff_alone _ (conn_task i) p None (as_store s) Ha (or_introl eq_refl)) as Hr.
  rewrite Hf in Hr. apply (lift_conns i (at_rest s)) in Hr. by destruct s.
Qed.

Lemma pool_alone f p (params : V) :
  p ∈ [a_connect_storage_pool params; a_create_storage_pool params; a_spm_start params] →
  (∀ s, seq_run p s = f params s) → runs_as (stv f) params (OnPool p).
Proof.
  intros Ha Hf i s. unfold stv, on_store. specialize (Hf (as_store s)).
  destruct (f params (as_store s)) as [r t]. exists (OnPool (Ret r)). split; [|done].
  pose proof (eff_alone _ (conn_task i) p None (as_store s) (pool_disc params p Ha) (or_introl eq_refl)) as Hr.
  rewrite Hf in Hr. apply (lift_pool i (at_rest s)) in Hr. by destruct s.
Qed.

(** A handler that changes the system only. *)
Lemma system_alone (h : handler V (vdsm W)) params :
  (∀ s, ∃ w, (h params s).2 = put_sys s w) → runs_as h params OnSystem.
Proof.
  intros Hh i s. destruct (Hh s) as [w Hw]. exists (Landed (h params s).1). split; [|done].
  rewrite Hw. apply rtc_once. exact (fly_system i w _ (at_rest s)).
Qed.

Lemma osv_system f (params : V) (s : vdsm W) : ∃ w, (osv f params s).2 = put_sys s w.
Proof. unfold osv, on_os. destruct (f params (v_sys s)) as [r w]. by exists w. Qed.

Lemma stv_system f (params : V) (s : vdsm W) :
  (∀ t, ∃ w, (f params t).2 = mkStore (connections t) (pool_state t) w) →
  ∃ w, (stv f params s).2 = put_sys s w.
Proof.
  intros Hf. unfold stv, on_store. destruct (Hf (as_store s)) as [w Hw].
  destruct (f params (as_store s)) as [r t]. cbn in Hw. subst t. by exists w.
Qed.

Lemma pool_info_system (params : V) (t : store W) :
  ∃ w, (get_storage_pool_info params t).2 = mkStore (connections t) (pool_state t) w.
Proof.
  unfold get_storage_pool_info, st_bind, st_ret, on_sys.
  destruct (dominfo_loop _ _ _) as [di w]. cbn [sys connections pool_state].
  destruct (_ && _); [|by exists w]. destruct (sd_total_free _ _) as [tf w']. by exists w'.
Qed.

(** Find an element of a list by its name. *)
Ltac in_list :=
  first [match goal with
         | |- (?x, _) ∈ (?y, _) :: _ => constr_eq x y; left
         | |- ?x ∈ ?y :: _ => constr_eq x y; left
         end | right; in_list].

Ltac solve_alone :=
  intros params; cbn [fst snd];
  match goal with |- runs_as ?h ?p ?x => let y := eval hnf in x in change (runs_as h p y) end;
  match goal with
  | |- runs_as (vmv _) ?params _ => apply (vms_alone _ _ params);
      [unfold a_handlers; in_list
      |intros s; apply (proj1 async_sequential); unfold verb_programs, VirtFacts.handlers, a_handlers; cbn [zip zip_with app]; in_list]
  | |- runs_as (osv _) _ OnSystem => apply system_alone; intros; apply osv_system
  | |- runs_as (stv connect_storage_pool) ?params _ => apply (pool_alone _ _ params);
      [in_list | intros; apply (proj1 (pool_seq params _))]
  | |- runs_as (stv create_storage_pool) ?params _ => apply (pool_alone _ _ params);
      [in_list | intros; apply (proj1 (proj2 (pool_seq params _)))]
  | |- runs_as (stv spm_start) ?params _ => apply (pool_alone _ _ params);
      [in_list | intros; apply (proj2 (proj2 (pool_seq params _)))]
  | |- runs_as (stv get_storage_pool_info) _ _ =>
      apply system_alone; intros; apply stv_system, pool_info_system
  | |- runs_as (stv _) _ _ => apply system_alone; intros; apply stv_system; intros t;
      by exists (sys t); destruct t
  end.

Lemma conns_disc (params : V) p :
  conn_request (W := W) (λ _, True) p → disc (λ _, True) false false p.
Proof.
  intros Hp%conn_request_disc. revert Hp. generalize false at 1 3. induction p as [a|B e k IH]; [done|].
  intros h (H1 & _ & H3). split; [done|]. split; [by destruct e|]. intros b. apply IH, H3.
Qed.

Lemma verbs_alone : Forall (λ mh, ∀ params, runs_as mh.2 params (launch_verb mh.1 params)) verbs.
Proof.
  unfold verbs. rewrite !Forall_app. split_and!.
  - repeat (constructor; [solve_alone|]). constructor.
  - repeat (constructor; [solve_alone|]). constructor.
  - constructor; [|constructor; [|constructor]].
    1-3: intros params; cbn [snd]; apply conns_alone; [|intros; apply storage_sequential].
    1-3: apply (conns_disc params).
    + apply request_connect, Forall_true. done.
    + apply request_disconnect.
    + apply request_list.
    + repeat (constructor; [solve_alone|]). constructor.
  - repeat (constructor; [solve_alone|]). constructor.
Qed.

#[export] Instance daemon_alone : CallsAlone vdsmd_dispatcher at_rest daemon_calls.
Proof.
  intros i method params s. rewrite vdsmd_invoke. cbn [daemon_calls launch fly landed].
  destruct (assoc_last method verbs) as [h|] eqn:E.
  - apply assoc_last_elem in E. pose proof verbs_alone as Hv. rewrite Forall_forall in Hv.
    exact (Hv _ E params i s).
  - exists (Landed (Err (method_not_found method))). split; [|done]. unfold launch_verb. rewrite E.
    destruct (assoc_last method registry_verbs) as [f|] eqn:E'; [|done].
    apply assoc_last_elem in E'. unfold registry_verbs in E'.
    repeat (apply elem_of_cons in E' as [[= -> ->]|E']; [discriminate E|]).
    by apply not_elem_of_nil in E'.
Qed.
End flights.
