(* ===== verification/Sessions.v ===== *)
(** * Many connections (the accept loop of crates/vdsm-rpc/src/server.rs)

    [Server::serve] spawns a task for every connection it accepts; the tasks
    share the process and nothing else.  The server is a labelled step
    relation: a task that waits for input receives some or ends, a task whose
    buffer holds a frame takes it up, a task that serves a request lets its verb
    have one effect or writes the reply of a verb that has answered, and the rest
    of the process moves on.  Between any two of these steps every other task may
    run: a verb is interrupted wherever it waits ([Flights]).
    The tasks here are those of the STOMP framing; [LineSessions] has the other. *)

From stdpp Require Import options.
From S2P Require Import Prelude Utf8 RustStr Stomp StompFacts Json Rpc Server ServerFacts Os Supervdsm SupervdsmFacts Storage StorageFacts StorageDomain StorageDomainFacts Volumes Block BlockFacts Virt VirtFacts Host Async AsyncFacts VirtAsync Vdsmd VdsmdFacts Flights.

(** A request that is being served: the SEND it came in, its id, and its verb. *)
Record call (V F : Type) := mkCall { c_frame : Frame; c_id : option V; c_flight : F }.
Arguments mkCall {V F} _ _ _.
Arguments c_frame {V F} _.
Arguments c_id {V F} _.
Arguments c_flight {V F} _.

(** A connection task: its buffer, its state, what it serves, and how it ended. *)
Record session (V F : Type) := mkSession {
  s_buf : bytes; s_conn : conn; s_busy : option (call V F); s_end : option exit
}.
Arguments mkSession {V F} _ _ _ _.
Arguments s_buf {V F} _.
Arguments s_conn {V F} _.
Arguments s_busy {V F} _.
Arguments s_end {V F} _.

Definition session_init {V F} : session V F := mkSession "" conn_init None None.

(** What a step is seen to do, for a framing with messages [M]. *)
Inductive event {M : Type} :=
| Accepted (i : nat)
| Received (i : nat) (chunk : bytes)
| Handled (i : nat) (f : M)
| Worked (i : nat)
| Replied (i : nat)
| Closed (i : nat)
| Ended (i : nat) (e : exit)
| Elsewhere.
Arguments event : clear implicits.

(** A run of labelled steps, with its events oldest first. *)
Inductive trace_run {S E} (step : S → E → S → Prop) (st : S) : list E → S → Prop :=
| run_nil : trace_run step st [] st
| run_snoc tr st' ev st'' :
    trace_run step st tr st' → step st' ev st'' → trace_run step st (tr ++ [ev]) st''.

Lemma run_app {S E} (step : S → E → S → Prop) st tr1 st1 tr2 st2 :
  trace_run step st tr1 st1 → trace_run step st1 tr2 st2 → trace_run step st (tr1 ++ tr2) st2.
Proof.
  intros H1. induction 1 as [|tr st' ev st'' _ IH Hs]; [by rewrite app_nil_r|].
  rewrite app_assoc. by econstructor.
Qed.

Lemma run_cons {S E} (step : S → E → S → Prop) st ev st1 tr st2 :
  step st ev st1 → trace_run step st1 tr st2 → trace_run step st (ev :: tr) st2.
Proof. intros Hs. apply (run_app _ st [ev]). eapply (run_snoc _ st []); [constructor|exact Hs]. Qed.

Lemma run_one {S E} (step : S → E → S → Prop) st ev st' : step st ev st' → trace_run step st [ev] st'.
Proof. intros. apply (run_snoc _ st [] st ev); [constructor|done]. Qed.

Definition ctl_end (k : ctl) : option exit :=
  match k with Running => None | Done e => Some e end.

Section server.
Context {V W F : Type} `{!RpcSerde V, !HashIter}.
Context (calls : Calls V W F).
(** The socket of every connection, and the address of its peer. *)
Context (sock_ok : nat → list bytes → bytes → bool) (peer : nat → string).
(** What the rest of the process does to the world. *)
Context (other : relation W).

Definition server : Type := gmap nat (session V F) * W.

(** A task that is between two frames. *)
Definition ready (s : session V F) : Prop := s_end s = None ∧ s_busy s = None.

(** A task that is waiting in [read]. *)
Definition waiting (s : session V F) : Prop :=
  ready s ∧ parse_frame (s_buf s) = Returns (Ok None).

(** Taking up a frame: what it does at once, or the verb that it starts. *)
Definition take_frame (i : nat) (f : Frame) (c : conn) : (ctl * conn) + call V F :=
  route_frame (sock_ok i) (peer i)
    match from_utf8 (body f) with
    | Err _ => inl (Running, c)
    | Ok body_str =>
        match from_str_request body_str with
        | Err e => inl (stomp_reply (sock_ok i) f c (stomp_refusal e))
        | Ok req => inr (mkCall f (req_id req) (launch calls (req_method req) (req_params req)))
        end
    end inl f c.

Inductive server_step : server → event Frame → server → Prop :=
| step_accept i ss w :
    ss !! i = None →
    server_step (ss, w) (Accepted i) (<[i := session_init]> ss, w)
| step_read i s chunk ss w :
    ss !! i = Some s → waiting s → chunk ≠ "" →
    server_step (ss, w) (Received i chunk)
      (<[i := mkSession (s_buf s +:+ chunk) (s_conn s) None None]> ss, w)
| step_eof i s ss w :
    ss !! i = Some s → waiting s →
    server_step (ss, w) (Ended i ExitOk)
      (<[i := mkSession (s_buf s) (s_conn s) None (Some ExitOk)]> ss, w)
| step_read_failed i s ss w :
    ss !! i = Some s → waiting s →
    server_step (ss, w) (Ended i ExitErr)
      (<[i := mkSession (s_buf s) (s_conn s) None (Some ExitErr)]> ss, w)
| step_frame i s f rest k c' ss w :
    ss !! i = Some s → ready s →
    parse_frame (s_buf s) = Returns (Ok (Some (f, rest))) →
    take_frame i f (s_conn s) = inl (k, c') →
    server_step (ss, w) (Handled i f) (<[i := mkSession rest c' None (ctl_end k)]> ss, w)
| step_call i s f rest x ss w :
    ss !! i = Some s → ready s →
    parse_frame (s_buf s) = Returns (Ok (Some (f, rest))) →
    take_frame i f (s_conn s) = inr x →
    server_step (ss, w) (Handled i f) (<[i := mkSession rest (s_conn s) (Some x) None]> ss, w)
| step_work i s f id x x' ss w w' :
    ss !! i = Some s → s_end s = None → s_busy s = Some (mkCall f id x) →
    fly calls i (x, w) (x', w') →
    server_step (ss, w) (Worked i)
      (<[i := mkSession (s_buf s) (s_conn s) (Some (mkCall f id x')) None]> ss, w')
| step_reply i s f id x r k c' ss w :
    ss !! i = Some s → s_end s = None → s_busy s = Some (mkCall f id x) →
    landed calls x = Some r →
    stomp_reply (sock_ok i) f (s_conn s) (stomp_answer id r) = (k, c') →
    server_step (ss, w) (Replied i) (<[i := mkSession (s_buf s) c' None (ctl_end k)]> ss, w)
| step_malformed i s e ss w :
    ss !! i = Some s → ready s → parse_frame (s_buf s) = Returns (Err e) →
    server_step (ss, w) (Ended i ExitOk)
      (<[i := mkSession (s_buf s)
                (close_with (sock_ok i) "malformed frame" (parse_error_display e) (s_conn s))
                None (Some ExitOk)]> ss, w)
| step_panic i s ss w :
    ss !! i = Some s → ready s → parse_frame (s_buf s) = Panics →
    server_step (ss, w) (Ended i ExitPanic)
      (<[i := mkSession (s_buf s) (s_conn s) None (Some ExitPanic)]> ss, w)
| step_other ss w w' :
    other w w' → server_step (ss, w) Elsewhere (ss, w').

Definition run_server : server → list (event Frame) → server → Prop := trace_run server_step.
End server.

(** What a connection received and what was handled for it. *)
Definition received {M} (i : nat) (tr : list (event M)) : bytes :=
  foldr String.app "" (omap (λ ev, match ev with
    | Received j chunk => if decide (i = j) then Some chunk else None
    | _ => None
    end) tr).

Definition handled {M} (i : nat) (tr : list (event M)) : list M :=
  omap (λ ev, match ev with
    | Handled j f => if decide (i = j) then Some f else None
    | _ => None
    end) tr.

(** ** The frames of a stream *)

(** [parses b fs r]: [b] starts with the frames [fs], and [r] follows them. *)
Inductive parses : bytes → list Frame → bytes → Prop :=
| parses_nil b : parses b [] b
| parses_cons b f rest fs r :
    parse_frame b = Returns (Ok (Some (f, rest))) → parses rest fs r → parses b (f :: fs) r.

Lemma parses_snoc b fs r f rest :
  parses b fs r → parse_frame r = Returns (Ok (Some (f, rest))) → parses b (fs ++ [f]) rest.
Proof. induction 1; intros Hp; cbn; econstructor; eauto using parses. Qed.

Lemma parses_length b fs r : parses b fs r → strlen r <= strlen b.
Proof.
  induction 1 as [|b f rest fs r Hp _ IH]; [done|].
  destruct (parse_frame_progress _ _ _ Hp) as (pre & _ & ->). rewrite strlen_app. lia.
Qed.

(** More bytes at the end leave the frames alone. *)
Lemma parses_app b fs r t :
  parses b fs r → (N.of_nat (strlen (b +:+ t)) < usize_max)%N → parses (b +:+ t) fs (r +:+ t).
Proof.
  induction 1 as [|b f rest fs r Hp _ IH]; intros Hl; [constructor|].
  econstructor; [by apply (parse_frame_extend b t _ Hl Hp)|]. apply IH.
  destruct (parse_frame_progress _ _ _ Hp) as (pre & _ & ->).
  rewrite !strlen_app in *. lia.
Qed.

(** The frames are determined by the bytes. *)
Lemma parses_prefix b fs r fs' r' :
  parses b fs r → parses b fs' r' → parse_frame r' = Returns (Ok None) →
  fs `prefix_of` fs' ∧ (parse_frame r = Returns (Ok None) → fs = fs').
Proof.
  intros H. revert fs' r'. induction H as [b|b f rest fs r Hp Hr IH]; intros fs' r' H' Hn.
  - split; [apply prefix_nil|]. intros Hb. by destruct H'; [|congruence].
  - destruct H' as [b|b f' rest' fs' r' Hp' Hr']; [congruence|]. rewrite Hp in Hp'. simplify_eq.
    destruct (IH _ _ Hr' Hn) as [H1 H2]. split; [by apply prefix_cons|]. intros ?. f_equal. auto.
Qed.

Lemma received_snoc {M} i tr (ev : event M) :
  received i (tr ++ [ev]) =
  received i tr +:+ match ev with
                    | Received j chunk => if decide (i = j) then chunk else ""
                    | _ => ""
                    end.
Proof.
  unfold received. rewrite omap_app, foldr_app.
  assert (∀ l z, foldr String.app z l = foldr String.app "" l +:+ z) as Hf.
  { intros l z. induction l as [|x l IH]; [done|]. cbn [foldr]. by rewrite IH, app_assoc_str. }
  rewrite Hf. f_equal. destruct ev; try done. cbn. case_decide; [|done]. cbn. by rewrite app_nil_r_str.
Qed.

Lemma handled_snoc {M} i tr (ev : event M) :
  handled i (tr ++ [ev]) =
  handled i tr ++ match ev with
                  | Handled j f => if decide (i = j) then [f] else []
                  | _ => []
                  end.
Proof. unfold handled. rewrite omap_app. f_equal. destruct ev; try done. cbn. by case_decide. Qed.

(** The connection an event is about. *)
Definition event_of {M} (ev : event M) : option nat :=
  match ev with
  | Accepted i | Received i _ | Handled i _ | Worked i | Replied i | Closed i | Ended i _ => Some i
  | Elsewhere => None
  end.

Lemma events_elsewhere {M} i tr (ev : event M) :
  event_of ev ≠ Some i →
  received i (tr ++ [ev]) = received i tr ∧ handled i (tr ++ [ev]) = handled i tr.
Proof.
  intros Hne. rewrite received_snoc, handled_snoc.
  destruct ev; cbn in Hne; rewrite ?decide_False by congruence; by rewrite app_nil_r_str, app_nil_r.
Qed.

Section facts.
Context {V W F : Type} `{!RpcSerde V, !HashIter}.
Context (calls : Calls V W F).
Context (sock_ok : nat → list bytes → bytes → bool) (peer : nat → string) (other : relation W).

Abbreviation step := (server_step calls sock_ok peer other).
Abbreviation run := (run_server calls sock_ok peer other).
Abbreviation take := (take_frame calls sock_ok peer).

(** A step leaves the other connections as they are. *)
Lemma step_isolated st ev st' i :
  step st ev st' → event_of ev ≠ Some i → st'.1 !! i = st.1 !! i.
Proof.
  intros Hs Hne. destruct Hs; cbn in *; rewrite ?lookup_insert_ne by congruence; done.
Qed.

Lemma run_frames w0 tr st i :
  run (∅, w0) tr st →
  match st.1 !! i with
  | None => received i tr = "" ∧ handled i tr = []
  | Some s => (N.of_nat (strlen (received i tr)) < usize_max)%N →
              parses (received i tr) (handled i tr) (s_buf s)
  end.
Proof.
  induction 1 as [|tr st ev st' Hr IH Hs]; [done|].
  destruct (decide (event_of ev = Some i)) as [He|He].
  2:{ rewrite (step_isolated _ _ _ _ Hs He). destruct (events_elsewhere i tr ev He) as [-> ->]. done. }
  rewrite received_snoc, handled_snoc. destruct Hs; cbn [event_of] in He; simplify_eq; cbn [fst] in *;
    rewrite lookup_insert_eq; rewrite ?decide_True by done;
    match goal with E : _ !! _ = _ |- _ => rewrite E in IH end;
    rewrite ?app_nil_r_str, ?app_nil_r.
  - destruct IH as [-> ->]. intros _. constructor.
  - intros Hl. apply parses_app; [|done]. apply IH. rewrite strlen_app in Hl. lia.
  - done.
  - done.
  - intros Hl. eapply parses_snoc; [by apply IH|done].
  - intros Hl. eapply parses_snoc; [by apply IH|done].
  - done.
  - done.
  - done.
  - done.
Qed.

(** C7: connections do not disturb one another: in every interleaving of the
    tasks, the frames handled for a connection are the first frames of the
    bytes it sent, in order, however they were cut and whatever the others
    did; and while it waits for input they are all of them. *)
Theorem session_frames w0 tr ss w i s fs r :
  run (∅, w0) tr (ss, w) → ss !! i = Some s →
  (N.of_nat (strlen (received i tr)) < usize_max)%N →
  parses (received i tr) fs r → parse_frame r = Returns (Ok None) →
  handled i tr `prefix_of` fs ∧ (waiting s → handled i tr = fs).
Proof.
  intros Hr Hi Hl Hp Hn. pose proof (run_frames _ _ _ i Hr) as Hf. cbn [fst] in Hf.
  rewrite Hi in Hf. destruct (parses_prefix _ _ _ _ _ (Hf Hl) Hp Hn) as [H1 H2].
  split; [done|]. intros [_ Hw]. auto.
Qed.

(** ** What a task can do *)

(** [route_frame] only selects. *)
Lemma route_frame_map {A B} (g : A → B) so pe a ret f c :
  g (route_frame so pe a ret f c) = route_frame so pe (g a) (λ r, g (ret r)) f c.
Proof. unfold route_frame. by repeat case_match. Qed.

(** A frame that starts a verb is a SEND after the handshake. *)
Lemma take_call i f c x :
  take i f c = inr x →
  connected c = true ∧ command f = "SEND" ∧
  ∃ body_str req, from_utf8 (body f) = Ok body_str ∧ from_str_request body_str = Ok req ∧
    x = mkCall f (req_id req) (launch calls (req_method req) (req_params req)).
Proof.
  unfold take_frame, route_frame. intros Ht.
  destruct (connected c) eqn:Ec; cbn [negb andb] in Ht.
  2:{ by destruct (String.eqb_spec (command f) "CONNECT"), (String.eqb_spec (command f) "STOMP");
      cbn in Ht; repeat case_match. }
  destruct (_ || _); [done|]. destruct (String.eqb _ _); [done|].
  destruct (String.eqb _ _); [by destruct (header _ _)|].
  destruct (String.eqb_spec (command f) "SEND") as [Es|_].
  2:{ destruct (String.eqb _ _); [by destruct (header _ _)|done]. }
  split; [done|]. split; [done|].
  destruct (from_utf8 (body f)) as [b|]; [|done]. destruct (from_str_request b) as [req|] eqn:Er; [|done].
  injection Ht as <-. by exists b, req.
Qed.

(** [handle_frame] takes up the frame, and runs the verb if there is one. *)
Lemma handle_frame_take {X} (d : Dispatcher V X) i f c w :
  handle_frame d (sock_ok i) (peer i) f c w =
  match take i f c with
  | inl r => (r, w)
  | inr _ => handle_stomp_send d (sock_ok i) f c w
  end.
Proof.
  unfold take_frame.
  rewrite (route_frame_map (λ x, match x with
    | inl r => (r, w) | inr _ => handle_stomp_send d (sock_ok i) f c w end)).
  unfold handle_frame. f_equal. unfold handle_stomp_send, stomp_response.
  destruct (from_utf8 (body f)) as [b|]; [|done]. by destruct (from_str_request b).
Qed.

(** What a frame does at once depends on no verb. *)
Lemma take_at_once i f c k c' :
  take i f c = inl (k, c') →
  handle_frame (build_from [] : Dispatcher V unit) (sock_ok i) (peer i) f c tt = (k, c', tt).
Proof. intros Ht. by rewrite handle_frame_take, Ht. Qed.

(** Before the handshake a task has written nothing, or it has ended with an
    ERROR frame; and a task serves a request only after it, until it is done. *)
Record session_ok (flight_ok : F → Prop) (i : nat) (s : session V F) : Prop := {
  ok_idle : connected (s_conn s) = false →
    s_conn s = conn_init ∨
    s_end s ≠ None ∧ ∃ m b, s_conn s = close_with (sock_ok i) m b conn_init;
  ok_busy x : s_busy s = Some x →
    connected (s_conn s) = true ∧ command (c_frame x) = "SEND" ∧ flight_ok (c_flight x)
}.

Lemma frame_session_ok ok i s f k c' rest :
  session_ok ok i s → s_end s = None → take i f (s_conn s) = inl (k, c') →
  session_ok ok i (mkSession rest c' None (ctl_end k)).
Proof.
  intros [Hok _] He Hh%take_at_once. split; [|done]. intros Hc. cbn [s_conn s_end] in *.
  destruct (connected (s_conn s)) eqn:Ec.
  - eapply handle_frame_connected in Hh; [|done]. congruence.
  - destruct (Hok eq_refl) as [Ei|[? _]]; [|done]. rewrite Ei in Hh, Ec.
    destruct (handle_frame_unconnected _ _ _ _ _ _ _ _ _ Hh Ec)
      as [_ [?|[[-> _]|[(m & b & ->) Hk]]]]; [congruence|by left|].
    right. split; [by destruct k|]. by exists m, b.
Qed.

(** ** Invariants of all connections *)

Section invariant.
Context (flight_ok : F → Prop) (world_ok : W → Prop).
Context (launch_ok : ∀ method params, flight_ok (launch calls method params)).
Context (fly_ok : ∀ i x w x' w',
  fly calls i (x, w) (x', w') → flight_ok x → world_ok w → flight_ok x' ∧ world_ok w').
Context (other_ok : ∀ w w', other w w' → world_ok w → world_ok w').

Definition server_ok (st : server (V := V) (F := F)) : Prop :=
  map_Forall (session_ok flight_ok) st.1 ∧ world_ok st.2.

(** A task that is ready stays in order when only its buffer changes or it
    ends. *)
Lemma ready_session_ok i s b e :
  session_ok flight_ok i s → ready s → session_ok flight_ok i (mkSession b (s_conn s) None e).
Proof.
  intros [Hok _] [He _]. split; [|done]. intros Hc. cbn in *.
  destruct (Hok Hc) as [?|[? _]]; [by left|done].
Qed.

Lemma step_server_ok st ev st' : server_ok st → step st ev st' → server_ok st'.
Proof using launch_ok fly_ok other_ok.
  intros [Hs Hw] Hst.
  assert (∀ i s, st.1 !! i = Some s → session_ok flight_ok i s) as Hl by (intros i s; apply Hs).
  destruct Hst as [i ss w Hi|i s chunk ss w Hi [Hr Hp] Hc|i s ss w Hi [Hr Hp]|i s ss w Hi [Hr Hp]
    |i s f rest k c' ss w Hi Hr Hp Ht|i s f rest x ss w Hi Hr Hp Ht
    |i s f id x x' ss w w' Hi He Hb Hf|i s f id x r k c' ss w Hi He Hb Hx Hrep
    |i s e ss w Hi Hr Hp|i s ss w Hi Hr Hp|ss w w' Ho];
    cbn [fst snd] in *; (split; [|try done]); cbn [fst snd]; try apply map_Forall_insert_2; try done;
    try (by apply ready_session_ok; [apply Hl|]).
  - split; [by left|done].
  - eapply frame_session_ok; [by apply Hl|apply Hr|done].
  - destruct (take_call _ _ _ _ Ht) as (Hc & Hcmd & b & req & _ & _ & ->).
    split; cbn; [congruence|]. intros y [= <-]. split_and!; [done..|apply launch_ok].
  - destruct (ok_busy _ _ _ (Hl i s Hi) _ Hb) as (Hc & Hcmd & Hx).
    split; cbn; [congruence|]. intros y [= <-]. split_and!; [done..|]. by eapply fly_ok.
  - destruct (ok_busy _ _ _ (Hl i s Hi) _ Hb) as (Hc & Hcmd & Hx). by eapply fly_ok.
  - destruct (ok_busy _ _ _ (Hl i s Hi) _ Hb) as (Hc & _ & _).
    apply stomp_reply_conn in Hrep as [_ Hc']. split; cbn; [congruence|done].
  - split; [|done]. cbn. intros Hc. right. split; [done|].
    destruct (ok_idle _ _ _ (Hl i s Hi) Hc) as [->|[Hn _]]; [by eexists _, _|]. by destruct Hr.
  - by eapply other_ok.
Qed.

Lemma run_server_ok w0 tr st : world_ok w0 → run (∅, w0) tr st → server_ok st.
Proof using launch_ok fly_ok other_ok.
  intros Hw. induction 1 as [|tr st ev st' _ IH Hs]; [split; [apply map_Forall_empty|done]|].
  by eapply step_server_ok.
Qed.

(** The world changes by the rest of the process, or by one effect of the verb
    of a connection that shook hands and asked for it with a SEND. *)
Lemma step_world st ev st' :
  server_ok st → step st ev st' → st'.2 ≠ st.2 →
  ev = Elsewhere ∨
  ∃ i s x, ev = Worked i ∧ st.1 !! i = Some s ∧ s_busy s = Some x ∧
           connected (s_conn s) = true ∧ command (c_frame x) = "SEND".
Proof.
  intros [Hok _] Hs.
  destruct Hs as [| | | | | |i s f id x x' ss w w' Hi He Hb Hf| | | |]; cbn [fst snd] in *; try done;
    [|by left]. intros _. right. exists i, s, (mkCall f id x).
  by destruct (ok_busy _ _ _ (Hok i s Hi) _ Hb) as (? & ? & _).
Qed.
End invariant.

(** ** One connection alone *)

Lemma run_at i ss s w ev s' w' :
  step (<[i := s]> ss, w) ev (<[i := s']> (<[i := s]> ss), w') →
  run (<[i := s]> ss, w) [ev] (<[i := s']> ss, w').
Proof. rewrite insert_insert_eq. apply run_one. Qed.

(** The verb of a connection that has the process for itself. *)
Lemma work_runs i ss buf c f id x w x' w' :
  rtc (fly calls i) (x, w) (x', w') →
  ∃ tr, run (<[i := mkSession buf c (Some (mkCall f id x)) None]> ss, w) tr
            (<[i := mkSession buf c (Some (mkCall f id x')) None]> ss, w').
Proof.
  intros Hr. remember (x, w) as p eqn:Ep. remember (x', w') as q eqn:Eq. revert x w Ep.
  induction Hr as [p|p [x1 w1] q Hs _ IH]; intros x w ->; simplify_eq; [exists []; constructor|].
  destruct (IH eq_refl x1 w1 eq_refl) as [tr Htr]. exists ([Worked i] ++ tr). eapply run_app; [|exact Htr].
  apply run_at.
  by eapply (step_work _ _ _ _ i (mkSession buf c (Some (mkCall f id x)) None)); [apply lookup_insert_eq|..].
Qed.

Section alone.
Context {X : Type} (d : Dispatcher V X) (rest : X → W) `{!CallsAlone d rest calls}.

Lemma frame_runs i ss buf c w f rem k c' w' :
  parse_frame buf = Returns (Ok (Some (f, rem))) →
  handle_frame d (sock_ok i) (peer i) f c w = (k, c', w') →
  ∃ tr, run (<[i := mkSession buf c None None]> ss, rest w) tr
            (<[i := mkSession rem c' None (ctl_end k)]> ss, rest w').
Proof using CallsAlone0.
  intros Hp Hh. rewrite handle_frame_take in Hh. destruct (take i f c) as [r|x] eqn:Ht.
  - simplify_eq. exists [Handled i f]. apply run_at.
    by apply (step_frame _ _ _ _ i (mkSession buf c None None) f rem k); [apply lookup_insert_eq|..].
  - destruct (take_call _ _ _ _ Ht) as (_ & _ & b & req & Hb & Hq & ->).
    unfold handle_stomp_send, stomp_response in Hh. rewrite Hb, Hq in Hh.
    destruct (calls_alone (d := d) (rest := rest) i (req_method req) (req_params req) w) as (x & Hf & Hx).
    destruct (invoke d (req_method req) (req_params req) w) as [r w1]. cbn [fst snd] in *.
    apply pair_equal_spec in Hh as [Hh <-]. destruct (work_runs i ss rem c f (req_id req) _ _ _ _ Hf) as [tr Htr].
    exists ([Handled i f] ++ (tr ++ [Replied i])). eapply run_app; [|eapply run_app; [exact Htr|]].
    + apply run_at.
      by apply (step_call _ _ _ _ i (mkSession buf c None None) f rem); [apply lookup_insert_eq|..].
    + apply run_at.
      by apply (step_reply _ _ _ _ i (mkSession rem c (Some (mkCall f (req_id req) x)) None) f
                  (req_id req) x r k c'); [apply lookup_insert_eq|..].
Qed.

Lemma drain_runs i ss buf c w :
  ∃ tr, let r := drain d (sock_ok i) (peer i) buf c w in
    run (<[i := mkSession buf c None None]> ss, rest w) tr
        (<[i := mkSession r.1.1.2 r.1.2 None (ctl_end r.1.1.1)]> ss, rest r.2).
Proof using CallsAlone0.
  apply (drain_ind d (sock_ok i) (peer i) (λ buf c w r, ∃ tr,
    run (<[i := mkSession buf c None None]> ss, rest w) tr
        (<[i := mkSession r.1.1.2 r.1.2 None (ctl_end r.1.1.1)]> ss, rest r.2)));
    clear buf c w; cbn [fst snd ctl_end].
  - intros buf c w _. exists []. constructor.
  - intros buf c w e E. exists [Ended i ExitOk]. apply run_at.
    by apply (step_malformed _ _ _ _ i (mkSession buf c None None)); [apply lookup_insert_eq|..].
  - intros buf c w E. exists [Ended i ExitPanic]. apply run_at.
    by apply (step_panic _ _ _ _ i (mkSession buf c None None)); [apply lookup_insert_eq|..].
  - intros buf c w f rem e c' w' E Eh. exact (frame_runs i ss _ _ _ _ _ _ _ _ E Eh).
  - intros buf c w f rem c' w' E Eh [tr IH].
    destruct (frame_runs i ss _ _ _ _ _ _ _ _ E Eh) as [tr1 H1]. exists (tr1 ++ tr). by eapply run_app.
Qed.

Lemma serve_from_runs i ss e c w' reads buf c0 w :
  parse_frame buf = Returns (Ok None) →
  serve_stomp_from d (sock_ok i) (peer i) reads buf c0 w = (e, c, w') →
  ∃ tr buf', run (<[i := mkSession buf c0 None None]> ss, rest w) tr
                 (<[i := mkSession buf' c None (Some e)]> ss, rest w').
Proof using CallsAlone0.
  revert buf c0 w. induction reads as [|[chunk|] reads IH]; intros buf c0 w Hb; cbn [serve_stomp_from].
  - intros [= <- <- <-]. eexists [_], buf. apply run_at.
    by apply (step_eof _ _ _ _ i (mkSession buf c0 None None)); [apply lookup_insert_eq|].
  - destruct (is_empty chunk) eqn:Ec.
    { intros [= <- <- <-]. eexists [_], buf. apply run_at.
      by apply (step_eof _ _ _ _ i (mkSession buf c0 None None)); [apply lookup_insert_eq|]. }
    intros Hd. destruct (drain_runs i ss (buf +:+ chunk) c0 w) as [tr Htr].
    pose proof (drain_running d (sock_ok i) (peer i) (buf +:+ chunk) c0 w) as Hrun.
    destruct (drain _ _ _ (buf +:+ chunk) c0 w) as [[[k b] c1] w1]. cbn [fst snd] in Htr.
    assert (run (<[i := mkSession buf c0 None None]> ss, rest w) [Received i chunk]
                (<[i := mkSession (buf +:+ chunk) c0 None None]> ss, rest w)) as H1.
    { apply run_at. apply (step_read _ _ _ _ i (mkSession buf c0 None None));
        [apply lookup_insert_eq|done|by destruct chunk]. }
    destruct k as [|e1].
    + destruct (IH b c1 w1) as (tr2 & buf' & H2); [by eapply Hrun|done|].
      exists ([Received i chunk] ++ (tr ++ tr2)), buf'.
      eapply run_app; [exact H1|]. by eapply run_app.
    + injection Hd as <- <- <-. exists ([Received i chunk] ++ tr), b. by eapply run_app.
  - intros [= <- <- <-]. eexists [_], buf. apply run_at.
    by apply (step_read_failed _ _ _ _ i (mkSession buf c0 None None)); [apply lookup_insert_eq|].
Qed.

(** Served alone, a connection does what [serve_stomp] says: every outcome of
    the function is a run of the step relation. *)
Theorem serve_stomp_runs i ss w reads e c w' :
  ss !! i = None →
  serve_stomp d (sock_ok i) (peer i) reads w = (e, c, w') →
  ∃ tr buf, run (ss, rest w) tr (<[i := mkSession buf c None (Some e)]> ss, rest w').
Proof using CallsAlone0.
  intros Hi Hs. destruct (serve_from_runs i ss e c w' reads "" conn_init w) as (tr & buf & Hr); [done..|].
  exists ([Accepted i] ++ tr), buf. eapply run_app; [|exact Hr]. apply run_one. by constructor.
Qed.
End alone.
End facts.

(** ** The daemon with its connections *)

Section daemon.
Context {W} `{!OsOps W, !PrivSerde, !VirshOps W}.
Context {V} `{!JsonOps V, !StorageSerde V, !IscsiSerde V, !RpcSerde V, !HashIter}.
Context (sock_ok : nat → list bytes → bytes → bool) (peer : nat → string).

Definition vdsmd_server : Type := server (V := V) (W := daemon W) (F := flight W V).
Definition vdsmd_step : vdsmd_server → event Frame → vdsmd_server → Prop :=
  server_step daemon_calls sock_ok peer meanwhile.
Definition vdsmd_run : vdsmd_server → list (event Frame) → vdsmd_server → Prop :=
  run_server daemon_calls sock_ok peer meanwhile.

(** C6: the daemon keeps its invariants whatever any number of peers send, in
    any interleaving with one another, with the background tasks and with the
    system, the verbs of different connections and the background tasks being
    interrupted wherever they wait: the registry of machines and the pool are
    well-formed at every moment, every connection that did not shake hands has
    no subscription and was sent nothing or one ERROR, and what changes the
    state of the daemon is an effect of a verb that a connection asked for with
    a SEND after its handshake, or the rest of the process. *)
Theorem server_invariant (w : W) tr ss (d : daemon W) :
  vdsmd_run (∅, at_rest (vdsmd_start w)) tr (ss, d) →
  vdsm_ok (d_state d) ∧
  (∀ i x, ss !! i = Some x → connected (s_conn x) = false →
     subscriptions (s_conn x) = ∅ ∧ s_busy x = None ∧
     (out (s_conn x) = [] ∨ ∃ m b, out (s_conn x) = [to_bytes (build_error m b)])) ∧
  (∀ ev st', vdsmd_step (ss, d) ev st' → st'.2 ≠ d →
     ev = Elsewhere ∨
     ∃ i x y, ev = Worked i ∧ ss !! i = Some x ∧ s_busy x = Some y ∧
              connected (s_conn x) = true ∧ command (c_frame y) = "SEND").
Proof.
  intros Hr.
  assert (server_ok sock_ok flight_ok daemon_ok (ss, d)) as Hok.
  { eapply (run_server_ok daemon_calls); [apply launch_ok|apply fly_ok|apply meanwhile_ok| |exact Hr].
    apply rest_ok. }
  split; [apply Hok|]. split; [|intros ev st' Hst Hne; exact (step_world _ _ _ _ _ _ _ _ _ Hok Hst Hne)].
  intros i x Hi Hc. destruct (proj1 Hok i x Hi) as [Hidle Hbusy].
  destruct (s_busy x) as [y|] eqn:Ey; [destruct (Hbusy y eq_refl); congruence|].
  destruct (Hidle Hc) as [->|[_ (m & b & ->)]]; [split_and!; [done..|by left]|].
  split_and!; [done..|]. cbn. unfold write_ignore, write_all. cbn.
  destruct (sock_ok i _ _); [right; by exists m, b|by left].
Qed.
End daemon.

(** ** Two connections *)

Import Demo.

Definition socks : nat → list bytes → bytes → bool := λ _, sock.
Definition peers : nat → string := λ _, "p".

(** The second connection speaks while the first one shakes hands. *)
Definition two_connections : list (event Frame) :=
  [Accepted 0; Accepted 1; Received 0 (to_bytes connect); Received 1 "SEND"; Handled 0 connect].

Lemma session_frames_witness :
  ∃ ss w, run_server (atomic_calls demo_dispatcher) socks peers (λ _ _, False)
            (∅, 0) two_connections (ss, w) ∧
          handled 0 two_connections = [connect] ∧ handled 1 two_connections = [].
Proof.
  destruct (take_frame (atomic_calls demo_dispatcher) socks peers 0 connect conn_init) as [[k c']|] eqn:Eh;
    [|vm_compute in Eh; discriminate].
  eassert (run_server (atomic_calls demo_dispatcher) socks peers (λ _ _, False) (∅, 0) two_connections
    (<[0 := mkSession "" c' None (ctl_end k)]> _, 0)) as Hr.
  { unfold two_connections.
    eapply run_cons; [apply step_accept; reflexivity|].
    eapply run_cons; [apply step_accept; reflexivity|].
    eapply run_cons.
    { apply (step_read _ _ _ _ 0 session_init);
        [reflexivity|split; [split|]; reflexivity|vm_compute; discriminate]. }
    eapply run_cons.
    { apply (step_read _ _ _ _ 1 session_init);
        [reflexivity|split; [split|]; reflexivity|discriminate]. }
    apply run_one. eapply step_frame; [reflexivity|split; reflexivity|vm_compute; reflexivity|exact Eh]. }
  eexists _, 0. split; [exact Hr|]. split.
  - assert (k = Running) as -> by (revert Eh; vm_compute; congruence).
    apply (session_frames _ _ _ _ _ _ _ _ 0 (mkSession "" c' None None) [connect] "" Hr);
      [reflexivity|vm_compute; reflexivity| |reflexivity|split; [split|]; reflexivity].
    econstructor; [vm_compute; reflexivity|constructor].
  - apply (session_frames _ _ _ _ _ _ _ _ 1 (mkSession "SEND" conn_init None None) [] "SEND" Hr);
      [reflexivity|vm_compute; reflexivity|constructor|reflexivity|split; [split|]; reflexivity].
Defined.

(** Both have shaken hands; one asks for the statistics of all machines, the
    other connects the pool.  The reconciliation holds the guard of the machines
    while the other verb has taken the guard of the pool. *)
Definition stats_call (x : flight demo JVal) : call JVal (flight demo JVal) :=
  mkCall (send "Host.getAllVmStats") (Some (JInt 42)) x.
Definition pool_call (x : flight demo JVal) : call JVal (flight demo JVal) :=
  mkCall (send "StoragePool.connect") (Some (JInt 42)) x.

Definition overlapping : list (event Frame) :=
  [Accepted 0; Accepted 1;
   Received 0 (to_bytes connect +:+ to_bytes (send "Host.getAllVmStats"));
   Received 1 (to_bytes connect +:+ to_bytes (send "StoragePool.connect"));
   Handled 0 connect; Handled 1 connect;
   Handled 0 (send "Host.getAllVmStats"); Worked 0;
   Handled 1 (send "StoragePool.connect"); Worked 0; Worked 1].

Lemma server_invariant_witness :
  ∃ ss d x y,
    vdsmd_run (V := JVal) socks peers (∅, at_rest demo_start) overlapping (ss, d) ∧
    s_busy <$> ss !! 0 = Some (Some (stats_call x)) ∧
    s_busy <$> ss !! 1 = Some (Some (pool_call y)) ∧
    d_vm_lock d = Some (conn_task 0) ∧ d_pool_lock d = Some (conn_task 1) ∧ vdsm_ok (d_state d).
Proof.
  pose (c := mkConn ∅ true
    [to_bytes (build_connected "1.2" ("vdsm-rs/" +:+ CARGO_PKG_VERSION) (Some "vdsm-rs-p"))]).
  eassert (Hr : vdsmd_run (V := JVal) socks peers (∅, at_rest demo_start) overlapping (_, _)).
  { unfold overlapping.
    eapply run_cons; [apply step_accept; reflexivity|].
    eapply run_cons; [apply step_accept; reflexivity|].
    eapply run_cons.
    { apply (step_read _ _ _ _ 0 session_init);
        [reflexivity|split; [split|]; reflexivity|vm_compute; discriminate]. }
    eapply run_cons.
    { apply (step_read _ _ _ _ 1 session_init);
        [reflexivity|split; [split|]; reflexivity|vm_compute; discriminate]. }
    eapply run_cons.
    { eapply (step_frame _ _ _ _ 0 _ connect (to_bytes (send "Host.getAllVmStats")) Running c);
        [reflexivity|split; reflexivity|vm_compute; reflexivity|vm_compute; reflexivity]. }
    eapply run_cons.
    { eapply (step_frame _ _ _ _ 1 _ connect (to_bytes (send "StoragePool.connect")) Running c);
        [reflexivity|split; reflexivity|vm_compute; reflexivity|vm_compute; reflexivity]. }
    eapply run_cons.
    { eapply (step_call _ _ _ _ 0 _ (send "Host.getAllVmStats") ""
        (stats_call (OnVms (a_get_all_vm_stats JNull))));
        [reflexivity|split; reflexivity|vm_compute; reflexivity|reflexivity]. }
    eapply run_cons.
    { eapply step_work; [reflexivity|reflexivity|reflexivity|].
      apply fly_vms. apply one_effect; [exact I|reflexivity]. }
    eapply run_cons.
    { eapply (step_call _ _ _ _ 1 _ (send "StoragePool.connect") ""
        (pool_call (OnPool (a_connect_storage_pool JNull))));
        [reflexivity|split; reflexivity|vm_compute; reflexivity|reflexivity]. }
    eapply run_cons.
    { eapply step_work; [reflexivity|reflexivity|reflexivity|].
      apply fly_vms. apply one_effect; [reflexivity|reflexivity]. }
    apply run_one. eapply step_work; [reflexivity|reflexivity|reflexivity|].
    apply fly_pool. apply one_effect; [reflexivity|reflexivity]. }
  do 4 eexists. split; [exact Hr|]. split; [reflexivity|]. split; [reflexivity|].
  split; [reflexivity|]. split; [reflexivity|].
  apply (server_invariant (V := JVal) socks peers empty_host overlapping _ _ Hr).
Defined.
