(* ===== verification/LineSessions.v ===== *)
(** * Many line-framed connections (serve_lines and the accept loop of
    crates/vdsm-rpc/src/server.rs)

    The counterpart of [Sessions] for the line framing: a task waits for a
    newline, takes up the line it ends, lets the verb of the request run, effect
    by effect, writes the response, and, when the peer has closed the stream,
    handles what is left of it as a last line. *)

From stdpp Require Import options.
From S2P Require Import Prelude Utf8 RustStr Json Rpc Server ServerFacts Os Supervdsm SupervdsmFacts Storage StorageFacts StorageDomain StorageDomainFacts Volumes Block BlockFacts Virt VirtFacts Host Async VirtAsync Vdsmd VdsmdFacts Flights Sessions.

(** What the task has read and not used, whether the stream is at its end, what
    it wrote, the id and the verb of the request it serves, and how it ended. *)
Record line_session (V F : Type) := mkLine {
  l_buf : bytes; l_eof : bool; l_out : list bytes;
  l_busy : option (option V * F); l_end : option exit
}.
Arguments mkLine {V F} _ _ _ _ _.
Arguments l_buf {V F} _.
Arguments l_eof {V F} _.
Arguments l_out {V F} _.
Arguments l_busy {V F} _.
Arguments l_end {V F} _.

Definition line_init {V F} : line_session V F := mkLine "" false [] None None.

Section server.
Context {V W F : Type} `{!RpcSerde V}.
Context (calls : Calls V W F) (sock_ok : nat → list bytes → bytes → bool).
Context (other : relation W).

(** Writing a response and its newline. *)
Definition write_line (i : nat) (out : list bytes) (resp : Response V) : option exit * list bytes :=
  match response_to_vec resp with
  | Err _ => (Some ExitErr, out)
  | Ok buf =>
      match write_all (sock_ok i) out (buf +:+ String LF "") with
      | None => (Some ExitErr, out)
      | Some out' => (None, out')
      end
  end.

(** The body of the loop, after [read_line]: what the line does at once, or the
    verb that it starts. *)
Definition take_line (i : nat) (line : bytes) (out : list bytes)
  : (option exit * list bytes) + (option V * F) :=
  if negb (utf8_valid line) then inl (Some ExitErr, out)
  else if is_empty (trim line) then inl (None, out)
  else
    match from_str_request (trim line) with
    | Err e =>
        inl (write_line i out
               (response_err None (parse_error ("invalid JSON-RPC envelope: " +:+ e))))
    | Ok req => inr (req_id req, launch calls (req_method req) (req_params req))
    end.

(** The end of [process_one], and the write. *)
Definition answer_line (i : nat) (out : list bytes) (id : option V)
    (r : result V (JsonRpcError V)) : option exit * list bytes :=
  match id with
  | None => (None, out)
  | Some _ =>
      write_line i out (match r with
                        | Ok value => response_ok id value
                        | Err err => response_err id err
                        end)
  end.

Definition line_server : Type := gmap nat (line_session V F) * W.

(** A task that is between two lines. *)
Definition line_ready (s : line_session V F) : Prop := l_end s = None ∧ l_busy s = None.

(** A task that is waiting in [read_line]. *)
Definition line_waiting (s : line_session V F) : Prop :=
  line_ready s ∧ l_eof s = false ∧ has_byte LF (l_buf s) = false.

(** [read_line] has a line. *)
Definition line_there (s : line_session V F) (line rest : bytes) : Prop :=
  (has_byte LF (l_buf s) = true ∨ l_eof s = true) ∧
  read_line (l_buf s) = (line, rest) ∧ is_empty line = false.

Inductive line_step : line_server → event bytes → line_server → Prop :=
| line_accept i ss w :
    ss !! i = None → line_step (ss, w) (Accepted i) (<[i := line_init]> ss, w)
| line_read i s chunk ss w :
    ss !! i = Some s → line_waiting s → chunk ≠ "" →
    line_step (ss, w) (Received i chunk)
      (<[i := mkLine (l_buf s +:+ chunk) false (l_out s) None None]> ss, w)
| line_close i s ss w :
    ss !! i = Some s → line_waiting s →
    line_step (ss, w) (Closed i) (<[i := mkLine (l_buf s) true (l_out s) None None]> ss, w)
| line_read_failed i s ss w :
    ss !! i = Some s → line_waiting s →
    line_step (ss, w) (Ended i ExitErr)
      (<[i := mkLine (l_buf s) false (l_out s) None (Some ExitErr)]> ss, w)
| line_handle i s line rest e o ss w :
    ss !! i = Some s → line_ready s → line_there s line rest →
    take_line i line (l_out s) = inl (e, o) →
    line_step (ss, w) (Handled i line) (<[i := mkLine rest (l_eof s) o None e]> ss, w)
| line_call i s line rest x ss w :
    ss !! i = Some s → line_ready s → line_there s line rest →
    take_line i line (l_out s) = inr x →
    line_step (ss, w) (Handled i line)
      (<[i := mkLine rest (l_eof s) (l_out s) (Some x) None]> ss, w)
| line_work i s id x x' ss w w' :
    ss !! i = Some s → l_end s = None → l_busy s = Some (id, x) → fly calls i (x, w) (x', w') →
    line_step (ss, w) (Worked i)
      (<[i := mkLine (l_buf s) (l_eof s) (l_out s) (Some (id, x')) None]> ss, w')
| line_reply i s id x r e o ss w :
    ss !! i = Some s → l_end s = None → l_busy s = Some (id, x) → landed calls x = Some r →
    answer_line i (l_out s) id r = (e, o) →
    line_step (ss, w) (Replied i) (<[i := mkLine (l_buf s) (l_eof s) o None e]> ss, w)
| line_done i s ss w :
    ss !! i = Some s → line_ready s → l_eof s = true → is_empty (l_buf s) = true →
    line_step (ss, w) (Ended i ExitOk) (<[i := mkLine "" true (l_out s) None (Some ExitOk)]> ss, w)
| line_other ss w w' :
    other w w' → line_step (ss, w) Elsewhere (ss, w').
End server.

(** ** The lines of a stream *)

Lemma split_read_line b line rest :
  read_line b = (line, rest) → is_empty line = false →
  split_inclusive b = line :: split_inclusive rest.
Proof.
  unfold read_line, split_inclusive at 1. rewrite split_inclusive_go_spec, !app_nil_l_str.
  destruct (find_byte LF b); intros [= <- <-] He; [done|]. by rewrite He.
Qed.

(** A complete line is the same whatever follows. *)
Lemma read_line_app b t line rest :
  has_byte LF b = true → read_line b = (line, rest) → read_line (b +:+ t) = (line, rest +:+ t).
Proof.
  unfold read_line. intros Hb. destruct (find_byte LF b) as [n|] eqn:E.
  2:{ apply find_byte_None in E. congruence. }
  rewrite (find_byte_app_l _ _ _ _ E). pose proof (find_byte_lt _ _ _ E).
  rewrite str_take_app_le, str_drop_app_le by lia. by intros [= <- <-].
Qed.

Lemma read_line_empty input line rest :
  read_line input = (line, rest) → is_empty line = true → input = "".
Proof.
  unfold read_line. destruct (find_byte LF input) as [n|]; intros [= <- <-]; by destruct input.
Qed.

Lemma find_byte_taken c b n : find_byte c b = Some n → has_byte c (str_take (S n) b) = true.
Proof.
  revert n. induction b as [|a b IH]; intros n; [done|]. cbn [find_byte].
  destruct (Ascii.eqb a c) eqn:Ea; [intros _; cbn; by rewrite Ea|].
  destruct (find_byte c b) as [m|]; [|done]. intros [= <-].
  change (Ascii.eqb a c || has_byte c (str_take (S m) b) = true). by rewrite IH, orb_true_r.
Qed.

(** Every piece but the last ends in a newline. *)
Lemma split_inclusive_init b l1 l2 :
  split_inclusive b = l1 ++ l2 → l2 ≠ [] → Forall (λ l, has_byte LF l = true) l1.
Proof.
  remember (strlen b) as n eqn:Hn. revert b l1 Hn. induction n as [n IH] using lt_wf_ind.
  intros b l1 -> Hs Hne. destruct l1 as [|l l1]; [constructor|].
  destruct (read_line b) as [line rest] eqn:Hl, (is_empty line) eqn:He.
  { by rewrite (read_line_empty _ _ _ Hl He) in Hs. }
  rewrite (split_read_line _ _ _ Hl He) in Hs. injection Hs as <- Hs.
  constructor; [|by eapply (IH (strlen rest)); [eapply read_line_shorter|..]].
  unfold read_line in Hl. destruct (find_byte LF b) as [m|] eqn:E; injection Hl as <- <-.
  - by apply find_byte_taken.
  - by destruct l1, l2.
Qed.

Section facts.
Context {V W F : Type} `{!RpcSerde V}.
Context (calls : Calls V W F) (sock_ok : nat → list bytes → bytes → bool).
Context (other : relation W).

Abbreviation step := (line_step calls sock_ok other).
Abbreviation run := (trace_run step).
Abbreviation lsession := (line_session V F).

Lemma line_isolated st ev st' i :
  step st ev st' → event_of ev ≠ Some i → st'.1 !! i = st.1 !! i.
Proof.
  intros Hs Hne. destruct Hs; cbn in *; rewrite ?lookup_insert_ne by congruence; done.
Qed.

(** What was handled and what is left are the lines of what was received, also
    when more comes. *)
Definition lines_ok (i : nat) (tr : list (event bytes)) (s : lsession) : Prop :=
  ∀ t, l_eof s = false ∨ t = "" →
    split_inclusive (received i tr +:+ t) = handled i tr ++ split_inclusive (l_buf s +:+ t).

Lemma lines_ok_take i tr (s s' : lsession) line rest :
  lines_ok i tr s → line_there s line rest → l_buf s' = rest → l_eof s' = l_eof s →
  lines_ok i (tr ++ [Handled i line]) s'.
Proof.
  intros IH (Hb & Hl & He) Hrest Heof t Ht. rewrite Heof in Ht. rewrite Hrest.
  rewrite received_snoc, handled_snoc, decide_True, app_nil_r_str by done.
  rewrite (IH t Ht), <- app_assoc. f_equal. cbn [app]. destruct Hb as [Hb|Hb].
  - eapply split_read_line; [by apply read_line_app|done].
  - destruct Ht as [?| ->]; [congruence|]. rewrite !app_nil_r_str. by eapply split_read_line.
Qed.

Lemma run_lines w0 tr st i :
  run (∅, w0) tr st →
  match st.1 !! i with
  | None => received i tr = "" ∧ handled i tr = []
  | Some s => lines_ok i tr s
  end.
Proof.
  induction 1 as [|tr st ev st' Hr IH Hs]; [done|].
  destruct (decide (event_of ev = Some i)) as [He|He].
  2:{ rewrite (line_isolated _ _ _ _ Hs He). unfold lines_ok.
      destruct (events_elsewhere i tr ev He) as [-> ->]. done. }
  destruct Hs as [j ss w Hj|j s chunk ss w Hj (Hr' & Heof & Hn) Hc|j s ss w Hj (Hr' & Heof & Hn)
    |j s ss w Hj (Hr' & Heof & Hn)|j s line rest e o ss w Hj Hr' Hl Ht|j s line rest x ss w Hj Hr' Hl Ht
    |j s id x x' ss w w' Hj He' Hb Hf|j s id x r e o ss w Hj He' Hb Hx Ha|j s ss w Hj Hr' Heof Hb
    |ss w w' Ho]; cbn [event_of] in He; simplify_eq; cbn [fst] in *; rewrite lookup_insert_eq;
    rewrite Hj in IH; try (by eapply lines_ok_take); unfold lines_ok; intros t Ht;
    rewrite received_snoc, handled_snoc; rewrite ?decide_True by done;
    rewrite ?app_nil_r_str, ?app_nil_r; cbn [l_buf l_eof] in *.
  - by destruct IH as [-> ->].
  - rewrite !app_assoc_str. apply IH. by left.
  - apply IH. by left.
  - apply IH. by left.
  - by apply IH.
  - by apply IH.
  - rewrite (IH t) by by right; destruct Ht as [|]. by destruct (l_buf s).
Qed.

(** While the stream is open, what was handled was complete. *)
Lemma lines_ok_complete i tr s :
  lines_ok i tr s → line_waiting s →
  handled i tr = filter (λ l, has_byte LF l = true) (split_inclusive (received i tr)).
Proof.
  intros Hok (_ & He & Hb). pose proof (Hok "" (or_intror eq_refl)) as H0.
  rewrite !app_nil_r_str in H0. rewrite H0, filter_app.
  assert (split_inclusive (l_buf s) = if is_empty (l_buf s) then [] else [l_buf s]) as ->.
  { unfold split_inclusive. rewrite split_inclusive_go_spec, app_nil_l_str.
    by apply find_byte_None in Hb as ->. }
  assert (Forall (λ l, has_byte LF l = true) (handled i tr)) as Hall.
  { eapply split_inclusive_init; [apply (Hok "x"); by left|].
    unfold split_inclusive. rewrite split_inclusive_go_spec, app_nil_l_str.
    destruct (find_byte LF (l_buf s +:+ "x")); [done|]. by destruct (l_buf s). }
  assert (filter (λ l, has_byte LF l = true) (handled i tr) = handled i tr) as ->.
  { clear -Hall. induction Hall as [|l ls Hl _ IH]; [done|]. by rewrite filter_cons_True, IH. }
  destruct (is_empty (l_buf s)); [by rewrite app_nil_r|].
  rewrite filter_cons_False by congruence. by rewrite app_nil_r.
Qed.

(** Neither a line nor a reply ends a task cleanly. *)
Lemma write_line_end i o (resp : Response V) : (write_line sock_ok i o resp).1 ≠ Some ExitOk.
Proof. unfold write_line. destruct (response_to_vec resp); [|done]. by destruct (write_all _ _ _). Qed.

Lemma take_line_end i line o e o' : take_line calls sock_ok i line o = inl (e, o') → e ≠ Some ExitOk.
Proof.
  unfold take_line. destruct (negb _); [by intros [= <- _]|].
  destruct (is_empty _); [by intros [= <- _]|]. destruct (from_str_request _) as [|err]; [done|].
  intros Ht. pose proof (write_line_end i o
    (response_err None (parse_error ("invalid JSON-RPC envelope: " +:+ err)))) as Hn.
  destruct (write_line sock_ok i o _) as [e1 o1]. by injection Ht as -> _.
Qed.

Lemma answer_line_end i o id r : (answer_line sock_ok i o id r).1 ≠ Some ExitOk.
Proof. unfold answer_line. destruct id; [apply write_line_end|done]. Qed.

(** A clean end leaves nothing behind. *)
Lemma run_ended w0 tr st i s :
  run (∅, w0) tr st → st.1 !! i = Some s → l_end s = Some ExitOk → l_buf s = "".
Proof.
  intros Hr. revert s. induction Hr as [|tr st ev st' Hr IH Hs]; intros y Hi He; [done|].
  destruct (decide (event_of ev = Some i)) as [Hev|Hev].
  2:{ rewrite (line_isolated _ _ _ _ Hs Hev) in Hi. by eapply IH. }
  destruct Hs as [| | | |j s line rest e o ss w Hj Hr' Hl Ht| | |j s id x r e o ss w Hj He' Hb Hx Ha| |];
    cbn [event_of] in Hev; simplify_eq; cbn [fst] in Hi; rewrite lookup_insert_eq in Hi;
    simplify_eq; cbn [l_end l_buf] in *; try done.
  - by apply take_line_end in Ht.
  - pose proof (answer_line_end i (l_out s) id r) as Hn. by rewrite Ha in Hn.
Qed.

(** *** Invariants *)

Section invariant.
Context (flight_ok : F → Prop) (world_ok : W → Prop).
Context (launch_ok : ∀ method params, flight_ok (launch calls method params)).
Context (fly_ok : ∀ i x w x' w',
  fly calls i (x, w) (x', w') → flight_ok x → world_ok w → flight_ok x' ∧ world_ok w').
Context (other_ok : ∀ w w', other w w' → world_ok w → world_ok w').

Definition line_ok (s : lsession) : Prop := ∀ id x, l_busy s = Some (id, x) → flight_ok x.

Lemma run_line_ok w0 tr st :
  world_ok w0 → run (∅, w0) tr st → map_Forall (λ _, line_ok) st.1 ∧ world_ok st.2.
Proof using launch_ok fly_ok other_ok.
  intros Hw0. induction 1 as [|tr st ev st' _ [Hs Hw] Hst]; [split; [apply map_Forall_empty|done]|].
  destruct Hst as [| | | | |i s line rest x ss w Hi Hr Hl Ht|i s id x x' ss w w' Hi He Hb Hf| | |ss w w' Ho];
    cbn [fst snd] in *; try (split; [by apply map_Forall_insert_2|done]).
  - split; [|done]. apply map_Forall_insert_2; [|done]. intros id y [= ->]. unfold take_line in Ht.
    repeat case_match; try done. injection Ht as _ <-. apply launch_ok.
  - destruct (fly_ok _ _ _ _ _ Hf (Hs i s Hi _ _ Hb) Hw) as [Hx' Hw']. split; [|done].
    apply map_Forall_insert_2; [|done]. by intros ?? [= _ <-].
  - split; [done|]. by eapply other_ok.
Qed.
End invariant.

(** *** One connection alone *)

Lemma line_run_at i ss s w ev s' w' :
  step (<[i := s]> ss, w) ev (<[i := s']> (<[i := s]> ss), w') →
  run (<[i := s]> ss, w) [ev] (<[i := s']> ss, w').
Proof. rewrite insert_insert_eq. apply run_one. Qed.

Lemma line_work_runs i ss b eof o id x w x' w' :
  rtc (fly calls i) (x, w) (x', w') →
  ∃ tr, run (<[i := mkLine b eof o (Some (id, x)) None]> ss, w) tr
            (<[i := mkLine b eof o (Some (id, x')) None]> ss, w').
Proof.
  intros Hr. remember (x, w) as p eqn:Ep. remember (x', w') as q eqn:Eq. revert x w Ep.
  induction Hr as [p|p [x1 w1] q Hs _ IH]; intros x w ->; simplify_eq; [exists []; constructor|].
  destruct (IH eq_refl x1 w1 eq_refl) as [tr Htr]. exists ([Worked i] ++ tr). eapply run_app; [|exact Htr].
  apply line_run_at.
  by eapply (line_work _ _ _ i (mkLine b eof o (Some (id, x)) None)); [apply lookup_insert_eq|..].
Qed.

Section alone.
Context {X : Type} (d : Dispatcher V X) (rest : X → W) `{!CallsAlone d rest calls}.

(** A round of the loop that is not interrupted. *)
Definition handle_line (i : nat) (line : bytes) (out : list bytes) (w : X)
  : option exit * list bytes * X :=
  if negb (utf8_valid line) then (Some ExitErr, out, w)
  else if is_empty (trim line) then (None, out, w)
  else
    match process_one d (trim line) w with
    | (None, w') => (None, out, w')
    | (Some resp, w') => (write_line sock_ok i out resp, w')
    end.

Lemma serve_lines_round i input line rem o w :
  read_line input = (line, rem) → is_empty line = false →
  serve_lines d (sock_ok i) input o w =
  match handle_line i line o w with
  | (Some e, o', w') => (e, o', w')
  | (None, o', w') => serve_lines d (sock_ok i) rem o' w'
  end.
Proof.
  intros Hl He. pose proof (read_line_shorter _ _ _ Hl He) as Hlt.
  assert (∀ o w, serve_lines_go d (sock_ok i) (strlen input) rem o w =
                 serve_lines d (sock_ok i) rem o w) as Hf.
  { intros. apply serve_lines_fuel; lia. }
  unfold serve_lines at 1. cbn [serve_lines_go]. rewrite Hl, He. unfold handle_line, write_line.
  destruct (negb _); [done|]. destruct (is_empty (trim line)); [apply Hf|].
  destruct (process_one _ _ w) as [[resp|] w']; [|apply Hf].
  destruct (response_to_vec resp); [|done]. destruct (write_all _ _ _); [apply Hf|done].
Qed.

Lemma line_round i ss eof input o w line rem e o' w' :
  line_there (mkLine input eof o None None : lsession) line rem →
  handle_line i line o w = (e, o', w') →
  ∃ tr, run (<[i := mkLine input eof o None None]> ss, rest w) tr
            (<[i := mkLine rem eof o' None e]> ss, rest w').
Proof using CallsAlone0.
  intros Hth Hh.
  assert (∀ e o', take_line calls sock_ok i line o = inl (e, o') →
    ∃ tr, run (<[i := mkLine input eof o None None]> ss, rest w) tr
              (<[i := mkLine rem eof o' None e]> ss, rest w)) as Hnow.
  { intros e1 o1 Ht. exists [Handled i line]. apply line_run_at.
    by apply (line_handle _ _ _ i (mkLine input eof o None None)); [apply lookup_insert_eq|..]. }
  unfold handle_line in Hh. destruct (negb (utf8_valid line)) eqn:Hu.
  { injection Hh as <- <- <-. apply Hnow. unfold take_line. by rewrite Hu. }
  destruct (is_empty (trim line)) eqn:Ht.
  { injection Hh as <- <- <-. apply Hnow. unfold take_line. by rewrite Hu, Ht. }
  unfold process_one in Hh. destruct (from_str_request (trim line)) as [req|err] eqn:Hq.
  2:{ apply pair_equal_spec in Hh as [Hh <-]. apply Hnow. unfold take_line. by rewrite Hu, Ht, Hq, Hh. }
  destruct (calls_alone (d := d) (rest := rest) i (req_method req) (req_params req) w) as (x & Hf & Hx).
  destruct (invoke d (req_method req) (req_params req) w) as [r w1]. cbn [fst snd] in *.
  destruct (line_work_runs i ss rem eof o (req_id req) _ _ _ _ Hf) as [tr Htr].
  assert ((answer_line sock_ok i o (req_id req) r, w1) = (e, o', w')) as [Ha <-]%pair_equal_spec.
  { rewrite <- Hh. unfold answer_line. by destruct (req_id req). }
  exists ([Handled i line] ++ (tr ++ [Replied i])). eapply run_app; [|eapply run_app; [exact Htr|]].
  - apply line_run_at.
    apply (line_call _ _ _ i (mkLine input eof o None None)); [apply lookup_insert_eq|done|done|].
    unfold take_line. by rewrite Hu, Ht, Hq.
  - apply line_run_at.
    by apply (line_reply _ _ _ i (mkLine rem eof o (Some (req_id req, x)) None) (req_id req) x r);
      [apply lookup_insert_eq|..].
Qed.

(** The task, alone, comes to the end [e]. *)
Definition comes_to (i : nat) ss (s : lsession) w (e : exit) (o : list bytes) w' : Prop :=
  ∃ tr s', run (<[i := s]> ss, w) tr (<[i := s']> ss, w') ∧ l_out s' = o ∧ l_end s' = Some e.

Lemma comes_to_step i ss s w tr s1 w1 e o w' :
  run (<[i := s]> ss, w) tr (<[i := s1]> ss, w1) → comes_to i ss s1 w1 e o w' → comes_to i ss s w e o w'.
Proof. intros H1 (tr2 & s' & H2 & Hd). eexists (tr ++ tr2), s'. split; [by eapply run_app|done]. Qed.

(** A line that is there is handled; what follows is left to [HK]. *)
Lemma serve_line_there i ss eof input o w e o' w' line rem :
  line_there (mkLine input eof o None None : lsession) line rem →
  serve_lines d (sock_ok i) input o w = (e, o', w') →
  (∀ o1 w1, serve_lines d (sock_ok i) rem o1 w1 = (e, o', w') →
            comes_to i ss (mkLine rem eof o1 None None) (rest w1) e o' (rest w')) →
  comes_to i ss (mkLine input eof o None None) (rest w) e o' (rest w').
Proof using CallsAlone0.
  intros Hth Hs HK. pose proof Hth as (_ & Hl & He). rewrite (serve_lines_round i _ _ _ _ _ Hl He) in Hs.
  destruct (handle_line i line o w) as [[[e1|] o1] w1] eqn:Hh;
    destruct (line_round i ss _ _ _ _ _ _ _ _ _ Hth Hh) as [tr Htr].
  - simplify_eq. eexists _, _. split; [exact Htr|done].
  - eapply comes_to_step; [exact Htr|auto].
Qed.

(** The stream is at its end. *)
Lemma serve_lines_eof i ss input o w e o' w' :
  serve_lines d (sock_ok i) input o w = (e, o', w') →
  comes_to i ss (mkLine input true o None None) (rest w) e o' (rest w').
Proof using CallsAlone0.
  remember (strlen input) as n eqn:Hn. revert input o w Hn.
  induction n as [n IH] using lt_wf_ind. intros input o w -> Hs.
  destruct (read_line input) as [line rem] eqn:Hl, (is_empty line) eqn:He.
  - rewrite (read_line_empty _ _ _ Hl He) in *. injection Hs as <- <- <-.
    exists [Ended i ExitOk], (mkLine "" true o None (Some ExitOk)). split; [|done]. apply line_run_at.
    by apply (line_done _ _ _ i (mkLine "" true o None None)); [apply lookup_insert_eq|..].
  - eapply serve_line_there; [split_and!; [by right|exact Hl|done]|done|]. intros o1 w1 Hs1.
    eapply (IH (strlen rem)); [|done..]. by eapply read_line_shorter.
Qed.

(** The peer has still to close it. *)
Lemma serve_lines_open i ss input o w e o' w' :
  serve_lines d (sock_ok i) input o w = (e, o', w') →
  comes_to i ss (mkLine input false o None None) (rest w) e o' (rest w').
Proof using CallsAlone0.
  remember (strlen input) as n eqn:Hn. revert input o w Hn.
  induction n as [n IH] using lt_wf_ind. intros input o w -> Hs.
  destruct (has_byte LF input) eqn:Hb.
  - destruct (read_line input) as [line rem] eqn:Hl.
    assert (is_empty line = false) as He.
    { destruct (is_empty line) eqn:E; [|done]. by rewrite (read_line_empty _ _ _ Hl E) in Hb. }
    eapply serve_line_there; [split_and!; [by left|exact Hl|done]|done|]. intros o1 w1 Hs1.
    eapply (IH (strlen rem)); [|done..]. by eapply read_line_shorter.
  - eapply comes_to_step; [|by apply serve_lines_eof]. apply line_run_at.
    by apply (line_close _ _ _ i (mkLine input false o None None)); [apply lookup_insert_eq|].
Qed.

(** Served alone, a connection does what [serve_lines] says of the bytes it
    sends: every outcome of the function is a run of the step relation. *)
Lemma serve_lines_runs i ss w input e o w' :
  ss !! i = None → serve_lines d (sock_ok i) input [] w = (e, o, w') →
  ∃ tr s, run (ss, rest w) tr (<[i := s]> ss, rest w') ∧ l_out s = o ∧ l_end s = Some e.
Proof using CallsAlone0.
  intros Hi Hs. destruct (serve_lines_open i ss _ _ _ _ _ _ Hs) as (tr & s & Hr & Hd).
  assert (∃ tr0, run (ss, rest w) tr0 (<[i := mkLine input false [] None None]> ss, rest w)) as [tr0 Hr0].
  { assert (run (ss, rest w) [Accepted i] (<[i := line_init]> ss, rest w)) as Ha
      by (apply run_one; by constructor).
    destruct (decide (input = "")) as [->|Hne]; [by eexists|].
    exists ([Accepted i] ++ [Received i input]). eapply run_app; [exact Ha|]. apply line_run_at.
    by apply (line_read _ _ _ i line_init); [apply lookup_insert_eq|..]. }
  exists (tr0 ++ tr), s. split; [by eapply run_app|done].
Qed.
End alone.
End facts.

(** ** The daemon with line-framed connections *)

Section daemon.
Context {W} `{!OsOps W, !PrivSerde, !VirshOps W}.
Context {V} `{!JsonOps V, !StorageSerde V, !IscsiSerde V, !RpcSerde V}.
Context (sock_ok : nat → list bytes → bytes → bool).

Definition vdsmd_line_server : Type := line_server (V := V) (W := daemon W) (F := flight W V).
Definition vdsmd_lines : vdsmd_line_server → list (event bytes) → vdsmd_line_server → Prop :=
  trace_run (line_step daemon_calls sock_ok meanwhile).

(** C21: with the line framing too, whatever any number of peers send, in any
    interleaving, the verbs being interrupted wherever they wait: the daemon
    keeps the invariants of its registry and its pool at every moment; what was
    handled for a connection are the first lines of the bytes it sent, in order,
    however they were cut; while it waits they are all the lines that are
    complete; and when it has ended cleanly they are all of them, an unfinished
    last one included. *)
Theorem line_sessions (w : W) tr ss (d : daemon W) :
  vdsmd_lines (∅, at_rest (vdsmd_start w)) tr (ss, d) →
  vdsm_ok (d_state d) ∧
  ∀ i x, ss !! i = Some x →
    handled i tr `prefix_of` split_inclusive (received i tr) ∧
    (line_waiting x →
       handled i tr = filter (λ l, has_byte LF l = true) (split_inclusive (received i tr))) ∧
    (l_end x = Some ExitOk → handled i tr = split_inclusive (received i tr)).
Proof.
  intros Hr. split.
  - apply (run_line_ok daemon_calls sock_ok meanwhile flight_ok daemon_ok launch_ok fly_ok meanwhile_ok
             _ _ _ (rest_ok w) Hr).
  - intros i x Hi. pose proof (run_lines _ _ _ _ _ _ i Hr) as Hf. cbn [fst] in Hf. rewrite Hi in Hf.
    pose proof (Hf "" (or_intror eq_refl)) as H0. rewrite !app_nil_r_str in H0.
    split; [|split].
    + rewrite H0. by apply prefix_app_r.
    + by apply lines_ok_complete.
    + intros He. assert (l_buf x = "") as Hb by (by eapply run_ended).
      rewrite H0, Hb. by rewrite app_nil_r.
Qed.
End daemon.

(** ** Two connections *)

Import Demo.

(** A request in two parts, whose verb runs while the other connection sends one
    that is not finished. *)
Definition two_lines : list (event bytes) :=
  [Accepted 0; Accepted 1; Received 0 "Host.";
   Received 0 ("getAllVmStats" +:+ String LF "x"); Handled 0 ("Host.getAllVmStats" +:+ String LF "");
   Worked 0; Received 1 "Ho"; Worked 0].

Lemma line_sessions_witness :
  ∃ ss d, vdsmd_lines (V := JVal) socks (∅, at_rest demo_start) two_lines (ss, d) ∧
    d_vm_lock d = Some (conn_task 0) ∧ vdsm_ok (d_state d) ∧
    handled 1 two_lines = filter (λ l, has_byte LF l = true) (split_inclusive (received 1 two_lines)).
Proof.
  eassert (Hr : vdsmd_lines (V := JVal) socks (∅, at_rest demo_start) two_lines (_, _)).
  { unfold two_lines.
    eapply run_cons; [apply line_accept; reflexivity|].
    eapply run_cons; [apply line_accept; reflexivity|].
    eapply run_cons.
    { apply (line_read _ _ _ 0 line_init); [reflexivity|split; [split|split]; reflexivity|discriminate]. }
    eapply run_cons.
    { apply (line_read _ _ _ 0 (mkLine "Host." false [] None None));
        [reflexivity|split; [split|split]; reflexivity|discriminate]. }
    eapply run_cons.
    { eapply (line_call _ _ _ 0 _ _ "x" (Some (JInt 42), OnVms (a_get_all_vm_stats JNull)));
        [reflexivity|split; reflexivity|split_and!; [left|..]; vm_compute; reflexivity|reflexivity]. }
    eapply run_cons.
    { eapply line_work; [reflexivity|reflexivity|reflexivity|].
      apply fly_vms. apply one_effect; [exact I|reflexivity]. }
    eapply run_cons.
    { apply (line_read _ _ _ 1 line_init); [reflexivity|split; [split|split]; reflexivity|discriminate]. }
    apply run_one. eapply line_work; [reflexivity|reflexivity|reflexivity|].
    apply fly_vms. apply one_effect; [reflexivity|reflexivity]. }
  do 2 eexists. split; [exact Hr|]. split; [reflexivity|].
  destruct (line_sessions (V := JVal) socks empty_host two_lines _ _ Hr) as [Hok Hl]. split; [exact Hok|].
  apply (Hl 1 (mkLine "Ho" false [] None None)); [reflexivity|split; [split|split]; reflexivity].
Defined.
