(* ===== verification/Schema.v ===== *)
(** * The schema compiler (crates/vdsm-schema/build.rs)

    At build time the YAML schema of the API is turned into Rust: anchors are
    stripped from the text, a loader builds a tree from the events of the YAML
    parser, types and verbs are read from the tree and printed as Rust items.
    The YAML parser ([yaml_rust2]) is a dependency: its events and values are
    data here, its reading of a plain scalar and its hash map are interfaces. *)

From stdpp Require Import options.
From S2P Require Import Prelude Utf8 RustStr Float64 Sysinfo.

(** ** Values and events of the parser *)

Inductive Yaml : Type :=
| YReal (s : string)
| YInteger (z : Z)
| YString (s : string)
| YBoolean (b : bool)
| YArray (l : list Yaml)
| YHash (h : list (Yaml * Yaml))
| YNull
| YBadValue.

(** [==] of the values; hashes are compared entry by entry in their order. *)
Fixpoint yaml_eqb (x y : Yaml) {struct x} : bool :=
  match x, y with
  | YReal a, YReal b | YString a, YString b => String.eqb a b
  | YInteger a, YInteger b => Z.eqb a b
  | YBoolean a, YBoolean b => Bool.eqb a b
  | YArray a, YArray b =>
      (fix go (l k : list Yaml) :=
         match l, k with
         | [], [] => true
         | u :: l', v :: k' => yaml_eqb u v && go l' k'
         | _, _ => false
         end) a b
  | YHash a, YHash b =>
      (fix go (l k : list (Yaml * Yaml)) :=
         match l, k with
         | [], [] => true
         | (u, u') :: l', (v, v') :: k' => yaml_eqb u v && yaml_eqb u' v' && go l' k'
         | _, _ => false
         end) a b
  | YNull, YNull | YBadValue, YBadValue => true
  | _, _ => false
  end.

(** [h.get(k)] *)
Fixpoint hash_get (k : Yaml) (h : list (Yaml * Yaml)) : option Yaml :=
  match h with
  | [] => None
  | (k', v) :: h' => if yaml_eqb k' k then Some v else hash_get k h'
  end.

(** [Yaml::from_str] and [LinkedHashMap::insert]. *)
Class YamlOps := {
  yaml_from_str : string → Yaml;
  hash_insert : Yaml → Yaml → list (Yaml * Yaml) → list (Yaml * Yaml);
}.

(** Documented behaviour of the map: a new key goes to the end; the last value
    inserted under a key is the one that is found. *)
Class YamlLaws `{YamlOps} := {
  hash_insert_new k v h : hash_get k h = None → hash_insert k v h = h ++ [(k, v)];
  hash_get_insert k v h : hash_get k (hash_insert k v h) = Some v;
  hash_get_insert_ne k k' v h : k ≠ k' → hash_get k (hash_insert k' v h) = hash_get k h;
}.

Inductive TScalarStyle := Plain | SingleQuoted | DoubleQuoted | Literal | Folded.

Record Tag := mkTag { handle : string; suffix : string }.

Inductive Event : Type :=
| Nothing
| StreamStart
| StreamEnd
| DocumentStart
| DocumentEnd
| Alias (id : N)
| Scalar (v : string) (style : TScalarStyle) (aid : N) (tag : option Tag)
| SequenceStart (aid : N)
| SequenceEnd
| MappingStart (aid : N)
| MappingEnd.

(** [s.parse::<i64>().ok()] *)
Definition parse_i64 (s : string) : option Z :=
  match s with
  | String c s' =>
      if Ascii.eqb c "-" then
        if is_empty s' then None
        else n ← digits_val 0 s'; if (n <=? 9223372036854775808)%N then Some (- Z.of_N n)%Z else None
      else Z.of_N <$> parse_uint 9223372036854775807 s
  | EmptyString => None
  end.

(** ** The loader *)

Section loader.
Context `{!YamlOps}.

Definition scalar_to_yaml (v : string) (style : TScalarStyle) (tag : option Tag) : Yaml :=
  match style with
  | Plain =>
      match tag with
      | Some t =>
          if String.eqb (handle t) "tag:yaml.org,2002:" then
            if String.eqb (suffix t) "bool" then
              if existsb (String.eqb v) ["true"; "True"; "TRUE"] then YBoolean true
              else if existsb (String.eqb v) ["false"; "False"; "FALSE"] then YBoolean false
              else YBadValue
            else if String.eqb (suffix t) "int" then
              match parse_i64 v with Some z => YInteger z | None => YBadValue end
            else if String.eqb (suffix t) "float" then
              match parse_f64 v with Some _ => YReal v | None => YBadValue end
            else if String.eqb (suffix t) "null" then
              if existsb (String.eqb v) ["~"; "null"] then YNull else YBadValue
            else YString v
          else YString v
      | None => yaml_from_str v
      end
  | _ => YString v
  end.

(** The stacks have their top first. *)
Record LenientLoader := mkLoader {
  docs : list Yaml;
  doc_stack : list (Yaml * N);
  key_stack : list Yaml;
  anchor_map : gmap N Yaml
}.

Definition loader_default : LenientLoader := mkLoader [] [] [] ∅.

Definition is_badvalue (y : Yaml) : bool := match y with YBadValue => true | _ => false end.

(** [None] is a panic: a stack that is empty, or a parent that is no
    collection. *)
Definition insert_node (node : Yaml * N) (s : LenientLoader) : option LenientLoader :=
  let anchors := if (0 <? node.2)%N then <[node.2 := node.1]> (anchor_map s) else anchor_map s in
  match doc_stack s with
  | [] => Some (mkLoader (docs s) [node] (key_stack s) anchors)
  | (YArray v, a) :: ds =>
      Some (mkLoader (docs s) ((YArray (v ++ [node.1]), a) :: ds) (key_stack s) anchors)
  | (YHash h, a) :: ds =>
      match key_stack s with
      | [] => None
      | cur_key :: ks =>
          if is_badvalue cur_key then
            Some (mkLoader (docs s) ((YHash h, a) :: ds) (node.1 :: ks) anchors)
          else
            Some (mkLoader (docs s) ((YHash (hash_insert cur_key node.1 h), a) :: ds)
                    (YBadValue :: ks) anchors)
      end
  | _ => None
  end.

Definition push_doc (n : Yaml * N) (s : LenientLoader) : LenientLoader :=
  mkLoader (docs s) (n :: doc_stack s) (key_stack s) (anchor_map s).

Definition pop_doc (s : LenientLoader) : option ((Yaml * N) * LenientLoader) :=
  match doc_stack s with
  | n :: ds => Some (n, mkLoader (docs s) ds (key_stack s) (anchor_map s))
  | [] => None
  end.

Definition on_event (s : LenientLoader) (ev : Event) : option LenientLoader :=
  match ev with
  | DocumentStart | Nothing | StreamStart | StreamEnd => Some s
  | DocumentEnd =>
      match doc_stack s with
      | [] => Some (mkLoader (docs s ++ [YBadValue]) [] (key_stack s) (anchor_map s))
      | [n] => Some (mkLoader (docs s ++ [n.1]) [] (key_stack s) (anchor_map s))
      | _ => None
      end
  | SequenceStart aid => Some (push_doc (YArray [], aid) s)
  | SequenceEnd => '(n, s') ← pop_doc s; insert_node n s'
  | MappingStart aid =>
      let s' := push_doc (YHash [], aid) s in
      Some (mkLoader (docs s') (doc_stack s') (YBadValue :: key_stack s') (anchor_map s'))
  | MappingEnd =>
      match key_stack s with
      | [] => None
      | _ :: ks =>
          '(n, s') ← pop_doc (mkLoader (docs s) (doc_stack s) ks (anchor_map s));
          insert_node n s'
      end
  | Scalar v style aid tag => insert_node (scalar_to_yaml v style tag, aid) s
  | Alias id => insert_node (default YBadValue (anchor_map s !! id), 0%N) s
  end.

(** [parser.load(&mut loader, true)] on the events the parser sends. *)
Fixpoint load (evs : list Event) (s : LenientLoader) : option LenientLoader :=
  match evs with
  | [] => Some s
  | ev :: evs' => s' ← on_event s ev; load evs' s'
  end.
End loader.

(** ** Names *)

Definition PRIMITIVES : list (string * string) :=
  [("string", "String"); ("str", "String"); ("int", "i32"); ("uint", "u32"); ("long", "i64");
   ("ulong", "u64"); ("float", "f64"); ("double", "f64"); ("boolean", "bool"); ("bool", "bool");
   ("dict", "serde_json::Value"); ("any", "serde_json::Value"); ("object", "serde_json::Value");
   ("enum", "serde_json::Value"); ("alias", "serde_json::Value"); ("union", "serde_json::Value");
   ("map", "serde_json::Value")].

Definition RUST_KEYWORDS : list string :=
  ["as"; "break"; "const"; "continue"; "crate"; "else"; "enum"; "extern";
   "false"; "fn"; "for"; "if"; "impl"; "in"; "let"; "loop"; "match"; "mod";
   "move"; "mut"; "pub"; "ref"; "return"; "self"; "Self"; "static"; "struct";
   "super"; "trait"; "true"; "type"; "unsafe"; "use"; "where"; "while";
   "async"; "await"; "dyn"; "abstract"; "become"; "box"; "do"; "final";
   "macro"; "override"; "priv"; "typeof"; "unsized"; "virtual"; "yield";
   "try"; "union"].

Definition is_keyword (s : string) : bool := existsb (λ k, String.eqb k s) RUST_KEYWORDS.

Definition map_primitive (s : string) : option string := assoc_first s PRIMITIVES.

(** A character outside ASCII is treated like a separator, so its bytes can be
    taken one by one. *)
Definition pascal_char (st : string * bool) (c : ascii) : string * bool :=
  let '(out, up) := st in
  if is_ascii_alphanumeric c then
    if up then (out +:+ String (to_upper c) "", false) else (out +:+ String c "", up)
  else (out, true).

Fixpoint str_foldl {A} (f : A → ascii → A) (a : A) (s : string) : A :=
  match s with EmptyString => a | String c s' => str_foldl f (f a c) s' end.

Definition head_is_digit (s : string) : bool :=
  match s with String c _ => is_ascii_digit c | EmptyString => false end.

Definition pascal (s : string) : string :=
  let out := (str_foldl pascal_char ("", true) s).1 in
  if is_empty out then "Unnamed" else if head_is_digit out then "V" +:+ out else out.

Definition ends_with_underscore (s : string) : bool := bool_decide (str_last s = Some "_"%char).

Definition snake_char (st : string * bool) (c : ascii) : string * bool :=
  let '(out, prev_lower_or_digit) := st in
  if is_ascii_uppercase c then
    let out := if prev_lower_or_digit && negb (is_empty out) && negb (ends_with_underscore out)
               then out +:+ "_" else out in
    (out +:+ String (to_lower c) "", false)
  else if is_ascii_alphanumeric c then
    (out +:+ String c "", is_ascii_lowercase c || is_ascii_digit c)
  else
    (if negb (is_empty out) && negb (ends_with_underscore out) then out +:+ "_" else out, false).

Definition snake (s : string) : string :=
  let out := trim_matches (Ascii.eqb "_") (str_foldl snake_char ("", false) s).1 in
  if is_empty out then "field" else if head_is_digit out then "f_" +:+ out else out.

Definition rust_field_ident (yaml_name : string) : string * bool :=
  let snk := snake yaml_name in
  (if is_keyword snk then "r#" +:+ snk else snk, negb (String.eqb snk yaml_name)).

Definition rust_variant_ident (yaml_key : string) : string * bool :=
  let v := pascal yaml_key in
  let v := if is_keyword v then v +:+ "_" else v in
  (v, negb (String.eqb v yaml_key)).

Definition esc_doc (s : string) : string := join " " (split_whitespace s).

(** ** Anchors *)

Definition ident_start (c : ascii) : bool := is_ascii_alphabetic c || Ascii.eqb c "_".
Definition ident_char (c : ascii) : bool := is_ascii_alphanumeric c || Ascii.eqb c "_".

(** [out.push(b as char)]: a byte above 127 is taken for a Latin-1 character
    and written in UTF-8. *)
Definition push_byte (b : ascii) : string :=
  let n := N_of_ascii b in
  if (n <? 128)%N then String b ""
  else String (ascii_of_N (192 + n / 64)) (String (ascii_of_N (128 + n mod 64)) "").

(** [ident] tells whether a name is being passed over, and whether it is kept
    (an alias) or dropped (an anchor). *)
Fixpoint strip_go (ident : option bool) (s : string) : string :=
  match s with
  | EmptyString => ""
  | String b s' =>
      if match ident with Some _ => ident_char b | None => false end then
        (if match ident with Some k => k | None => false end then String b "" else "")
        +:+ strip_go ident s'
      else if (Ascii.eqb b "&" || Ascii.eqb b "*") &&
              match s' with String n _ => ident_start n | EmptyString => false end then
        strip_go (Some (Ascii.eqb b "*")) s'
      else push_byte b +:+ strip_go None s'
  end.

Definition strip_anchors_and_aliases (input : string) : string := strip_go None input.

(** ** Reading types and verbs *)

Definition as_hash (y : Yaml) : option (list (Yaml * Yaml)) :=
  match y with YHash h => Some h | _ => None end.
Definition as_vec (y : Yaml) : option (list Yaml) :=
  match y with YArray l => Some l | _ => None end.
Definition yaml_as_str (y : Yaml) : option string :=
  match y with YString s => Some s | _ => None end.

Definition JSON_VALUE : string := "serde_json::Value".

Definition named_type (s : string) : string := default (pascal s) (map_primitive s).

Fixpoint resolve_type (node : Yaml) : string :=
  match node with
  | YString s => named_type s
  | YArray (first :: _) => "Vec<" +:+ resolve_type first +:+ ">"
  | YArray [] => "Vec<serde_json::Value>"
  | YHash h => match hash_get (YString "name") h ≫= yaml_as_str with
               | Some name => pascal name
               | None => JSON_VALUE
               end
  | _ => JSON_VALUE
  end.

Record PropDef := mkProp { prop_name : string; prop_type : string; prop_doc : option string }.

Inductive TypeKind : Type :=
| KObject (properties : list PropDef)
| KEnum (variants : list (string * string))
| KAlias (source : string)
| KUnion (variants : list string)
| KMap (key value : string).

Record TypeDef := mkType {
  type_name : string; type_kind : TypeKind; type_doc : option string; type_added : option string
}.

Record VerbDef := mkVerb {
  verb_yaml : string; verb_rust : string; verb_doc : option string; verb_added : option string;
  verb_params : list PropDef; verb_ret : option string
}.

Definition yaml_get (node : Yaml) (key : string) : option Yaml :=
  as_hash node ≫= hash_get (YString key).
Definition yaml_str (node : Yaml) (key : string) : option string :=
  yaml_get node key ≫= yaml_as_str.

Definition parse_property (node : Yaml) : option PropDef :=
  name ← yaml_str node "name";
  type_node ← yaml_get node "type";
  Some (mkProp name (resolve_type type_node) (esc_doc <$> yaml_str node "description")).

Definition parse_properties (def : Yaml) (key : string) : list PropDef :=
  match yaml_get def key ≫= as_vec with
  | Some v => omap parse_property v
  | None => []
  end.

(** The name of a value of an enumeration; other keys are passed over. *)
Definition enum_key (k : Yaml) : option string :=
  match k with
  | YString s => Some s
  | YInteger i => Some (pretty i)
  | YReal r => Some r
  | YBoolean b => Some (if b then "true" else "false")
  | _ => None
  end.

Definition enum_variant (kv : Yaml * Yaml) : option (string * string) :=
  key ← enum_key kv.1;
  Some (key, match kv.2 with YString s => esc_doc s | _ => "" end).

Definition type_or (def : Yaml) (key d : string) : string :=
  match yaml_get def key with Some n => resolve_type n | None => d end.

Definition parse_kind (def : Yaml) : option TypeKind :=
  match yaml_str def "type" with
  | Some k =>
      if String.eqb k "object" then Some (KObject (parse_properties def "properties"))
      else if String.eqb k "enum" then
        Some (KEnum (match yaml_get def "values" ≫= as_hash with
                     | Some values => omap enum_variant values
                     | None => []
                     end))
      else if String.eqb k "alias" then Some (KAlias (type_or def "sourcetype" JSON_VALUE))
      else if String.eqb k "union" then
        Some (KUnion (match yaml_get def "values" ≫= as_vec with
                      | Some v => resolve_type <$> v
                      | None => []
                      end))
      else if String.eqb k "map" then
        Some (KMap (type_or def "key-type" "String") (type_or def "value-type" JSON_VALUE))
      else if negb (is_empty k) then Some (KAlias (named_type k))
      else None
  | None =>
      match yaml_get def "properties" ≫= as_vec with
      | Some _ => Some (KObject (parse_properties def "properties"))
      | None => None
      end
  end.

Definition parse_type_entry (yaml_key : string) (def : Yaml) : option TypeDef :=
  kind ← parse_kind def;
  Some (mkType (pascal yaml_key) kind (esc_doc <$> yaml_str def "description")
          (yaml_str def "added")).

Definition parse_verb (yaml_name : string) (def : Yaml) : option VerbDef :=
  _ ← as_hash def;
  Some (mkVerb yaml_name (pascal yaml_name) (esc_doc <$> yaml_str def "description")
          (yaml_str def "added") (parse_properties def "params")
          (resolve_type <$> (r ← yaml_get def "return"; yaml_get r "type"))).

(** ** Printing Rust

    The items are lists of lines; [writeln!] ends each of them. *)

Definition DQ : string := String "034" "".
Definition quoted (s : string) : string := DQ +:+ s +:+ DQ.

Definition nonempty (o : option string) : option string :=
  s ← o; if is_empty s then None else Some s.

Definition emit_doc (doc added : option string) : list string :=
  let ds := match nonempty doc with
            | Some d => (λ line, "/// " +:+ trim line) <$> split_char LF d
            | None => []
            end in
  ds ++ match nonempty added with
        | Some a => (match ds with [] => [] | _ => ["///"] end)
                    ++ ["/// (added in oVirt " +:+ a +:+ ")"]
        | None => []
        end.

Definition emit_indent_doc (indent : string) (doc : option string) : list string :=
  match nonempty doc with Some d => [indent +:+ "/// " +:+ d] | None => [] end.

(** [s.trim_start_matches("r#")] *)
Fixpoint trim_raw (s : string) : string :=
  match s with
  | String a (String b s') =>
      if Ascii.eqb a "r" && Ascii.eqb b "#" then trim_raw s' else s
  | _ => s
  end.

(** [if !seen.insert(key(x)) { continue; }]: the first element of every key. *)
Fixpoint dedup_by {A} (key : A → string) (seen : gset string) (l : list A) : list A :=
  match l with
  | [] => []
  | x :: l' =>
      if decide (key x ∈ seen) then dedup_by key seen l'
      else x :: dedup_by key ({[key x]} ∪ seen) l'
  end.

(** A field of a struct: the identifier, and the name serde reads and writes
    when it is not the identifier's. *)
Definition field_key (p : PropDef) : string := trim_raw (rust_field_ident (prop_name p)).1.

Definition SERDE_DERIVE : string :=
  "#[derive(Debug, Clone, Default, serde::Serialize, serde::Deserialize)]".

Definition emit_field (p : PropDef) : list string :=
  let '(ident, needs_rename) := rust_field_ident (prop_name p) in
  emit_indent_doc "    " (prop_doc p)
  ++ (if needs_rename : bool
      then ["    #[serde(rename = " +:+ quoted (prop_name p) +:+ ")]"] else [])
  ++ ["    #[serde(default, skip_serializing_if = " +:+ quoted "Option::is_none" +:+ ")]";
      "    pub " +:+ ident +:+ ": Option<" +:+ prop_type p +:+ ">,"].

Definition struct_fields (ps : list PropDef) : list PropDef := dedup_by field_key ∅ ps.

Definition emit_struct (name : string) (ps : list PropDef) : list string :=
  [SERDE_DERIVE; "pub struct " +:+ name +:+ " {"]
  ++ concat (emit_field <$> struct_fields ps) ++ ["}"; ""].

Definition variant_key (v : string * string) : string := (rust_variant_ident v.1).1.
Definition enum_variants (vs : list (string * string)) : list (string * string) :=
  dedup_by variant_key ∅ vs.

Definition emit_variant (v : string * string) : list string :=
  let '(ident, needs_rename) := rust_variant_ident v.1 in
  (if is_empty v.2 then [] else ["    /// " +:+ v.2])
  ++ (if needs_rename : bool then ["    #[serde(rename = " +:+ quoted v.1 +:+ ")]"] else [])
  ++ ["    " +:+ ident +:+ ","].

Definition emit_type (t : TypeDef) : list string :=
  emit_doc (type_doc t) (type_added t) ++
  match type_kind t with
  | KObject ps => emit_struct (type_name t) ps
  | KEnum vs =>
      ["#[derive(Debug, Clone, PartialEq, Eq, Hash, serde::Serialize, serde::Deserialize)]";
       "pub enum " +:+ type_name t +:+ " {"]
      ++ concat (emit_variant <$> enum_variants vs) ++ ["}"; ""]
  | KAlias source => ["pub type " +:+ type_name t +:+ " = " +:+ source +:+ ";"; ""]
  | KUnion vs =>
      ["#[derive(Debug, Clone, serde::Serialize, serde::Deserialize)]"; "#[serde(untagged)]";
       "pub enum " +:+ type_name t +:+ " {"]
      ++ imap (λ i v, "    V" +:+ to_string (N.of_nat i) +:+ "(" +:+ v +:+ "),") vs ++ ["}"; ""]
  | KMap key value =>
      ["pub type " +:+ type_name t +:+ " = std::collections::HashMap<" +:+ key +:+ ", " +:+ value
       +:+ ">;"; ""]
  end.

(** The rows of the table of verbs: the first verb of every Rust name. *)
Definition verb_rows (verbs : list VerbDef) : list VerbDef := dedup_by verb_rust ∅ verbs.

(** *** String literals of the generated code

    A name is printed between quotes as it is; what the literal means is for the
    Rust lexer to say. *)

Definition hex_val (a : ascii) : option N :=
  let n := N_of_ascii a in
  (if (48 <=? n) && (n <=? 57) then Some (n - 48)
   else if (65 <=? n) && (n <=? 70) then Some (n - 55)
   else if (97 <=? n) && (n <=? 102) then Some (n - 87)
   else None)%N.

(** The digits of [\u{..}], up to the brace, and what follows it. *)
Fixpoint unicode_digits (n : nat) (acc : N) (s : string) : option (N * string) :=
  match s with
  | EmptyString => None
  | String a t =>
      if Ascii.eqb a "}" then if (1 <=? n)%nat && (n <=? 6)%nat then Some (acc, t) else None
      else if Ascii.eqb a "_" then if (1 <=? n)%nat then unicode_digits n acc t else None
      else match hex_val a with
           | Some d => unicode_digits (S n) (acc * 16 + d)%N t
           | None => None
           end
  end.

(** The UTF-8 bytes of a scalar value. *)
Definition encode_char (c : N) : option string :=
  let byte n := ascii_of_N n in
  (if c <? 128 then Some (String (byte c) "")
   else if c <? 2048 then Some (String (byte (192 + c / 64)) (String (byte (128 + c mod 64)) ""))
   else if (55296 <=? c) && (c <? 57344) then None
   else if c <? 65536 then
    Some (String (byte (224 + c / 4096)) (String (byte (128 + c / 64 mod 64))
            (String (byte (128 + c mod 64)) "")))
   else if c <? 1114112 then
    Some (String (byte (240 + c / 262144)) (String (byte (128 + c / 4096 mod 64))
            (String (byte (128 + c / 64 mod 64)) (String (byte (128 + c mod 64)) ""))))
   else None)%N.

(** After a backslash at the end of a line, white space is skipped. *)
Fixpoint skip_blank (s : string) : string :=
  match s with
  | String a t =>
      if Ascii.eqb a " " || Ascii.eqb a LF || Ascii.eqb a CR || Ascii.eqb a "009" then skip_blank t else s
  | EmptyString => ""
  end.

(** The value of an escape, and what follows it; [t] comes after the backslash. *)
Definition read_escape (t : string) : option (string * string) :=
  match t with
  | EmptyString => None
  | String b u =>
      if Ascii.eqb b "n" then Some (String LF "", u)
      else if Ascii.eqb b "r" then Some (String CR "", u)
      else if Ascii.eqb b "t" then Some (String "009" "", u)
      else if Ascii.eqb b "0" then Some (String NUL "", u)
      else if Ascii.eqb b "\" || Ascii.eqb b "'" || Ascii.eqb b "034" then Some (String b "", u)
      else if Ascii.eqb b LF then Some ("", skip_blank u)
      else if Ascii.eqb b "x" then
        match u with
        | String h (String l v) =>
            match hex_val h, hex_val l with
            | Some h, Some l => if (h <? 8)%N then Some (String (ascii_of_N (h * 16 + l)%N) "", v) else None
            | _, _ => None
            end
        | _ => None
        end
      else if Ascii.eqb b "u" then
        match u with
        | String o v =>
            if Ascii.eqb o "{" then
              match unicode_digits 0 0%N v with
              | Some (c, rest) => (λ e, (e, rest)) <$> encode_char c
              | None => None
              end
            else None
        | EmptyString => None
        end
      else None
  end.

(** A line break of the source file is LF. *)
Fixpoint unix_newlines (s : string) : string :=
  match s with
  | String a ((String b _) as t) =>
      if Ascii.eqb a CR && Ascii.eqb b LF then unix_newlines t else String a (unix_newlines t)
  | _ => s
  end.

(** Every round takes a byte off, so the length is enough fuel. *)
Fixpoint literal_go (fuel : nat) (s : string) : option string :=
  match fuel, s with
  | O, _ => None
  | _, EmptyString => Some ""
  | S fuel', String a t =>
      if Ascii.eqb a "034" || Ascii.eqb a CR then None
      else if Ascii.eqb a "\" then
        match read_escape t with
        | Some (e, rest) => String.append e <$> literal_go fuel' rest
        | None => None
        end
      else String a <$> literal_go fuel' t
  end.

(** The value of the literal with the text [s] between its quotes; [None] when
    that is not one string literal. *)
Definition rust_literal (s : string) : option string :=
  let t := unix_newlines s in literal_go (S (String.length t)) t.

(** What the generated [Verb::as_str] and [Verb::from_wire] compute: the first
    arm that matches. *)
Fixpoint first_arm (p : VerbDef → bool) (rows : list VerbDef) : option VerbDef :=
  match rows with
  | [] => None
  | v :: rows' => if p v then Some v else first_arm p rows'
  end.
Definition as_str (verbs : list VerbDef) (variant : string) : option string :=
  first_arm (λ v, String.eqb (verb_rust v) variant) (verb_rows verbs) ≫=
    λ v, rust_literal (verb_yaml v).
Definition from_wire (verbs : list VerbDef) (s : string) : option string :=
  verb_rust <$> first_arm (λ v, bool_decide (rust_literal (verb_yaml v) = Some s)) (verb_rows verbs).

Definition emit_verb_table (verbs : list VerbDef) : list string :=
  let rows := verb_rows verbs in
  ["/// Every verb defined by vdsm-api.yml."; "#[derive(Debug, Clone, Copy, PartialEq, Eq, Hash)]";
   "#[non_exhaustive]"; "pub enum Verb {"]
  ++ ((λ v, "    " +:+ verb_rust v +:+ ",") <$> rows)
  ++ ["}"; ""; "impl Verb {"; "    pub const fn as_str(&self) -> &'static str {"; "        match self {"]
  ++ ((λ v, "            Verb::" +:+ verb_rust v +:+ " => " +:+ quoted (verb_yaml v) +:+ ",") <$> rows)
  ++ ["        }"; "    }"; ""; "    pub fn from_wire(s: &str) -> Option<Self> {"; "        match s {"]
  ++ ((λ v, "            " +:+ quoted (verb_yaml v) +:+ " => Some(Verb::" +:+ verb_rust v +:+ "),") <$> rows)
  ++ ["            _ => None,"; "        }"; "    }"; "}"; ""].

Definition emit_verb_request (v : VerbDef) : list string :=
  emit_doc (verb_doc v) (verb_added v)
  ++ emit_struct (verb_rust v +:+ "Request") (verb_params v)
  ++ match verb_ret v with
     | Some ret => ["/// Response payload for `" +:+ verb_yaml v +:+ "`.";
                    "pub type " +:+ verb_rust v +:+ "Response = " +:+ ret +:+ ";"; ""]
     | None => []
     end.

Definition emit_verb_request_structs (verbs : list VerbDef) : list string :=
  concat (emit_verb_request <$> verb_rows verbs).

(** ** The program *)

(** The types and the verbs of the root mapping, in its order. *)
Definition type_entries (h : list (Yaml * Yaml)) : list TypeDef :=
  omap (λ kv : Yaml * Yaml, n ← yaml_as_str kv.1; parse_type_entry n kv.2) h.

Definition collect_types (root : list (Yaml * Yaml)) : list TypeDef :=
  dedup_by type_name ∅
    (concat (omap (λ kv : Yaml * Yaml,
       key ← yaml_as_str kv.1;
       if String.eqb key "types" then type_entries <$> as_hash kv.2 else None) root)).

Definition collect_verbs (root : list (Yaml * Yaml)) : list VerbDef :=
  omap (λ kv : Yaml * Yaml,
    key ← yaml_as_str kv.1;
    if String.eqb key "types" then None
    else if has_byte "." key then parse_verb key kv.2 else None) root.

Definition name_list (name : string) (ns : list string) : list string :=
  ["pub const " +:+ name +:+ ": &[&str] = &["]
  ++ ((λ n, "    " +:+ quoted n +:+ ",") <$> sort_by String.leb ns) ++ ["];"; ""].

Definition generated (root : list (Yaml * Yaml)) : list string :=
  let types := collect_types root in
  let verbs := collect_verbs root in
  ["// Auto-generated from schema/vdsm-api.yml. DO NOT EDIT.";
   "// Regenerate via `cargo build` after vendoring a new schema."; "";
   "/// Number of named types emitted from vdsm-api.yml.";
   "pub const TYPE_COUNT: usize = " +:+ to_string (N.of_nat (length types)) +:+ ";";
   "/// Number of verbs emitted from vdsm-api.yml.";
   "pub const VERB_COUNT: usize = " +:+ to_string (N.of_nat (length verbs)) +:+ ";"; "";
   "/// Sorted list of all type names from the schema."]
  ++ name_list "TYPES" (type_name <$> types)
  ++ ["/// Sorted list of all verb names from the schema."]
  ++ name_list "VERBS" (verb_yaml <$> verbs)
  ++ concat (emit_type <$> types)
  ++ emit_verb_table verbs ++ emit_verb_request_structs verbs.

(** [main]: the text written to [generated.rs], from the schema and the events
    [parse] finds in the stripped text; [None] is a panic. *)
Definition generate `{!YamlOps} (parse : string → option (list Event)) (raw : string)
  : option string :=
  evs ← parse (strip_anchors_and_aliases raw);
  loader ← load evs loader_default;
  root ← head (docs loader);
  root_hash ← as_hash root;
  Some (foldr (λ l s, l +:+ String LF s) "" (generated root_hash)).
