(* ===== verification/SchemaFacts.v ===== *)
(** * Properties of the schema compiler

    The loader builds the tree its events describe; the names it makes up are
    identifiers; no struct has two fields of one name, every field travels
    under its name in the schema, and the table of verbs is a bijection. *)

From stdpp Require Import options.
From S2P Require Import Prelude Utf8 RustStr Float64 Sysinfo Schema.

(** ** Equality of values *)

Section yaml_ind.
Context (P : Yaml → Prop).
Context (HR : ∀ s, P (YReal s)) (HI : ∀ z, P (YInteger z)) (HS : ∀ s, P (YString s))
  (HB : ∀ b, P (YBoolean b)) (HN : P YNull) (HX : P YBadValue)
  (HA : ∀ l, Forall P l → P (YArray l))
  (HH : ∀ h, Forall (λ kv, P kv.1 ∧ P kv.2) h → P (YHash h)).

Fixpoint Yaml_ind' (y : Yaml) : P y :=
  match y with
  | YReal s => HR s
  | YInteger z => HI z
  | YString s => HS s
  | YBoolean b => HB b
  | YNull => HN
  | YBadValue => HX
  | YArray l => HA l ((fix go l : Forall P l :=
      match l with [] => List.Forall_nil _ | x :: l' => @List.Forall_cons _ _ _ _ (Yaml_ind' x) (go l') end) l)
  | YHash h => HH h ((fix go h : Forall (λ kv, P kv.1 ∧ P kv.2) h :=
      match h with
      | [] => List.Forall_nil _
      | kv :: h' => @List.Forall_cons _ (λ kv, P kv.1 ∧ P kv.2) kv h'
          (match kv as kv return P kv.1 ∧ P kv.2 with (k, v) => conj (Yaml_ind' k) (Yaml_ind' v) end) (go h')
      end) h)
  end.
End yaml_ind.

Lemma yaml_eqb_eq x y : yaml_eqb x y = true ↔ x = y.
Proof.
  revert y. induction x as [s|z|s|b| | |l IH|h IH] using Yaml_ind'; intros y; destruct y; try done;
    cbn [yaml_eqb].
  - rewrite String.eqb_eq. naive_solver.
  - rewrite Z.eqb_eq. naive_solver.
  - rewrite String.eqb_eq. naive_solver.
  - rewrite eqb_true_iff. naive_solver.
  - transitivity (l = l0); [|naive_solver]. revert l0.
    induction IH as [|x l Hx Hl IHl]; intros [|y k]; try done.
    rewrite andb_true_iff, Hx, IHl. naive_solver.
  - transitivity (h = h0); [|naive_solver]. revert h0.
    induction IH as [|[k v] h [Hk Hv] Hh IHh]; intros [|[k' v'] h']; try done.
    rewrite !andb_true_iff, Hk, Hv, IHh. naive_solver.
Qed.

#[export] Instance Yaml_eq_dec : EqDecision Yaml.
Proof.
  intros x y. destruct (yaml_eqb x y) eqn:E; [left|right].
  - by apply yaml_eqb_eq.
  - intros ->. by rewrite (proj2 (yaml_eqb_eq y y)) in E.
Defined.

(** ** A map that keeps the order of insertion *)

(** Replace the value of a key where it stands, or add it at the end. *)
Fixpoint replace_or_add (k v : Yaml) (h : list (Yaml * Yaml)) : list (Yaml * Yaml) :=
  match h with
  | [] => [(k, v)]
  | (k', v') :: h' => if yaml_eqb k' k then (k', v) :: h' else (k', v') :: replace_or_add k v h'
  end.

Definition demo_yaml : YamlOps := {| yaml_from_str := YString; hash_insert := replace_or_add |}.

Lemma demo_yaml_laws : @YamlLaws demo_yaml.
Proof.
  split; cbn [hash_insert demo_yaml].
  - intros k v h Hn. induction h as [|[k' v'] h IH]; [done|]. cbn [hash_get replace_or_add] in *.
    destruct (yaml_eqb k' k); [done|]. by rewrite IH.
  - intros k v h. induction h as [|[k' v'] h IH]; cbn [hash_get replace_or_add].
    + by rewrite (proj2 (yaml_eqb_eq k k)).
    + destruct (yaml_eqb k' k) eqn:E; cbn [hash_get]; by rewrite E.
  - intros k k' v h Hne. induction h as [|[k1 v1] h IH]; cbn [hash_get replace_or_add].
    + destruct (yaml_eqb k' k) eqn:E; [|done]. apply yaml_eqb_eq in E. congruence.
    + destruct (yaml_eqb k1 k') eqn:E1; cbn [hash_get].
      * apply yaml_eqb_eq in E1 as ->.
        destruct (yaml_eqb k' k) eqn:E2; [|done]. apply yaml_eqb_eq in E2. congruence.
      * by destruct (yaml_eqb k1 k).
Qed.

(** ** The loader *)

(** A document without anchors: scalars as the parser delivers them. *)
Inductive ytree : Type :=
| TScalar (v : string) (style : TScalarStyle) (tag : option Tag)
| TSeq (l : list ytree)
| TMap (kvs : list (ytree * ytree)).

Section ytree_ind.
Context (P : ytree → Prop) (HS : ∀ v style tag, P (TScalar v style tag))
  (HL : ∀ l, Forall P l → P (TSeq l))
  (HM : ∀ kvs, Forall (λ kv, P kv.1 ∧ P kv.2) kvs → P (TMap kvs)).
Fixpoint ytree_ind' (t : ytree) : P t :=
  match t with
  | TScalar v style tag => HS v style tag
  | TSeq l => HL l ((fix go l : Forall P l :=
      match l with [] => List.Forall_nil _ | x :: l' => @List.Forall_cons _ _ _ _ (ytree_ind' x) (go l') end) l)
  | TMap kvs => HM kvs ((fix go h : Forall (λ kv, P kv.1 ∧ P kv.2) h :=
      match h with
      | [] => List.Forall_nil _
      | kv :: h' => @List.Forall_cons _ (λ kv, P kv.1 ∧ P kv.2) kv h'
          (match kv as kv return P kv.1 ∧ P kv.2 with (k, v) => conj (ytree_ind' k) (ytree_ind' v) end) (go h')
      end) kvs)
  end.
End ytree_ind.

(** The events of a document, in the order of the text. *)
Fixpoint events (t : ytree) : list Event :=
  match t with
  | TScalar v style tag => [Scalar v style 0 tag]
  | TSeq l => SequenceStart 0 :: concat (map events l) ++ [SequenceEnd]
  | TMap kvs =>
      MappingStart 0 ::
      concat (map (λ kv, match kv with (k, v) => events k ++ events v end) kvs) ++ [MappingEnd]
  end.

Section loader.
Context `{!YamlOps}.

Definition insert_all (h : list (Yaml * Yaml)) (kvs : list (Yaml * Yaml)) : list (Yaml * Yaml) :=
  foldl (λ h kv, hash_insert kv.1 kv.2 h) h kvs.

(** The value it stands for: in a mapping a later entry replaces an earlier
    one of the same key. *)
Fixpoint tvalue (t : ytree) : Yaml :=
  match t with
  | TScalar v style tag => scalar_to_yaml v style tag
  | TSeq l => YArray (map tvalue l)
  | TMap kvs => YHash (insert_all [] (map (λ kv, match kv with (k, v) => (tvalue k, tvalue v) end) kvs))
  end.

(** No key of a mapping is a value the parser could not make sense of. *)
Fixpoint keys_ok (t : ytree) : bool :=
  match t with
  | TScalar _ _ _ => true
  | TSeq l => forallb keys_ok l
  | TMap kvs => forallb (λ kv, match kv with
                               | (k, v) => negb (is_badvalue (tvalue k)) && keys_ok k && keys_ok v
                               end) kvs
  end.

Lemma load_app e1 e2 s : load (e1 ++ e2) s = load e1 s ≫= load e2.
Proof.
  revert s. induction e1 as [|e e1 IH]; intros s; [done|]. cbn [load app].
  destruct (on_event s e); cbn [mbind option_bind]; [apply IH|done].
Qed.

(** The state in which a node of a collection may come: the top of the stack
    takes it. *)
Lemma load_seq l d v a ds ks am :
  Forall (λ t, keys_ok t = true → ∀ s, load (events t) s = insert_node (tvalue t, 0%N) s) l →
  forallb keys_ok l = true →
  load (concat (map events l)) (mkLoader d ((YArray v, a) :: ds) ks am)
  = Some (mkLoader d ((YArray (v ++ map tvalue l), a) :: ds) ks am).
Proof.
  intros Hl Hk. revert v. induction Hl as [|t l Ht Hl IH]; intros v; cbn [map concat] in *.
  - by rewrite app_nil_r.
  - cbn [forallb] in Hk. breflect. rewrite load_app, Ht by done.
    unfold insert_node. cbn [doc_stack docs key_stack anchor_map fst snd].
    change ((0 <? 0)%N) with false. cbn [mbind option_bind]. rewrite IH by done.
    by rewrite <- app_assoc.
Qed.

Lemma load_map kvs d h a ds ks am :
  Forall (λ kv, (keys_ok kv.1 = true → ∀ s, load (events kv.1) s = insert_node (tvalue kv.1, 0%N) s) ∧
                (keys_ok kv.2 = true → ∀ s, load (events kv.2) s = insert_node (tvalue kv.2, 0%N) s)) kvs →
  keys_ok (TMap kvs) = true →
  load (concat (map (λ kv, match kv with (k, v) => events k ++ events v end) kvs))
    (mkLoader d ((YHash h, a) :: ds) (YBadValue :: ks) am)
  = Some (mkLoader d ((YHash (insert_all h (map (λ kv, match kv with (k, v) => (tvalue k, tvalue v) end) kvs)), a)
                      :: ds) (YBadValue :: ks) am).
Proof.
  intros Hl Hk. revert h. induction Hl as [|[k v] l [Hkey Hval] Hl IH]; intros h; [done|].
  cbn [keys_ok forallb map concat fst snd] in *. breflect.
  rewrite !load_app, Hkey by done. unfold insert_node at 1.
  cbn [doc_stack docs key_stack anchor_map fst snd is_badvalue].
  change ((0 <? 0)%N) with false. cbn [mbind option_bind]. rewrite Hval by done.
  unfold insert_node. cbn [doc_stack docs key_stack anchor_map fst snd].
  match goal with E : is_badvalue _ = false |- _ => rewrite E end.
  change ((0 <? 0)%N) with false. cbn [mbind option_bind]. by rewrite IH.
Qed.

(** The events of a tree put its value where the next node belongs. *)
Lemma load_events t s :
  keys_ok t = true → load (events t) s = insert_node (tvalue t, 0%N) s.
Proof.
  revert s. induction t as [v style tag|l IH|kvs IH] using ytree_ind'; intros [d st ks am] Hk.
  - cbn [events load on_event tvalue]. by destruct (insert_node _ _).
  - cbn [events load on_event]. cbn [mbind option_bind]. unfold push_doc.
    cbn [docs doc_stack key_stack anchor_map]. rewrite load_app, load_seq; [|
      eapply Forall_impl; [exact IH|]; intros; auto|done].
    cbn [mbind option_bind load on_event pop_doc doc_stack docs key_stack anchor_map app].
    cbn [tvalue]. by destruct (insert_node _ _).
  - cbn [events load on_event]. cbn [mbind option_bind]. unfold push_doc.
    cbn [docs doc_stack key_stack anchor_map]. rewrite load_app, load_map; [|
      eapply Forall_impl; [exact IH|]; intros ? [? ?]; auto|done].
    cbn [mbind option_bind load on_event pop_doc doc_stack docs key_stack anchor_map].
    cbn [tvalue]. by destruct (insert_node _ _).
Qed.

Lemma load_document t :
  keys_ok t = true →
  load (StreamStart :: DocumentStart :: events t ++ [DocumentEnd; StreamEnd]) loader_default
  = Some (mkLoader [tvalue t] [] [] ∅).
Proof.
  intros Hk. cbn [load on_event mbind option_bind]. rewrite load_app, load_events by done. done.
Qed.

(** The value of the last entry of a key. *)
Fixpoint last_value (k : Yaml) (kvs : list (Yaml * Yaml)) : option Yaml :=
  match kvs with
  | [] => None
  | (k', v) :: kvs' =>
      match last_value k kvs' with
      | Some x => Some x
      | None => if yaml_eqb k' k then Some v else None
      end
  end.

Lemma insert_all_get `{!YamlLaws} k kvs h :
  hash_get k (insert_all h kvs) =
  match last_value k kvs with Some v => Some v | None => hash_get k h end.
Proof.
  revert h. induction kvs as [|[k' v] kvs IH]; intros h; [done|].
  change (insert_all h ((k', v) :: kvs)) with (insert_all (hash_insert k' v h) kvs).
  rewrite IH. cbn [last_value]. destruct (last_value k kvs); [done|].
  destruct (yaml_eqb k' k) eqn:E.
  - apply yaml_eqb_eq in E as ->. apply hash_get_insert.
  - apply hash_get_insert_ne. intros ->. by rewrite (proj2 (yaml_eqb_eq k' k')) in E.
Qed.

(** The loader rebuilds the document: from the events of any tree whose
    keys are readable it ends, without a panic and with empty stacks, with
    exactly the value of that tree, in which a mapping with a repeated key has
    the value of the last entry. *)
Theorem load_document_value `{!YamlLaws} t :
  keys_ok t = true →
  load (StreamStart :: DocumentStart :: events t ++ [DocumentEnd; StreamEnd]) loader_default
    = Some (mkLoader [tvalue t] [] [] ∅) ∧
  ∀ kvs k, t = TMap kvs →
    ∃ h, tvalue t = YHash h ∧
         hash_get k h = last_value k ((λ kv, (tvalue kv.1, tvalue kv.2)) <$> kvs).
Proof.
  intros Hk. split; [by apply load_document|]. intros kvs k ->.
  exists (insert_all [] ((λ kv, (tvalue kv.1, tvalue kv.2)) <$> kvs)). split.
  - cbn [tvalue]. do 2 f_equal. clear Hk. induction kvs as [|[x y] kvs IH]; [done|].
    cbn. by rewrite IH.
  - rewrite insert_all_get. by destruct (last_value k _).
Qed.
End loader.

(** ** Identifiers *)

(** The characters of a lower-case identifier. *)
Definition lower_char (c : ascii) : bool :=
  is_ascii_lowercase c || is_ascii_digit c || Ascii.eqb c "_".

Definition under_char (c : ascii) : bool := Ascii.eqb "_" c.

(** No two underscores in a row. *)
Fixpoint single_underscores (s : string) : bool :=
  match s with
  | EmptyString => true
  | String a s' =>
      negb (under_char a && match s' with String b _ => under_char b | EmptyString => false end)
      && single_underscores s'
  end.

(** What [snake] produces: lower-case words joined by single underscores, the
    first of which starts with a letter. *)
Definition snake_ident (s : string) : Prop :=
  str_all lower_char s = true ∧ single_underscores s = true ∧
  (∃ a s', s = String a s' ∧ is_ascii_lowercase a = true) ∧ str_last s ≠ Some "_"%char.

Lemma single_snoc s a :
  single_underscores (s +:+ String a "") =
  single_underscores s && negb (under_char a && bool_decide (str_last s = Some "_"%char)).
Proof.
  induction s as [|x s IH].
  - rewrite app_nil_l_str. rewrite (bool_decide_false (str_last "" = _)) by done.
    cbn [single_underscores andb]. by rewrite andb_true_r.
  - rewrite app_String. cbn [single_underscores]. rewrite IH. destruct s as [|y s].
    + cbn [single_underscores str_last app]. rewrite app_nil_l_str.
      cbn [str_last]. unfold under_char. rewrite (Ascii.eqb_sym "_" x).
      rewrite (bool_decide_false (None = _)) by done.
      destruct (Ascii.eqb_spec x "_") as [->|Hx]; cbn [andb negb].
      * rewrite bool_decide_true by done. by destruct (Ascii.eqb "_" a).
      * by rewrite bool_decide_false by congruence.
    + rewrite app_String. change (str_last (String x (String y s))) with (str_last (String y s)).
      by rewrite andb_assoc.
Qed.

Lemma lower_alnum c :
  is_ascii_uppercase c = false → is_ascii_alphanumeric c = true →
  is_ascii_lowercase c || is_ascii_digit c = true.
Proof.
  unfold is_ascii_alphanumeric, is_ascii_alphabetic, is_ascii_uppercase, is_ascii_lowercase.
  by intros ->.
Qed.

Lemma to_lower_lower c : is_ascii_uppercase c = true → is_ascii_lowercase (to_lower c) = true.
Proof. destruct c as [[] [] [] [] [] [] [] []]; vm_compute; done. Qed.

Lemma lower_not_under c :
  is_ascii_lowercase c || is_ascii_digit c = true → under_char c = false ∧ c ≠ "_"%char.
Proof. destruct c as [[] [] [] [] [] [] [] []]; vm_compute; done. Qed.

(** What the loop of [snake] has built so far. *)
Definition snake_part (out : string) : Prop :=
  str_all lower_char out = true ∧ single_underscores out = true ∧
  starts_with "_" out = false.

Lemma snake_part_snoc out c :
  snake_part out → is_ascii_lowercase c || is_ascii_digit c = true →
  snake_part (out +:+ String c "").
Proof.
  intros (H1 & H2 & H3) Hc. destruct (lower_not_under c Hc) as [Hu Hn]. split; [|split].
  - rewrite str_all_app, H1. cbn [str_all]. unfold lower_char. by rewrite Hc.
  - rewrite single_snoc, H2, Hu. done.
  - destruct out as [|a out]; [|done]. rewrite app_nil_l_str. cbn [starts_with].
    by destruct (Ascii.eqb_spec "_" c).
Qed.

Lemma snake_part_under out :
  snake_part out →
  snake_part (if negb (is_empty out) && negb (ends_with_underscore out) then out +:+ "_" else out).
Proof.
  intros (H1 & H2 & H3). destruct (negb _ && negb _) eqn:E; [|done]. breflect.
  unfold ends_with_underscore in *. split; [|split].
  - by rewrite str_all_app, H1.
  - rewrite single_snoc, H2. by rewrite H0.
  - by destruct out.
Qed.

Lemma snake_fold s st :
  snake_part st.1 → snake_part (str_foldl snake_char st s).1.
Proof.
  revert st. induction s as [|c s IH]; intros [out prev] Ho; [done|]. cbn [str_foldl]. apply IH.
  unfold snake_char. cbn [fst] in Ho.
  destruct (is_ascii_uppercase c) eqn:Eu; cbn [fst].
  - apply snake_part_snoc; [|by rewrite to_lower_lower].
    destruct prev; cbn [andb]; [by apply snake_part_under|done].
  - destruct (is_ascii_alphanumeric c) eqn:Ea; cbn [fst].
    + apply snake_part_snoc; [done|]. by apply lower_alnum.
    + by apply snake_part_under.
Qed.

Lemma trim_start_not p s :
  match s with String a _ => p a = false | EmptyString => True end → trim_start_matches p s = s.
Proof. destruct s as [|a s]; [done|]. cbn [trim_start_matches]. by intros ->. Qed.

Lemma trim_matches_snoc p s a :
  trim_start_matches p (s +:+ String a "") = s +:+ String a "" → p a = false →
  trim_matches p (s +:+ String a "") = s +:+ String a "".
Proof.
  intros Hs Ha. unfold trim_matches. rewrite Hs, rev_snoc. cbn [trim_start_matches]. rewrite Ha.
  by rewrite <- rev_snoc, rev_rev.
Qed.

(** Trimming removes the one underscore there may be at the end. *)
Lemma snake_trim out :
  snake_part out →
  let r := trim_matches (Ascii.eqb "_") out in
  snake_part r ∧ str_last r ≠ Some "_"%char ∧ (str_last out ≠ Some "_"%char → r = out).
Proof.
  intros (H1 & H2 & H3). cbn zeta.
  assert (∀ s t, out = s +:+ t → trim_start_matches (Ascii.eqb "_") out = out) as Hts.
  { intros _ _ _. apply trim_start_not. destruct out as [|x o]; [done|]. cbn [starts_with] in H3.
    destruct (Ascii.eqb_spec "_" x); done. }
  destruct (str_last out) as [a|] eqn:El.
  - apply str_last_split in El as [o ->]. destruct (Ascii.eqb_spec "_" a) as [<-|Hne].
    + assert (trim_matches (Ascii.eqb "_") (o +:+ String "_" "") = o) as ->.
      { unfold trim_matches. rewrite (Hts o _ eq_refl), rev_snoc. cbn [trim_start_matches].
        change (Ascii.eqb "_" "_") with true. cbn iota.
        rewrite trim_start_not; [apply rev_rev|].
        destruct (str_last o) as [b|] eqn:Eb.
        - apply str_last_split in Eb as [o' ->]. rewrite rev_snoc.
          rewrite single_snoc in H2. breflect.
          destruct (Ascii.eqb_spec "_" b) as [<-|]; [|done].
          rewrite str_last_snoc in H0. rewrite bool_decide_true in H0 by done. done.
        - destruct o as [|x o]; [done|].
          destruct (str_last_nonempty (String x o)) as [? ?]; [done|congruence]. }
      rewrite single_snoc in H2. breflect. rewrite str_all_app in H1. breflect.
      split; [split; [done|split; [done|by destruct o]]|]. split; [|by intros []].
      intros E. rewrite E in H0. rewrite bool_decide_true in H0 by done. done.
    + rewrite trim_matches_snoc; [|by apply (Hts o (String a "") eq_refl)|by destruct (Ascii.eqb_spec "_" a)].
      split; [done|]. split; [|done]. rewrite str_last_snoc. congruence.
  - destruct out as [|x o]; [done|]. destruct (str_last_nonempty (String x o)) as [? ?]; [done|congruence].
Qed.

Lemma lower_char_cases c :
  lower_char c = true → is_ascii_digit c = false → Ascii.eqb "_" c = false → is_ascii_lowercase c = true.
Proof.
  unfold lower_char. intros H Hd Hu. rewrite Hd, Ascii.eqb_sym, Hu, !orb_false_r in H. done.
Qed.

Lemma starts_under a s : starts_with "_" (String a s) = Ascii.eqb "_" a.
Proof. cbn [starts_with]. apply andb_true_r. Qed.

Lemma snake_is_ident s : snake_ident (snake s).
Proof.
  unfold snake. destruct (snake_trim (str_foldl snake_char ("", false) s).1) as ((H1 & H2 & H3) & H4 & _).
  { by apply snake_fold. }
  set (r := trim_matches _ _) in *. destruct r as [|a r]; cbn [is_empty head_is_digit].
  - split; [done|]. split; [done|]. split; [by eexists _, _|done].
  - rewrite starts_under in H3. destruct (is_ascii_digit a) eqn:Ed.
    + split; [|split; [|split]].
      * exact H1.
      * change ("f_" +:+ String a r) with (String "f" (String "_" (String a r))).
        cbn [single_underscores] in *. change (under_char a) with (Ascii.eqb "_" a) in *.
        rewrite H3 in *. exact H2.
      * by eexists _, _.
      * change (str_last ("f_" +:+ String a r)) with (str_last (String a r)). done.
    + split; [done|]. split; [done|]. split; [|done]. eexists _, _. split; [done|].
      cbn [str_all] in H1. apply andb_true_iff in H1 as [H1 _]. by apply lower_char_cases.
Qed.

Lemma lower_char_alnum c :
  lower_char c = true → c ≠ "_"%char →
  is_ascii_alphanumeric c = true ∧ is_ascii_lowercase c || is_ascii_digit c = true.
Proof. destruct c as [[] [] [] [] [] [] [] []]; vm_compute; done. Qed.

(** A snake-case name is left alone. *)
Lemma snake_fold_id t out prev :
  snake_part (out +:+ t) →
  (str_foldl snake_char (out, prev) t).1 = out +:+ t.
Proof.
  revert out prev. induction t as [|c t IH]; intros out prev Hp; [by rewrite app_nil_r_str|].
  cbn [str_foldl]. assert (out +:+ String c t = (out +:+ String c "") +:+ t) as E
    by (by rewrite app_assoc_str, app_String, app_nil_l_str).
  rewrite E in Hp. rewrite E.
  assert (snake_char (out, prev) c =
          (out +:+ String c "", if Ascii.eqb c "_" then false else true)) as ->; [|by apply IH].
  destruct Hp as (H1 & H2 & H3). rewrite !str_all_app in H1. breflect. cbn [str_all] in H1.
  breflect. unfold snake_char.
  assert (is_ascii_uppercase c = false) as ->.
  { revert H1. clear. destruct c as [[] [] [] [] [] [] [] []]; vm_compute; done. }
  destruct (Ascii.eqb_spec c "_") as [->|Hn].
  - change (is_ascii_alphanumeric "_") with false. cbn iota.
    assert (negb (is_empty out) && negb (ends_with_underscore out) = true) as ->; [|done].
    destruct out as [|x out]; [done|]. cbn [is_empty negb andb].
    unfold ends_with_underscore.
    assert (∀ s t, single_underscores (s +:+ t) = true → single_underscores s = true) as Hpre.
    { clear. induction s as [|a s IH]; intros t; [done|]. rewrite app_String.
      cbn [single_underscores]. intros. breflect. rewrite (IH t) by done.
      destruct s as [|b s]; [by rewrite andb_false_r|]. rewrite app_String in *. by rewrite H. }
    apply Hpre in H2. rewrite single_snoc in H2. apply andb_true_iff in H2 as [_ H2]. exact H2.
  - destruct (lower_char_alnum c) as [E1 E2]; [done|done|].
    by rewrite E1, E2.
Qed.

Lemma snake_id s : snake_ident s → snake s = s.
Proof.
  intros (H1 & H2 & (a & s' & -> & Ha) & Hl).
  assert (snake_part (String a s')) as Hp.
  { split; [done|]. split; [done|]. rewrite starts_under.
    destruct (Ascii.eqb_spec "_" a) as [<-|]; done. }
  unfold snake. rewrite (snake_fold_id (String a s') "" false Hp), app_nil_l_str.
  destruct (snake_trim _ Hp) as (_ & _ & E). rewrite E by done. cbn [is_empty head_is_digit].
  destruct (is_ascii_digit a) eqn:Ed; [|done].
  revert Ha Ed. clear. destruct a as [[] [] [] [] [] [] [] []]; vm_compute; done.
Qed.

(** The reserved words of the 2021 edition, after the language reference: the
    strict ones and those kept for later. *)
Definition reserved : list string :=
  ["as"; "async"; "await"; "break"; "const"; "continue"; "crate"; "dyn"; "else"; "enum"; "extern";
   "false"; "fn"; "for"; "if"; "impl"; "in"; "let"; "loop"; "match"; "mod"; "move"; "mut"; "pub";
   "ref"; "return"; "self"; "Self"; "static"; "struct"; "super"; "trait"; "true"; "type"; "unsafe";
   "use"; "where"; "while";
   "abstract"; "become"; "box"; "do"; "final"; "macro"; "override"; "priv"; "try"; "typeof";
   "unsized"; "virtual"; "yield"].

(** The words that cannot be written as raw identifiers either. *)
Definition not_raw : list string := ["crate"; "self"; "super"; "Self"].

Definition word (s : string) : bool :=
  match s with String a s' => ident_start a && str_all ident_char s' | EmptyString => false end.

(** The identifiers of ASCII letters, digits and underscores, raw or not. *)
Definition rust_ident (s : string) : bool :=
  match strip_prefix "r#" s with
  | Some r => word r && negb (bool_decide (r ∈ not_raw))
  | None => word s && negb (bool_decide (s ∈ reserved)) && negb (String.eqb s "_")
  end.

Lemma sublist_dec {A} `{!EqDecision A} (l k : list A) :
  bool_decide (Forall (λ x, x ∈ k) l) = true → ∀ x, x ∈ l → x ∈ k.
Proof. intros H. by apply Forall_forall, (bool_decide_eq_true_1 _ H). Qed.

Lemma is_keyword_reserved s : is_keyword s = bool_decide (s ∈ "union" :: reserved).
Proof.
  unfold is_keyword. apply eq_bool_prop_intro. rewrite bool_decide_spec. split.
  - intros H%Is_true_true%existsb_exists. destruct H as (k & Hk & <-%String.eqb_eq).
    apply list_elem_of_In in Hk. revert k Hk. apply sublist_dec. vm_compute. done.
  - intros H. apply Is_true_true, existsb_exists. exists s. rewrite String.eqb_refl.
    split; [|done]. apply list_elem_of_In. revert s H. apply sublist_dec. vm_compute. done.
Qed.

Lemma word_not_raw s : word s = true → strip_prefix "r#" s = None.
Proof.
  intros Hw. destruct (strip_prefix "r#" s) as [r|] eqn:E; [|done].
  apply strip_prefix_spec in E as ->. done.
Qed.

Lemma rust_ident_word s :
  word s = true → s ≠ "_" → rust_ident s = negb (bool_decide (s ∈ reserved)).
Proof.
  intros Hw Hn. unfold rust_ident. rewrite (word_not_raw _ Hw), Hw.
  apply String.eqb_neq in Hn. by rewrite Hn, andb_true_r.
Qed.

Lemma rust_ident_raw s :
  rust_ident ("r#" +:+ s) = word s && negb (bool_decide (s ∈ not_raw)).
Proof. done. Qed.

Lemma snake_ident_word s : snake_ident s → word s = true ∧ s ≠ "_".
Proof.
  intros (H1 & _ & (a & s' & -> & Ha) & Hl). split; [|by intros [= -> ->]]. cbn [str_all word] in *.
  apply andb_true_iff in H1 as [_ H1]. apply andb_true_intro. split.
  - revert Ha. clear. destruct a as [[] [] [] [] [] [] [] []]; vm_compute; done.
  - revert H1. apply str_all_impl. intros c. destruct c as [[] [] [] [] [] [] [] []]; vm_compute; done.
Qed.

(** Identifiers of fields: a word, raw when it is reserved. *)
Lemma field_ident_valid n :
  rust_ident (rust_field_ident n).1 = negb (bool_decide (snake n ∈ not_raw)).
Proof.
  destruct (snake_ident_word _ (snake_is_ident n)) as [Hw Hu].
  unfold rust_field_ident. cbn [fst]. rewrite is_keyword_reserved.
  destruct (bool_decide_reflect (snake n ∈ "union" :: reserved)) as [Hk|Hk].
  - by rewrite rust_ident_raw, Hw.
  - rewrite rust_ident_word by done. rewrite !bool_decide_false; [done| |intros ?; by apply Hk; right].
    intros Hn. apply Hk. revert Hn. apply sublist_dec. vm_compute. done.
Qed.

Lemma to_upper_upper c :
  is_ascii_alphanumeric c = true → is_ascii_alphanumeric (to_upper c) = true ∧
  (is_ascii_digit (to_upper c) = false → is_ascii_uppercase (to_upper c) = true).
Proof. destruct c as [[] [] [] [] [] [] [] []]; vm_compute; done. Qed.

(** The loop of [pascal]: letters and digits only, the first of them a digit or
    a capital. *)
Definition pascal_part (out : string) : Prop :=
  str_all is_ascii_alphanumeric out = true ∧
  match out with
  | String a _ => is_ascii_digit a = false → is_ascii_uppercase a = true
  | EmptyString => True
  end.

Lemma pascal_fold s st :
  pascal_part st.1 → (st.1 = "" → st.2 = true) →
  pascal_part (str_foldl pascal_char st s).1.
Proof.
  revert st. induction s as [|c s IH]; intros [out up] [H1 H2] He; [done|]. cbn [str_foldl fst snd] in *.
  unfold pascal_char. destruct (is_ascii_alphanumeric c) eqn:Ec; [|by apply IH].
  destruct (to_upper_upper c Ec) as [Hu Hd].
  destruct up; apply IH; cbn [fst snd].
  - split; [by rewrite str_all_app, H1; cbn; rewrite Hu|]. by destruct out.
  - by destruct out.
  - split; [by rewrite str_all_app, H1; cbn; rewrite Ec|]. by destruct out; [discriminate (He eq_refl)|].
  - by destruct out.
Qed.

(** A capital followed by letters and digits. *)
Definition pascal_ident (s : string) : Prop :=
  ∃ a s', s = String a s' ∧ is_ascii_uppercase a = true ∧ str_all is_ascii_alphanumeric s' = true.

Lemma pascal_is_ident s : pascal_ident (pascal s).
Proof.
  unfold pascal. destruct (pascal_fold s ("", true)) as [H1 H2]; [done|done|].
  destruct (str_foldl pascal_char ("", true) s).1 as [|a r]; [by eexists _, _|].
  cbn [is_empty head_is_digit]. destruct (is_ascii_digit a) eqn:Ed; [by eexists _, _|].
  cbn [str_all] in H1. breflect. eexists _, _. split; [done|]. auto.
Qed.

Lemma pascal_ident_word s t :
  pascal_ident s → str_all ident_char t = true → word (s +:+ t) = true ∧ s +:+ t ≠ "_".
Proof.
  intros (a & s' & -> & Ha & Hs) Ht. split; [|by intros [= -> _]].
  rewrite app_String. cbn [word]. apply andb_true_intro. split.
  - revert Ha. clear. destruct a as [[] [] [] [] [] [] [] []]; vm_compute; done.
  - rewrite str_all_app, Ht, andb_true_r. revert Hs. apply str_all_impl.
    intros c. unfold ident_char. by intros ->.
Qed.

Lemma pascal_reserved s : pascal_ident s → s ∈ "union" :: reserved ↔ s = "Self".
Proof.
  intros (a & s' & -> & Ha & _). split.
  - assert (∀ k, k ∈ "union" :: reserved →
      match k with String b _ => negb (is_ascii_uppercase b) | _ => true end = true ∨ k = "Self") as H.
    { intros k Hk. apply (Forall_forall (λ k, match k with String b _ => negb (is_ascii_uppercase b)
        | _ => true end = true ∨ k = "Self") ("union" :: reserved)); [|done].
      apply (bool_decide_eq_true_1 _). vm_compute. done. }
    intros Hk. destruct (H _ Hk) as [E|E]; [|done]. by rewrite Ha in E.
  - intros ->. apply (sublist_dec ["Self"]); [vm_compute; done|]. by left.
Qed.

Lemma pascal_valid n : rust_ident (pascal n) = negb (String.eqb (pascal n) "Self").
Proof.
  pose proof (pascal_is_ident n) as Hp. destruct (pascal_ident_word _ "" Hp) as [Hw Hu]; [done|].
  rewrite app_nil_r_str in Hw, Hu. rewrite rust_ident_word by done. f_equal.
  apply eq_bool_prop_intro. rewrite bool_decide_spec, Is_true_true, String.eqb_eq.
  rewrite <- (pascal_reserved _ Hp). split; [by right|]. intros [E|]%elem_of_cons; [|done].
  destruct Hp as (a & s' & Es & Ha & _). rewrite E in Es. injection Es as <- _. done.
Qed.

Lemma variant_ident_valid n : rust_ident (rust_variant_ident n).1 = true.
Proof.
  pose proof (pascal_is_ident n) as Hp. unfold rust_variant_ident. cbn [fst].
  rewrite is_keyword_reserved. destruct (bool_decide_reflect (pascal n ∈ "union" :: reserved)) as [Hk|Hk].
  - by apply pascal_reserved in Hk as ->.
  - rewrite pascal_valid. apply negb_true_iff, String.eqb_neq. intros E. by apply Hk, pascal_reserved.
Qed.

(** C39: the names of the generated code are identifiers of Rust. The name of a
    field is made of lower-case words joined by single underscores, making it
    again changes nothing, and it is an identifier, raw when it is reserved,
    except for the three words that cannot be raw (a field called [self],
    [super] or [crate] is printed as [r#self], which the compiler refuses).
    The variants of an enumeration are identifiers whatever their keys; types
    and verbs are too, unless their name is [Self]. *)
Theorem generated_names n :
  (snake_ident (snake n) ∧ snake (snake n) = snake n) ∧
  (rust_ident (rust_field_ident n).1 = true ↔ snake n ∉ ["crate"; "self"; "super"]) ∧
  rust_ident (rust_variant_ident n).1 = true ∧
  (rust_ident (pascal n) = true ↔ pascal n ≠ "Self").
Proof.
  pose proof (snake_is_ident n) as Hs. repeat split; try done.
  1-4: apply Hs. all: try by apply snake_id.
  - rewrite field_ident_valid. intros E. apply negb_true_iff, bool_decide_eq_false in E.
    intros Hn. apply E. revert Hn. apply sublist_dec. vm_compute. done.
  - rewrite field_ident_valid. intros E. apply negb_true_iff, bool_decide_eq_false.
    intros Hn. apply E. unfold not_raw in Hn. destruct Hs as (_ & _ & (a & s' & Es & Ha) & _).
    rewrite !elem_of_cons in Hn. rewrite !elem_of_cons.
    destruct Hn as [?|[?|[?|[E'|?]]]]; auto. rewrite E' in Es. by injection Es as <- _.
  - apply variant_ident_valid.
  - rewrite pascal_valid. intros E. by apply negb_true_iff, String.eqb_neq in E.
  - rewrite pascal_valid. intros E. by apply negb_true_iff, String.eqb_neq.
Qed.

(** ** First of every key *)

Lemma dedup_by_elem {A} (key : A → string) seen l x :
  x ∈ dedup_by key seen l → x ∈ l ∧ key x ∉ seen.
Proof.
  revert seen. induction l as [|y l IH]; intros seen; cbn [dedup_by]; [by intros ?%elem_of_nil|].
  destruct (decide (key y ∈ seen)).
  - intros [? ?]%IH. by split; [right|].
  - intros [->|[? ?]%IH]%elem_of_cons; [by split; [left|]|]. split; [by right|set_solver].
Qed.

Lemma dedup_by_NoDup {A} (key : A → string) seen l : NoDup (key <$> dedup_by key seen l).
Proof.
  revert seen. induction l as [|y l IH]; intros seen; cbn [dedup_by]; [constructor|].
  destruct (decide (key y ∈ seen)); [done|]. rewrite fmap_cons. constructor; [|done].
  intros (z & Hz & [_ Hn]%dedup_by_elem)%list_elem_of_fmap. set_solver.
Qed.

Lemma dedup_by_covers {A} (key : A → string) seen l x :
  x ∈ l → key x ∈ seen ∨ ∃ y, y ∈ dedup_by key seen l ∧ key y = key x.
Proof.
  revert seen. induction l as [|y l IH]; intros seen; [by intros ?%elem_of_nil|].
  cbn [dedup_by]. intros Hx. destruct (decide (key y ∈ seen)) as [Hy|Hy].
  - apply elem_of_cons in Hx as [->|Hx]; [by left|by apply IH].
  - apply elem_of_cons in Hx as [->|Hx].
    + right. exists y. split; [by left|done].
    + destruct (IH ({[key y]} ∪ seen) Hx) as [Hs|(z & Hz & E)].
      * apply elem_of_union in Hs as [E%elem_of_singleton|Hs]; [|by left].
        right. exists y. split; [by left|done].
      * right. exists z. split; [by right|done].
Qed.

(** Nothing is dropped exactly when the keys are distinct. *)
Lemma dedup_by_id {A} (key : A → string) seen l :
  NoDup (key <$> l) → (∀ x, x ∈ l → key x ∉ seen) → dedup_by key seen l = l.
Proof.
  revert seen. induction l as [|y l IH]; intros seen Hnd Hs; [done|]. cbn [dedup_by].
  rewrite fmap_cons in Hnd. apply NoDup_cons in Hnd as [Hy Hnd].
  rewrite decide_False by (apply Hs; by left). f_equal. apply IH; [done|].
  intros x Hx [E%elem_of_singleton|He]%elem_of_union.
  - apply Hy. rewrite <- E. by apply list_elem_of_fmap_2.
  - by apply (Hs x); [right|].
Qed.

Lemma dedup_by_length {A} (key : A → string) seen l :
  length (dedup_by key seen l) <= length l ∧
  (length (dedup_by key seen l) = length l → dedup_by key seen l = l).
Proof.
  revert seen. induction l as [|y l IH]; intros seen; cbn [dedup_by length]; [done|].
  destruct (decide (key y ∈ seen)).
  - destruct (IH seen) as [? _]. split; lia.
  - destruct (IH ({[key y]} ∪ seen)) as [Hl Hi]. cbn [length]. split; [lia|]. intros E.
    f_equal. apply Hi. lia.
Qed.

Lemma dedup_by_all {A} (key : A → string) l :
  length (dedup_by key ∅ l) = length l ↔ NoDup (key <$> l).
Proof.
  split.
  - intros E%dedup_by_length. rewrite <- E. apply dedup_by_NoDup.
  - intros Hnd. f_equal. apply dedup_by_id; [done|]. set_solver.
Qed.

(** ** Fields *)

Lemma trim_raw_word s : word s = true → trim_raw s = s.
Proof.
  destruct s as [|a [|b s]]; [done|done|]. intros Hw. cbn [trim_raw].
  destruct (Ascii.eqb_spec a "r"), (Ascii.eqb_spec b "#"); try done. subst. done.
Qed.

Lemma field_key_snake p : field_key p = snake (prop_name p).
Proof.
  destruct (snake_ident_word _ (snake_is_ident (prop_name p))) as [Hw _].
  unfold field_key, rust_field_ident. cbn [fst].
  destruct (is_keyword _); [|by apply trim_raw_word].
  change (trim_raw ("r#" +:+ snake (prop_name p))) with (trim_raw (snake (prop_name p))).
  by apply trim_raw_word.
Qed.

(** The name [serde] reads and writes a field under: that of the attribute, or
    the identifier without its raw mark. *)
Definition wire_name (p : PropDef) : string :=
  let '(ident, needs_rename) := rust_field_ident (prop_name p) in
  if needs_rename then prop_name p else trim_raw ident.

Lemma wire_name_eq p : wire_name p = prop_name p.
Proof.
  unfold wire_name. pose proof (field_key_snake p) as E. unfold field_key in E.
  destruct (rust_field_ident (prop_name p)) as [ident b] eqn:Er. cbn [fst] in E.
  unfold rust_field_ident in Er. injection Er as _ <-.
  destruct (String.eqb_spec (snake (prop_name p)) (prop_name p)) as [Es|]; [|done].
  cbn [negb]. congruence.
Qed.

(** A generated struct is accepted by the compiler and speaks the names
    of the schema: no two of its fields have one identifier, every field
    travels under the name the schema gives it (renamed, or equal to its
    identifier with the raw mark off), every property of the schema shares its
    identifier with a field, and all of them are kept, in order, exactly when
    their snake-case names differ; of two properties with one snake-case name
    (vmId and vm_id) only the first is in the struct. *)
Theorem struct_fields_spec ps :
  NoDup ((λ p, (rust_field_ident (prop_name p)).1) <$> struct_fields ps) ∧
  (∀ p, p ∈ struct_fields ps → p ∈ ps ∧ wire_name p = prop_name p) ∧
  (∀ p, p ∈ ps → ∃ q, q ∈ struct_fields ps ∧ snake (prop_name q) = snake (prop_name p)) ∧
  (struct_fields ps = ps ↔ NoDup (snake <$> (prop_name <$> ps))).
Proof.
  unfold struct_fields. split; [|split; [|split]].
  - apply (NoDup_fmap_1 trim_raw). rewrite <- list_fmap_compose. apply dedup_by_NoDup.
  - intros p [Hp _]%dedup_by_elem. by rewrite wire_name_eq.
  - intros p Hp. destruct (dedup_by_covers field_key ∅ ps p Hp) as [?|(q & Hq & E)]; [set_solver|].
    exists q. by rewrite <- !field_key_snake.
  - rewrite <- list_fmap_compose.
    assert (field_key <$> ps = (snake ∘ prop_name) <$> ps) as <-.
    { apply list_fmap_ext. intros ? p _. apply field_key_snake. }
    rewrite <- dedup_by_all. split; [by intros ->|]. by intros ?%dedup_by_length.
Qed.

(** ** Verbs *)

(** Text that is its own literal: no backslash, quote or carriage return. *)
Definition plain_literal (s : string) : bool :=
  str_all (λ a, negb (Ascii.eqb a "\") && negb (Ascii.eqb a "034") && negb (Ascii.eqb a CR)) s.

Lemma rust_literal_plain s : plain_literal s = true → rust_literal s = Some s.
Proof.
  intros Hs. unfold rust_literal.
  assert (unix_newlines s = s) as ->.
  { clear -Hs. induction s as [|a s IH]; [done|]. unfold plain_literal in *. cbn [str_all] in Hs. breflect.
    destruct s as [|b s]; [done|]. cbn [unix_newlines].
    assert (Ascii.eqb a CR = false) as -> by (by apply Ascii.eqb_neq). cbn [andb]. f_equal. by apply IH. }
  generalize (le_n (S (strlen s))). generalize (S (strlen s)) at 2 3. revert Hs.
  induction s as [|a s IH]; intros Hs [|n] Hn; [lia|done|cbn in Hn; lia|].
  unfold plain_literal in *. cbn [str_all] in Hs. breflect. cbn [literal_go].
  assert (Ascii.eqb a "034" = false) as -> by (by apply Ascii.eqb_neq).
  assert (Ascii.eqb a CR = false) as -> by (by apply Ascii.eqb_neq).
  assert (Ascii.eqb a "\" = false) as -> by (by apply Ascii.eqb_neq). cbn [orb].
  rewrite IH; [done|done|]. cbn in Hn. lia.
Qed.

Lemma first_arm_Some p rows v : first_arm p rows = Some v → v ∈ rows ∧ p v = true.
Proof.
  induction rows as [|x rows IH]; [done|]. cbn [first_arm]. destruct (p x) eqn:E.
  - intros [= <-]. by split; [left|].
  - intros [? ?]%IH. by split; [right|].
Qed.

Lemma first_arm_exists p rows v : v ∈ rows → p v = true → is_Some (first_arm p rows).
Proof.
  induction rows as [|x rows IH]; [by intros ?%not_elem_of_nil|]. cbn [first_arm].
  intros [->|Hv]%elem_of_cons Hp; [by rewrite Hp|]. destruct (p x); [done|by apply IH].
Qed.

(** The arm of a row, when no other row has the value it is told by. *)
Lemma first_arm_unique {A} (f : VerbDef → A) (p : VerbDef → bool) rows v :
  NoDup (f <$> rows) → v ∈ rows → (∀ x, x ∈ rows → p x = true ↔ f x = f v) →
  first_arm p rows = Some v.
Proof.
  intros Hnd Hv Hp. destruct (first_arm_exists p rows v Hv) as [x Hx]; [by apply Hp|].
  destruct (first_arm_Some _ _ _ Hx) as [Hin Hpx]. rewrite Hx. f_equal.
  apply list_elem_of_lookup in Hin as [i Hi]. apply list_elem_of_lookup in Hv as [j Hj].
  assert (f x = f v) as Ef by (by apply Hp; [eapply list_elem_of_lookup_2|]).
  assert (i = j) as ->; [|congruence].
  eapply (NoDup_lookup (f <$> rows)); [done|by rewrite list_lookup_fmap, Hi|].
  by rewrite list_lookup_fmap, Hj, Ef.
Qed.

Lemma collect_verbs_elem root v :
  v ∈ collect_verbs root → YString (verb_yaml v) ∈ root.*1 ∧ verb_rust v = pascal (verb_yaml v).
Proof.
  unfold collect_verbs. intros ([k d] & Hin & Hf)%list_elem_of_omap. cbn [fst snd] in Hf.
  destruct k as [| |key| | | | |]; try done. cbn [yaml_as_str mbind option_bind] in Hf.
  destruct (String.eqb key "types"); [done|]. destruct (has_byte "." key); [|done].
  unfold parse_verb in Hf. destruct (as_hash d); [|done]. injection Hf as <-.
  split; [|done]. by apply (list_elem_of_fmap_2 fst) in Hin.
Qed.

Lemma collect_verbs_yaml root :
  NoDup root.*1 → NoDup (verb_yaml <$> collect_verbs root).
Proof.
  unfold collect_verbs. induction root as [|[k d] root IH]; [constructor|].
  rewrite fmap_cons. intros [Hk Hnd]%NoDup_cons. cbn [omap list_omap fst snd].
  assert (∀ n, YString n ∉ root.*1 → n ∉ verb_yaml <$> collect_verbs root) as Hin.
  { intros n Hn (v & -> & [? _]%collect_verbs_elem)%list_elem_of_fmap. done. }
  destruct k as [| |key| | | | |]; try by apply IH. cbn [yaml_as_str mbind option_bind].
  destruct (String.eqb key "types"); [by apply IH|]. destruct (has_byte "." key); [|by apply IH].
  unfold parse_verb. destruct (as_hash d); [|by apply IH]. cbn [mbind option_bind].
  rewrite fmap_cons. constructor; [|by apply IH]. by apply Hin.
Qed.

Lemma verb_rows_yaml verbs : NoDup (verb_yaml <$> verbs) → NoDup (verb_yaml <$> verb_rows verbs).
Proof.
  intros Hnd. eapply sublist_NoDup; [exact Hnd|]. apply fmap_sublist. unfold verb_rows.
  generalize (∅ : gset string). clear. induction verbs as [|v verbs IH]; intros seen; [done|].
  cbn [dedup_by]. destruct (decide _); [by apply sublist_cons|by apply sublist_skip].
Qed.

Lemma dedup_rust verbs : NoDup (verb_rust <$> verb_rows verbs).
Proof. exact (dedup_by_NoDup verb_rust ∅ verbs). Qed.

Lemma as_str_row verbs v :
  v ∈ verb_rows verbs → as_str verbs (verb_rust v) = rust_literal (verb_yaml v).
Proof.
  intros Hv. unfold as_str. rewrite (first_arm_unique verb_rust _ _ v (dedup_rust verbs) Hv); [done|].
  intros x _. by rewrite String.eqb_eq.
Qed.

(** Names that are their own literals. *)
Lemma from_wire_row verbs v :
  NoDup (verb_yaml <$> verb_rows verbs) → Forall (λ x, plain_literal (verb_yaml x) = true) (verb_rows verbs) →
  v ∈ verb_rows verbs → from_wire verbs (verb_yaml v) = Some (verb_rust v).
Proof.
  intros Hnd Hpl Hv. unfold from_wire. rewrite (first_arm_unique verb_yaml _ _ v Hnd Hv); [done|].
  intros x Hx. rewrite Forall_forall in Hpl. rewrite bool_decide_eq_true, rust_literal_plain by auto.
  split; [by intros [= ->]|by intros ->].
Qed.

(** C40: the table of verbs generated from a mapping (its keys are distinct and
    each is the text of one Rust string literal, for they are printed between
    quotes as they are).  Whatever [from_wire] reads, [as_str] writes back.  When
    moreover no name has a backslash, a quote or a carriage return in it, the two
    are inverse to one another, a name that is read is one of the schema and its
    variant is named after it; and every name of VERBS is read, and the variants
    are as many as VERB_COUNT says, exactly when no two verbs have one name in
    Rust; otherwise the later verb is listed and counted but not read. *)
Theorem verb_table_bijection root :
  NoDup root.*1 →
  let verbs := collect_verbs root in
  Forall (λ v, is_Some (rust_literal (verb_yaml v))) verbs →
  (∀ s v, from_wire verbs s = Some v → as_str verbs v = Some s) ∧
  (Forall (λ v, plain_literal (verb_yaml v) = true) verbs →
   (∀ s v, from_wire verbs s = Some v ↔ as_str verbs v = Some s) ∧
   (∀ s v, from_wire verbs s = Some v → s ∈ verb_yaml <$> verbs ∧ v = pascal s) ∧
   ((∀ s, s ∈ verb_yaml <$> verbs → is_Some (from_wire verbs s)) ↔
      NoDup (pascal <$> (verb_yaml <$> verbs))) ∧
   (length (verb_rows verbs) = length verbs ↔ NoDup (pascal <$> (verb_yaml <$> verbs)))).
Proof.
  intros Hroot verbs _. pose proof (collect_verbs_yaml root Hroot) as Hy. fold verbs in Hy.
  pose proof (verb_rows_yaml verbs Hy) as Hry.
  pose proof (collect_verbs_elem root) as Hrust. fold verbs in Hrust.
  assert (pascal <$> (verb_yaml <$> verbs) = verb_rust <$> verbs) as ->.
  { rewrite <- list_fmap_compose. apply list_fmap_ext. intros ? v Hv%list_elem_of_lookup_2.
    by destruct (Hrust v Hv) as [_ ->]. }
  assert (∀ s v, from_wire verbs s = Some v → ∃ x, x ∈ verb_rows verbs ∧ verb_rust x = v ∧
    rust_literal (verb_yaml x) = Some s) as Hread.
  { intros s v (x & [Hx Hp]%first_arm_Some & ->)%fmap_Some. apply bool_decide_eq_true in Hp. by exists x. }
  split.
  { intros s v (x & Hx & <- & Hl)%Hread. by rewrite as_str_row. }
  intros Hplain.
  assert (∀ x, x ∈ verb_rows verbs → x ∈ verbs ∧ rust_literal (verb_yaml x) = Some (verb_yaml x)) as Hrow.
  { intros x [Hx _]%dedup_by_elem. split; [done|]. rewrite Forall_forall in Hplain.
    by apply rust_literal_plain, Hplain. }
  assert (∀ x, x ∈ verb_rows verbs → from_wire verbs (verb_yaml x) = Some (verb_rust x)) as Hwire.
  { intros x Hx. apply from_wire_row; [done| |done]. apply Forall_forall. intros y [Hy' _]%dedup_by_elem.
    rewrite Forall_forall in Hplain. by apply Hplain. }
  assert (length (verb_rows verbs) = length verbs ↔ NoDup (verb_rust <$> verbs)) as Hlen
    by apply dedup_by_all.
  split; [|split; [|split; [|done]]].
  - intros s v. split.
    + intros (x & Hx & <- & Hl)%Hread. by rewrite as_str_row.
    + unfold as_str. intros (x & [Hx Hp]%first_arm_Some & Hl)%bind_Some. apply String.eqb_eq in Hp as <-.
      rewrite (proj2 (Hrow x Hx)) in Hl. injection Hl as <-. by apply Hwire.
  - intros s v (x & Hx & <- & Hl)%Hread. destruct (Hrow x Hx) as [Hv Hl']. rewrite Hl' in Hl.
    injection Hl as <-. split; [by apply list_elem_of_fmap_2|by apply Hrust].
  - rewrite <- Hlen. split.
    + intros Hall. apply Nat.le_antisymm; [apply dedup_by_length|].
      rewrite <- (length_fmap verb_yaml verbs), <- (length_fmap verb_yaml (verb_rows verbs)).
      apply submseteq_length, NoDup_submseteq; [done|]. intros s Hs.
      destruct (Hall s Hs) as [r (x & Hx & _ & Hl)%Hread]. rewrite (proj2 (Hrow x Hx)) in Hl.
      injection Hl as <-. by apply list_elem_of_fmap_2.
    + intros Hl s (v & -> & Hv)%list_elem_of_fmap. apply dedup_by_length in Hl.
      exists (verb_rust v). apply Hwire. unfold verb_rows. by rewrite Hl.
Qed.

(** ** Anchors *)

(** Text read byte by byte as Latin-1 characters. *)
Fixpoint latin1 (s : string) : string :=
  match s with EmptyString => "" | String b s' => push_byte b +:+ latin1 s' end.

Lemma push_byte_ascii b : is_ascii b = true → push_byte b = String b "".
Proof. unfold push_byte, is_ascii. by intros ->. Qed.

Lemma push_byte_length b :
  String.length (push_byte b) = if is_ascii b then 1 else 2.
Proof. unfold push_byte, is_ascii. by destruct (_ <? _)%N. Qed.

Lemma length_app_str s t : String.length (s +:+ t) = String.length s + String.length t.
Proof. induction s as [|c s IH]; [done|]. rewrite app_String. cbn [String.length]. by rewrite IH. Qed.

Lemma latin1_ascii s : latin1 s = s ↔ str_all is_ascii s = true.
Proof.
  split.
  - intros E. assert (String.length (latin1 s) <= String.length s) as Hl by (by rewrite E).
    revert Hl. clear E. assert (∀ t, String.length t <= String.length (latin1 t)) as Hge.
    { induction t as [|c t IH]; [done|]. cbn [latin1 String.length].
      rewrite length_app_str, push_byte_length. destruct (is_ascii c); lia. }
    induction s as [|b s IH]; [done|]. cbn [latin1 String.length str_all].
    rewrite length_app_str, push_byte_length. specialize (Hge s).
    destruct (is_ascii b); [|lia]. intros. apply IH. lia.
  - induction s as [|b s IH]; [done|]. cbn [str_all latin1]. intros. breflect.
    by rewrite push_byte_ascii, IH.
Qed.

Lemma push_byte_valid b : utf8_valid (push_byte b) = true.
Proof. destruct b as [[] [] [] [] [] [] [] []]; vm_compute; done. Qed.

(** The stripped text is text, whatever the input. *)
Lemma strip_go_valid k s : utf8_valid (strip_go k s) = true.
Proof.
  revert k. induction s as [|b s IH]; intros k; [done|]. cbn [strip_go].
  destruct (match k with Some _ => _ | None => _ end) eqn:E.
  - apply utf8_valid_app; [|done]. destruct k as [[]|]; try done.
    revert E. clear. destruct b as [[] [] [] [] [] [] [] []]; vm_compute; done.
  - destruct (_ && _); [apply IH|]. by apply utf8_valid_app; [apply push_byte_valid|].
Qed.

Inductive piece : Type :=
| PText (s : string)
| PAnchor (name : string)
| PAlias (name : string).

Definition piece_text (p : piece) : string :=
  match p with PText s => s | PAnchor n => "&" +:+ n | PAlias n => "*" +:+ n end.

Definition piece_kept (p : piece) : string :=
  match p with PText s => latin1 s | PAnchor _ => "" | PAlias n => n end.

(** Text in which no mark stands before a name, or at the end. *)
Fixpoint plain (s : string) : bool :=
  match s with
  | EmptyString => true
  | String b s' =>
      (negb (Ascii.eqb b "&" || Ascii.eqb b "*") ||
       match s' with String n _ => negb (ident_start n) | EmptyString => false end) && plain s'
  end.

Definition starts_ident (s : string) : bool :=
  match s with String c _ => ident_char c | EmptyString => false end.

Definition pieces_text (ps : list piece) : string := foldr (λ p s, piece_text p +:+ s) "" ps.
Definition pieces_kept (ps : list piece) : string := foldr (λ p s, piece_kept p +:+ s) "" ps.

(** Names are words, and what follows a name does not continue it. *)
Fixpoint pieces_ok (ps : list piece) : bool :=
  match ps with
  | [] => true
  | PText s :: ps' => plain s && pieces_ok ps'
  | PAnchor n :: ps' | PAlias n :: ps' =>
      word n && negb (starts_ident (pieces_text ps')) && pieces_ok ps'
  end.

Lemma strip_go_plain s rest :
  plain s = true → strip_go None (s +:+ rest) = latin1 s +:+ strip_go None rest.
Proof.
  induction s as [|b s IH]; [done|]. rewrite app_String. cbn [plain strip_go latin1].
  intros [Hb Hs]%andb_true_iff. rewrite IH by done.
  destruct (Ascii.eqb b "&" || Ascii.eqb b "*"); cbn [negb orb andb] in *.
  - destruct s as [|n s]; [done|]. rewrite app_String. apply negb_true_iff in Hb. rewrite Hb.
    by rewrite app_assoc_str.
  - by rewrite app_assoc_str.
Qed.

Lemma strip_go_name k n rest :
  str_all ident_char n = true → starts_ident rest = false →
  strip_go (Some k) (n +:+ rest) = (if k then n else "") +:+ strip_go None rest.
Proof.
  intros Hn Hr. induction n as [|c n IH].
  - rewrite app_nil_l_str. assert ((if k then "" else "") = "") as -> by by destruct k.
    rewrite app_nil_l_str. destruct rest as [|b rest]; [done|]. cbn [strip_go].
    cbn [starts_ident] in Hr. by rewrite Hr.
  - cbn [str_all] in Hn. apply andb_true_iff in Hn as [Hc Hn]. rewrite app_String. cbn [strip_go].
    rewrite Hc, IH by done. by destruct k.
Qed.

Lemma strip_go_mark b n rest :
  Ascii.eqb b "&" || Ascii.eqb b "*" = true → word n = true → starts_ident rest = false →
  strip_go None (String b (n +:+ rest)) =
  (if Ascii.eqb b "*" then n else "") +:+ strip_go None rest.
Proof.
  intros Hb Hw Hr. destruct n as [|c n]; [done|]. cbn [word] in Hw.
  apply andb_true_iff in Hw as [Hc Hn]. rewrite <- (strip_go_name _ (String c n)); [|
    cbn [str_all]; rewrite Hn, andb_true_r; unfold ident_start in Hc; unfold ident_char, is_ascii_alphanumeric|done].
  - cbn [strip_go]. rewrite app_String, Hb, Hc. done.
  - apply orb_true_iff in Hc as [->| ->]; by rewrite ?orb_true_r.
Qed.

(** Stripping drops every anchor and turns every alias into its bare
    name, and keeps the text between them; but the text is pushed byte by byte
    as characters, so it is kept exactly when it is ASCII, every other
    character being replaced by the Latin-1 reading of its bytes (the result
    is valid UTF-8 either way). *)
Theorem strip_pieces ps :
  pieces_ok ps = true →
  strip_anchors_and_aliases (pieces_text ps) = pieces_kept ps ∧
  utf8_valid (strip_anchors_and_aliases (pieces_text ps)) = true ∧
  (∀ s, ps = [PText s] → strip_anchors_and_aliases s = s ↔ str_all is_ascii s = true).
Proof.
  unfold strip_anchors_and_aliases. intros Hok.
  assert (strip_go None (pieces_text ps) = pieces_kept ps) as E.
  { induction ps as [|[s|n|n] ps IH]; [done|..]; cbn [pieces_ok] in Hok;
      cbn [pieces_text pieces_kept foldr piece_text piece_kept];
      fold (pieces_text ps); fold (pieces_kept ps); breflect.
    - by rewrite strip_go_plain, IH.
    - change (("&" +:+ n) +:+ pieces_text ps) with (String "&" (n +:+ pieces_text ps)).
      by rewrite strip_go_mark, IH.
    - change (("*" +:+ n) +:+ pieces_text ps) with (String "*" (n +:+ pieces_text ps)).
      by rewrite strip_go_mark, IH. }
  split; [done|]. split; [apply strip_go_valid|]. intros s ->.
  cbn [pieces_text pieces_kept foldr piece_text piece_kept] in E. rewrite !app_nil_r_str in E.
  rewrite E. apply latin1_ascii.
Qed.

(** ** Concrete schemas *)

Definition plain_scalar (v : string) : ytree := TScalar v Plain None.

(** A verb with two parameters, a type, and a key given twice. *)
Definition demo_tree : ytree :=
  TMap [(plain_scalar "Host.ping", TMap []);
        (plain_scalar "Host.ping",
          TMap [(plain_scalar "params",
                 TSeq [TMap [(plain_scalar "name", plain_scalar "vmID");
                             (plain_scalar "type", plain_scalar "string")];
                       TMap [(plain_scalar "name", plain_scalar "type");
                             (plain_scalar "type", TSeq [plain_scalar "VmStats"])]])]);
        (plain_scalar "types",
          TMap [(plain_scalar "VmStats",
                 TMap [(plain_scalar "type", plain_scalar "map")])])].

Definition demo_hash : list (Yaml * Yaml) :=
  Eval vm_compute in match @tvalue demo_yaml demo_tree with YHash h => h | _ => [] end.

Lemma load_document_value_witness :
  ∃ h, @load demo_yaml (StreamStart :: DocumentStart :: events demo_tree ++ [DocumentEnd; StreamEnd])
         loader_default = Some (mkLoader [YHash h] [] [] ∅) ∧
       length h = 2%nat ∧
       (verb_rust <$> collect_verbs h) = ["HostPing"] ∧
       (struct_fields <$> (verb_params <$> collect_verbs h)) =
         [[mkProp "vmID" "String" None; mkProp "type" "Vec<VmStats>" None]].
Proof.
  destruct (@load_document_value demo_yaml demo_yaml_laws demo_tree) as [E _]; [vm_compute; done|].
  exists demo_hash. split; [rewrite E; vm_compute; reflexivity|]. clear E. vm_compute. repeat split.
Defined.

Definition demo_root : list (Yaml * Yaml) :=
  [(YString "Host.ping", YHash []); (YString "types", YHash []);
   (YString "Host.getStats", YHash []); (YString "VM.get-stats", YHash [])].

Lemma verb_table_bijection_witness :
  NoDup demo_root.*1 ∧
  from_wire (collect_verbs demo_root) "VM.get-stats" = Some "VMGetStats" ∧
  as_str (collect_verbs demo_root) "VMGetStats" = Some "VM.get-stats".
Proof.
  assert (NoDup demo_root.*1) as Hnd by (apply (bool_decide_eq_true_1 _); vm_compute; done).
  destruct (verb_table_bijection demo_root Hnd) as [_ H].
  { repeat constructor; vm_compute; eauto. }
  destruct H as [H _]; [repeat constructor|].
  split; [exact Hnd|]. split; [vm_compute; done|]. apply H. vm_compute. done.
Defined.

(** Two names whose literals are equal: the second variant is written as a name
    that is read as the first. *)
Definition clash_root : list (Yaml * Yaml) :=
  [(YString "A.b", YHash []); (YString "A.\u{62}", YHash [])].

Example verb_literal_clash :
  let verbs := collect_verbs clash_root in
  (verb_rust <$> verbs) = ["AB"; "AU62"] ∧
  as_str verbs "AU62" = Some "A.b" ∧ from_wire verbs "A.b" = Some "AB".
Proof. vm_compute. repeat split. Qed.

Lemma strip_pieces_witness :
  strip_anchors_and_aliases "Foo: &Foo {type: *Bar_1}" = "Foo:  {type: Bar_1}".
Proof.
  destruct (strip_pieces [PText "Foo: "; PAnchor "Foo"; PText " {type: "; PAlias "Bar_1"; PText "}"])
    as [E _]; [vm_compute; done|]. exact E.
Defined.

(** A mark before an alias becomes an anchor of its own: stripping twice is not
    stripping once. *)
Example strip_twice :
  strip_anchors_and_aliases "&*x" = "&x" ∧ strip_anchors_and_aliases "&x" = "".
Proof. vm_compute. done. Qed.
