(* ===== verification/Startup.v ===== *)
(** * Starting the daemon
    (crates/vdsm-common/src/config.rs, error.rs, crates/vdsm-rpc/src/tls.rs,
    Server::serve and handle_conn of server.rs, main of crates/vdsmd and of
    crates/supervdsm)

    From the configuration file to the first byte of a connection: reading the
    configuration with its defaults, loading the TLS material, and handing a
    connection to one of the framings.  The toml and rustls crates are
    interfaces: the first turns a file into the keys that are present, the
    second decodes PEM files and performs handshakes.  The helper's start is
    the account it trusts and the socket it makes. *)

From stdpp Require Import options.
From S2P Require Import Prelude Utf8 RustStr Json Rpc Server Os Supervdsm.
Local Open Scope N_scope.

(** ** Configuration *)

Record DaemonConfig := mkDaemonConfig {
  daemon_user : string; daemon_group : string; daemon_state_dir : string; daemon_log_level : string
}.

Record RpcConfig := mkRpcConfig {
  rpc_bind : string; rpc_port : N; rpc_tls_enabled : bool;
  rpc_tls_cert : string; rpc_tls_key : string; rpc_tls_ca : string; rpc_framing : string
}.

Record LibvirtConfig := mkLibvirtConfig { libvirt_uri : string }.

Record Config := mkConfig { daemon : DaemonConfig; rpc : RpcConfig; libvirt : LibvirtConfig }.

Definition daemon_default : DaemonConfig := mkDaemonConfig "vdsm" "vdsm" "/var/lib/vdsm" "info".

Definition rpc_default : RpcConfig :=
  mkRpcConfig "0.0.0.0" 54321 true "/etc/pki/vdsm/certs/vdsmcert.pem"
    "/etc/pki/vdsm/keys/vdsmkey.pem" "/etc/pki/vdsm/certs/cacert.pem" "line".

Definition libvirt_default : LibvirtConfig := mkLibvirtConfig "qemu:///system".

Definition config_default : Config := mkConfig daemon_default rpc_default libvirt_default.

(** The keys a file has, table by table. *)
Record DaemonTable := mkDaemonTable {
  t_user : option string; t_group : option string; t_state_dir : option string;
  t_log_level : option string
}.
Record RpcTable := mkRpcTable {
  t_bind : option string; t_port : option N; t_tls_enabled : option bool;
  t_tls_cert : option string; t_tls_key : option string; t_tls_ca : option string;
  t_framing : option string
}.
Record TomlConfig := mkToml {
  t_daemon : option DaemonTable; t_rpc : option RpcTable; t_uri : option (option string)
}.

(** [#[serde(default)]]: a field that is missing has the value it has in the
    default of its struct. *)
Definition fill_daemon (t : DaemonTable) : DaemonConfig :=
  mkDaemonConfig (default (daemon_user daemon_default) (t_user t))
    (default (daemon_group daemon_default) (t_group t))
    (default (daemon_state_dir daemon_default) (t_state_dir t))
    (default (daemon_log_level daemon_default) (t_log_level t)).

Definition fill_rpc (t : RpcTable) : RpcConfig :=
  mkRpcConfig (default (rpc_bind rpc_default) (t_bind t)) (default (rpc_port rpc_default) (t_port t))
    (default (rpc_tls_enabled rpc_default) (t_tls_enabled t))
    (default (rpc_tls_cert rpc_default) (t_tls_cert t))
    (default (rpc_tls_key rpc_default) (t_tls_key t))
    (default (rpc_tls_ca rpc_default) (t_tls_ca t))
    (default (rpc_framing rpc_default) (t_framing t)).

Definition fill_libvirt (uri : option string) : LibvirtConfig :=
  mkLibvirtConfig (default (libvirt_uri libvirt_default) uri).

Definition fill_config (t : TomlConfig) : Config :=
  mkConfig (default (daemon config_default) (fill_daemon <$> t_daemon t))
    (default (rpc config_default) (fill_rpc <$> t_rpc t))
    (default (libvirt config_default) (fill_libvirt <$> t_uri t)).

Inductive VdsmError :=
| EConfig (m : string)
| EIo (m : string)
| EToml (m : string)
| ENotImplemented (m : string).

Definition vdsm_error_display (e : VdsmError) : string :=
  match e with
  | EConfig m => "config error: " +:+ m
  | EIo m => "io error: " +:+ m
  | EToml m => "toml parse error: " +:+ m
  | ENotImplemented m => "not implemented: " +:+ m
  end.

(** ** The libraries *)

Class StartOps (W : Type) := {
  (** [toml::from_str] of the keys that are there *)
  toml_from_str : string → result TomlConfig string;
  (** [fs::read] *)
  fs_read_bytes : string → W → result bytes string;
  (** a certificate, a private key, a [rustls::ServerConfig] *)
  Cert : Type; Key : Type; TlsConfig : Type;
  (** [rustls_pemfile::certs], [rustls_pemfile::private_key] *)
  pem_certs : bytes → list (result Cert string);
  pem_private_key : bytes → result (option Key) string;
  (** [with_no_client_auth().with_single_cert(certs, key)], with [key_log] set to
      rustls's own log (a no-op unless SSLKEYLOGFILE is set) *)
  with_single_cert : list Cert → Key → result TlsConfig string;
  (** [TcpListener::bind], and [local_addr] of the listener *)
  tcp_bind : string → W → result unit string;
  local_addr : string → W → result string string;
  (** [TlsAcceptor::accept]: what the peer sends, decrypted, or a handshake
      that fails *)
  tls_accept : TlsConfig → list bytes → result (list bytes) string;
}.

Record ServerConfig := mkServerConfig {
  bind : string; port : N; tls_enabled : bool; tls_cert : string; tls_key : string;
  framing : Framing
}.

Inductive TlsError :=
| TlsIo (path : string) (source : string)
| NoCerts (path : string)
| NoKey (path : string)
| Rustls (m : string).

Definition tls_error_display (e : TlsError) : string :=
  match e with
  | TlsIo path source => "read " +:+ path +:+ ": " +:+ source
  | NoCerts path => "no certificates in " +:+ path
  | NoKey path => "no private key in " +:+ path
  | Rustls m => "rustls config: " +:+ m
  end.

Section startup.
Context {W} `{!OsOps W, !StartOps W}.

Definition config_load (path : string) (w : W) : result Config VdsmError :=
  match fs_read path w with
  | Err e => Err (EConfig (display path +:+ ": " +:+ e))
  | Ok text =>
      match toml_from_str text with
      | Err e => Err (EToml e)
      | Ok t => Ok (fill_config t)
      end
  end.

(** [main] up to the server: the configuration file when there is one. *)
Definition vdsmd_config (path : string) (w : W) : result Config VdsmError :=
  if fs_exists path w then config_load path w else Ok config_default.

Definition log_level (arg : option string) (cfg : Config) : string :=
  default (daemon_log_level (daemon cfg)) arg.

Definition server_config (cfg : Config) : ServerConfig :=
  mkServerConfig (rpc_bind (rpc cfg)) (rpc_port (rpc cfg)) (rpc_tls_enabled (rpc cfg))
    (rpc_tls_cert (rpc cfg)) (rpc_tls_key (rpc cfg)) (framing_from_str_lossy (rpc_framing (rpc cfg))).

Definition load_server_config (cert_path key_path : string) (w : W) : result TlsConfig TlsError :=
  match fs_read_bytes cert_path w with
  | Err e => Err (TlsIo (display cert_path) e)
  | Ok cert_bytes =>
      let certs := omap ok (pem_certs cert_bytes) in
      if bool_decide (length certs = O) then Err (NoCerts (display cert_path))
      else
        match fs_read_bytes key_path w with
        | Err e => Err (TlsIo (display key_path) e)
        | Ok key_bytes =>
            match pem_private_key key_bytes with
            | Err e => Err (TlsIo (display key_path) e)
            | Ok None => Err (NoKey (display key_path))
            | Ok (Some key) =>
                match with_single_cert certs key with
                | Err e => Err (Rustls e)
                | Ok cfg => Ok cfg
                end
            end
        end
  end.

(** [Server::serve] up to the accept loop: the acceptor of the connections. *)
Definition serve_startup (cfg : ServerConfig) (w : W) : result (option TlsConfig) string :=
  let addr := bind cfg +:+ ":" +:+ to_string (port cfg) in
  match tcp_bind addr w with
  | Err e => Err e
  | Ok _ =>
      match local_addr addr w with
      | Err e => Err e
      | Ok _ =>
          if tls_enabled cfg then
            match load_server_config (tls_cert cfg) (tls_key cfg) w with
            | Err e => Err (tls_error_display e)
            | Ok server_cfg => Ok (Some server_cfg)
            end
          else Ok None
      end
  end.

(** [main] of vdsmd: the configuration, the runtime ([runtime] is whether tokio
    could build it), and the server, unless [ctrl_c] came first.  [Some] is the
    daemon in its accept loop, which nothing but ctrl-c leaves; [None] is the
    clean end that follows it. *)
Definition vdsmd_main (path : string) (runtime : result unit string) (ctrl_c : bool) (w : W)
  : result (option (ServerConfig * option TlsConfig)) string :=
  match vdsmd_config path w with
  | Err e => Err (vdsm_error_display e)
  | Ok cfg =>
      match runtime with
      | Err e => Err e
      | Ok _ =>
          if ctrl_c then Ok None
          else
            match serve_startup (server_config cfg) w with
            | Err e => Err e
            | Ok acc => Ok (Some (server_config cfg, acc))
            end
      end
  end.
End startup.

Section connection.
Context {W0} `{!StartOps W0}.
Context {V W : Type} `{!RpcSerde V, !HashIter}.
Context (dispatcher : Dispatcher V W) (sock_ok : list bytes → bytes → bool) (peer : string).

(** A connection delivers chunks; an empty one is its end. *)
Fixpoint stream_bytes (chunks : list bytes) : bytes :=
  match chunks with
  | [] => ""
  | c :: chunks' => if is_empty c then "" else c +:+ stream_bytes chunks'
  end.

Definition serve_framing (f : Framing) (chunks : list bytes) (w : W) : exit * list bytes * W :=
  match f with
  | Line => serve_lines dispatcher sock_ok (stream_bytes chunks) [] w
  | Stomp => let '(e, c, w') := serve_stomp dispatcher sock_ok peer (Read <$> chunks) w in (e, out c, w')
  end.

(** The answers are what the framing writes; under TLS they are encrypted. *)
Definition handle_conn (acceptor : option TlsConfig) (f : Framing) (chunks : list bytes) (w : W)
  : exit * list bytes * W :=
  match acceptor with
  | Some acc =>
      match tls_accept acc chunks with
      | Err _ => (ExitErr, [], w)
      | Ok plain => serve_framing f plain w
      end
  | None => serve_framing f chunks w
  end.
End connection.

(** ** The helper *)

(** [UnixListener::bind], [std::os::unix::fs::chown], [fs::set_permissions] *)
Class SocketOps (W : Type) := {
  unix_bind : string → st W (result unit string);
  fs_chown : string → option N → option N → st W (result unit string);
  fs_chmod : string → N → st W (result unit string);
}.

(** 0o660 *)
Definition SOCK_MODE : N := 6 * 64 + 6 * 8.

(** [main] of supervdsmd up to the accept loop: the uid that is let in and the
    group of the socket. *)
Definition supervdsmd_start {W} `{!OsOps W, !SocketOps W} (user sock_path : string)
  : st W (result (N * N) string) := λ w,
  match lookup_user user w with
  | Err e => (Err e, w)
  | Ok (allowed_uid, vdsm_gid) =>
      (let! _ := (λ w, if fs_exists sock_path w then fs_remove_file sock_path w else (Ok tt, w)) in
       let? _ := unix_bind sock_path in
       let? _ := fs_chown sock_path (Some 0) (Some vdsm_gid) in
       let? _ := fs_chmod sock_path SOCK_MODE in
       st_ret (Ok (allowed_uid, vdsm_gid))) w
  end.
