(* ===== verification/StartupFacts.v ===== *)
(** * Properties of the start of the daemon

    TLS is on unless the file turns it off, a daemon without usable
    certificates does not start, and a connection whose handshake fails is
    served nothing. *)

From stdpp Require Import options.
From S2P Require Import Prelude Utf8 RustStr Json Rpc Server Os Supervdsm SupervdsmFacts Startup ServerFacts.

Section startup.
Context {W} `{!OsOps W, !StartOps W}.

(** The file is there and sets [rpc.tls_enabled = false]. *)
Definition tls_switched_off (path : string) (w : W) : Prop :=
  fs_exists path w = true ∧
  ∃ text t r, fs_read path w = Ok text ∧ toml_from_str text = Ok t ∧
              t_rpc t = Some r ∧ t_tls_enabled r = Some false.

Lemma vdsmd_config_tls path w cfg :
  vdsmd_config path w = Ok cfg → rpc_tls_enabled (rpc cfg) = false ↔ tls_switched_off path w.
Proof.
  unfold vdsmd_config, config_load, tls_switched_off.
  destruct (fs_exists path w); [|intros [= <-]; split; [done|by intros [? _]]].
  destruct (fs_read path w) as [text|]; [|done]. destruct (toml_from_str text) as [t|] eqn:Et; [|done].
  intros [= <-]. cbn [fill_config rpc]. split.
  - destruct (t_rpc t) as [r|] eqn:Er; [|done]. cbn.
    destruct (t_tls_enabled r) as [[]|] eqn:Ee; [done| |done]. intros _. split; [done|].
    by exists text, t, r.
  - intros (_ & text' & t' & r & [= <-] & Et' & Er & Ee). rewrite Et in Et'. injection Et' as <-.
    rewrite Er. cbn. by rewrite Ee.
Qed.

Lemma serve_startup_Ok cfg w acc :
  serve_startup cfg w = Ok acc →
  match acc with
  | Some c => tls_enabled cfg = true ∧ load_server_config (tls_cert cfg) (tls_key cfg) w = Ok c
  | None => tls_enabled cfg = false
  end.
Proof.
  unfold serve_startup. destruct (tcp_bind _ w); [|done]. destruct (local_addr _ w); [|done].
  destruct (tls_enabled cfg); [|by intros [= <-]].
  destruct (load_server_config _ _ w) as [c|] eqn:E; [|done]. by intros [= <-].
Qed.

(** Loading succeeds only with a certificate and a private key from the files. *)
Lemma load_server_config_Ok cert key w c :
  load_server_config cert key w = Ok c →
  ∃ cb kb certs k, fs_read_bytes cert w = Ok cb ∧ fs_read_bytes key w = Ok kb ∧
    certs = omap ok (pem_certs cb) ∧ certs ≠ [] ∧ pem_private_key kb = Ok (Some k) ∧
    with_single_cert certs k = Ok c.
Proof.
  unfold load_server_config. destruct (fs_read_bytes cert w) as [cb|]; [|done].
  destruct (bool_decide_reflect (length (omap ok (pem_certs cb)) = 0)) as [|Hl]; [done|].
  destruct (fs_read_bytes key w) as [kb|]; [|done].
  destruct (pem_private_key kb) as [[k|]|] eqn:Ek; [|done|done].
  destruct (with_single_cert _ k) as [c'|] eqn:Ec; [|done]. intros [= <-].
  eexists cb, kb, _, k. split_and!; try done. intros E. by rewrite E in Hl.
Qed.

Lemma vdsmd_main_serving path rt (w : W) ctrl_c scfg acc :
  vdsmd_main path rt ctrl_c w = Ok (Some (scfg, acc)) →
  ∃ cfg, vdsmd_config path w = Ok cfg ∧ scfg = server_config cfg ∧ serve_startup scfg w = Ok acc.
Proof.
  unfold vdsmd_main. destruct (vdsmd_config path w) as [cfg|]; [|done]. destruct rt; [|done].
  destruct ctrl_c; [done|]. destruct (serve_startup _ w) eqn:E; [|done]. intros [= <- <-]. by exists cfg.
Qed.

(** C12: once the daemon serves, its connections are in the clear exactly
    when the configuration file sets tls_enabled to false (without a file, or
    without the key, TLS is on); otherwise a certificate and a private key
    were read from the configured files, and a connection has any effect or
    answer only after its handshake, whose plaintext the framing is then
    served. *)
Theorem tls_required {V S} `{!RpcSerde V, !HashIter} path rt ctrl_c (w : W) cfg acc :
  vdsmd_main path rt ctrl_c w = Ok (Some (cfg, acc)) →
  (acc = None ↔ tls_switched_off path w) ∧
  ∀ c, acc = Some c →
    (∃ cb kb k, fs_read_bytes (tls_cert cfg) w = Ok cb ∧
       fs_read_bytes (tls_key cfg) w = Ok kb ∧
       omap ok (pem_certs cb) ≠ [] ∧ pem_private_key kb = Ok (Some k) ∧
       with_single_cert (omap ok (pem_certs cb)) k = Ok c) ∧
    ∀ (d : Dispatcher V S) sock_ok peer chunks s,
      let r := handle_conn d sock_ok peer acc (framing cfg) chunks s in
      (r.1.2 ≠ [] ∨ r.2 ≠ s) →
      ∃ plain, tls_accept c chunks = Ok plain ∧
               r = serve_framing d sock_ok peer (framing cfg) plain s.
Proof.
  intros (cf & Hcfg & -> & Hs)%vdsmd_main_serving. apply serve_startup_Ok in Hs. split.
  - rewrite <- (vdsmd_config_tls _ _ _ Hcfg). destruct acc; [|done].
    destruct Hs as [E _]. cbn in E. by rewrite E.
  - intros c ->. destruct Hs as [_ (cb & kb & ? & k & ? & ? & -> & ? & ? & ?)%load_server_config_Ok].
    split; [by exists cb, kb, k|]. intros d sock_ok peer chunks s. cbn zeta.
    unfold handle_conn. destruct (tls_accept c chunks) as [plain|e]; [by exists plain|].
    by intros [[]|[]].
Qed.
End startup.

(** ** The socket of the helper *)

(** Documented behaviour of chown(2) and chmod(2): owner, group and
    permissions of the file at a path. *)
Class SocketLaws (W : Type) `{!SocketOps W} := {
  sock_stat : string → W → option (N * N * N);
  chown_stat p u g (w : W) w' :
    fs_chown p (Some u) (Some g) w = (Ok tt, w') → ∃ m, sock_stat p w' = Some (u, g, m);
  chmod_stat p m (w : W) w' u g m0 :
    fs_chmod p m w = (Ok tt, w') → sock_stat p w = Some (u, g, m0) → sock_stat p w' = Some (u, g, m);
}.

Lemma supervdsmd_start_user {W} `{!OsOps W, !SocketOps W} user path (w w' : W) uid gid :
  supervdsmd_start user path w = (Ok (uid, gid), w') → lookup_user user w = Ok (uid, gid).
Proof.
  unfold supervdsmd_start. destruct (lookup_user user w) as [[u g]|]; [|done].
  unfold st_bind, st_try. destruct (if fs_exists path w then _ else _) as [r0 w0].
  destruct (unix_bind path w0) as [[[]|] w1]; [|done].
  destruct (fs_chown path _ _ w1) as [[[]|] w2]; [|done].
  destruct (fs_chmod path _ w2) as [[[]|] w3]; [|done]. by intros [= <- <- <-].
Qed.

(** Once the helper listens, the uid it lets in is that of the first account
    of the name it was given, and its socket belongs to root and that
    account's group and is closed to everyone else. *)
Theorem supervdsmd_socket {W} `{!OsOps W, !SocketOps W, !SocketLaws W} user path es (w w' : W) uid gid :
  Forall (λ e, entry_ok e = true) es → fs_read "/etc/passwd" w = Ok (passwd_text es) →
  supervdsmd_start user path w = (Ok (uid, gid), w') →
  (∃ e, head (filter (λ e, pw_name e = user) es) = Some e ∧ pw_uid e = uid ∧ pw_gid e = gid) ∧
  sock_stat path w' = Some (0%N, gid, SOCK_MODE) ∧ N.land SOCK_MODE 7 = 0%N.
Proof.
  intros Hes Hr. unfold supervdsmd_start, lookup_user. rewrite Hr, lookup_lines_entries by done.
  destruct (head _) as [e|] eqn:Eh; [|done]. cbn [fmap option_fmap option_map].
  unfold st_bind at 1. destruct (if fs_exists path w then _ else _) as [r0 w0]. unfold st_try at 1.
  destruct (unix_bind path w0) as [[[]|] w1]; [|done]. unfold st_try at 1.
  destruct (fs_chown path _ _ w1) as [[[]|] w2] eqn:Ec; [|done]. unfold st_try at 1.
  destruct (fs_chmod path _ w2) as [[[]|] w3] eqn:Em; [|done]. intros [= <- <- <-].
  split; [by exists e|]. split; [|done]. apply chown_stat in Ec as [m Hm]. by eapply chmod_stat.
Qed.

(** ** A machine with certificates *)

(** A PEM file is its text; a client that says hello first is let in. *)
#[local] Instance demo_start : StartOps demo := {|
  toml_from_str s :=
    if String.eqb s "[rpc]" then Ok (mkToml None (Some (mkRpcTable None None None None None None None)) None)
    else Err "expected a table";
  fs_read_bytes p w := match assoc_first p (d_files w) with Some b => Ok b | None => Err "not found" end;
  Cert := string; Key := string; TlsConfig := string * string;
  pem_certs b := if is_empty b then [] else [Ok b];
  pem_private_key b := Ok (if is_empty b then None else Some b);
  with_single_cert certs k := match certs with c :: _ => Ok (c, k) | [] => Err "no certificate" end;
  tcp_bind _ _ := Ok tt; local_addr a _ := Ok a;
  tls_accept _ chunks := match chunks with
                         | c :: chunks' => if String.eqb c "hello" then Ok chunks' else Err "bad record"
                         | [] => Err "eof"
                         end;
|}.

Import ServerFacts.Demo.

Definition demo_acceptor : TlsConfig (W := demo) := ("CERT", "KEY").

(** The file has an empty table, so TLS is on; the client that shook hands is
    answered. *)
Lemma tls_required_witness :
  let w := demo_world [("/etc/vdsm/vdsm.toml", "[rpc]");
                       ("/etc/pki/vdsm/certs/vdsmcert.pem", "CERT");
                       ("/etc/pki/vdsm/keys/vdsmkey.pem", "KEY")] [] in
  ¬ tls_switched_off "/etc/vdsm/vdsm.toml" w ∧
  ∃ plain, tls_accept (W := demo) demo_acceptor ["hello"; "Host.ping2"] = Ok plain ∧
    handle_conn (W0 := demo) demo_dispatcher sock "p" (Some demo_acceptor) Line
      ["hello"; "Host.ping2"] 0 = serve_framing demo_dispatcher sock "p" Line plain 0.
Proof.
  intros w.
  destruct (tls_required (V := JVal) (S := nat) "/etc/vdsm/vdsm.toml" (Ok tt) false w
    (server_config config_default) (Some demo_acceptor)) as [H1 H2]; [vm_compute; reflexivity|].
  split; [intros E; apply H1 in E; discriminate E|].
  destruct (H2 _ eq_refl) as [_ H3].
  apply (H3 demo_dispatcher sock "p" ["hello"; "Host.ping2"] 0). left. vm_compute. discriminate.
Defined.

(** Without its certificate the daemon refuses to start. *)
Example no_certificate_no_start :
  serve_startup (server_config config_default)
    (demo_world [("/etc/pki/vdsm/keys/vdsmkey.pem", "KEY")] [])
  = Err "read /etc/pki/vdsm/certs/vdsmcert.pem: not found".
Proof. reflexivity. Qed.
