(* ===== verification/Helper.v ===== *)
(** * The helper and its connections (main and handle of
    crates/supervdsm/src/main.rs)

    supervdsmd makes its socket, then spawns a task for every connection it
    accepts.  A task looks at the credentials of its peer before it reads
    anything; it reads one line, runs the operation in it, answers and ends.
    The tasks run in any interleaving with one another and with the system. *)

From stdpp Require Import options.
From S2P Require Import Prelude Utf8 RustStr Json Rpc Server ServerFacts Os Supervdsm SupervdsmFacts Sessions LineSessions Startup StartupFacts.

(** The credentials of the peer, whether the task is past its check, what was
    read, what was written, and how the task ended. *)
Record helper_session := mkHelper {
  h_cred : result N string; h_past : bool; h_buf : bytes; h_out : bytes;
  h_end : option (result unit string)
}.

Section helper.
Context {W} `{!OsOps W, !PrivSerde}.
Context (allowed_uid : N).
(** Whether a write to the peer succeeds, and what else changes the system. *)
Context (sock_ok : nat → bool) (other : relation W).

Definition helper : Type := gmap nat helper_session * W.

(** [handle] up to the read: the task ends or goes on to read. *)
Definition helper_check (i : nat) (s : helper_session) : helper_session :=
  match authenticate (h_cred s) allowed_uid (sock_ok i) with
  | Some (r, b) => mkHelper (h_cred s) false (h_buf s) b (Some r)
  | None => mkHelper (h_cred s) true (h_buf s) "" None
  end.

(** [handle] from the read on, given what was read. *)
Definition helper_answer (i : nat) (s : helper_session) (input : result bytes string) (w : W)
  : helper_session * W :=
  let '((r, b), w') := serve_request input (sock_ok i) w in
  (mkHelper (h_cred s) true (h_buf s) b (Some r), w').

(** A task that waits in [read_line]. *)
Definition helper_waiting (s : helper_session) : Prop :=
  h_end s = None ∧ h_past s = true ∧ has_byte LF (h_buf s) = false.

Inductive helper_step : helper → event bytes → helper → Prop :=
| helper_accept i cred ss w :
    ss !! i = None →
    helper_step (ss, w) (Accepted i) (<[i := mkHelper cred false "" "" None]> ss, w)
| helper_checks i s ss w :
    ss !! i = Some s → h_end s = None → h_past s = false →
    helper_step (ss, w) (Worked i) (<[i := helper_check i s]> ss, w)
| helper_read i s chunk ss w :
    ss !! i = Some s → helper_waiting s → chunk ≠ "" →
    helper_step (ss, w) (Received i chunk)
      (<[i := mkHelper (h_cred s) true (h_buf s +:+ chunk) "" None]> ss, w)
| helper_read_failed i s e s' ss w w' :
    ss !! i = Some s → helper_waiting s → helper_answer i s (Err e) w = (s', w') →
    helper_step (ss, w) (Closed i) (<[i := s']> ss, w')
(** The line is complete, or the peer has closed its end. *)
| helper_serve i s s' ss w w' :
    ss !! i = Some s → h_end s = None → h_past s = true →
    helper_answer i s (Ok (h_buf s)) w = (s', w') →
    has_byte LF (h_buf s) = true ∨ helper_waiting s →
    helper_step (ss, w) (Handled i (read_line (h_buf s)).1) (<[i := s']> ss, w')
| helper_other ss w w' :
    other w w' → helper_step (ss, w) Elsewhere (ss, w').
End helper.

(** [main]: a run of the helper, from its start. *)
Definition supervdsmd_main {W} `{!OsOps W, !PrivSerde, !SocketOps W} (sock_ok : nat → bool)
  (other : relation W) (user sock_path : string) (w : W)
  (uid : N) (tr : list (event bytes)) (st : helper (W := W)) : Prop :=
  ∃ gid w0, supervdsmd_start user sock_path w = (Ok (uid, gid), w0) ∧
            trace_run (helper_step uid sock_ok other) (∅, w0) tr st.

Section facts.
Context {W} `{!OsOps W, !PrivSerde}.
Context (allowed_uid : N) (sock_ok : nat → bool) (other : relation W).

Abbreviation step := (helper_step allowed_uid sock_ok other).
Abbreviation run := (trace_run step).

Lemma helper_isolated st ev st' i :
  step st ev st' → event_of ev ≠ Some i → st'.1 !! i = st.1 !! i.
Proof.
  intros Hs Hne. destruct Hs; cbn in *; rewrite ?lookup_insert_ne by congruence; done.
Qed.

(** What a task has read so far: past the check there is nobody but the allowed
    user, nothing is read before it, and one line is handled at most, the first. *)
Record helper_ok (i : nat) (tr : list (event bytes)) (s : helper_session) : Prop := {
  ok_received : received i tr = h_buf s;
  ok_past : h_past s = true → h_cred s = Ok allowed_uid;
  ok_before : h_past s = false → h_buf s = "" ∧ handled i tr = [];
  ok_open : h_end s = None → handled i tr = [];
  ok_first : handled i tr = [] ∨ handled i tr = [(read_line (received i tr)).1]
}.

Lemma helper_check_same i s :
  let s' := helper_check allowed_uid sock_ok i s in
  h_cred s' = h_cred s ∧ h_buf s' = h_buf s ∧ (h_past s' = true → h_cred s = Ok allowed_uid).
Proof.
  unfold helper_check. destruct (authenticate _ _ _) as [[r b]|] eqn:Ha; [done|].
  split_and!; [done..|]. intros _. by apply authenticate_uid in Ha.
Qed.

Lemma helper_answer_same i s input (w : W) s' w' :
  helper_answer sock_ok i s input w = (s', w') →
  h_cred s' = h_cred s ∧ h_past s' = true ∧ h_buf s' = h_buf s ∧ h_end s' ≠ None.
Proof. unfold helper_answer. destruct (serve_request _ _ w) as [[r b] w1]. by intros [= <- <-]. Qed.

Lemma run_helper_ok w0 tr st i :
  run (∅, w0) tr st →
  match st.1 !! i with
  | None => received i tr = "" ∧ handled i tr = []
  | Some s => helper_ok i tr s
  end.
Proof.
  induction 1 as [|tr st ev st' Hr IH Hs]; [done|].
  destruct (decide (event_of ev = Some i)) as [He|He].
  2:{ rewrite (helper_isolated _ _ _ _ Hs He).
      destruct (events_elsewhere i tr ev He) as [H1 H2].
      destruct (st.1 !! i); [|by rewrite H1, H2]. destruct IH. by split; rewrite ?H1, ?H2. }
  destruct Hs as [j cred ss w Hi|j s ss w Hi Hend Hp|j s chunk ss w Hi (Hend & Hp & Hl) Hc
    |j s e s' ss w w' Hi (Hend & Hp & Hl) Hans|j s s' ss w w' Hi Hend Hp Hans Hl|ss w w' Ho];
    cbn [event_of] in He; simplify_eq; cbn [fst] in *; rewrite lookup_insert_eq; rewrite Hi in IH;
    try (destruct (helper_answer_same _ _ _ _ _ _ Hans) as (Hc' & Hp' & Hb' & He'));
    try match type of IH with helper_ok _ _ _ => destruct IH as [I1 I2 I3 I4 I5] end;
    split; rewrite ?received_snoc, ?handled_snoc; rewrite ?decide_True by done;
    rewrite ?app_nil_r_str, ?app_nil_r; cbn [h_cred h_past h_buf h_end] in *; try done.
  - apply IH.
  - intros _. split; [done|]. apply IH.
  - intros _. apply IH.
  - left. apply IH.
  - by rewrite (proj1 (proj2 (helper_check_same i s))).
  - rewrite (proj1 (helper_check_same i s)). apply helper_check_same.
  - intros _. rewrite (proj1 (proj2 (helper_check_same i s))). by apply I3.
  - intros _. by apply I4.
  - by rewrite I1.
  - intros _. by apply I2.
  - intros _. by apply I4.
  - left. by apply I4.
  - congruence.
  - intros _. rewrite Hc'. by apply I2.
  - congruence.
  - congruence.
  - intros _. rewrite Hc'. by apply I2.
  - congruence.
  - right. by rewrite (I4 Hend), I1.
Qed.

(** What a step of the helper does to the system. *)
Lemma helper_world st ev st' :
  step st ev st' → st'.2 ≠ st.2 →
  ev = Elsewhere ∨
  ∃ i s op, ev = Handled i (read_line (h_buf s)).1 ∧ st.1 !! i = Some s ∧ h_past s = true ∧
    op_from_str (trim (read_line (h_buf s)).1) = Ok op ∧ st'.2 = (execute op st.2).2.
Proof.
  intros Hs Hne.
  assert (∀ i s s' input w w', helper_answer sock_ok i s input w = (s', w') → w' ≠ w →
    ∃ bs op, input = Ok bs ∧ op_from_str (trim (read_line bs).1) = Ok op ∧
      w' = (execute op w).2) as Hans.
  { intros i s s' input w w'. unfold helper_answer.
    destruct (serve_request _ _ w) as [[r b] w1] eqn:Hh.
    intros [= <- <-] Hw. by eapply serve_request_world. }
  destruct Hs as [j cred ss w Hi|j s ss w Hi Hend Hp|j s chunk ss w Hi Hw Hc
    |j s e s' ss w w' Hi Hw Ha|j s s' ss w w' Hi Hend Hp Ha Hl|ss w w' Ho]; cbn [fst snd] in *;
    try done; [| |by left].
  - by destruct (Hans _ _ _ _ _ _ Ha Hne) as (bs & op & ? & _).
  - right. destruct (Hans _ _ _ _ _ _ Ha Hne) as (bs & op & [= <-] & Hop & ->).
    by exists j, s, op.
Qed.
End facts.

(** C10: the helper, serving any number of peers at once: it reads nothing from a
    peer whose uid is not that of the service account, and at most one line from
    any other; whatever a step changes in the system is the effect of one
    operation, the one on the first line that a peer with the account's uid sent,
    or was not the helper's doing. *)
Theorem helper_serves {W} `{!OsOps W, !PrivSerde, !SocketOps W} sock_ok (other : relation W)
    user path w uid tr st :
  supervdsmd_main sock_ok other user path w uid tr st →
  (∃ gid, lookup_user user w = Ok (uid, gid)) ∧
  (∀ i s, st.1 !! i = Some s →
     (h_cred s ≠ Ok uid → received i tr = "" ∧ handled i tr = []) ∧
     (handled i tr = [] ∨ handled i tr = [(read_line (received i tr)).1])) ∧
  (∀ ev st', helper_step uid sock_ok other st ev st' → st'.2 ≠ st.2 →
     ev = Elsewhere ∨
     ∃ i s op, st.1 !! i = Some s ∧ h_cred s = Ok uid ∧
       ev = Handled i (read_line (received i tr)).1 ∧
       op_from_str (trim (read_line (received i tr)).1) = Ok op ∧ st'.2 = (execute op st.2).2).
Proof.
  intros (gid & w0 & Hst & Hr). split; [|split].
  - exists gid. by eapply supervdsmd_start_user.
  - intros i s Hi. pose proof (run_helper_ok _ _ _ _ _ _ i Hr) as Hok. rewrite Hi in Hok.
    destruct Hok as [I1 I2 I3 I4 I5]. split; [|done]. intros Hc. rewrite I1.
    apply I3. destruct (h_past s); [|done]. by destruct Hc; apply I2.
  - intros ev st' Hs Hne.
    destruct (helper_world _ _ _ _ _ _ Hs Hne) as [|(i & s & op & -> & Hi & Hp & Hop & Hw)];
      [by left|right].
    pose proof (run_helper_ok _ _ _ _ _ _ i Hr) as Hok. rewrite Hi in Hok.
    exists i, s, op. rewrite (ok_received _ _ _ _ Hok). split_and!; [done| |done..].
    by apply (ok_past _ _ _ _ Hok).
Qed.

(** ** A stranger and the daemon *)

#[local] Instance demo_sockets : SocketOps demo := {
  unix_bind _ w := (Ok tt, w); fs_chown _ _ _ w := (Ok tt, w); fs_chmod _ _ w := (Ok tt, w);
}.

Definition demo_passwd : demo :=
  demo_world [("/etc/passwd", passwd_text [mkEntry "vdsm" 36 36 "oVirt:/var/lib/vdsm:/sbin/nologin"])] [].

(** Connection 0 belongs to uid 1000; connection 1, of the daemon, asks for an
    unmount. *)
Definition umount_line : bytes := digits_of (op_code umount_x) +:+ String LF "".
Definition two_peers : list (event bytes) :=
  [Accepted 0; Accepted 1; Worked 1; Received 1 umount_line; Worked 0; Handled 1 umount_line].

Lemma helper_serves_witness :
  ∃ st, supervdsmd_main (λ _, true) (λ _ _, False) "vdsm" "/run/s.sock" demo_passwd 36%N two_peers st ∧
    received 0 two_peers = "" ∧ handled 0 two_peers = [] ∧ length (handled 1 two_peers) = 1 ∧
    st.2 = log_cmd ("/usr/bin/umount", ["/rhev/data-center/mnt/x"]) demo_passwd.
Proof.
  eassert (Hr : supervdsmd_main (λ _, true) (λ _ _, False) "vdsm" "/run/s.sock" demo_passwd 36%N two_peers
    (_, log_cmd ("/usr/bin/umount", ["/rhev/data-center/mnt/x"]) demo_passwd)).
  { exists 36%N, demo_passwd. split; [vm_compute; reflexivity|]. unfold two_peers.
    eapply run_cons; [apply (helper_accept _ _ _ 0 (Ok 1000%N)); reflexivity|].
    eapply run_cons; [apply (helper_accept _ _ _ 1 (Ok 36%N)); reflexivity|].
    eapply run_cons.
    { apply (helper_checks _ _ _ 1 (mkHelper (Ok 36%N) false "" "" None)); reflexivity. }
    eapply run_cons.
    { apply (helper_read _ _ _ 1 (mkHelper (Ok 36%N) true "" "" None));
        [reflexivity|split_and!; reflexivity|discriminate]. }
    eapply run_cons.
    { apply (helper_checks _ _ _ 0 (mkHelper (Ok 1000%N) false "" "" None)); reflexivity. }
    apply run_one. apply (helper_serve _ _ _ 1 (mkHelper (Ok 36%N) true umount_line "" None));
      [reflexivity|reflexivity|reflexivity|vm_compute; reflexivity|left; reflexivity]. }
  eexists. split; [exact Hr|].
  destruct (helper_serves _ _ _ _ _ _ _ _ Hr) as (_ & Hs & _).
  destruct (Hs 0 _ eq_refl) as [H0 _]. destruct (H0 ltac:(discriminate)) as [H1 H2].
  split; [exact H1|]. split; [exact H2|]. split; reflexivity.
Defined.
