(* ===== verification/Tool.v ===== *)
(** * The command-line tools (crates/vdsm-tool, crates/vdsm-client)

    [vdsm-tool] names the host, makes test certificates and accepts the other
    subcommands of host-deploy without doing anything; [vdsm-client] answers
    every call with an error.  The argument parser is a dependency: the
    parsed arguments are the input here.  Messages on stderr are not part of
    the result. *)

From stdpp Require Import options.
From S2P Require Import Prelude Utf8 RustStr Float64 Os Sysinfo.
Local Open Scope N_scope.

(** ** Paths *)

(** From the end of the components, those that stand for nothing: empty ones,
    and [.] unless it starts a relative path. *)
Fixpoint drop_void (root : bool) (rsegs : list string) : list string :=
  match rsegs with
  | [] => []
  | s :: r =>
      if is_empty s || (String.eqb s "." && (root || negb (bool_decide (length r = O))))
      then drop_void root r else rsegs
  end.

(** [Path::new(p).parent()] *)
Definition path_parent (p : string) : option string :=
  let root := starts_with "/" p in
  let segs := split_char "/" (if root then str_drop 1 p else p) in
  match drop_void root (rev segs) with
  | [] => None
  | _ :: r =>
      let q := join "/" (rev (drop_void root r)) in
      Some (if root then "/" +:+ q else q)
  end.

(** ** vdsm-tool *)

Definition VDSM_ID_PATH : string := "/etc/vdsm/vdsm.id".

Inductive Cmd :=
| Configure (force : bool)
| ConfigLvmFilter (yes : bool)
| OvnConfig (central tunnel_iface host_fqdn : option string)
| IsConfigured
| ValidateConfig
| Register (engine_fqdn : option string)
| VdsmId
| GenTestCerts (cert key : string) (cn : option string) (days : N)
| Unknown (argv : list string).

(** What the tool uses of the system besides files and [output]. *)
Class ToolOps (W : Type) := {
  (** [Command::new(bin).args(args).status()]: success and exit code *)
  command_status : string → list string → st W (result (bool * option Z) string);
  (** the permission bits of [fs::metadata(p)], and [fs::set_permissions] *)
  fs_mode : string → W → result N string;
  fs_set_mode : string → N → st W (result unit string);
  getuid : W → N;
}.

(** [{:?}] of an [Option<i32>] *)
Definition debug_code (c : option Z) : string :=
  match c with Some z => "Some(" +:+ pretty z +:+ ")" | None => "None" end.

Section tool.
Context {W} `{!OsOps W, !ToolOps W}.

Fixpoint first_nonempty (paths : list string) (w : W) : option string :=
  match paths with
  | [] => None
  | p :: paths' =>
      match read_nonempty p w with Some t => Some t | None => first_nonempty paths' w end
  end.

Definition read_system_uuid : st W (result string string) := λ w,
  match first_nonempty ["/sys/class/dmi/id/product_uuid"; "/proc/device-tree/system-id"] w with
  | Some t => (Ok t, w)
  | None =>
      (let? out := command_output "dmidecode" ["-s"; "system-uuid"] in
       st_ret (if negb (status_success out)
               then Err ("dmidecode -s system-uuid failed: " +:+ from_utf8_lossy (stderr out))
               else
                 let s := trim (from_utf8_lossy (stdout out)) in
                 if is_empty s then Err "dmidecode returned an empty system-uuid" else Ok s)) w
  end.

Definition ensure_vdsm_id : st W (result string string) := λ w,
  match read_nonempty VDSM_ID_PATH w with
  | Some trimmed => (Ok trimmed, w)
  | None =>
      (let? id := read_system_uuid in
       let! _ := match path_parent VDSM_ID_PATH with
                 | Some parent => fs_create_dir_all parent
                 | None => st_ret (Ok tt)
                 end in
       let! _ := fs_write VDSM_ID_PATH (id +:+ String LF "") in
       st_ret (Ok id)) w
  end.

Definition chmod_path (path : string) (mode : N) : st W (result unit string) := λ w,
  match fs_mode path w with
  | Err e => (Err e, w)
  | Ok _ => fs_set_mode path mode w
  end.

Definition chown_path (path : string) (uid gid : N) : st W unit :=
  let! _ := command_status "/usr/bin/chown" [to_string uid +:+ ":" +:+ to_string gid; path] in
  st_ret tt.

Definition running_as_root (w : W) : bool := getuid w =? 0.

(** The loop of [read_passwd_uid] and [read_group_gid]: the first line with the
    name decides. *)
Fixpoint id_of_lines (name : string) (ls : list string) : option N :=
  match ls with
  | [] => None
  | line :: ls' =>
      let it := split_char ":" line in
      if bool_decide (it !! O = Some name) then _ ← it !! 1%nat; it !! 2%nat ≫= parse_u32
      else id_of_lines name ls'
  end.

Definition read_passwd_uid (name : string) (w : W) : option N :=
  raw ← ok (fs_read "/etc/passwd" w); id_of_lines name (lines raw).
Definition read_group_gid (name : string) (w : W) : option N :=
  raw ← ok (fs_read "/etc/group" w); id_of_lines name (lines raw).

Definition lookup_vdsm_kvm (w : W) : option (N * N) :=
  uid ← read_passwd_uid "vdsm" w; gid ← read_group_gid "kvm" w; Some (uid, gid).

Definition openssl_args (cert_path key_path cn : string) (days : N) : list string :=
  ["req"; "-x509"; "-newkey"; "rsa:2048"; "-keyout"; key_path; "-out"; cert_path;
   "-days"; to_string days; "-nodes"; "-subj"; "/CN=" +:+ cn;
   "-addext"; "subjectAltName=DNS:" +:+ cn +:+ ",DNS:localhost,IP:127.0.0.1"].

(** 0o640 and 0o440 *)
Definition CERT_MODE : N := 6 * 64 + 4 * 8.
Definition KEY_MODE : N := 4 * 64 + 4 * 8.

Definition make_parent (p : string) : st W unit :=
  match path_parent p with
  | Some parent => let! _ := fs_create_dir_all parent in st_ret tt
  | None => st_ret tt
  end.

(** Ownership, once the files are there. *)
Definition give_to_vdsm (cert_path key_path : string) : st W unit := λ w,
  if running_as_root w then
    match lookup_vdsm_kvm w with
    | Some (uid, gid) =>
        (let! _ := chown_path cert_path uid gid in chown_path key_path uid gid) w
    | None => (tt, w)
    end
  else (tt, w).

Definition gen_test_certs (cert_path key_path : string) (cn : option string) (days : N)
  : st W (result unit string) := λ w,
  let hostname := unwrap_or "localhost" (read_trim "/proc/sys/kernel/hostname" w) in
  let cn := default hostname cn in
  (let! _ := st_for [cert_path; key_path] make_parent in
   let? status := command_status "openssl" (openssl_args cert_path key_path cn days) in
   if negb status.1 then st_ret (Err ("openssl req failed (rc=" +:+ debug_code status.2 +:+ ")"))
   else
     let? _ := chmod_path cert_path CERT_MODE in
     let? _ := chmod_path key_path KEY_MODE in
     let! _ := give_to_vdsm cert_path key_path in
     st_ret (Ok tt)) w.

(** [main]: what is printed on stdout, or the error the process ends with. *)
Definition tool_main (cmd : Cmd) : st W (result string string) :=
  match cmd with
  | Configure _ | ConfigLvmFilter _ | OvnConfig _ _ _ | IsConfigured | ValidateConfig
  | Register _ | Unknown _ => st_ret (Ok "")
  | VdsmId => let? id := ensure_vdsm_id in st_ret (Ok (id +:+ String LF ""))
  | GenTestCerts cert key cn days =>
      let? _ := gen_test_certs cert key cn days in st_ret (Ok "")
  end.
End tool.

(** ** vdsm-client *)

(** The exit code and what is printed on stdout. *)
Definition client_main (namespace method : option string) : Z * string :=
  let q := String "034" "" in
  match namespace, method with
  | Some ns, Some m =>
      let verb := ns +:+ "." +:+ m in
      (1%Z, "{" +:+ q +:+ "status" +:+ q +:+ ":{" +:+ q +:+ "code" +:+ q +:+ ":-32601," +:+ q +:+ "message"
            +:+ q +:+ ":" +:+ q +:+ "vdsm-rs v0: " +:+ verb +:+ " not implemented" +:+ q +:+ "}}"
            +:+ String LF "")
  | _, _ => (2%Z, "")
  end.
