(* ===== verification/ToolFacts.v ===== *)
(** * Properties of the command-line tools

    The host's name is stable and shared with the daemon, the accounts of the
    tool are those of the helper, the test key is not readable by others, and
    the remaining subcommands change nothing. *)

From stdpp Require Import options.
From S2P Require Import Prelude Utf8 RustStr Float64 Json Rpc Os Supervdsm SupervdsmFacts Sysinfo Tool.

(** ** The name of the host *)

Section identity.
Context {W} `{!OsOps W, !ToolOps W}.

Lemma read_nonempty_Some p (w : W) t :
  read_nonempty p w = Some t ↔ ∃ s, fs_read p w = Ok s ∧ t = trim s ∧ t ≠ "".
Proof.
  unfold read_nonempty, read_trim. destruct (fs_read p w) as [s|e]; cbn; [|split; [done|naive_solver]].
  destruct (trim s) as [|a u] eqn:E; cbn.
  - split; [done|]. intros (? & [= <-] & -> & Hn). congruence.
  - rewrite <- E. split; [intros [= <-]; exists s; by rewrite E|].
    by intros (? & [= <-] & -> & _).
Qed.

(** An identifier is never empty and has no white space around it. *)
Lemma first_nonempty_trimmed ps (w : W) t :
  first_nonempty ps w = Some t → t ≠ "" ∧ trim t = t.
Proof.
  induction ps as [|p ps IH]; [done|]. cbn [first_nonempty].
  destruct (read_nonempty p w) as [u|] eqn:E; [|done]. intros [= <-].
  apply read_nonempty_Some in E as (s & _ & -> & Hne). by rewrite trim_idem.
Qed.

Lemma read_system_uuid_trimmed (w : W) id w' :
  read_system_uuid w = (Ok id, w') → id ≠ "" ∧ trim id = id.
Proof.
  unfold read_system_uuid. destruct (first_nonempty _ w) eqn:E.
  - intros [= <- _]. by eapply first_nonempty_trimmed.
  - unfold st_try, st_ret. destruct (command_output _ _ w) as [[out|e] w1]; [|done].
    destruct (negb _); [done|]. destruct (trim _) as [|a s] eqn:Et; [done|]. intros [= <- _].
    rewrite <- Et, trim_idem. by rewrite Et.
Qed.

(** C34: the tool names the host once and for all: the identifier it prints is
    not empty and has no white space around it, and unless the file could not
    be written, running the tool again prints the same identifier and changes
    nothing, and the daemon reports that identifier as the host's. *)
Theorem vdsm_id_agreement `{!OsLaws W} (w : W) id w' :
  ensure_vdsm_id w = (Ok id, w') → utf8_valid id = true →
  id ≠ "" ∧ trim id = id ∧
  ((ensure_vdsm_id w' = (Ok id, w') ∧ vdsm_id w' = id) ∨
   ∃ w1 e, fs_write VDSM_ID_PATH (id +:+ String LF "") w1 = (Err e, w')).
Proof.
  unfold ensure_vdsm_id at 1. destruct (read_nonempty VDSM_ID_PATH w) as [t|] eqn:E.
  - intros [= -> ->] _. pose proof E as (s & _ & -> & Hne)%read_nonempty_Some. rewrite trim_idem.
    split; [done|]. split; [done|]. left. unfold ensure_vdsm_id, vdsm_id.
    change "/etc/vdsm/vdsm.id" with VDSM_ID_PATH. by rewrite E.
  - unfold st_try, st_bind, st_ret. destruct (read_system_uuid w) as [[u|e] w1] eqn:Eu; [|done].
    apply read_system_uuid_trimmed in Eu as [Hne Ht].
    change (path_parent VDSM_ID_PATH) with (Some "/etc/vdsm"). cbv beta iota.
    destruct (fs_create_dir_all "/etc/vdsm" w1) as [r w2].
    destruct (fs_write _ _ w2) as [[[]|e] w3] eqn:Ew; intros [= -> ->] Hv; (split; [done|]);
      (split; [done|]); [left|by right; eexists _, _].
    apply read_after_write in Ew as [Hr _]; [|by apply utf8_valid_app].
    assert (read_nonempty VDSM_ID_PATH w' = Some id) as Er.
    { apply read_nonempty_Some. eexists. split; [exact Hr|]. split; [|done].
      rewrite <- Ht at 1. symmetry. rewrite <- Ht at 1. apply trim_trim_lf. by rewrite Ht. }
    unfold ensure_vdsm_id, vdsm_id. change "/etc/vdsm/vdsm.id" with VDSM_ID_PATH. by rewrite Er.
Qed.
End identity.

(** ** The accounts *)

Lemma id_of_lines_entries name es :
  Forall (λ e, entry_ok e = true) es →
  id_of_lines name (lines (passwd_text es)) = pw_uid <$> head (filter (λ e, pw_name e = name) es).
Proof.
  induction 1 as [|e es He Hes IH]; [done|]. cbn [passwd_text foldr].
  destruct (passwd_text_line_ok e He). rewrite lines_cons by done.
  cbn [id_of_lines]. fold (passwd_text es). rewrite IH, filter_cons. clear IH.
  unfold entry_ok in He. breflect.
  unfold passwd_text_line. rewrite !split_char_cons by (done || apply to_string_no_colon).
  cbn [lookup list_lookup mbind option_bind]. unfold parse_u32.
  rewrite parse_uint_to_string by (by apply N.leb_le).
  destruct (decide (pw_name e = name)).
  - by rewrite bool_decide_true by congruence.
  - by rewrite bool_decide_false by congruence.
Qed.

(** The account that gets the test certificates is the one the helper lets in. *)
Theorem read_passwd_uid_lookup_user {W} `{!OsOps W} name es (w : W) :
  Forall (λ e, entry_ok e = true) es → fs_read "/etc/passwd" w = Ok (passwd_text es) →
  read_passwd_uid name w = fst <$> ok (lookup_user name w).
Proof.
  intros Hes Hr. unfold read_passwd_uid, lookup_user. rewrite Hr. cbn [ok mbind option_bind].
  rewrite id_of_lines_entries, lookup_lines_entries by done. by destruct (head _).
Qed.

(** A line that is cut short ends the search of the tool, not that of the helper. *)
Example short_line_differs :
  let w := demo_world [("/etc/passwd", "vdsm:x" +:+ String LF "vdsm:x:36:36::/:/bin/sh")] [] in
  read_passwd_uid "vdsm" w = None ∧ lookup_user "vdsm" w = Ok (36, 36)%N.
Proof. vm_compute. done. Qed.

(** ** The test key *)

(** Documented behaviour: chmod(2) sets the bits, and chown(1) leaves the
    permissions of owner, group and others alone. *)
Class ToolLaws (W : Type) `{!ToolOps W} := {
  set_mode_mode p m (w w' : W) : fs_set_mode p m w = (Ok tt, w') → fs_mode p w' = Ok m;
  chown_mode args p m (w : W) r w' :
    command_status "/usr/bin/chown" args w = (r, w') → (m < 512)%N → fs_mode p w = Ok m →
    fs_mode p w' = Ok m;
}.

Section certs.
Context {W} `{!OsOps W, !ToolOps W}.

Lemma give_to_vdsm_mode `{!ToolLaws W} cert key p m (w : W) :
  (m < 512)%N → fs_mode p w = Ok m → fs_mode p (give_to_vdsm cert key w).2 = Ok m.
Proof.
  intros Hm Hw. unfold give_to_vdsm. destruct (running_as_root w); [|done].
  destruct (lookup_vdsm_kvm w) as [[uid gid]|]; [|done].
  unfold chown_path, st_bind, st_ret.
  destruct (command_status _ [_; cert] w) as [r1 w1] eqn:E1.
  destruct (command_status _ [_; key] w1) as [r2 w2] eqn:E2. cbn [snd].
  eapply chown_mode; [exact E2|done|]. by eapply chown_mode.
Qed.

(** Test certificates are reported as made only when openssl made them,
    and the private key is then readable by its owner and group and by nobody
    else, and writable by nobody. *)
Theorem test_key_protected `{!ToolLaws W} cert key cn days (w w' : W) :
  gen_test_certs cert key cn days w = (Ok tt, w') →
  (∃ name code w1 w2,
     command_status "openssl" (openssl_args cert key name days) w1 = (Ok (true, code), w2) ∧
     default name cn = name) ∧
  ∃ m, fs_mode key w' = Ok m ∧
       (∀ i, N.testbit m i = true ↔ i = 8%N ∨ i = 5%N).
Proof.
  unfold gen_test_certs. set (name := default (unwrap_or "localhost" _) cn).
  unfold st_bind at 1. destruct (st_for _ make_parent w) as [_ w1]. unfold st_try at 1.
  destruct (command_status "openssl" _ w1) as [[[b code]|e] w2] eqn:Eo; [|done]. cbn [fst].
  destruct b; cbn [negb]; [|done]. unfold st_try at 1.
  destruct (chmod_path cert CERT_MODE w2) as [[[]|e] w3]; [|done]. unfold st_try at 1.
  destruct (chmod_path key KEY_MODE w3) as [[[]|e] w4] eqn:Ek; [|done].
  unfold st_bind, st_ret. pose proof (give_to_vdsm_mode cert key key KEY_MODE w4) as Hg.
  destruct (give_to_vdsm cert key w4) as [[] w5]. intros [= ->]. split.
  - exists name, code, w1, w2. split; [done|]. subst name. by destruct cn.
  - exists KEY_MODE. split.
    + apply Hg; [done|]. unfold chmod_path in Ek. destruct (fs_mode key w3); [|done].
      by eapply set_mode_mode.
    + intros i. destruct (decide (i < 16)%N) as [Hi|Hi].
      * assert (∀ k, (k < 16)%nat → N.testbit KEY_MODE (N.of_nat k) = true ↔ k = 8%nat ∨ k = 5%nat) as H.
        { intros k Hk. do 16 (destruct k as [|k]; [vm_compute; split; [by auto|by intros [|]]|]). lia. }
        rewrite <- (N2Nat.id i), H by lia. lia.
      * rewrite N.bits_above_log2 by (change (N.log2 KEY_MODE) with 8%N; lia). split; [done|lia].
Qed.
End certs.

(** ** A machine for the witnesses *)

(** The modes of its files are kept in a list; commands that set the status
    succeed. *)
Record toolbox := mkBox { box : demo; modes : list (string * N); uid : N }.

Definition with_box (w : toolbox) (d : demo) : toolbox := mkBox d (modes w) (uid w).

#[local] Instance box_os : OsOps toolbox := {|
  command_output b a w := let '(r, d) := command_output b a (box w) in (r, with_box w d);
  fs_read p w := fs_read p (box w);
  fs_open_read n p w := fs_open_read n p (box w);
  fs_len p w := fs_len p (box w);
  fs_exists p w := fs_exists p (box w);
  fs_is_dir p w := fs_is_dir p (box w);
  fs_read_dir p w := fs_read_dir p (box w);
  fs_write p b w := let '(r, d) := fs_write p b (box w) in (r, with_box w d);
  fs_create_dir_all p w := let '(r, d) := fs_create_dir_all p (box w) in (r, with_box w d);
  fs_remove_file p w := let '(r, d) := fs_remove_file p (box w) in (r, with_box w d);
  fs_remove_dir_all p w := let '(r, d) := fs_remove_dir_all p (box w) in (r, with_box w d);
  unix_exchange s b w := let '(r, d) := unix_exchange s b (box w) in (r, with_box w d);
  now_secs w := now_secs (box w);
|}.

#[local] Instance box_tool : ToolOps toolbox := {|
  command_status _ _ w := (Ok (true, Some 0%Z), w);
  fs_mode p w := match assoc_first p (modes w) with Some m => Ok m | None => Err "not found" end;
  fs_set_mode p m w := (Ok tt, mkBox (box w) ((p, m) :: modes w) (uid w));
  getuid w := uid w;
|}.

#[local] Instance box_tool_laws : ToolLaws toolbox.
Proof.
  split; cbn [fs_set_mode fs_mode command_status box_tool].
  - intros p m w w' [= <-]. cbn. by rewrite String.eqb_refl.
  - by intros args p m w r w' [= _ <-].
Qed.

Lemma test_key_protected_witness :
  let w := mkBox (demo_world [] []) [("/c.pem", 420%N); ("/k.pem", 420%N)] 0 in
  ∃ m, fs_mode "/k.pem" (gen_test_certs "/c.pem" "/k.pem" None 365 w).2 = Ok m ∧
       N.testbit m 2 ≠ true.
Proof.
  intros w.
  destruct (test_key_protected "/c.pem" "/k.pem" None 365 w
    (gen_test_certs "/c.pem" "/k.pem" None 365 w).2) as [_ (m & Hm & Hb)]; [vm_compute; reflexivity|].
  exists m. split; [exact Hm|]. rewrite Hb. lia.
Defined.

#[local] Instance demo_tool : ToolOps demo := {|
  command_status b a w := (Ok (true, Some 0%Z), log_cmd (b, a) w);
  fs_mode _ _ := Err "not found"; fs_set_mode _ _ w := (Err "not found", w); getuid _ := 0%N;
|}.

Lemma vdsm_id_agreement_witness :
  let w := demo_world [("/sys/class/dmi/id/product_uuid", "  4C4C4544 " +:+ String LF "")] [] in
  let w' := (ensure_vdsm_id w).2 in
  (ensure_vdsm_id w').1 = Ok "4C4C4544" ∧ vdsm_id w' = "4C4C4544".
Proof.
  intros w w'.
  destruct (vdsm_id_agreement w "4C4C4544" w') as (_ & _ & [[H1 H2]|(w1 & e & _)]);
    [vm_compute; reflexivity|reflexivity| |].
  - by rewrite H1.
  - vm_compute. done.
Defined.

(** Before the tool has run, the daemon does not look where the tool does. *)
Example id_without_file :
  let w := mkDemo [("/proc/device-tree/system-id", "P8")] [] []
             (λ _ _, Err "not found") (λ _, Err "refused") in
  vdsm_id w = "00000000-0000-0000-0000-000000000000" ∧ (ensure_vdsm_id w).1 = Ok "P8".
Proof. vm_compute. done. Qed.
